(* ===== verification/_CoqProject ===== *)
-Q . S2P
Prelude.v
Sha256.v
Json.v
JobStatus.v
JobConfig.v
WorkerContract.v
DateTime.v
PyText.v
Base64.v
ObjectKeys.v
JsonRead.v
Settings.v
Ledger.v
Evolution.v
Session.v
Storage.v
ArtifactService.v
ArtifactCleanup.v
Wp.v
JobConfigLedger.v
TestSets.v
Redaction.v
Mlflow.v
WorkerTokens.v
WorkerRotation.v
LeaseService.v
WorkerRoutes.v
StatusUpdate.v
JobApi.v
TelemetryIngest.v
Accounts.v
UserAdmin.v
LogReads.v
ArtifactRoutes.v
ArtifactFinalize.v
LedgerInvariant.v
ArtifactLaws.v
LeaseRecovery.v
LeaseClaim.v
Fixtures.v
LeaseProperties.v
RecoveryProgress.v
WorkerTokensCorrect.v
RotationRoutes.v
RotationSafety.v
RotationProperties.v
WorkerRoutesCorrect.v
StatusUpdateCorrect.v
TelemetryCorrect.v
JobApiCorrect.v
LogReadsCorrect.v
AccountsCorrect.v
AccountsProperties.v
ArtifactsCorrect.v
System.v
ArtifactProperties.v
