(* ===== verification/Prelude.v ===== *)
(** * Verification library of the RVC training orchestrator

    The repository is a Manager (an HTTP service with a SQL ledger, [apps/api]) that
    trains voice models on remote Workers ([apps/worker]).  Users create experiments
    and Jobs; a Worker registers, obtains a token, claims a queued Job under a lease,
    renews it by heartbeats, reports status, logs and metrics, uploads the artifacts of
    the training, which the Manager verifies, and finishes the Job.
    Leases abandoned by silent Workers are recovered.  The part modelled here is the
    coordination protocol between the Manager and its Workers: the contracts package
    ([packages/contracts]), the ledger, and the handlers that change it.

    ** Shared files
    - [Prelude] (this file): record update, options, text, tactics ([bools]).
    - [Sha256], [Json], [JsonRead], [DateTime], [PyText], [Base64]: the parts of Python's
      standard library the code hashes, prints and parses with: SHA-256 and HMAC,
      [json.dumps] with [repr] of floats, [json.loads], [datetime.isoformat], [str.strip],
      [str.casefold], [uuid.UUID], URL-safe base 64.
    - [ObjectKeys]: the keys of staged and verified artifacts and the validation of a key.
    - [Settings]: the settings the handlers read and [ClaimStoragePort], what a claim and
      the downloads of its inputs ask of the configured storage.

    ** Contracts ([packages/contracts/src/rvc_orchestrator_contracts])
    - [JobStatus] ([status.py]): the transition table and its validation.
    - [JobConfig] ([job.py]): the configuration, its validators, canonical bytes, hash.
    - [WorkerContract] ([worker.py], [events.py]): requests, capabilities, transfers,
      claims and telemetry batches with their validators as [X_valid].

    ** The ledger and its transactions
    - [Ledger] ([models.py]): a record per table, and [DB], a map per table.  Columns
      that no modelled handler reads (most [created_at]) are left out.  The object
      store of artifacts is a map beside the tables.
      Version columns are unbounded integers; the overflow of the 32-bit columns
      [row_version] and [lock_version] is not modelled.
    - [Session] ([database.py] and SQLAlchemy's documented behaviour): a handler is a
      function of type [M A := Session → result A * Session].  A session holds the
      committed database and its own working copy, the locks it holds, the errors its
      commits will meet, the clock, and the transactions of others ([s_env]) that
      commit at the points where a handler awaits while it has written nothing.  A
      handler may commit several transactions: [s_log] lists them, so that a run of the
      system can take them one at a time.  The theorems on a handler are anchored to its
      run: to the transactions it has committed ([committed], [committed_only]), to the
      database it leaves, and to what it finds at its awaits ([moment]).  An operation on the object store takes effect
      at once, whatever becomes of the transaction, and meets an event of [s_io]: it may
      fail, be cancelled or time out, with or without effect.  A
      transaction that has written is not interleaved: what it reads afterwards is
      behind the row locks its writes took (for accounts, behind the bootstrap row
      that every lifecycle request updates first).
    - [Evolution]: [evolves], what a committed transaction may do to the tables.  It is
      at once the guarantee every handler gives and what it may rely on of the
      transactions interleaved with it; its parts are Jobs, attempts, leases, telemetry
      and, in [rest_step], accounts ([accounts_step]) and artifacts ([artifacts_step]).
    - [Wp]: weakest preconditions of these functions, with [St], the symbolic state a
      proof threads through a handler, [fresh_session], a session that has done nothing
      yet in an environment that respects locks, [evolves] and an invariant, and the
      tactics [wp_step] and [wp_steps]; [log_grows] and [commits_within] count what an
      operation commits.

    ** Handlers ([apps/api/src/rvc_manager_api])
    - [JobConfigLedger] ([services/job_configs.py]), [TestSets] ([services/test_sets.py]),
      [Redaction] ([services/job_observability.py]), [Mlflow] ([services/mlflow.py]).
    - [LeaseService] ([services/workers.py]): recovery, matching, claims, lease guard.
    - [WorkerTokens], [WorkerRoutes], [StatusUpdate], [TelemetryIngest]
      ([routers/workers.py]): credentials; heartbeats, claims, renewals and downloads;
      status updates; logs, metrics and artifacts.
    - [JobApi] ([routers/experiments.py]): Experiments and Jobs of the users' API.
    - [Accounts] ([security.py], [dependencies.py], [routers/auth.py]): passwords, access
      tokens, authentication, login and logout.
    - [UserAdmin] ([routers/users.py], [bootstrap.py]): the lifecycle of accounts.
    - [LogReads] ([services/job_observability.py], [routers/job_observability.py],
      [services/authorization.py]): pages of logs and metrics, cursors, the live stream.
    - [Storage] ([storage.py]): the local and the S3 adapter of object storage.
    - [ArtifactService] ([services/artifacts.py], [schemas.py]): requests, upload tokens,
      the verification of an object, work under a heartbeat.
    - [ArtifactCleanup] ([services/artifact_cleanup.py]): the deletion of the files of a
      finished upload.
    - [ArtifactRoutes], [ArtifactFinalize] ([routers/artifacts.py]): initialisation, the
      local upload endpoint and downloads; the eight phases of a finalisation.
    - [WorkerRotation] ([apps/worker]: [token_rotation.py], [credentials.py] and the requests
      of [client.py] it sends): the rotation of its token by a Worker, with what a crash
      leaves ([Situation]), the requests, answers and saves that are lost, and the requests
      that arrive late.
    - [System]: the requests of the API with their authentication, and the runs of a
      Manager that serves them concurrently, whole requests or single commits at a time.

    ** Interfaces
    What the code takes from other packages is a class, and what the theorems need of it
    is a hypothesis or a class of laws with an instance among the witnesses:
    [ContractParser] and [CapabilitiesParser] (Pydantic's parsing; [X_model_validate]
    applies the validators to what they return), [ClaimStoragePort] (object storage),
    [LogTextRedactor] (regular expressions), [Platform] (random identifiers and tokens),
    [UnicodeTables], [PasswordHasher] (pwdlib), [JwtLibrary] (PyJWT, [JwtLaws]),
    [S3Client] (signing by boto3) and [UrlHosts] (host names in [urlsplit]).

    ** Invariant and theorems
    - [LedgerInvariant]: [Inv], the invariant of the committed ledger: an active lease
      is the assignment of one open attempt, one leased Job and one busy Worker, each
      of them has one, telemetry of a sealed attempt stays below its watermarks, and a
      token hash belongs to one Worker.  It implies that a Job and a Worker have at
      most one active lease.
    - [LeaseRecovery], [LeaseClaim], [LeaseProperties]: recovery and claims;
      [RecoveryProgress]: an abandoned lease is recovered.
    - [WorkerTokensCorrect], [WorkerRoutesCorrect], [StatusUpdateCorrect],
      [TelemetryCorrect], [JobApiCorrect]: each handler keeps [Inv] and [evolves] on every
      path, and what it promises when it succeeds.
    - [RotationRoutes]: what the routes of a rotation do to the credential columns;
      [RotationSafety]: the invariant of a Worker, its file and the requests that travel,
      through every program; [RotationProperties]: wherever the Worker stops, its file holds
      a token that works.
    - [AccountsCorrect], [AccountsProperties]: well-typed accounts, idempotent lifecycle
      requests, and the life of an access token.
    - [LogReadsCorrect]: cursors survive their encoding, pages cover the selection, the
      live stream is ordered, and each of its polls checks the access of its client.
    - [ArtifactLaws]: the class [StableArtifacts] of invariants the upload routes keep, and
      the logic [ends], in which an operation leads from one committed database to a later
      one; [ArtifactsCorrect] has a rule of it for every operation.
    - [System]: the invariant on every reachable database ([Sound]: [Inv] with
      [ArtifactsInv] of [Evolution]), the refinement of the abstract life cycle of
      Jobs, and what runs of the system promise of history, administrators and tokens.
    - [ArtifactProperties]: completed uploads stay verified, what a finalisation answers
      was verified, and a download streams the verified bytes.
    - [Fixtures]: the concrete ledger and sessions of the witnesses.

    ** Fuel and bounds
    The handlers that restart themselves after a lost race take fuel: two runs are
    enough for [revoke_worker_token] and three for [update_job_status]
    ([revocation_terminates], [status_update_terminates]).  The bounded read of an object
    takes a round for each byte ([stream_chunks_ends]).  The theorems on the life of a
    rotating Worker hold as long as at most [bound] secrets are drawn, for any [bound]
    below which the platform does not repeat itself ([distinct_secrets]).  Every other loop is structural on
    the rows, items or characters it visits.

    ** Not modelled
    Event payloads of the outbox and the MLflow REST adapter, the regular expressions
    of the text redaction, the verification of generated samples past its early exits
    (argument [samples_verified]), the list of the artifacts of a Job and the registration
    of samples, archive and WAV processing, uploads of Datasets and TestSets, the adoption
    of storage from another namespace, the maintenance queue, the model registry, the
    timing and the text frames of the live stream, the web user interface, and of the
    Worker all but the rotation of its token: pure I/O, or further components on the same
    ledger.  Times are microseconds since the epoch; names are UTF-8 byte strings, with
    [py_len] counting code points. *)

From stdpp Require Export base tactics option list strings gmap sorting numbers pretty.
From Stdlib Require Export ZArith Lia.
From Stdlib Require Export SpecFloat.

#[global] Set Default Proof Using "Type".
#[export] Set Default Goal Selector "!".

#[global] Open Scope string_scope.
#[global] Open Scope list_scope.
#[global] Open Scope Z_scope.

(** ** Record update

    [r <| f := v |>] is the record [r] with field [f] replaced, the model of an
    attribute assignment [row.f = v] on an ORM row.  A record type gets one
    [Eta] instance (its eta expansion); the setter of each field is computed
    from it when the notation is elaborated. *)

Class Eta (R : Type) := eta_of : R → R.
Class Setter {R F : Type} (p : R → F) := setter : (F → F) → R → R.
Arguments setter {_ _} _ {_} _ _.

Ltac solve_setter :=
  lazymatch goal with
  | |- @Setter ?R ?F ?p =>
      let i := constr:(_ : Eta R) in
      let f := fresh "f" in
      let r := fresh "r" in
      unfold Setter; intros f r;
      let t := eval hnf in (i r) in
      let a := eval pattern (p r) in t in
      lazymatch a with
      | ?g _ => let u := eval cbv beta in (g (f (p r))) in exact u
      end
  end.

#[export] Hint Extern 0 (Setter _) => solve_setter : typeclass_instances.

Declare Scope rvc_scope.
Delimit Scope rvc_scope with rvc.
Notation "r <| f := v |>" := (setter f (λ _, v) r)
  (at level 8, f constr at level 200, v at level 200, left associativity,
   format "r  <| f  :=  v |>") : rvc_scope.
Open Scope rvc_scope.

(** ** Options *)

Definition is_none {A} (o : option A) : bool :=
  match o with None => true | Some _ => false end.
Definition is_some {A} (o : option A) : bool := negb (is_none o).

Lemma is_none_true {A} (o : option A) : is_none o = true ↔ o = None.
Proof. by destruct o. Qed.
Lemma is_none_false {A} (o : option A) : is_none o = false ↔ ∃ a, o = Some a.
Proof. destruct o; naive_solver. Qed.
Lemma is_some_true {A} (o : option A) : is_some o = true ↔ ∃ a, o = Some a.
Proof. destruct o; naive_solver. Qed.
Lemma is_some_false {A} (o : option A) : is_some o = false ↔ o = None.
Proof. by destruct o. Qed.

(** Python's [a or b] on an optional string: the empty string is falsy. *)
Definition truthy (o : option string) : bool :=
  match o with None => false | Some s => negb (bool_decide (s = "")) end.

(** ** Booleans *)

(** Reflection of a decidable proposition: the model's guards are written with
    the source's conditions, as booleans. *)
Notation "⌊ P ⌋" := (bool_decide P) (at level 0, P at level 200, format "⌊ P ⌋") : rvc_scope.

Lemma andb_true_1 b1 b2 : b1 && b2 = true → b1 = true ∧ b2 = true.
Proof. by destruct b1, b2. Qed.
Lemma orb_false_1 b1 b2 : b1 || b2 = false → b1 = false ∧ b2 = false.
Proof. by destruct b1, b2. Qed.

(** Turns every boolean guard of the context into the propositions it decides.
    Matching is syntactic, so guards are never unfolded by unification. *)
Ltac bools :=
  repeat match goal with
    | H : _ && _ = true |- _ => apply andb_true_1 in H as [? ?]
    | H : _ || _ = false |- _ => apply orb_false_1 in H as [? ?]
    | H : negb _ = true |- _ => apply negb_true_iff in H
    | H : negb _ = false |- _ => apply negb_false_iff in H
    | H : bool_decide _ = true |- _ => apply bool_decide_eq_true_1 in H
    | H : bool_decide _ = false |- _ => apply bool_decide_eq_false_1 in H
    | H : (_ <=? _)%Z = true |- _ => apply Z.leb_le in H
    | H : (_ <=? _)%Z = false |- _ => apply Z.leb_gt in H
    | H : (_ <? _)%Z = true |- _ => apply Z.ltb_lt in H
    | H : (_ <? _)%Z = false |- _ => apply Z.ltb_ge in H
    | H : (_ =? _)%Z = true |- _ => apply Z.eqb_eq in H
    | H : (_ =? _)%Z = false |- _ => apply Z.eqb_neq in H
    | H : ¬ (?x ≠ ?y) |- _ => apply dec_stable in H
    | H : is_none _ = true |- _ => apply is_none_true in H
    | H : is_none _ = false |- _ => apply is_none_false in H as [? ?]
    | H : is_some _ = true |- _ => apply is_some_true in H as [? ?]
    | H : is_some _ = false |- _ => apply is_some_false in H
    | H : true = false |- _ => discriminate H
    | H : false = true |- _ => discriminate H
    end.

(** ** Lists *)

(** Python's [len(set(xs)) == len(xs)]: the elements are distinct. *)
Definition distinct {A} `{EqDecision A} (xs : list A) : bool := ⌊ NoDup xs ⌋.

Lemma distinct_spec {A} `{EqDecision A} (xs : list A) : distinct xs = true ↔ NoDup xs.
Proof. apply bool_decide_eq_true. Qed.

Lemma filter_permutation {A} (p : A → bool) xs ys :
  xs ≡ₚ ys → List.filter p xs ≡ₚ List.filter p ys.
Proof.
  induction 1 as [|x xs ys _ IH|x y xs|xs ys zs _ IH1 _ IH2]; simpl; [done| | |by etrans].
  - by destruct (p x); rewrite IH.
  - by destruct (p x), (p y); try apply perm_swap.
Qed.

Lemma NoDup_map_filter {A B} (f : A → B) (p : A → bool) xs :
  NoDup (map f xs) → NoDup (map f (List.filter p xs)).
Proof.
  induction xs as [|x xs IH]; [done|]. simpl. intros [Hx Hnd]%NoDup_cons.
  destruct (p x); [|by apply IH]. simpl. apply NoDup_cons. split; [|by apply IH].
  intros Hin. apply Hx. apply list_elem_of_fmap in Hin as (y & -> & Hy).
  apply list_elem_of_fmap. exists y. split; [done|].
  apply list_elem_of_In in Hy. apply list_elem_of_In. by apply filter_In in Hy as [? _].
Qed.

Definition Zlength {A} (xs : list A) : Z := Z.of_nat (length xs).

(** ** Strings

    A Python [str] is modelled by the byte string of its UTF-8 encoding;
    [py_len] counts its code points. *)

Abbreviation ascii := Ascii.ascii.
Definition code (c : ascii) : Z := Z.of_N (Ascii.N_of_ascii c).
Definition chr (n : Z) : ascii := Ascii.ascii_of_N (Z.to_N n).

Definition str_chars (s : string) : list ascii := String.list_ascii_of_string s.

Definition is_continuation (c : ascii) : bool := (128 <=? code c) && (code c <? 192).

Definition py_len (s : string) : Z :=
  Zlength (List.filter (λ c, negb (is_continuation c)) (str_chars s)).

Definition is_digit (c : ascii) : bool := (48 <=? code c) && (code c <=? 57).
Definition is_upper (c : ascii) : bool := (65 <=? code c) && (code c <=? 90).
Definition is_lower (c : ascii) : bool := (97 <=? code c) && (code c <=? 122).
Definition is_alnum (c : ascii) : bool := is_digit c || is_upper c || is_lower c.
(** [0-9a-f] *)
Definition is_lower_hex (c : ascii) : bool :=
  is_digit c || ((97 <=? code c) && (code c <=? 102)).
(** [A-Za-z0-9_.-] *)
Definition is_name_char (c : ascii) : bool :=
  is_alnum c || (code c =? 95) || (code c =? 46) || (code c =? 45).

Definition all_chars (p : ascii → bool) (s : string) : bool := forallb p (str_chars s).

Fixpoint str_prefix (p s : string) : bool :=
  match p, s with
  | EmptyString, _ => true
  | String a p', String b s' => ⌊ a = b ⌋ && str_prefix p' s'
  | _, _ => false
  end.

Definition str_rev (s : string) : string :=
  String.string_of_list_ascii (rev (str_chars s)).

Lemma append_empty_r s : s +:+ "" = s.
Proof. induction s as [|c s IH]; [done|]. change (String c (s +:+ "") = String c s). by rewrite IH. Qed.

Lemma append_assoc s t u : s +:+ (t +:+ u) = (s +:+ t) +:+ u.
Proof.
  induction s as [|c s IH]; [done|].
  change (String c (s +:+ (t +:+ u)) = String c ((s +:+ t) +:+ u)). by rewrite IH.
Qed.

(** [s.startswith(p)], [s.endswith(p)], [p in s] *)
Definition startswith (s p : string) : bool := str_prefix p s.
Definition endswith (s p : string) : bool := str_prefix (str_rev p) (str_rev s).
Fixpoint contains (s p : string) : bool :=
  str_prefix p s || match s with EmptyString => false | String _ s' => contains s' p end.

(** [s[n:]] for [n >= 0] *)
Fixpoint str_drop (n : nat) (s : string) : string :=
  match n, s with
  | O, _ => s
  | S n', String _ s' => str_drop n' s'
  | S _, EmptyString => EmptyString
  end.

Fixpoint str_take (n : nat) (s : string) : string :=
  match n, s with
  | O, _ => EmptyString
  | S n', String c s' => String c (str_take n' s')
  | S _, EmptyString => EmptyString
  end.

(** [s.split(sep)] for a one-character separator; never empty. *)
Fixpoint split_on (sep : ascii) (s : string) : list string :=
  match s with
  | EmptyString => [""]
  | String c s' =>
      if ⌊ c = sep ⌋ then "" :: split_on sep s'
      else match split_on sep s' with
           | w :: ws => String c w :: ws
           | [] => [String c ""]
           end
  end.

(** [s.partition(sep)] for a one-character separator. *)
Fixpoint partition_on (sep : ascii) (s : string) : string * string * string :=
  match s with
  | EmptyString => ("", "", "")
  | String c s' =>
      if ⌊ c = sep ⌋ then ("", String c "", s')
      else let '(a, m, b) := partition_on sep s' in (String c a, m, b)
  end.

(** [str(n)] on integers *)
Definition py_str_Z (n : Z) : string := pretty n.

(** The pattern [^[0-9a-f]{n}$] under [fullmatch]. *)
Definition lower_hex_of_length (n : nat) (s : string) : bool :=
  ⌊ String.length s = n ⌋ && all_chars is_lower_hex s.

(** The pattern [^[A-Za-z0-9][A-Za-z0-9_.-]*$] under [fullmatch]. *)
Definition is_safe_identifier (s : string) : bool :=
  match s with
  | EmptyString => false
  | String c s' => is_alnum c && all_chars is_name_char s'
  end.

(** The pattern [^[A-Za-z0-9][A-Za-z0-9_.-]{0,127}$] under [fullmatch]. *)
Definition is_safe_transfer_id (s : string) : bool :=
  is_safe_identifier s && (Z.of_nat (String.length s) <=? 128).

Lemma str_prefix_app p s : str_prefix p (p +:+ s) = true.
Proof. induction p as [|c p IH]; [done|]. simpl. by rewrite bool_decide_true. Qed.

Lemma str_prefix_spec p s : str_prefix p s = true ↔ ∃ t, s = p +:+ t.
Proof.
  split.
  - revert s. induction p as [|c p IH]; intros s Hs; [by exists s|].
    destruct s as [|d s]; [done|]. simpl in Hs.
    apply andb_true_iff in Hs as [->%bool_decide_eq_true Hs].
    destruct (IH _ Hs) as [t ->]. by exists t.
  - intros [t ->]. apply str_prefix_app.
Qed.

(** ** Proof automation of the development *)

Create HintDb rvc.

(** Splits the conjunctions, existentials and equalities of the context. *)
Ltac inv_all :=
  repeat match goal with
    | H : _ ∧ _ |- _ => destruct H
    | H : ∃ _, _ |- _ => destruct H
    | H : Some _ = Some _ |- _ => injection H as H; try subst
    | H : _ = Some _, H' : _ = Some _ |- _ => rewrite H in H'; injection H' as H'; try subst
    end.
