(* ===== verification/Sha256.v ===== *)
(** * SHA-256 and HMAC-SHA-256

    The digests the program takes from Python's [hashlib.sha256] and [hmac.new]
    (FIPS 180-4, RFC 2104), as executable functions on byte strings.  Words are
    32-bit integers in [Z] with the wrap-around written out.  The results are
    the [hexdigest] strings: 64 lower-case hexadecimal digits
    ([sha256_hex_shape]). *)

From S2P Require Import Prelude.

Definition w32 (x : Z) : Z := Z.land x 4294967295.
Definition add32 (x y : Z) : Z := w32 (x + y).
Definition rotr (x n : Z) : Z := Z.lor (Z.shiftr x n) (w32 (Z.shiftl x (32 - n))).

Definition big_sigma0 (x : Z) : Z := Z.lxor (rotr x 2) (Z.lxor (rotr x 13) (rotr x 22)).
Definition big_sigma1 (x : Z) : Z := Z.lxor (rotr x 6) (Z.lxor (rotr x 11) (rotr x 25)).
Definition small_sigma0 (x : Z) : Z := Z.lxor (rotr x 7) (Z.lxor (rotr x 18) (Z.shiftr x 3)).
Definition small_sigma1 (x : Z) : Z := Z.lxor (rotr x 17) (Z.lxor (rotr x 19) (Z.shiftr x 10)).
Definition ch (x y z : Z) : Z := Z.lxor (Z.land x y) (Z.land (Z.lxor x 4294967295) z).
Definition maj (x y z : Z) : Z := Z.lxor (Z.land x y) (Z.lxor (Z.land x z) (Z.land y z)).

(** The constants of FIPS 180-4 are the first 32 bits of the fractional parts of the
    cube roots of the first 64 primes, and of the square roots of the first eight. *)

(** The largest [r < 2 ^ bits] above [low] with [r ^ k <= n]. *)
Fixpoint integer_root (bits : nat) (k n low : Z) : Z :=
  match bits with
  | O => low
  | S b =>
      let r := low + 2 ^ Z.of_nat b in integer_root b k n (if r ^ k <=? n then r else low)
  end.

Definition is_prime (n : Z) : bool :=
  forallb (λ d, negb (n mod d =? 0)) (seqZ 2 (n - 2)).
Definition primes : list Z := Eval vm_compute in List.filter is_prime (seqZ 2 310).

(** [w32 (floor (2 ^ 32 * p ^ (1 / k)))] *)
Definition root_fraction (k p : Z) : Z := w32 (integer_root 40 k (p * 2 ^ (32 * k)) 0).

Definition round_constants : list Z := Eval vm_compute in map (root_fraction 3) primes.

Record digest_state := mk_state
  { ra : Z; rb : Z; rc : Z; rd : Z; re : Z; rf : Z; rg : Z; rh : Z }.

Definition initial_state : digest_state := Eval vm_compute in
  let h n := root_fraction 2 (nth n primes 0) in
  mk_state (h 0%nat) (h 1%nat) (h 2%nat) (h 3%nat) (h 4%nat) (h 5%nat) (h 6%nat) (h 7%nat).

(** The message schedule keeps the last sixteen words, oldest first. *)
Fixpoint extend_schedule (n : nat) (window : list Z) : list Z :=
  match n, window with
  | S n', w0 :: rest =>
      let w16 :=
        add32 (add32 (small_sigma1 (nth 13 rest 0)) (nth 8 rest 0))
              (add32 (small_sigma0 (nth 0 rest 0)) w0) in
      w0 :: extend_schedule n' (rest ++ [w16])
  | _, _ => []
  end.

Definition sha_round (s : digest_state) (kw : Z * Z) : digest_state :=
  let t1 := add32 (add32 (rh s) (big_sigma1 (re s)))
                  (add32 (ch (re s) (rf s) (rg s)) (add32 kw.1 kw.2)) in
  let t2 := add32 (big_sigma0 (ra s)) (maj (ra s) (rb s) (rc s)) in
  mk_state (add32 t1 t2) (ra s) (rb s) (rc s) (add32 (rd s) t1) (re s) (rf s) (rg s).

Definition add_states (s t : digest_state) : digest_state :=
  mk_state (add32 (ra s) (ra t)) (add32 (rb s) (rb t)) (add32 (rc s) (rc t)) (add32 (rd s) (rd t))
           (add32 (re s) (re t)) (add32 (rf s) (rf t)) (add32 (rg s) (rg t)) (add32 (rh s) (rh t)).

Definition compress (s : digest_state) (block : list Z) : digest_state :=
  add_states s (fold_left sha_round (combine round_constants (extend_schedule 64 block)) s).

Fixpoint words_of_bytes (bs : list Z) : list Z :=
  match bs with
  | b0 :: b1 :: b2 :: b3 :: rest =>
      (Z.lor (Z.shiftl b0 24) (Z.lor (Z.shiftl b1 16) (Z.lor (Z.shiftl b2 8) b3)))
        :: words_of_bytes rest
  | _ => []
  end.

Definition bytes_of_word (w : Z) : list Z :=
  [Z.land (Z.shiftr w 24) 255; Z.land (Z.shiftr w 16) 255;
   Z.land (Z.shiftr w 8) 255; Z.land w 255].

Definition pad (bs : list Z) : list Z :=
  let len := Zlength bs in
  let zeros := Z.to_nat ((55 - len) mod 64) in
  bs ++ [128] ++ replicate zeros 0 ++ bytes_of_word (w32 (Z.shiftr (8 * len) 32))
     ++ bytes_of_word (w32 (8 * len)).

(** Compresses the blocks of sixteen words; [fuel] bounds their number. *)
Fixpoint compress_blocks (fuel : nat) (s : digest_state) (ws : list Z) : digest_state :=
  match fuel, ws with
  | S fuel', _ :: _ => compress_blocks fuel' (compress s (take 16 ws)) (drop 16 ws)
  | _, _ => s
  end.

Definition state_words (s : digest_state) : list Z :=
  [ra s; rb s; rc s; rd s; re s; rf s; rg s; rh s].

Definition sha256_state (bs : list Z) : digest_state :=
  let ws := words_of_bytes (pad bs) in
  compress_blocks (length ws) initial_state ws.

Definition sha256_bytes (bs : list Z) : list Z :=
  state_words (sha256_state bs) ≫= bytes_of_word.

Definition bytes_of_string (s : string) : list Z := map code (str_chars s).

Definition hex_digit (n : Z) : ascii :=
  chr (if n <? 10 then 48 + n else 87 + n).

Definition hex_of_byte (b : Z) : list ascii :=
  [hex_digit (Z.land (Z.shiftr b 4) 15); hex_digit (Z.land b 15)].

Definition hex_of_bytes (bs : list Z) : string :=
  String.string_of_list_ascii (bs ≫= hex_of_byte).

(** [hashlib.sha256(message).hexdigest()] *)
Definition sha256_hex (message : string) : string :=
  hex_of_bytes (sha256_bytes (bytes_of_string message)).

Definition hmac_key (key : list Z) : list Z :=
  let k := if 64 <? Zlength key then sha256_bytes key else key in
  k ++ replicate (64 - length k) 0.

(** [hmac.new(key, message, hashlib.sha256)]: its [digest()] and its [hexdigest()] *)
Definition hmac_sha256_bytes (key message : string) : list Z :=
  let k := hmac_key (bytes_of_string key) in
  sha256_bytes (map (Z.lxor 92) k ++ sha256_bytes (map (Z.lxor 54) k ++ bytes_of_string message)).
Definition hmac_sha256_hex (key message : string) : string :=
  hex_of_bytes (hmac_sha256_bytes key message).

(** ** Test vectors of FIPS 180-4 and RFC 4231 *)

Example sha256_empty :
  sha256_hex "" = "e3b0c44298fc1c149afbf4c8996fb92427ae41e4649b934ca495991b7852b855".
Proof. vm_compute. reflexivity. Qed.

Example sha256_abc :
  sha256_hex "abc" = "ba7816bf8f01cfea414140de5dae2223b00361a396177a9cb410ff61f20015ad".
Proof. vm_compute. reflexivity. Qed.

Example sha256_two_blocks :
  sha256_hex "abcdbcdecdefdefgefghfghighijhijkijkljklmklmnlmnomnopnopq"
  = "248d6a61d20638b8e5c026930c3e6039a33ce45964ff2167f6ecedd419db06c1".
Proof. vm_compute. reflexivity. Qed.

Example hmac_jefe :
  hmac_sha256_hex "Jefe" "what do ya want for nothing?"
  = "5bdcc146bf60754e6a042426089575c75a003f089d2739839dec58b964ec3843".
Proof. vm_compute. reflexivity. Qed.

(** ** The shape of a digest *)

Lemma hex_digit_lower_hex n : 0 ≤ n < 16 → is_lower_hex (hex_digit n) = true.
Proof.
  intros Hn. assert (n ∈ seqZ 0 16) as Hin by (apply elem_of_seqZ; lia).
  revert n Hn Hin. vm_compute seqZ.
  intros n _ Hin. rewrite !list_elem_of_In in Hin. simpl in Hin.
  repeat destruct Hin as [<-|Hin]; done.
Qed.

Lemma str_chars_of_list cs : str_chars (String.string_of_list_ascii cs) = cs.
Proof. apply String.list_ascii_of_string_of_list_ascii. Qed.

Lemma string_length_of_list cs : String.length (String.string_of_list_ascii cs) = length cs.
Proof. induction cs as [|c cs IH]; simpl; congruence. Qed.

Lemma hex_of_bytes_length bs : String.length (hex_of_bytes bs) = (2 * length bs)%nat.
Proof.
  unfold hex_of_bytes. rewrite string_length_of_list.
  induction bs as [|b bs IH]; [done|]. csimpl. rewrite IH. lia.
Qed.

Lemma hex_of_bytes_lower bs : all_chars is_lower_hex (hex_of_bytes bs) = true.
Proof.
  unfold all_chars, hex_of_bytes. rewrite str_chars_of_list.
  induction bs as [|b bs IH]; [done|]. csimpl.
  assert (∀ x, 0 ≤ Z.land x 15 < 16) as Hland.
  { intros x. change 15 with (Z.ones 4). rewrite Z.land_ones by lia.
    apply Z.mod_pos_bound. lia. }
  by rewrite !hex_digit_lower_hex, IH by apply Hland.
Qed.

Lemma sha256_bytes_length bs : length (sha256_bytes bs) = 32%nat.
Proof. reflexivity. Qed.

Lemma sha256_hex_shape message : lower_hex_of_length 64 (sha256_hex message) = true.
Proof.
  unfold lower_hex_of_length, sha256_hex.
  rewrite hex_of_bytes_lower, hex_of_bytes_length, sha256_bytes_length.
  by rewrite bool_decide_true.
Qed.

#[export] Hint Resolve sha256_hex_shape : rvc.
#[global] Opaque sha256_hex hmac_sha256_hex.
