(* ===== verification/Json.v ===== *)
(** * JSON values and Python's canonical [json.dumps]

    The program hashes one textual form of a document:
    [json.dumps(value, allow_nan=False, ensure_ascii=False,
    separators=(",", ":"), sort_keys=True)].  [json_dumps] is that function on
    JSON values; a non-finite float makes it fail ([None]: Python raises
    [ValueError]).  Floats are IEEE binary64 values ([spec_float]); [float_repr]
    is [float.__repr__], the shortest decimal that reads back as the float. *)

From S2P Require Import Prelude.

(** ** Values *)

Unset Elimination Schemes.
Inductive json :=
  | JNull
  | JBool (b : bool)
  | JInt (z : Z)
  | JFloat (f : spec_float)
  | JString (s : string)
  | JArray (items : list json)
  | JObject (fields : list (string * json)).
Set Elimination Schemes.

(** Induction with the hypothesis for every element of the nested lists. *)
Lemma json_ind (P : json → Prop) :
  P JNull → (∀ b, P (JBool b)) → (∀ z, P (JInt z)) → (∀ f, P (JFloat f)) →
  (∀ s, P (JString s)) → (∀ xs, Forall P xs → P (JArray xs)) →
  (∀ fs, Forall (λ kv, P kv.2) fs → P (JObject fs)) → ∀ j, P j.
Proof.
  intros Hn Hb Hi Hf Hs Ha Ho. fix IH 1.
  intros [|b|z|f|s|xs|fs]; [exact Hn|apply Hb|apply Hi|apply Hf|apply Hs| |].
  - apply Ha. induction xs as [|x xs IHxs]; constructor; [apply IH|apply IHxs].
  - apply Ho. induction fs as [|[k v] fs IHfs]; constructor; [apply IH|apply IHfs].
Qed.

#[global] Instance spec_float_eq_dec : EqDecision spec_float.
Proof. solve_decision. Defined.

#[global] Instance json_eq_dec : EqDecision json.
Proof.
  unfold EqDecision, Decision. fix go 1.
  intros [|b|z|f|s|xs|fs] [|b'|z'|f'|s'|ys|gs]; try (right; discriminate); [by left| | | | | |].
  - destruct (decide (b = b')); [left; congruence|right; congruence].
  - destruct (decide (z = z')); [left; congruence|right; congruence].
  - destruct (decide (f = f')); [left; congruence|right; congruence].
  - destruct (decide (s = s')); [left; congruence|right; congruence].
  - assert ({xs = ys} + {xs ≠ ys}) as [->|]; [|by left|right; congruence].
    revert ys. induction xs as [|x xs IH]; intros [|y ys]; [by left|by right..|].
    destruct (go x y) as [->|]; [|right; congruence].
    destruct (IH ys) as [->|]; [by left|right; congruence].
  - assert ({fs = gs} + {fs ≠ gs}) as [->|]; [|by left|right; congruence].
    revert gs. induction fs as [|[k x] fs IH]; intros [|[l y] gs]; [by left|by right..|].
    destruct (decide (k = l)) as [->|]; [|right; congruence].
    destruct (go x y) as [->|]; [|right; congruence].
    destruct (IH gs) as [->|]; [by left|right; congruence].
Defined.

(** Looking a key up in a decoded object; Python's [dict] keeps one entry per key. *)
Definition json_get (key : string) (j : json) : option json :=
  match j with
  | JObject fs => (list_to_map fs : gmap string json) !! key
  | _ => None
  end.

(** ** Python's [repr] of a float *)

(** The sign of [a * 2^e - c * 10^k] for non-negative [a] and [c]. *)
Definition compare_bin_dec (a e c k : Z) : comparison :=
  Z.compare (a * 2 ^ Z.max 0 e * 10 ^ Z.max 0 (- k)) (c * 10 ^ Z.max 0 k * 2 ^ Z.max 0 (- e)).

(** [floor (a * 2^e / 10^k)] *)
Definition scale_floor (a e k : Z) : Z :=
  (a * 2 ^ Z.max 0 e * 10 ^ Z.max 0 (- k)) / (2 ^ Z.max 0 (- e) * 10 ^ Z.max 0 k).

(** The decimal [c * 10^k] reads back as the float [m * 2^e]: it lies between
    the midpoints to the neighbouring floats, the midpoints included when the
    mantissa is even. *)
Definition reads_back (m e c k : Z) : bool :=
  let low := if ⌊ m = 2 ^ 52 ⌋ && (-1074 <? e) then (4 * m - 1, e - 2) else (4 * m - 2, e - 2) in
  let high := (4 * m + 2, e - 2) in
  let inclusive := Z.even m in
  match compare_bin_dec low.1 low.2 c k with
  | Lt => true | Eq => inclusive | Gt => false
  end &&
  match compare_bin_dec high.1 high.2 c k with
  | Gt => true | Eq => inclusive | Lt => false
  end.

(** Among the two [n]-digit neighbours of the float, the one that reads back,
    the nearer one when both do. *)
Definition candidate (m e k : Z) : option Z :=
  let lo := scale_floor m e k in
  let hi := lo + 1 in
  let nearer_low := match compare_bin_dec (2 * m) e (lo + hi) k with
                    | Lt => true | Eq => Z.even lo | Gt => false end in
  match reads_back m e lo k, reads_back m e hi k with
  | true, true => Some (if nearer_low then lo else hi)
  | true, false => Some lo
  | false, true => Some hi
  | false, false => None
  end.

(** The decimal exponent [d] with [10^(d-1) <= m * 2^e < 10^d], searched upwards
    from an estimate by the binary exponent that is at most three too low. *)
Fixpoint decimal_point_up (fuel : nat) (m e d : Z) : Z :=
  match fuel with
  | O => d
  | S fuel => match compare_bin_dec m e 1 d with
              | Lt => d | _ => decimal_point_up fuel m e (d + 1) end
  end.
Definition decimal_point (m e : Z) : Z :=
  decimal_point_up 5 m e ((Z.log2 m + e) * 30103 / 100000 - 1).

Fixpoint shortest_digits (fuel : nat) (n : Z) (m e d : Z) : Z * Z :=
  match fuel with
  | O => (m, 0)
  | S fuel => match candidate m e (d - n) with
              | Some c => (c, d - n)
              | None => shortest_digits fuel (n + 1) m e d
              end
  end.

Definition zeros (n : Z) : string :=
  String.string_of_list_ascii (replicate (Z.to_nat n) (chr 48)).

Fixpoint strip_zeros (fuel : nat) (c k : Z) : Z * Z :=
  match fuel with
  | O => (c, k)
  | S fuel => if ⌊ c mod 10 = 0 ⌋ && (0 <? c) then strip_zeros fuel (c / 10) (k + 1) else (c, k)
  end.

(** Positional notation for [10^-4 <= x < 10^16], scientific otherwise. *)
Definition format_digits (c k : Z) : string :=
  let digits := py_str_Z c in
  let len := Z.of_nat (String.length digits) in
  let point := len + k in
  if (-4 <? point) && (point <=? 16) then
    if point <=? 0 then "0." +:+ zeros (- point) +:+ digits
    else if len <=? point then digits +:+ zeros (point - len) +:+ ".0"
    else str_take (Z.to_nat point) digits +:+ "." +:+ str_drop (Z.to_nat point) digits
  else
    let exponent := point - 1 in
    let mantissa := if len =? 1 then digits
                    else str_take 1 digits +:+ "." +:+ str_drop 1 digits in
    mantissa +:+ "e" +:+ (if exponent <? 0 then "-" else "+")
      +:+ (if Z.abs exponent <? 10 then "0" else "") +:+ py_str_Z (Z.abs exponent).

(** [float.__repr__] on finite floats. *)
Definition float_repr (f : spec_float) : option string :=
  match f with
  | S754_zero s => Some ((if s then "-" else "") +:+ "0.0")
  | S754_finite s m e =>
      let m := Zpos m in
      let '(c, k) := shortest_digits 17 1 m e (decimal_point m e) in
      let '(c, k) := strip_zeros 17 c k in
      Some ((if s then "-" else "") +:+ format_digits c k)
  | _ => None
  end.

(** ** [json.dumps] *)

Definition hex4 (n : Z) : string :=
  let digit d := chr (if d <? 10 then 48 + d else 87 + d) in
  String.string_of_list_ascii [digit (n / 16); digit (n mod 16)].

(** With [ensure_ascii=False] only the quotation mark, the backslash and the
    control characters are escaped. *)
Definition escape_char (c : ascii) : string :=
  let n := code c in
  if n =? 34 then "\" +:+ String c ""
  else if n =? 92 then "\\"
  else if n =? 8 then "\b" else if n =? 9 then "\t" else if n =? 10 then "\n"
  else if n =? 12 then "\f" else if n =? 13 then "\r"
  else if n <? 32 then "\u00" +:+ hex4 n
  else String c "".

Definition quote : string := String (chr 34) "".

Definition json_string (s : string) : string :=
  quote +:+ String.concat "" (map escape_char (str_chars s)) +:+ quote.

Definition key_le (x y : string * string) : Prop := String.le x.1 y.1.
#[global] Instance key_le_dec : RelDecision key_le.
Proof. intros x y. unfold key_le. apply _. Defined.

Fixpoint json_dumps (j : json) : option string :=
  match j with
  | JNull => Some "null"
  | JBool b => Some (if b then "true" else "false")
  | JInt z => Some (py_str_Z z)
  | JFloat f => float_repr f
  | JString s => Some (json_string s)
  | JArray xs =>
      items ← mapM json_dumps xs;
      Some ("[" +:+ String.concat "," items +:+ "]")
  | JObject fs =>
      items ← mapM (λ kv, text ← json_dumps kv.2; Some (kv.1, text)) fs;
      Some ("{" +:+ String.concat ","
             (map (λ kt, json_string kt.1 +:+ ":" +:+ kt.2) (merge_sort key_le items)) +:+ "}")
  end.

(** ** Examples *)

Definition float_of (m : Z) (e : Z) : spec_float := binary_normalize 53 1024 m e false.

(** The float nearest to the decimal fraction [num / den], [den > 0]. *)
Definition float_of_decimal (num den : Z) : spec_float :=
  SFdiv 53 1024 (float_of num 0) (float_of den 0).

Example repr_three_quarters : float_repr (float_of 3 (-2)) = Some "0.75".
Proof. vm_compute. reflexivity. Qed.
Example repr_tenth : float_repr (float_of_decimal 1 10) = Some "0.1".
Proof. vm_compute. reflexivity. Qed.
Example repr_third : float_repr (float_of_decimal 1 3) = Some "0.3333333333333333".
Proof. vm_compute. reflexivity. Qed.
Example repr_1e22 : float_repr (float_of (10 ^ 22) 0) = Some "1e+22".
Proof. vm_compute. reflexivity. Qed.
Example repr_2p53 : float_repr (float_of (2 ^ 53) 0) = Some "9007199254740992.0".
Proof. vm_compute. reflexivity. Qed.
Example repr_hundred : float_repr (float_of 100 0) = Some "100.0".
Proof. vm_compute. reflexivity. Qed.
Example repr_small : float_repr (float_of_decimal 1 100000) = Some "1e-05".
Proof. vm_compute. reflexivity. Qed.

(** ** The canonical form does not depend on the order of an object's entries *)

Section sorted_by_key.
  Implicit Types xs ys : list (string * string).

#[global] Instance key_le_trans : Transitive key_le.
Proof. intros x y z. unfold key_le. apply transitivity. Qed.
#[global] Instance key_le_total : Total key_le.
Proof. intros x y. apply String.le_total. Qed.

(** Entries with distinct keys have one sorted arrangement. *)
Lemma sorted_by_key_unique xs ys :
  StronglySorted key_le xs → StronglySorted key_le ys →
  NoDup xs.*1 → xs ≡ₚ ys → xs = ys.
Proof.
  intros Hxs. revert ys. induction Hxs as [|x xs Hxs IH Hx]; intros ys Hys Hnd Hp.
  { apply Permutation_nil in Hp. by subst. }
  destruct ys as [|y ys]; [by apply symmetry, Permutation_nil_cons in Hp|].
  apply StronglySorted_inv in Hys as [Hys Hy]. csimpl in *.
  apply NoDup_cons in Hnd as [Hxn Hnd].
  assert (x = y) as <-.
  { destruct (decide (x = y)) as [|Hne]; [done|exfalso].
    assert (y ∈ xs) as Hyx.
    { assert (y ∈ x :: xs) as Hin by (rewrite Hp; left).
      apply elem_of_cons in Hin as [->|]; done. }
    assert (x ∈ ys) as Hxy.
    { assert (x ∈ y :: ys) as Hin by (rewrite <-Hp; left).
      apply elem_of_cons in Hin as [->|]; done. }
    rewrite Forall_forall in Hx, Hy.
    assert (x.1 = y.1) as Heq.
    { apply (anti_symm String.le); [by apply Hx|by apply Hy]. }
    apply Hxn. rewrite Heq. by apply list_elem_of_fmap_2. }
  f_equal. apply IH; [done..|]. by apply Permutation_cons_inv in Hp.
Qed.

Lemma merge_sort_key_permutation xs ys :
  NoDup xs.*1 → xs ≡ₚ ys → merge_sort key_le xs = merge_sort key_le ys.
Proof.
  intros Hnd Hp. apply sorted_by_key_unique.
  - apply StronglySorted_merge_sort; apply _.
  - apply StronglySorted_merge_sort; apply _.
  - by rewrite merge_sort_Permutation.
  - by rewrite !merge_sort_Permutation.
Qed.
End sorted_by_key.

Lemma mapM_permutation {A B} (f : A → option B) xs ys :
  xs ≡ₚ ys → ∀ us, mapM f xs = Some us → ∃ vs, mapM f ys = Some vs ∧ us ≡ₚ vs.
Proof.
  induction 1 as [|x xs ys _ IH|x y xs|xs ys zs _ IH1 _ IH2]; intros us Hus.
  - by exists us.
  - simpl in *. destruct (f x) as [u|]; [|done]. simpl in *.
    destruct (mapM f xs) as [us'|]; [|done]. simpl in *.
    destruct (IH us' eq_refl) as (vs & -> & Hp). exists (u :: vs). simpl.
    split; [done|]. injection Hus as <-. by constructor.
  - simpl in *. destruct (f y) as [v|]; [|done]. simpl in *.
    destruct (f x) as [u|]; [|done]. simpl in *.
    destruct (mapM f xs) as [us'|]; [|done]. simpl in *. injection Hus as <-.
    eexists; split; [done|]. constructor.
  - destruct (IH1 _ Hus) as (vs & Hvs & ?). destruct (IH2 _ Hvs) as (ws & Hws & ?).
    exists ws. split; [done|]. by etrans.
Qed.

Lemma mapM_permutation_none {A B} (f : A → option B) xs ys :
  xs ≡ₚ ys → mapM f xs = None → mapM f ys = None.
Proof.
  intros Hp Hn. destruct (mapM f ys) as [vs|] eqn:Hvs; [|done].
  symmetry in Hp. destruct (mapM_permutation f _ _ Hp _ Hvs) as (us & Hus & _).
  by rewrite Hn in Hus.
Qed.

Definition dump_field (kv : string * json) : option (string * string) :=
  text ← json_dumps kv.2; Some (kv.1, text).

Lemma dump_fields_keys fs items : mapM dump_field fs = Some items → items.*1 = fs.*1.
Proof.
  revert items. induction fs as [|[k v] fs IH]; intros items Hi; csimpl in *.
  { by injection Hi as <-. }
  destruct (dump_field (k, v)) as [kt|] eqn:Hkt; [|done]. simpl in Hi.
  assert (kt.1 = k) as Hk.
  { unfold dump_field in Hkt. simpl in Hkt. destruct (json_dumps v); naive_solver. }
  destruct (mapM dump_field fs) as [rest|]; [|done]. injection Hi as <-. csimpl.
  by rewrite (IH rest), Hk.
Qed.

Lemma json_dumps_object fs :
  json_dumps (JObject fs) =
  items ← mapM dump_field fs;
  Some ("{" +:+ String.concat ","
    (map (λ kt, json_string kt.1 +:+ ":" +:+ kt.2) (merge_sort key_le items)) +:+ "}").
Proof. reflexivity. Qed.

Lemma json_dumps_object_permutation fs gs :
  NoDup fs.*1 → fs ≡ₚ gs → json_dumps (JObject fs) = json_dumps (JObject gs).
Proof.
  intros Hnd Hp. rewrite !json_dumps_object.
  destruct (mapM dump_field fs) as [items|] eqn:Hi.
  - destruct (mapM_permutation _ _ _ Hp _ Hi) as (items' & -> & Hpi). simpl.
    rewrite (merge_sort_key_permutation items items'); [done| |done].
    by rewrite (dump_fields_keys _ _ Hi).
  - by rewrite (mapM_permutation_none _ _ _ Hp Hi).
Qed.
