(* ===== verification/JobStatus.v ===== *)
(** * The Job life cycle

    Model of [packages/contracts/src/rvc_orchestrator_contracts/status.py]: the
    status enumeration, the table of allowed transitions and the two functions
    that consult it.  The Manager and the Worker both call
    [validate_job_transition]; every handler of the other files changes a Job's
    status through it. *)

From S2P Require Import Prelude.

Inductive JobStatus :=
  | QUEUED
  | ASSIGNED
  | DOWNLOADING_DATASET
  | VALIDATING_DATASET
  | PREPARING_FLAT_DATASET
  | PREPROCESSING
  | EXTRACTING_F0
  | EXTRACTING_FEATURES
  | TRAINING
  | SAVING_CHECKPOINT
  | BUILDING_INDEX
  | COLLECTING_SMALL_MODEL
  | GENERATING_SAMPLES
  | EVALUATING
  | UPLOADING_ARTIFACTS
  | COMPLETED
  | FAILED
  | CANCELLED
  | RETRYING.

#[export] Instance JobStatus_eq_dec : EqDecision JobStatus.
Proof. solve_decision. Defined.

(** The members of the enumeration, in declaration order ([for item in JobStatus]). *)
Definition JobStatus_members : list JobStatus :=
  [QUEUED; ASSIGNED; DOWNLOADING_DATASET; VALIDATING_DATASET; PREPARING_FLAT_DATASET;
   PREPROCESSING; EXTRACTING_F0; EXTRACTING_FEATURES; TRAINING; SAVING_CHECKPOINT;
   BUILDING_INDEX; COLLECTING_SMALL_MODEL; GENERATING_SAMPLES; EVALUATING;
   UPLOADING_ARTIFACTS; COMPLETED; FAILED; CANCELLED; RETRYING].

(** [status.value] *)
Definition value (s : JobStatus) : string :=
  match s with
  | QUEUED => "queued"
  | ASSIGNED => "assigned"
  | DOWNLOADING_DATASET => "downloading_dataset"
  | VALIDATING_DATASET => "validating_dataset"
  | PREPARING_FLAT_DATASET => "preparing_flat_dataset"
  | PREPROCESSING => "preprocessing"
  | EXTRACTING_F0 => "extracting_f0"
  | EXTRACTING_FEATURES => "extracting_features"
  | TRAINING => "training"
  | SAVING_CHECKPOINT => "saving_checkpoint"
  | BUILDING_INDEX => "building_index"
  | COLLECTING_SMALL_MODEL => "collecting_small_model"
  | GENERATING_SAMPLES => "generating_samples"
  | EVALUATING => "evaluating"
  | UPLOADING_ARTIFACTS => "uploading_artifacts"
  | COMPLETED => "completed"
  | FAILED => "failed"
  | CANCELLED => "cancelled"
  | RETRYING => "retrying"
  end.

(** [JobStatus(text)]; [None] is the [ValueError] of an unknown value. *)
Definition JobStatus_of (text : string) : option JobStatus :=
  List.find (λ s, ⌊ value s = text ⌋) JobStatus_members.

Definition TERMINAL_JOB_STATUSES : list JobStatus := [COMPLETED; FAILED; CANCELLED].

Definition failure_or_cancel : list JobStatus := [FAILED; CANCELLED].

Definition ALLOWED_JOB_TRANSITIONS (s : JobStatus) : list JobStatus :=
  match s with
  | QUEUED => [ASSIGNED; FAILED; CANCELLED]
  | ASSIGNED => DOWNLOADING_DATASET :: failure_or_cancel
  | DOWNLOADING_DATASET => VALIDATING_DATASET :: failure_or_cancel
  | VALIDATING_DATASET => PREPARING_FLAT_DATASET :: PREPROCESSING :: failure_or_cancel
  | PREPARING_FLAT_DATASET => PREPROCESSING :: failure_or_cancel
  | PREPROCESSING => EXTRACTING_F0 :: EXTRACTING_FEATURES :: failure_or_cancel
  | EXTRACTING_F0 => EXTRACTING_FEATURES :: failure_or_cancel
  | EXTRACTING_FEATURES => TRAINING :: failure_or_cancel
  | TRAINING =>
      SAVING_CHECKPOINT :: BUILDING_INDEX :: COLLECTING_SMALL_MODEL :: failure_or_cancel
  | SAVING_CHECKPOINT => BUILDING_INDEX :: COLLECTING_SMALL_MODEL :: failure_or_cancel
  | BUILDING_INDEX => COLLECTING_SMALL_MODEL :: failure_or_cancel
  | COLLECTING_SMALL_MODEL =>
      GENERATING_SAMPLES :: EVALUATING :: UPLOADING_ARTIFACTS :: failure_or_cancel
  | GENERATING_SAMPLES => EVALUATING :: UPLOADING_ARTIFACTS :: failure_or_cancel
  | EVALUATING => UPLOADING_ARTIFACTS :: failure_or_cancel
  | UPLOADING_ARTIFACTS => COMPLETED :: failure_or_cancel
  | COMPLETED => []
  | FAILED => [RETRYING]
  | CANCELLED => []
  | RETRYING => [QUEUED]
  end.

Definition is_terminal (s : JobStatus) : bool := ⌊ s ∈ TERMINAL_JOB_STATUSES ⌋.

(** [can_transition_job] with both statuses already parsed. *)
Definition can_transition (current target : JobStatus) (allow_same : bool) : bool :=
  (allow_same && ⌊ current = target ⌋) || ⌊ target ∈ ALLOWED_JOB_TRANSITIONS current ⌋.

Definition can_transition_job (current target : string) (allow_same : bool) : bool :=
  match JobStatus_of current, JobStatus_of target with
  | Some current_status, Some target_status =>
      can_transition current_status target_status allow_same
  | _, _ => false
  end.

(** The two ways [validate_job_transition] raises [InvalidJobTransition]. *)
Inductive transition_error :=
  | UnknownJobStatus
  | CannotTransition (current target : JobStatus).

Definition validate_job_transition (current target : string) (allow_same : bool)
    : transition_error + JobStatus :=
  match JobStatus_of current, JobStatus_of target with
  | Some current_status, Some target_status =>
      if can_transition current_status target_status allow_same then inr target_status
      else inl (CannotTransition current_status target_status)
  | _, _ => inl UnknownJobStatus
  end.

(** ** Basic facts *)

Lemma JobStatus_of_value s : JobStatus_of (value s) = Some s.
Proof. by destruct s. Qed.

Lemma value_inj s t : value s = value t → s = t.
Proof.
  intros H. apply (f_equal JobStatus_of) in H. rewrite !JobStatus_of_value in H. congruence.
Qed.
#[export] Instance value_Inj : Inj (=) (=) value := value_inj.

Lemma JobStatus_of_Some text s : JobStatus_of text = Some s ↔ text = value s.
Proof.
  split; [|intros ->; apply JobStatus_of_value].
  unfold JobStatus_of. intros [_ Hs]%List.find_some. by bools.
Qed.

Lemma elem_of_JobStatus_members s : s ∈ JobStatus_members.
Proof. apply list_elem_of_In. destruct s; simpl; repeat (first [by left|right]). Qed.

(** A decidable statement on statuses holds when it holds on every member. *)
Lemma for_all_statuses (P : JobStatus → Prop) `{∀ s, Decision (P s)} :
  forallb (λ s, bool_decide (P s)) JobStatus_members = true → ∀ s, P s.
Proof.
  intros Hall s. rewrite forallb_forall in Hall.
  assert (In s JobStatus_members) as Hin by (apply list_elem_of_In, elem_of_JobStatus_members).
  specialize (Hall s Hin). by apply bool_decide_eq_true_1 in Hall.
Qed.

Lemma validate_inr current target allow_same t :
  validate_job_transition current target allow_same = inr t ↔
  ∃ c, current = value c ∧ target = value t ∧ can_transition c t allow_same = true.
Proof.
  unfold validate_job_transition. split.
  - destruct (JobStatus_of current) as [c|] eqn:Hc; [|done].
    destruct (JobStatus_of target) as [u|] eqn:Hu; [|done].
    apply JobStatus_of_Some in Hc as ->, Hu as ->.
    destruct (can_transition c u allow_same) eqn:Hcan; [|done].
    intros [= ->]. by exists c.
  - intros (c & -> & -> & Hcan). by rewrite !JobStatus_of_value, Hcan.
Qed.

Lemma is_terminal_spec s : is_terminal s = true ↔ s = COMPLETED ∨ s = FAILED ∨ s = CANCELLED.
Proof. destruct s; vm_compute; naive_solver. Qed.

(** ** Runs of the life cycle *)

(** One committed status change. *)
Definition status_step (s t : JobStatus) : Prop := t ∈ ALLOWED_JOB_TRANSITIONS s.

#[export] Instance status_step_dec s t : Decision (status_step s t).
Proof. unfold status_step. apply _. Defined.

(** The position of a status in the pipeline of one attempt. *)
Definition stage_rank (s : JobStatus) : nat :=
  match s with
  | QUEUED => 0 | ASSIGNED => 1 | DOWNLOADING_DATASET => 2 | VALIDATING_DATASET => 3
  | PREPARING_FLAT_DATASET => 4 | PREPROCESSING => 5 | EXTRACTING_F0 => 6
  | EXTRACTING_FEATURES => 7 | TRAINING => 8 | SAVING_CHECKPOINT => 9
  | BUILDING_INDEX => 10 | COLLECTING_SMALL_MODEL => 11 | GENERATING_SAMPLES => 12
  | EVALUATING => 13 | UPLOADING_ARTIFACTS => 14
  | COMPLETED | FAILED | CANCELLED | RETRYING => 15
  end%nat.

(** A step inside one attempt: any step but the two of a retry. *)
Definition attempt_step (s t : JobStatus) : Prop :=
  status_step s t ∧ t ≠ RETRYING ∧ t ≠ QUEUED.

Lemma attempt_step_rank s t : attempt_step s t → (stage_rank s < stage_rank t)%nat.
Proof.
  intros (Hst & H1 & H2). unfold status_step in Hst. apply list_elem_of_In in Hst.
  destruct s; simpl in Hst; repeat destruct Hst as [<-|Hst]; simpl; (lia || done).
Qed.

Lemma attempt_steps_rank n s t :
  nsteps attempt_step n s t → (stage_rank s + n ≤ stage_rank t)%nat.
Proof.
  induction 1 as [s|n s t u Hst _ IH]; [lia|]. apply attempt_step_rank in Hst. lia.
Qed.

Lemma stage_rank_bound s : (stage_rank s ≤ 15)%nat.
Proof. destruct s; simpl; lia. Qed.

(** The statuses a Job can be in before it first reaches stage [d]. *)
Definition before (d s : JobStatus) : bool :=
  (stage_rank s <? stage_rank d)%nat || ⌊ s ∈ [FAILED; CANCELLED; RETRYING] ⌋.

(** The stages no run to completion can skip. *)
Definition mandatory_stages : list JobStatus :=
  [ASSIGNED; DOWNLOADING_DATASET; VALIDATING_DATASET; PREPROCESSING; EXTRACTING_FEATURES;
   TRAINING; COLLECTING_SMALL_MODEL; UPLOADING_ARTIFACTS].

(** A run of the life cycle that visits the statuses [path] after [s]. *)
Inductive status_run : JobStatus → list JobStatus → JobStatus → Prop :=
  | run_nil s : status_run s [] s
  | run_step s t path u : status_step s t → status_run t path u → status_run s (t :: path) u.

Lemma run_needs d s path t (region : JobStatus → bool) :
  (∀ s' t', region s' = true → status_step s' t' → t' = d ∨ region t' = true) →
  status_run s path t → region s = true → region t = false → d ∈ path.
Proof.
  intros Hclosed Hrun. induction Hrun as [s|s u path t Hstep Hrun IH]; intros Hs Ht.
  { congruence. }
  destruct (Hclosed _ _ Hs Hstep) as [->|Hu]; [left|]. right. by apply IH.
Qed.

Lemma before_closed d : d ∈ mandatory_stages →
  ∀ s t, before d s = true → status_step s t → t = d ∨ before d t = true.
Proof.
  intros Hd s t Hs Hst. unfold status_step in Hst.
  apply list_elem_of_In in Hd, Hst.
  repeat destruct Hd as [<-|Hd]; try done;
    destruct s; try discriminate Hs; simpl in Hst;
    repeat destruct Hst as [<-|Hst]; try done; auto.
Qed.

(** ** Properties *)

(** A completed or cancelled Job never changes status again, a failed one only
    to be retried: every successful transition out of a terminal status either
    stays there or is [FAILED] to [RETRYING]. *)
Theorem terminal_statuses_absorb current target allow_same s t :
  JobStatus_of current = Some s → is_terminal s = true →
  validate_job_transition current target allow_same = inr t →
  t = s ∨ (s = FAILED ∧ t = RETRYING).
Proof.
  intros ->%JobStatus_of_Some Hs (c & Hc & -> & Hcan)%validate_inr.
  apply value_inj in Hc as <-. unfold can_transition in Hcan.
  apply orb_true_iff in Hcan as [Hcan|Hcan]; bools; [by left|].
  apply is_terminal_spec in Hs as [->|[->| ->]]; apply list_elem_of_In in Hcan;
    simpl in Hcan; naive_solver.
Qed.

Lemma terminal_statuses_absorb_witness :
  validate_job_transition "failed" "retrying" true = inr RETRYING ∧
  (RETRYING = FAILED ∨ (FAILED = FAILED ∧ RETRYING = RETRYING)).
Proof.
  split; [vm_compute; reflexivity|].
  apply (terminal_statuses_absorb "failed" "retrying" true FAILED RETRYING);
    vm_compute; reflexivity.
Defined.

(** C30: within one attempt the status advances strictly through the pipeline, so
    an attempt changes status at most fifteen times and never returns to a stage
    it has left. *)
Theorem attempt_run_bounded n s t :
  nsteps attempt_step n s t → (n ≤ 15)%nat ∧ (0 < n → s ≠ t)%nat.
Proof.
  intros Hn%attempt_steps_rank. pose proof (stage_rank_bound t). split; [lia|].
  intros Hpos ->. lia.
Qed.

Lemma attempt_run_bounded_witness :
  nsteps attempt_step 1 TRAINING FAILED ∧ ((1 ≤ 15)%nat ∧ (0 < 1 → TRAINING ≠ FAILED)%nat).
Proof.
  assert (nsteps attempt_step 1 TRAINING FAILED) as H.
  { apply nsteps_once. split; [|done]. unfold status_step. apply list_elem_of_In. simpl. tauto. }
  split; [exact H|]. exact (attempt_run_bounded 1 TRAINING FAILED H).
Defined.

(** C29: a Job reaches [COMPLETED] only through all the mandatory stages: every run
    of the life cycle from [QUEUED] to [COMPLETED], retries included, visits
    each of them. *)
Theorem completion_visits_mandatory_stages path d :
  status_run QUEUED path COMPLETED → d ∈ mandatory_stages → d ∈ path.
Proof.
  intros Hrun Hd. apply (run_needs d QUEUED path COMPLETED (before d)); [|done|..].
  - by apply before_closed.
  - apply list_elem_of_In in Hd. repeat destruct Hd as [<-|Hd]; done.
  - apply list_elem_of_In in Hd. repeat destruct Hd as [<-|Hd]; done.
Qed.

Lemma completion_visits_mandatory_stages_witness :
  TRAINING ∈ [ASSIGNED; DOWNLOADING_DATASET; VALIDATING_DATASET; PREPROCESSING;
    EXTRACTING_FEATURES; TRAINING; COLLECTING_SMALL_MODEL; UPLOADING_ARTIFACTS; COMPLETED].
Proof.
  apply completion_visits_mandatory_stages.
  - repeat (eapply run_step; [apply list_elem_of_In; simpl; tauto|]). apply run_nil.
  - apply list_elem_of_In. simpl. tauto.
Defined.

(** Every status in which a Worker can hold a lease admits failure and
    cancellation, so closing an abandoned attempt never hits an illegal
    transition. *)
Theorem leased_statuses_can_close s t :
  is_terminal s = false → s ≠ RETRYING → t ∈ failure_or_cancel →
  validate_job_transition (value s) (value t) true = inr t.
Proof.
  intros Hs Hr Ht. apply validate_inr. exists s. split_and!; [done..|].
  apply list_elem_of_In in Ht. simpl in Ht.
  destruct Ht as [<-|[<-|[]]]; destruct s; try discriminate Hs; done.
Qed.

Lemma leased_statuses_can_close_witness :
  validate_job_transition "training" "cancelled" true = inr CANCELLED.
Proof.
  apply (leased_statuses_can_close TRAINING CANCELLED); [done|done|].
  apply list_elem_of_In. simpl. tauto.
Defined.
