(* ===== verification/JobConfig.v ===== *)
(** * The Job configuration contract

    Model of [packages/contracts/src/rvc_orchestrator_contracts/job.py]: the
    configuration classes as records, their field bounds and validators as
    boolean checks, and the canonical bytes and SHA-256 of a configuration.

    Building a typed object from raw JSON is Pydantic's work: [ContractParser]
    stands for it, and the checks the classes declare are run on its result
    ([JobConfig_model_validate]). *)

From S2P Require Import Prelude Sha256 Json.

(** ** Enumerations *)

Inductive RVCVersion := V1 | V2.
Inductive SampleRate := KHZ_40 | KHZ_48.
Inductive TrainingF0Method := T_PM | T_HARVEST | T_DIO | T_RMVPE | T_RMVPE_GPU.
Inductive InferenceF0Method := I_PM | I_HARVEST | I_CREPE | I_RMVPE.

#[export] Instance RVCVersion_eq_dec : EqDecision RVCVersion.
Proof. solve_decision. Defined.
#[export] Instance SampleRate_eq_dec : EqDecision SampleRate.
Proof. solve_decision. Defined.
#[export] Instance TrainingF0Method_eq_dec : EqDecision TrainingF0Method.
Proof. solve_decision. Defined.
#[export] Instance InferenceF0Method_eq_dec : EqDecision InferenceF0Method.
Proof. solve_decision. Defined.

Definition RVCVersion_value (v : RVCVersion) : string :=
  match v with V1 => "v1" | V2 => "v2" end.
Definition SampleRate_value (r : SampleRate) : string :=
  match r with KHZ_40 => "40k" | KHZ_48 => "48k" end.
Definition TrainingF0Method_value (m : TrainingF0Method) : string :=
  match m with
  | T_PM => "pm" | T_HARVEST => "harvest" | T_DIO => "dio" | T_RMVPE => "rmvpe"
  | T_RMVPE_GPU => "rmvpe_gpu"
  end.
Definition InferenceF0Method_value (m : InferenceF0Method) : string :=
  match m with
  | I_PM => "pm" | I_HARVEST => "harvest" | I_CREPE => "crepe" | I_RMVPE => "rmvpe"
  end.

Definition feature_directory_for_version (v : RVCVersion) : string :=
  match v with V1 => "3_feature256" | V2 => "3_feature768" end.

(** ** Coercion of GPU id lists *)

Definition is_space (c : ascii) : bool :=
  let n := code c in ((9 <=? n) && (n <=? 13)) || ((28 <=? n) && (n <=? 32)).

Fixpoint lstrip_chars (cs : list ascii) : list ascii :=
  match cs with
  | c :: cs' => if is_space c then lstrip_chars cs' else cs
  | [] => []
  end.

(** [text.strip()] on ASCII whitespace *)
Definition strip (s : string) : string :=
  String.string_of_list_ascii (rev (lstrip_chars (rev (lstrip_chars (str_chars s))))).

(** The digits of [int(text)]: single underscores may separate digits. *)
Fixpoint py_digits (acc : Z) (after_digit : bool) (cs : list ascii) : option Z :=
  match cs with
  | [] => if after_digit then Some acc else None
  | c :: cs' =>
      if is_digit c then py_digits (10 * acc + (code c - 48)) true cs'
      else if (code c =? 95) && after_digit then py_digits acc false cs'
      else None
  end.

(** [int(text)] in base ten; [None] is the [ValueError]. *)
Definition py_int (s : string) : option Z :=
  match str_chars (strip s) with
  | c :: cs =>
      if code c =? 45 then Z.opp <$> py_digits 0 false cs
      else if code c =? 43 then py_digits 0 false cs
      else py_digits 0 false (c :: cs)
  | [] => None
  end.

(** [_parse_gpu_ids]: a [None] result is the [ValueError] of a bad number. *)
Definition parse_gpu_ids (v : json) : option json :=
  match v with
  | JNull | JArray _ => Some v
  | JInt _ | JBool _ => Some (JArray [v])
  | JString s =>
      if ⌊ strip s = "" ⌋ then Some (JArray [])
      else ids ← mapM (λ part, py_int (strip part)) (split_on (chr 44) s);
           Some (JArray (map JInt ids))
  | _ => Some v
  end.

(** ** Configuration classes *)

Record RVCBackendConfig := mkRVCBackendConfig {
  backend_type : string;
  repository : string;
  rvc_version : option RVCVersion;
  rvc_commit_hash : option string }.

Record ModelConfig := mkModelConfig {
  version : RVCVersion;
  sample_rate : SampleRate;
  use_f0 : bool;
  speaker_id : Z }.

Inductive PretrainedMode := mode_auto | mode_custom.

Record PretrainedConfig := mkPretrainedConfig {
  mode : PretrainedMode;
  g_path : option string;
  d_path : option string;
  allow_custom_override : bool }.

Record TrainingFeatureConfig := mkTrainingFeatureConfig {
  feature_dir_policy : string;
  v1_feature_dir : string;
  v2_feature_dir : string }.

Record TrainingConfig := mkTrainingConfig {
  epochs : Z;
  batch_size_per_gpu : Z;
  save_every_epoch : Z;
  save_only_latest : bool;
  save_every_weights : bool;
  cache_dataset_in_gpu : bool;
  gpu_ids : list Z }.

Record F0ExtractionConfig := mkF0ExtractionConfig {
  training_f0_method : option TrainingF0Method;
  rmvpe_gpu_ids : option (list Z) }.

Record IndexConfig := mkIndexConfig {
  build_index : bool;
  collect_total_fea : bool;
  collect_added_index : bool }.

Record InferencePresetConfig := mkInferencePresetConfig {
  inference_f0_method : InferenceF0Method;
  transpose : Z;
  index_rate : spec_float;
  filter_radius : Z;
  resample_sr : Z;
  rms_mix_rate : spec_float;
  protect : spec_float }.

(** [AutoInferenceSamplesConfig] repeats the seven fields of
    [InferencePresetConfig]; they are grouped here under [samples_preset]. *)
Record AutoInferenceSamplesConfig := mkAutoInferenceSamplesConfig {
  enabled : bool;
  test_set_id : option string;
  samples_preset : InferencePresetConfig }.

Record ArtifactCollectionConfig := mkArtifactCollectionConfig {
  collect_checkpoints : bool;
  collect_small_model : bool;
  extract_small_model_if_missing : bool;
  collect_index : bool;
  collect_tensorboard : bool;
  collect_logs : bool;
  collect_samples : bool }.

Record ResourceRequirements := mkResourceRequirements {
  min_vram_gb : spec_float;
  preferred_worker_tags : list string;
  priority : Z }.

Record JobConfig := mkJobConfig {
  schema_version : string;
  job_name : string;
  experiment_id : string;
  dataset_id : string;
  rvc_backend : RVCBackendConfig;
  model : ModelConfig;
  pretrained : PretrainedConfig;
  training_feature : TrainingFeatureConfig;
  training : TrainingConfig;
  f0_extraction : F0ExtractionConfig;
  index : IndexConfig;
  auto_inference_samples : AutoInferenceSamplesConfig;
  artifacts : ArtifactCollectionConfig;
  resource : ResourceRequirements }.

#[export] Instance eta_ResourceRequirements : Eta ResourceRequirements :=
  λ r, mkResourceRequirements (min_vram_gb r) (preferred_worker_tags r) (priority r).
#[export] Instance eta_JobConfig : Eta JobConfig := λ c,
  mkJobConfig (schema_version c) (job_name c) (experiment_id c) (dataset_id c) (rvc_backend c)
    (model c) (pretrained c) (training_feature c) (training c) (f0_extraction c) (index c)
    (auto_inference_samples c) (artifacts c) (resource c).

(** ** Validators *)

Definition f_zero : spec_float := S754_zero false.
Definition f_one : spec_float := float_of 1 0.
Definition f_half : spec_float := float_of 1 (-1).

Definition is_finite (f : spec_float) : bool :=
  match f with S754_zero _ | S754_finite _ _ _ => true | _ => false end.

(** [low <= f <= high] on floats; false on NaN. *)
Definition float_between (low f high : spec_float) : bool := SFleb low f && SFleb f high.

Definition ModelConfig_valid (m : ModelConfig) : bool := 0 <=? speaker_id m.

(** [PurePosixPath(path).is_absolute() or ".." in PurePosixPath(path).parts] *)
Definition unsafe_relative_path (path : string) : bool :=
  startswith path "/" || ⌊ ".." ∈ split_on (chr 47) path ⌋.

Definition PretrainedConfig_valid (p : PretrainedConfig) : bool :=
  negb (match mode p with mode_custom => negb (truthy (g_path p)) || negb (truthy (d_path p))
                        | mode_auto => false end) &&
  forallb (λ path, negb (truthy path && match path with
                                        | Some text => unsafe_relative_path text
                                        | None => false end)) [g_path p; d_path p].

Definition TrainingConfig_valid (t : TrainingConfig) : bool :=
  (1 <=? epochs t) && (epochs t <=? 100000) &&
  (1 <=? batch_size_per_gpu t) && (batch_size_per_gpu t <=? 1024) &&
  (1 <=? save_every_epoch t) &&
  (1 <=? Zlength (gpu_ids t)) &&
  negb (existsb (λ gpu_id, gpu_id <? 0) (gpu_ids t)) &&
  distinct (gpu_ids t).

Definition F0ExtractionConfig_valid (f : F0ExtractionConfig) : bool :=
  let ids := default [] (rmvpe_gpu_ids f) in
  let declared := negb ⌊ ids = [] ⌋ in
  (if ⌊ training_f0_method f = Some T_RMVPE_GPU ⌋ then declared else negb declared) &&
  negb (declared && existsb (λ gpu_id, gpu_id <? 0) ids).

Definition InferencePresetConfig_valid (p : InferencePresetConfig) : bool :=
  (-48 <=? transpose p) && (transpose p <=? 48) &&
  float_between f_zero (index_rate p) f_one &&
  (0 <=? filter_radius p) && (filter_radius p <=? 7) &&
  ((resample_sr p =? 0) || ((16000 <=? resample_sr p) && (resample_sr p <=? 192000))) &&
  float_between f_zero (rms_mix_rate p) f_one &&
  float_between f_zero (protect p) f_half.

Definition AutoInferenceSamplesConfig_valid (a : AutoInferenceSamplesConfig) : bool :=
  InferencePresetConfig_valid (samples_preset a) &&
  negb (enabled a && negb (truthy (test_set_id a))) &&
  negb (negb (enabled a) && is_some (test_set_id a)).

(** [ResourceRequirements.unique_tags]: the stripped tags, or the [ValueError]. *)
Definition unique_tags (tags : list string) : option (list string) :=
  let stripped := map strip tags in
  if existsb (λ tag, ⌊ tag = "" ⌋) stripped then None
  else if negb (distinct stripped) then None
  else Some stripped.

Definition ResourceRequirements_valid (r : ResourceRequirements) : bool :=
  SFleb f_zero (min_vram_gb r) && is_finite (min_vram_gb r) &&
  (Zlength (preferred_worker_tags r) <=? 64) &&
  (0 <=? priority r) && (priority r <=? 10).

(** The [SafeName] bounds and [validate_safe_identifier]. *)
Definition safe_name (s : string) : bool :=
  (1 <=? py_len s) && (py_len s <=? 128) && is_safe_identifier s.

(** [JobConfig.validate_cross_fields] *)
Definition JobConfig_cross_fields (c : JobConfig) : bool :=
  let samples := auto_inference_samples c in
  let rate := index_rate (samples_preset samples) in
  let uses_index := SFltb f_zero rate in
  negb (is_some (rvc_version (rvc_backend c)) &&
        negb ⌊ rvc_version (rvc_backend c) = Some (version (model c)) ⌋) &&
  negb (use_f0 (model c) && is_none (training_f0_method (f0_extraction c))) &&
  negb (negb (use_f0 (model c)) &&
        (is_some (training_f0_method (f0_extraction c)) ||
         negb ⌊ default [] (rmvpe_gpu_ids (f0_extraction c)) = [] ⌋)) &&
  negb (enabled samples && negb (build_index (index c)) && negb (SFeqb rate f_zero)) &&
  negb (enabled samples &&
        (negb (collect_samples (artifacts c)) ||
         negb (collect_small_model (artifacts c)) ||
         (uses_index && negb (collect_index (artifacts c))) ||
         (uses_index && negb (collect_added_index (index c))))).

Definition TrainingFeatureConfig_valid (t : TrainingFeatureConfig) : bool :=
  ⌊ feature_dir_policy t = "auto" ⌋ && ⌊ v1_feature_dir t = "3_feature256" ⌋ &&
  ⌊ v2_feature_dir t = "3_feature768" ⌋.

Definition JobConfig_fields_valid (c : JobConfig) : bool :=
  ⌊ schema_version c = "1.0" ⌋ &&
  safe_name (job_name c) && safe_name (experiment_id c) && safe_name (dataset_id c) &&
  ⌊ backend_type (rvc_backend c) = "rvc_webui" ⌋ &&
  ModelConfig_valid (model c) && PretrainedConfig_valid (pretrained c) &&
  TrainingFeatureConfig_valid (training_feature c) &&
  TrainingConfig_valid (training c) && F0ExtractionConfig_valid (f0_extraction c) &&
  AutoInferenceSamplesConfig_valid (auto_inference_samples c) &&
  ResourceRequirements_valid (resource c).

(** All the validators of the classes on a typed configuration: the value with its
    tags stripped, or the [ValidationError]. *)
Definition validate_JobConfig (c : JobConfig) : option JobConfig :=
  tags ← unique_tags (preferred_worker_tags (resource c));
  let c := c <| resource := (resource c) <| preferred_worker_tags := tags |> |> in
  if JobConfig_fields_valid c && JobConfig_cross_fields c then Some c else None.

(** Pydantic's construction of the typed object from raw JSON ([extra="forbid"],
    types, defaults and coercions), before the validators run. *)
Class ContractParser := { parse_JobConfig : json → option JobConfig }.

(** [JobConfig.model_validate(document)] *)
Definition JobConfig_model_validate `{ContractParser} (document : json) : option JobConfig :=
  c ← parse_JobConfig document; validate_JobConfig c.

(** ** [model_dump(mode="json")] *)

Definition dump_option {A} (f : A → json) (o : option A) : json :=
  match o with Some a => f a | None => JNull end.

Definition dump_preset_fields (p : InferencePresetConfig) : list (string * json) :=
  [("inference_f0_method", JString (InferenceF0Method_value (inference_f0_method p)));
   ("transpose", JInt (transpose p));
   ("index_rate", JFloat (index_rate p));
   ("filter_radius", JInt (filter_radius p));
   ("resample_sr", JInt (resample_sr p));
   ("rms_mix_rate", JFloat (rms_mix_rate p));
   ("protect", JFloat (protect p))].

Definition dump_InferencePresetConfig (p : InferencePresetConfig) : json :=
  JObject (dump_preset_fields p).

Definition dump_training (t : TrainingConfig) : json :=
  JObject
    [("epochs", JInt (epochs t));
     ("batch_size_per_gpu", JInt (batch_size_per_gpu t));
     ("save_every_epoch", JInt (save_every_epoch t));
     ("save_only_latest", JBool (save_only_latest t));
     ("save_every_weights", JBool (save_every_weights t));
     ("cache_dataset_in_gpu", JBool (cache_dataset_in_gpu t));
     ("gpu_ids", JArray (map JInt (gpu_ids t)))].

Definition dump_JobConfig (c : JobConfig) : json :=
  let b := rvc_backend c in let m := model c in let p := pretrained c in
  let tf := training_feature c in let f0 := f0_extraction c in let ix := index c in
  let s := auto_inference_samples c in let a := artifacts c in let r := resource c in
  JObject
    [("schema_version", JString (schema_version c));
     ("job_name", JString (job_name c));
     ("experiment_id", JString (experiment_id c));
     ("dataset_id", JString (dataset_id c));
     ("rvc_backend", JObject
        [("backend_type", JString (backend_type b));
         ("repository", JString (repository b));
         ("rvc_version", dump_option (λ v, JString (RVCVersion_value v)) (rvc_version b));
         ("rvc_commit_hash", dump_option JString (rvc_commit_hash b))]);
     ("model", JObject
        [("version", JString (RVCVersion_value (version m)));
         ("sample_rate", JString (SampleRate_value (sample_rate m)));
         ("use_f0", JBool (use_f0 m));
         ("speaker_id", JInt (speaker_id m))]);
     ("pretrained", JObject
        [("mode", JString (match mode p with mode_auto => "auto" | mode_custom => "custom" end));
         ("g_path", dump_option JString (g_path p));
         ("d_path", dump_option JString (d_path p));
         ("allow_custom_override", JBool (allow_custom_override p))]);
     ("training_feature", JObject
        [("feature_dir_policy", JString (feature_dir_policy tf));
         ("v1_feature_dir", JString (v1_feature_dir tf));
         ("v2_feature_dir", JString (v2_feature_dir tf))]);
     ("training", dump_training (training c));
     ("f0_extraction", JObject
        [("training_f0_method",
          dump_option (λ v, JString (TrainingF0Method_value v)) (training_f0_method f0));
         ("rmvpe_gpu_ids", dump_option (λ ids, JArray (map JInt ids)) (rmvpe_gpu_ids f0))]);
     ("index", JObject
        [("build_index", JBool (build_index ix));
         ("collect_total_fea", JBool (collect_total_fea ix));
         ("collect_added_index", JBool (collect_added_index ix))]);
     ("auto_inference_samples", JObject
        (("enabled", JBool (enabled s)) ::
         ("test_set_id", dump_option JString (test_set_id s)) ::
         dump_preset_fields (samples_preset s)));
     ("artifacts", JObject
        [("collect_checkpoints", JBool (collect_checkpoints a));
         ("collect_small_model", JBool (collect_small_model a));
         ("extract_small_model_if_missing", JBool (extract_small_model_if_missing a));
         ("collect_index", JBool (collect_index a));
         ("collect_tensorboard", JBool (collect_tensorboard a));
         ("collect_logs", JBool (collect_logs a));
         ("collect_samples", JBool (collect_samples a))]);
     ("resource", JObject
        [("min_vram_gb", JFloat (min_vram_gb r));
         ("preferred_worker_tags", JArray (map JString (preferred_worker_tags r)));
         ("priority", JInt (priority r))])].

(** ** Canonical bytes and hash *)

(** [normalize_json_value]: every floating-point zero becomes [0.0]. *)
Fixpoint normalize_json_value (v : json) : json :=
  match v with
  | JFloat (S754_zero _) => JFloat f_zero
  | JObject fs => JObject (map (λ kv, (kv.1, normalize_json_value kv.2)) fs)
  | JArray xs => JArray (map normalize_json_value xs)
  | _ => v
  end.

(** [canonical_job_config_bytes] on a document; [None] is the [ValueError] of a
    non-finite float. *)
Definition canonical_job_config_bytes (document : json) : option string :=
  json_dumps (normalize_json_value document).

Definition job_config_sha256 (document : json) : option string :=
  sha256_hex <$> canonical_job_config_bytes document.

(** The same functions on a typed configuration ([isinstance(config, JobConfig)]). *)
Definition job_config_sha256_of (c : JobConfig) : option string :=
  job_config_sha256 (dump_JobConfig c).

(** ** Lemmas *)

Lemma job_config_sha256_shape document h :
  job_config_sha256 document = Some h → lower_hex_of_length 64 h = true.
Proof.
  unfold job_config_sha256. destruct (canonical_job_config_bytes document); [|done].
  intros [= <-]. apply sha256_hex_shape.
Qed.

Lemma normalize_json_value_idem v :
  normalize_json_value (normalize_json_value v) = normalize_json_value v.
Proof.
  induction v as [| | |[]| |xs IH|fs IH] using json_ind; try done; simpl; f_equal.
  - rewrite map_map. apply map_ext_in. intros x Hx.
    rewrite Forall_forall in IH. by apply IH, list_elem_of_In.
  - rewrite map_map. apply map_ext_in. intros [k x] Hx. simpl. f_equal.
    rewrite Forall_forall in IH. by apply (IH (k, x)), list_elem_of_In.
Qed.

(** Two documents that differ in the sign of floating-point zeros and in the order
    of object entries. *)
Inductive same_document : json → json → Prop :=
  | same_refl v : same_document v v
  | same_zero s t : same_document (JFloat (S754_zero s)) (JFloat (S754_zero t))
  | same_array xs ys : Forall2 same_document xs ys → same_document (JArray xs) (JArray ys)
  | same_object fs gs hs :
      NoDup fs.*1 →
      Forall2 (λ f g, f.1 = g.1 ∧ same_document f.2 g.2) fs gs → gs ≡ₚ hs →
      same_document (JObject fs) (JObject hs).

Lemma dumps_same_values fs gs :
  Forall2 (λ f g : string * json, f.1 = g.1 ∧ json_dumps f.2 = json_dumps g.2) fs gs →
  json_dumps (JObject fs) = json_dumps (JObject gs).
Proof.
  intros Hall. rewrite !json_dumps_object.
  replace (mapM dump_field gs) with (mapM dump_field fs); [done|].
  induction Hall as [|[k v] [k' v'] fs gs [Hk Hv] _ IH]; [done|].
  simpl in *. subst k'. rewrite IH. unfold dump_field. simpl. by rewrite Hv.
Qed.

Lemma same_document_keys fs gs :
  Forall2 (λ f g : string * json, f.1 = g.1 ∧ same_document f.2 g.2) fs gs → fs.*1 = gs.*1.
Proof. induction 1 as [|f g fs gs [Hk _] _ IH]; csimpl; congruence. Qed.

Lemma canonical_same_document a : ∀ b,
  same_document a b → canonical_job_config_bytes a = canonical_job_config_bytes b.
Proof.
  unfold canonical_job_config_bytes.
  induction a as [|bo|z|f|str|xs IH|fs IH] using json_ind; intros b Hs;
    inversion Hs as [|s t|xs' ys Hall|fs' gs hs Hnd Hall Hp]; subst; try done.
  - simpl. assert (mapM json_dumps (map normalize_json_value xs) =
                   mapM json_dumps (map normalize_json_value ys)) as ->; [|done].
    clear Hs. induction Hall as [|x y xs ys Hxy Hall IHl]; [done|]. simpl.
    apply Forall_cons in IH as [IHx IH]. rewrite (IHx y Hxy), IHl; done.
  - set (norm := λ kv : string * json, (kv.1, normalize_json_value kv.2)).
    change (json_dumps (JObject (norm <$> fs)) = json_dumps (JObject (norm <$> hs))).
    assert (∀ l, (norm <$> l).*1 = l.*1) as Hkeys.
    { intros l. induction l as [|[k v] l IHl]; csimpl; congruence. }
    trans (json_dumps (JObject (norm <$> gs))).
    + apply dumps_same_values. clear Hs Hp Hnd.
      induction Hall as [|f g fs gs [Hk Hv] Hall IHl]; csimpl; constructor.
      * apply Forall_cons in IH as [IHf IH]. split; [done|]. by apply IHf.
      * apply IHl. by apply Forall_cons in IH as [_ IH].
    + apply json_dumps_object_permutation; [|by rewrite Hp].
      rewrite Hkeys, <-(same_document_keys _ _ Hall). done.
Qed.

(** ** Properties *)

(** C31: the configuration hash is canonical: it depends neither on the order in
    which the objects of a stored document list their entries nor on the sign
    of its floating-point zeros, at any depth. *)
Theorem job_config_sha256_canonical a b :
  same_document a b → job_config_sha256 a = job_config_sha256 b.
Proof. unfold job_config_sha256. by intros ->%canonical_same_document. Qed.

Lemma job_config_sha256_canonical_witness :
  job_config_sha256 (JObject [("b", JFloat (S754_zero true)); ("a", JInt 1)]) =
  job_config_sha256 (JObject [("a", JInt 1); ("b", JFloat (S754_zero false))]).
Proof.
  apply job_config_sha256_canonical.
  apply same_object with (gs := [("b", JFloat (S754_zero false)); ("a", JInt 1)]).
  - vm_compute. repeat constructor; set_solver.
  - repeat constructor.
  - apply perm_swap.
Defined.
