(* ===== verification/WorkerContract.v ===== *)
(** * Values crossing the Manager/Worker boundary

    Model of [packages/contracts/src/rvc_orchestrator_contracts/worker.py] and
    [events.py]: capabilities, transfers, claims, status updates and telemetry
    batches as records, with the bounds and validators of their classes as
    boolean checks ([X_valid]).  Instances are built by Pydantic, whose typed
    construction is the parameter [CapabilitiesParser]. *)

From S2P Require Import Prelude Sha256 Json JobStatus JobConfig.

(** ** Worker status and engine *)

Inductive WorkerStatus := IDLE | BUSY | DRAINING.
Inductive WorkerEngineMode := RVC_WEBUI | FAKE.

#[export] Instance WorkerStatus_eq_dec : EqDecision WorkerStatus.
Proof. solve_decision. Defined.
#[export] Instance WorkerEngineMode_eq_dec : EqDecision WorkerEngineMode.
Proof. solve_decision. Defined.

Definition WorkerStatus_value (s : WorkerStatus) : string :=
  match s with IDLE => "idle" | BUSY => "busy" | DRAINING => "draining" end.
Definition WorkerStatus_of (text : string) : option WorkerStatus :=
  List.find (λ s, ⌊ WorkerStatus_value s = text ⌋) [IDLE; BUSY; DRAINING].
Definition WorkerEngineMode_value (m : WorkerEngineMode) : string :=
  match m with RVC_WEBUI => "rvc_webui" | FAKE => "fake" end.

Definition WorkerEngineMode_of (text : string) : option WorkerEngineMode :=
  List.find (λ m, ⌊ WorkerEngineMode_value m = text ⌋) [RVC_WEBUI; FAKE].

(** ** Patterns *)

Definition is_lower_name_char (c : ascii) : bool :=
  is_digit c || is_lower c || (code c =? 46) || (code c =? 95) || (code c =? 45).

(** [^[a-z0-9][a-z0-9._-]{0,127}$] *)
Definition is_item_key (s : string) : bool :=
  match s with
  | EmptyString => false
  | String c s' => (is_digit c || is_lower c) && all_chars is_lower_name_char s' &&
                   (Z.of_nat (String.length s) <=? 128)
  end.

(** [_UUID_ID] *)
Definition is_uuid (s : string) : bool :=
  match split_on (chr 45) s with
  | [a; b; c; d; e] =>
      lower_hex_of_length 8 a && lower_hex_of_length 4 b &&
      match c with
      | String v c' => (49 <=? code v) && (code v <=? 53) && lower_hex_of_length 3 c'
      | EmptyString => false
      end &&
      match d with
      | String v d' => ⌊ code v ∈ [56; 57; 97; 98] ⌋ && lower_hex_of_length 3 d'
      | EmptyString => false
      end &&
      lower_hex_of_length 12 e
  | _ => false
  end.

(** [_WORKER_TOKEN]: [^rvcw_[A-Za-z0-9_-]{32,128}$] *)
Definition is_worker_token (s : string) : bool :=
  startswith s "rvcw_" &&
  (let rest := str_drop 5 s in
   all_chars (λ c, is_alnum c || (code c =? 95) || (code c =? 45)) rest &&
   (32 <=? Z.of_nat (String.length rest)) && (Z.of_nat (String.length rest) <=? 128)).

Definition is_image_digest (s : string) : bool :=
  startswith s "sha256:" && lower_hex_of_length 64 (str_drop 7 s).

(** ** Capabilities *)

Record GPUCapability := mkGPUCapability {
  gpu_index : Z;
  gpu_uuid : option string;
  gpu_name : string;
  gpu_total_vram_mb : Z;
  gpu_free_vram_mb : Z;
  gpu_utilization_percent : option spec_float;
  gpu_temperature_c : option spec_float }.

Record WorkerCapabilities := mkWorkerCapabilities {
  cap_engine_mode : WorkerEngineMode;
  cap_worker_version : string;
  cap_rvc_commit_hash : string;
  supported_rvc_versions : list RVCVersion;
  supported_training_f0_methods : list TrainingF0Method;
  supported_inference_f0_methods : list InferenceF0Method;
  fixed_test_set_inference_ready : bool;
  gpus : list GPUCapability;
  disk_free_bytes : Z;
  tags : list string;
  rvc_assets_ready : bool;
  cap_runtime_image_digest : option string;
  cap_runtime_asset_manifest_sha256 : option string;
  max_concurrent_jobs : Z }.

(** [low <= len(text) <= high] *)
Definition len_between (low : Z) (s : string) (high : Z) : bool :=
  (low <=? py_len s) && (py_len s <=? high).

Definition opt_all {A} (p : A → bool) (o : option A) : bool :=
  match o with Some a => p a | None => true end.

Definition GPUCapability_valid (g : GPUCapability) : bool :=
  (0 <=? gpu_index g) && (gpu_index g <=? 1023) &&
  len_between 1 (gpu_name g) 256 &&
  (0 <? gpu_total_vram_mb g) && (0 <=? gpu_free_vram_mb g) &&
  opt_all (λ u, float_between f_zero u (float_of 100 0)) (gpu_utilization_percent g) &&
  opt_all is_finite (gpu_temperature_c g) &&
  negb (gpu_total_vram_mb g <? gpu_free_vram_mb g).

(** [validate_gpu_inventory_and_fixed_test_set_gate] *)
Definition fixed_test_set_gate (c : WorkerCapabilities) : bool :=
  negb (fixed_test_set_inference_ready c &&
        (negb ⌊ cap_engine_mode c = RVC_WEBUI ⌋ || negb (rvc_assets_ready c) ||
         ⌊ supported_inference_f0_methods c = [] ⌋ || is_none (cap_runtime_image_digest c) ||
         is_none (cap_runtime_asset_manifest_sha256 c))).

Definition WorkerCapabilities_valid (c : WorkerCapabilities) : bool :=
  len_between 1 (cap_worker_version c) 128 && len_between 7 (cap_rvc_commit_hash c) 64 &&
  (1 <=? Zlength (supported_rvc_versions c)) && (1 <=? Zlength (supported_training_f0_methods c)) &&
  forallb GPUCapability_valid (gpus c) && (Zlength (gpus c) <=? 64) &&
  (0 <=? disk_free_bytes c) && (Zlength (tags c) <=? 64) &&
  opt_all is_image_digest (cap_runtime_image_digest c) &&
  opt_all (lower_hex_of_length 64) (cap_runtime_asset_manifest_sha256 c) &&
  (1 <=? max_concurrent_jobs c) && (max_concurrent_jobs c <=? 64) &&
  distinct (supported_rvc_versions c) && distinct (supported_training_f0_methods c) &&
  distinct (supported_inference_f0_methods c) && distinct (tags c) &&
  distinct (map gpu_index (gpus c)) && distinct (omap gpu_uuid (gpus c)) &&
  fixed_test_set_gate c.

Class CapabilitiesParser := { parse_WorkerCapabilities : json → option WorkerCapabilities }.

(** [WorkerCapabilities.model_validate(document)] *)
Definition WorkerCapabilities_model_validate `{CapabilitiesParser} (document : json)
    : option WorkerCapabilities :=
  c ← parse_WorkerCapabilities document; if WorkerCapabilities_valid c then Some c else None.

Definition dump_GPUCapability (g : GPUCapability) : json :=
  JObject
    [("index", JInt (gpu_index g));
     ("uuid", dump_option JString (gpu_uuid g));
     ("name", JString (gpu_name g));
     ("total_vram_mb", JInt (gpu_total_vram_mb g));
     ("free_vram_mb", JInt (gpu_free_vram_mb g));
     ("utilization_percent", dump_option JFloat (gpu_utilization_percent g));
     ("temperature_c", dump_option JFloat (gpu_temperature_c g))].

Definition dump_WorkerCapabilities (c : WorkerCapabilities) : json :=
  let strings {A} (f : A → string) xs := JArray (map (λ x, JString (f x)) xs) in
  JObject
    [("engine_mode", JString (WorkerEngineMode_value (cap_engine_mode c)));
     ("worker_version", JString (cap_worker_version c));
     ("rvc_commit_hash", JString (cap_rvc_commit_hash c));
     ("supported_rvc_versions", strings RVCVersion_value (supported_rvc_versions c));
     ("supported_training_f0_methods",
      strings TrainingF0Method_value (supported_training_f0_methods c));
     ("supported_inference_f0_methods",
      strings InferenceF0Method_value (supported_inference_f0_methods c));
     ("fixed_test_set_inference_ready", JBool (fixed_test_set_inference_ready c));
     ("gpus", JArray (map dump_GPUCapability (gpus c)));
     ("disk_free_bytes", JInt (disk_free_bytes c));
     ("tags", strings (λ t, t) (tags c));
     ("rvc_assets_ready", JBool (rvc_assets_ready c));
     ("runtime_image_digest", dump_option JString (cap_runtime_image_digest c));
     ("runtime_asset_manifest_sha256",
      dump_option JString (cap_runtime_asset_manifest_sha256 c));
     ("max_concurrent_jobs", JInt (max_concurrent_jobs c))].

(** ** Requests *)

Record WorkerRegisterRequest := mkWorkerRegisterRequest {
  reg_name : string;
  reg_capabilities : WorkerCapabilities }.

Definition WorkerRegisterRequest_valid (r : WorkerRegisterRequest) : bool :=
  len_between 1 (reg_name r) 128 && is_safe_identifier (reg_name r) &&
  WorkerCapabilities_valid (reg_capabilities r).

Record WorkerReEnrollRequest := mkWorkerReEnrollRequest {
  ree_register : WorkerRegisterRequest;
  ree_worker_id : string }.

Definition WorkerReEnrollRequest_valid (r : WorkerReEnrollRequest) : bool :=
  WorkerRegisterRequest_valid (ree_register r) && is_uuid (ree_worker_id r).

Record WorkerTokenRotationStatus := mkWorkerTokenRotationStatus {
  trs_worker_id : string;
  trs_token_issued_at : Z;
  trs_pending : bool;
  trs_rotation_id : option string;
  trs_started_at : option Z;
  trs_expires_at : option Z }.

(** [WorkerTokenRotationStatus.validate_pending_fields] *)
Definition WorkerTokenRotationStatus_valid (s : WorkerTokenRotationStatus) : bool :=
  opt_all is_uuid (trs_rotation_id s) &&
  Bool.eqb (trs_pending s)
    (is_some (trs_rotation_id s) && is_some (trs_started_at s) && is_some (trs_expires_at s)).

Record WorkerHeartbeatRequest := mkWorkerHeartbeatRequest {
  hb_status : WorkerStatus;
  hb_capabilities : WorkerCapabilities;
  hb_current_job_id : option string;
  hb_current_lease_id : option string }.

(** [WorkerHeartbeatRequest.validate_current_assignment] *)
Definition WorkerHeartbeatRequest_valid (h : WorkerHeartbeatRequest) : bool :=
  WorkerCapabilities_valid (hb_capabilities h) &&
  Bool.eqb (truthy (hb_current_job_id h)) (truthy (hb_current_lease_id h)) &&
  negb (⌊ hb_status h = BUSY ⌋ && negb (truthy (hb_current_job_id h))) &&
  negb (⌊ hb_status h = IDLE ⌋ && truthy (hb_current_job_id h)).

Record JobStatusUpdate := mkJobStatusUpdate {
  su_lease_id : string;
  su_status : JobStatus;
  su_occurred_at : Z;
  su_current_epoch : option Z;
  su_telemetry_log_count : option Z;
  su_telemetry_metric_count : option Z;
  su_error_code : option string;
  su_error_message : option string }.

Definition telemetry_count_ok (n : Z) : bool := (0 <=? n) && (n <=? 2147483647).

(** [JobStatusUpdate.validate_error], after the field bounds. *)
Definition JobStatusUpdate_valid (u : JobStatusUpdate) : bool :=
  opt_all (λ n, 0 <=? n) (su_current_epoch u) &&
  opt_all telemetry_count_ok (su_telemetry_log_count u) &&
  opt_all telemetry_count_ok (su_telemetry_metric_count u) &&
  opt_all (λ s, py_len s <=? 128) (su_error_code u) &&
  opt_all (λ s, py_len s <=? 8192) (su_error_message u) &&
  negb (⌊ su_status u = FAILED ⌋ && negb (truthy (su_error_message u))) &&
  negb (negb ⌊ su_status u = FAILED ⌋ &&
        (truthy (su_error_code u) || truthy (su_error_message u))) &&
  Bool.eqb (is_none (su_telemetry_log_count u)) (is_none (su_telemetry_metric_count u)) &&
  negb (is_some (su_telemetry_log_count u) && negb (is_terminal (su_status u))).

(** ** Transfers and claims *)

Record DatasetTransfer := mkDatasetTransfer {
  dt_dataset_id : string;
  dt_download_path : string;
  dt_size_bytes : Z;
  dt_sha256 : string }.

Definition slash : ascii := chr 47.

(** Path segments after the leading empty one: [value.split("/")[1:]]. *)
Definition unsafe_segments (path : string) : bool :=
  existsb (λ part, ⌊ part ∈ [""; "."; ".."] ⌋) (tail (split_on slash path)).

(** [_DATASET_DOWNLOAD_PATH.fullmatch]: its alphabet leaves no room for a URL
    scheme, authority, query, fragment or backslash. *)
Definition dataset_path_matches (path : string) : bool :=
  match split_on slash path with
  | [a; b; c; d; e; job; last] =>
      ⌊ [a; b; c; d; e; last] = [""; "api"; "v1"; "workers"; "jobs"; "dataset"] ⌋ &&
      is_safe_transfer_id job
  | _ => false
  end.

Definition DatasetTransfer_valid (t : DatasetTransfer) : bool :=
  len_between 1 (dt_dataset_id t) 128 && is_safe_identifier (dt_dataset_id t) &&
  len_between 1 (dt_download_path t) 512 &&
  (0 <? dt_size_bytes t) && (dt_size_bytes t <=? 100 * 1024 ^ 3) &&
  lower_hex_of_length 64 (dt_sha256 t) &&
  dataset_path_matches (dt_download_path t) && negb (unsafe_segments (dt_download_path t)).

Record TestSetTransferItem := mkTestSetTransferItem {
  ti_test_set_item_id : string;
  ti_item_key : string;
  ti_sort_order : Z;
  ti_download_path : string;
  ti_filename : string;
  ti_size_bytes : Z;
  ti_sha256 : string;
  ti_sample_rate_hz : Z;
  ti_channels : Z;
  ti_duration_seconds : spec_float }.

Definition test_set_item_path_matches (path : string) : bool :=
  match split_on slash path with
  | [a; b; c; d; e; job; f; g; item] =>
      ⌊ [a; b; c; d; e; f; g] = [""; "api"; "v1"; "workers"; "jobs"; "test-set"; "items"] ⌋ &&
      is_safe_transfer_id job && is_safe_transfer_id item
  | _ => false
  end.

Definition TestSetTransferItem_valid (t : TestSetTransferItem) : bool :=
  is_safe_transfer_id (ti_test_set_item_id t) && is_item_key (ti_item_key t) &&
  (0 <=? ti_sort_order t) && (ti_sort_order t <=? 999999) &&
  len_between 1 (ti_download_path t) 512 && len_between 5 (ti_filename t) 132 &&
  (44 <=? ti_size_bytes t) && (ti_size_bytes t <=? 2 * 1024 ^ 3) &&
  lower_hex_of_length 64 (ti_sha256 t) &&
  (1 <=? ti_sample_rate_hz t) && (ti_sample_rate_hz t <=? 384000) &&
  (1 <=? ti_channels t) && (ti_channels t <=? 32) &&
  SFltb f_zero (ti_duration_seconds t) && SFleb (ti_duration_seconds t) (float_of 86400 0) &&
  test_set_item_path_matches (ti_download_path t) &&
  negb (unsafe_segments (ti_download_path t)) &&
  ⌊ ti_filename t = ti_test_set_item_id t +:+ ".wav" ⌋.

Record TestSetTransfer := mkTestSetTransfer {
  tt_test_set_id : string;
  tt_family_id : string;
  tt_revision : Z;
  tt_manifest_sha256 : string;
  tt_sample_plan_sha256 : string;
  tt_inference_config : InferencePresetConfig;
  tt_inference_config_sha256 : string;
  tt_items : list TestSetTransferItem }.

(** [math.fsum]: the exact sum, rounded once; [None] is the exception it raises on
    infinities and on overflow. *)
Definition scaled_value (f : spec_float) : option Z :=
  match f with
  | S754_zero _ => Some 0
  | S754_finite s m e => Some ((if s then -1 else 1) * Z.pos m * 2 ^ (e + 1074))
  | _ => None
  end.
Definition fsum (fs : list spec_float) : option spec_float :=
  values ← mapM scaled_value fs;
  let total := float_of (foldr Z.add 0 values) (-1074) in
  if is_finite total then Some total else None.

Fixpoint strictly_ascending (ns : list Z) : bool :=
  match ns with
  | a :: (b :: _) as rest => (a <? b) && strictly_ascending rest
  | _ => true
  end.

(** [len(set(orders)) == len(orders) and orders == sorted(orders)] is strict
    ascent. *)
Definition TestSetTransfer_valid (t : TestSetTransfer) : bool :=
  let items := tt_items t in
  is_safe_transfer_id (tt_test_set_id t) && is_safe_transfer_id (tt_family_id t) &&
  (1 <=? tt_revision t) && lower_hex_of_length 64 (tt_manifest_sha256 t) &&
  lower_hex_of_length 64 (tt_sample_plan_sha256 t) &&
  InferencePresetConfig_valid (tt_inference_config t) &&
  lower_hex_of_length 64 (tt_inference_config_sha256 t) &&
  (1 <=? Zlength items) && (Zlength items <=? 128) && forallb TestSetTransferItem_valid items &&
  ⌊ sha256_hex <$> json_dumps (dump_InferencePresetConfig (tt_inference_config t)) =
    Some (tt_inference_config_sha256 t) ⌋ &&
  distinct (map ti_test_set_item_id items) && distinct (map ti_item_key items) &&
  strictly_ascending (map ti_sort_order items) &&
  (foldr Z.add 0 (map ti_size_bytes items) <=? 2 * 1024 ^ 3) &&
  match fsum (map ti_duration_seconds items) with
  | Some total => SFleb total (float_of 3600 0)
  | None => false
  end.

Record JobClaim := mkJobClaim {
  jc_job_id : string;
  jc_attempt_id : string;
  jc_attempt_number : Z;
  jc_lease_id : string;
  jc_lease_expires_at : Z;
  jc_config : JobConfig;
  jc_config_sha256 : string;
  jc_dataset_transfer : option DatasetTransfer;
  jc_test_set_transfer : option TestSetTransfer }.

Definition dataset_download_path (job_id : string) : string :=
  "/api/v1/workers/jobs/" +:+ job_id +:+ "/dataset".
Definition test_set_item_download_path (job_id item_id : string) : string :=
  "/api/v1/workers/jobs/" +:+ job_id +:+ "/test-set/items/" +:+ item_id.

(** [==] on presets: Python compares floats by value. *)
Definition InferencePresetConfig_eqb (p q : InferencePresetConfig) : bool :=
  ⌊ inference_f0_method p = inference_f0_method q ⌋ && (transpose p =? transpose q) &&
  SFeqb (index_rate p) (index_rate q) && (filter_radius p =? filter_radius q) &&
  (resample_sr p =? resample_sr q) && SFeqb (rms_mix_rate p) (rms_mix_rate q) &&
  SFeqb (protect p) (protect q).

(** [JobClaim.validate_dataset_transfer] *)
Definition JobClaim_cross_fields (c : JobClaim) : bool :=
  let sample := auto_inference_samples (jc_config c) in
  ⌊ job_config_sha256_of (jc_config c) = Some (jc_config_sha256 c) ⌋ &&
  opt_all (λ t, ⌊ dt_dataset_id t = dataset_id (jc_config c) ⌋ &&
                ⌊ dt_download_path t = dataset_download_path (jc_job_id c) ⌋)
    (jc_dataset_transfer c) &&
  if negb (enabled sample) then is_none (jc_test_set_transfer c)
  else match jc_test_set_transfer c with
       | None => false
       | Some t =>
           ⌊ Some (tt_test_set_id t) = test_set_id sample ⌋ &&
           InferencePresetConfig_eqb (tt_inference_config t) (samples_preset sample) &&
           forallb (λ item, ⌊ ti_download_path item =
             test_set_item_download_path (jc_job_id c) (ti_test_set_item_id item) ⌋) (tt_items t)
       end.

Definition JobClaim_valid (c : JobClaim) : bool :=
  is_safe_transfer_id (jc_job_id c) && is_safe_transfer_id (jc_attempt_id c) &&
  (1 <=? jc_attempt_number c) && is_safe_transfer_id (jc_lease_id c) &&
  lower_hex_of_length 64 (jc_config_sha256 c) &&
  opt_all DatasetTransfer_valid (jc_dataset_transfer c) &&
  opt_all TestSetTransfer_valid (jc_test_set_transfer c) &&
  JobClaim_cross_fields c.

(** ** Telemetry batches ([events.py]) *)

Inductive LogLevel := DEBUG | INFO | WARNING | ERROR.
Definition LogLevel_value (l : LogLevel) : string :=
  match l with DEBUG => "debug" | INFO => "info" | WARNING => "warning" | ERROR => "error" end.

(** [occurred_at_set] is ["occurred_at" in entry.model_fields_set]. *)
Record LogEntry := mkLogEntry {
  le_sequence : Z;
  le_level : LogLevel;
  le_message : string;
  le_occurred_at : Z;
  le_occurred_at_set : bool;
  le_fields : json }.

Record LogBatch := mkLogBatch {
  lb_lease_id : string;
  lb_attempt_id : string;
  lb_idempotency_key : string;
  lb_entries : list LogEntry }.

Definition LogEntry_valid (e : LogEntry) : bool :=
  (0 <=? le_sequence e) && len_between 1 (le_message e) 32768.

Definition LogBatch_valid (b : LogBatch) : bool :=
  len_between 8 (lb_idempotency_key b) 128 &&
  (1 <=? Zlength (lb_entries b)) && (Zlength (lb_entries b) <=? 1000) &&
  forallb LogEntry_valid (lb_entries b) && distinct (map le_sequence (lb_entries b)).

Record MetricEntry := mkMetricEntry {
  me_sequence : Z;
  me_key : string;
  me_value : spec_float;
  me_epoch : option Z;
  me_step : option Z;
  me_occurred_at : Z;
  me_occurred_at_set : bool }.

Record MetricBatch := mkMetricBatch {
  mb_lease_id : string;
  mb_attempt_id : string;
  mb_idempotency_key : string;
  mb_entries : list MetricEntry }.

Definition MetricEntry_valid (e : MetricEntry) : bool :=
  (0 <=? me_sequence e) && len_between 1 (me_key e) 128 && all_chars is_name_char (me_key e) &&
  opt_all (λ n, 0 <=? n) (me_epoch e) && opt_all (λ n, 0 <=? n) (me_step e) &&
  is_finite (me_value e).

Definition MetricBatch_valid (b : MetricBatch) : bool :=
  len_between 8 (mb_idempotency_key b) 128 &&
  (1 <=? Zlength (mb_entries b)) && (Zlength (mb_entries b) <=? 1000) &&
  forallb MetricEntry_valid (mb_entries b) && distinct (map me_sequence (mb_entries b)).

Inductive ArtifactType :=
  | FINAL_SMALL_MODEL | FINAL_INDEX | TOTAL_FEATURES | GENERATOR_CHECKPOINT
  | DISCRIMINATOR_CHECKPOINT | TRAIN_LOG | TENSORBOARD | SAMPLE | ENVIRONMENT | CONFIG
  | DATASET_REPORT.

#[export] Instance ArtifactType_eq_dec : EqDecision ArtifactType.
Proof. solve_decision. Defined.

Definition ArtifactType_value (t : ArtifactType) : string :=
  match t with
  | FINAL_SMALL_MODEL => "final_small_model" | FINAL_INDEX => "final_index"
  | TOTAL_FEATURES => "total_features" | GENERATOR_CHECKPOINT => "generator_checkpoint"
  | DISCRIMINATOR_CHECKPOINT => "discriminator_checkpoint" | TRAIN_LOG => "train_log"
  | TENSORBOARD => "tensorboard" | SAMPLE => "sample" | ENVIRONMENT => "environment"
  | CONFIG => "config" | DATASET_REPORT => "dataset_report"
  end.

(** The checksum is stored in lower case by [normalize_sha256]. *)
Record ArtifactItem := mkArtifactItem {
  ai_artifact_type : ArtifactType;
  ai_filename : string;
  ai_storage_uri : string;
  ai_size_bytes : Z;
  ai_sha256 : string;
  ai_mime_type : option string;
  ai_metadata : json }.

Record ArtifactBatch := mkArtifactBatch {
  ab_lease_id : string;
  ab_attempt_id : string;
  ab_idempotency_key : string;
  ab_artifacts : list ArtifactItem }.

(** [safe_filename]: no path separator of POSIX or Windows. *)
Definition safe_filename (s : string) : bool :=
  negb ⌊ s ∈ ["."; ".."] ⌋ && negb (contains s "/") && negb (contains s "\").

Definition ArtifactItem_valid (a : ArtifactItem) : bool :=
  len_between 1 (ai_filename a) 255 && len_between 1 (ai_storage_uri a) 2048 &&
  (0 <=? ai_size_bytes a) && lower_hex_of_length 64 (ai_sha256 a) &&
  opt_all (λ s, py_len s <=? 255) (ai_mime_type a) && safe_filename (ai_filename a).

Definition ArtifactBatch_valid (b : ArtifactBatch) : bool :=
  len_between 8 (ab_idempotency_key b) 128 &&
  (1 <=? Zlength (ab_artifacts b)) && (Zlength (ab_artifacts b) <=? 100) &&
  forallb ArtifactItem_valid (ab_artifacts b) &&
  distinct (map (λ a, (ai_artifact_type a, ai_sha256 a)) (ab_artifacts b)).
