(* ===== verification/DateTime.v ===== *)
(** * Timestamps

    [datetime.isoformat()] on a UTC timestamp, the text form the Manager hashes and
    audits.  A timestamp is a number of microseconds since 1970-01-01T00:00:00+00:00. *)

From S2P Require Import Prelude.

(** Decimal digits of [n], padded with zeros to [width]. *)
Fixpoint digits (width : nat) (n : Z) : string :=
  match width with
  | O => ""
  | S w => digits w (n / 10) +:+ String (chr (48 + n mod 10)) ""
  end.

(** The proleptic Gregorian date of a day number: year, month, day. *)
Definition civil_from_days (days : Z) : Z * Z * Z :=
  let z := days + 719468 in
  let era := z / 146097 in
  let doe := z mod 146097 in
  let yoe := (doe - doe / 1460 + doe / 36524 - doe / 146096) / 365 in
  let doy := doe - (365 * yoe + yoe / 4 - yoe / 100) in
  let mp := (5 * doy + 2) / 153 in
  let day := doy - (153 * mp + 2) / 5 + 1 in
  let month := if mp <? 10 then mp + 3 else mp - 9 in
  let year := yoe + era * 400 + (if month <=? 2 then 1 else 0) in
  (year, month, day).

Definition isoformat (t : Z) : string :=
  let secs := t / 1000000 in
  let micros := t mod 1000000 in
  let '(year, month, day) := civil_from_days (secs / 86400) in
  let sod := secs mod 86400 in
  digits 4 year +:+ "-" +:+ digits 2 month +:+ "-" +:+ digits 2 day +:+ "T" +:+
  digits 2 (sod / 3600) +:+ ":" +:+ digits 2 (sod / 60 mod 60) +:+ ":" +:+ digits 2 (sod mod 60) +:+
  (if micros =? 0 then "" else "." +:+ digits 6 micros) +:+ "+00:00".

Example isoformat_epoch : isoformat 0 = "1970-01-01T00:00:00+00:00".
Proof. reflexivity. Qed.
Example isoformat_leap : isoformat (951827696 * 1000000 + 123456) = "2000-02-29T12:34:56.123456+00:00".
Proof. reflexivity. Qed.
Example isoformat_2024 : isoformat (1735689599 * 1000000) = "2024-12-31T23:59:59+00:00".
Proof. reflexivity. Qed.
