(* ===== verification/PyText.v ===== *)
(** * Text

    The operations of Python's [str] and [uuid] that the account and log routes use:
    whitespace and case folding, [int(text, 16)], [uuid.UUID(text)].  A string is its
    UTF-8 encoding.  The ASCII part of the character tables is written out; what the
    Unicode database says of other characters is the interface [UnicodeTables], whose
    operations take the encoding of one character. *)

From S2P Require Import Prelude.

Class UnicodeTables := {
  uni_casefold : string → string;
  uni_is_space : string → bool;
  uni_decimal : string → option Z }.

(** ** Characters *)

(** The characters of a string: a continuation byte belongs to what precedes it. *)
Fixpoint utf8_chars (s : string) : list string :=
  match s with
  | EmptyString => []
  | String c s' =>
      match utf8_chars s' with
      | String d w :: ws => if is_continuation d then String c (String d w) :: ws
                            else String c "" :: String d w :: ws
      | ws => String c "" :: ws
      end
  end.

Definition is_ascii (c : ascii) : bool := code c <? 128.

Definition ascii_space (c : ascii) : bool :=
  (code c =? 32) || ((9 <=? code c) && (code c <=? 13)) || ((28 <=? code c) && (code c <=? 31)).

Definition ascii_lower (c : ascii) : ascii := if is_upper c then chr (code c + 32) else c.

Section text.
  Context `{UnicodeTables}.

(** [ch.isspace()], which is also [\s] *)
Definition char_space (w : string) : bool :=
  match w with
  | String c "" => if is_ascii c then ascii_space c else uni_is_space w
  | _ => uni_is_space w
  end.

Definition char_fold (w : string) : string :=
  match w with
  | String c "" => if is_ascii c then String (ascii_lower c) "" else uni_casefold w
  | _ => uni_casefold w
  end.

Definition join (ws : list string) : string := String.concat "" ws.

Fixpoint drop_spaces (ws : list string) : list string :=
  match ws with
  | w :: ws' => if char_space w then drop_spaces ws' else ws
  | [] => []
  end.

(** [text.strip()] *)
Definition py_strip (s : string) : string :=
  join (rev (drop_spaces (rev (drop_spaces (utf8_chars s))))).

(** [text.casefold()] *)
Definition py_casefold (s : string) : string := join (map char_fold (utf8_chars s)).

(** ** [int(text, 16)] *)

(** A decimal digit of any script, or a letter of the base. *)
Definition hex_value (w : string) : option Z :=
  match w with
  | String c "" =>
      if is_digit c then Some (code c - 48)
      else if (97 <=? code c) && (code c <=? 102) then Some (code c - 87)
      else if (65 <=? code c) && (code c <=? 70) then Some (code c - 55)
      else if is_ascii c then None else uni_decimal w
  | _ => uni_decimal w
  end.

(** Single underscores may separate digits. *)
Fixpoint hex_digits (acc : Z) (after_digit : bool) (ws : list string) : option Z :=
  match ws with
  | [] => if after_digit then Some acc else None
  | w :: ws' =>
      match hex_value w with
      | Some v => hex_digits (16 * acc + v) true ws'
      | None => if ⌊ w = "_" ⌋ && after_digit then hex_digits acc false ws' else None
      end
  end.

(** The prefix [0x], and an underscore after it. *)
Definition hex_prefixed (ws : list string) : option Z :=
  match ws with
  | zero :: x :: ws' =>
      if ⌊ hex_value zero = Some 0 ⌋ && (⌊ x = "x" ⌋ || ⌊ x = "X" ⌋) then
        match ws' with
        | u :: ws'' => if ⌊ u = "_" ⌋ then hex_digits 0 false ws'' else hex_digits 0 false ws'
        | [] => None
        end
      else hex_digits 0 false ws
  | _ => hex_digits 0 false ws
  end.

(** [None] is the [ValueError]. *)
Definition py_int16 (s : string) : option Z :=
  match utf8_chars (py_strip s) with
  | sign :: ws =>
      if ⌊ sign = "-" ⌋ then Z.opp <$> hex_prefixed ws
      else if ⌊ sign = "+" ⌋ then hex_prefixed ws
      else hex_prefixed (sign :: ws)
  | [] => None
  end.

(** ** [uuid.UUID(text)] *)

(** [text.replace(part, "")]; [skip] characters of a match are still to be dropped. *)
Fixpoint remove_all (part : string) (skip : nat) (s : string) : string :=
  match s with
  | EmptyString => EmptyString
  | String c s' =>
      match skip with
      | S skip' => remove_all part skip' s'
      | O => if str_prefix part s then remove_all part (String.length part - 1) s'
             else String c (remove_all part 0 s')
      end
  end.

Definition is_brace (c : ascii) : bool := (code c =? 123) || (code c =? 125).

Fixpoint drop_braces (cs : list ascii) : list ascii :=
  match cs with
  | c :: cs' => if is_brace c then drop_braces cs' else cs
  | [] => []
  end.

(** [text.strip("{}")] *)
Definition strip_braces (s : string) : string :=
  String.string_of_list_ascii (rev (drop_braces (rev (drop_braces (str_chars s))))).

Definition uuid_hex (s : string) : string :=
  remove_all "-" 0 (strip_braces (remove_all "uuid:" 0 (remove_all "urn:" 0 s))).

(** The constructor does not raise [ValueError]. *)
Definition is_uuid (s : string) : bool :=
  let hex := uuid_hex s in
  (py_len hex =? 32) &&
  match py_int16 hex with
  | Some n => (0 <=? n) && (n <? 2 ^ 128)
  | None => false
  end.

(** ** Email addresses *)

(** Splits at the first [@]: [^[^@\s]+@[^@\s]+\.[^@\s]+$] has one. *)
Fixpoint split_at (ws : list string) : option (list string * list string) :=
  match ws with
  | [] => None
  | w :: ws' =>
      if ⌊ w = "@" ⌋ then Some ([], ws')
      else '(a, b) ← split_at ws'; Some (w :: a, b)
  end.

(** A dot with something on both sides. *)
Fixpoint inner_dot (ws : list string) : bool :=
  match ws with
  | _ :: ((d :: _ :: _) as ws') => ⌊ d = "." ⌋ || inner_dot ws'
  | _ => false
  end.

(** [_EMAIL_PATTERN.fullmatch(text)] *)
Definition email_pattern (s : string) : bool :=
  match split_at (utf8_chars s) with
  | Some (a, b) =>
      negb ⌊ a = [] ⌋ &&
      forallb (λ w, negb ⌊ w = "@" ⌋ && negb (char_space w)) (a ++ b) && inner_dot b
  | None => false
  end.
End text.
