(* ===== verification/Base64.v ===== *)
(** * Base 64

    [base64.urlsafe_b64encode] and [base64.b64decode(text, altchars=b"-_", validate=True)]
    of Python's standard library, on lists of bytes, and their round trip. *)

From S2P Require Import Prelude.

(** ** The alphabet *)

(** [altchars] replaces [+/] by [-_] when encoding. *)
Definition b64_char (n : Z) : ascii :=
  chr (if n <? 26 then 65 + n else if n <? 52 then 71 + n else if n <? 62 then n - 4
       else if n =? 62 then 45 else 95).

(** When decoding, [-_] are translated to [+/], which are themselves still accepted. *)
Definition b64_value (c : ascii) : option Z :=
  let n := code c in
  if is_upper c then Some (n - 65)
  else if is_lower c then Some (n - 71)
  else if is_digit c then Some (n + 4)
  else if (n =? 45) || (n =? 43) then Some 62
  else if (n =? 95) || (n =? 47) then Some 63
  else None.

Definition pad : ascii := chr 61.

(** ** Encoding *)

(** The digits of the encoding, without the padding. *)
Fixpoint b64_digits (bs : list Z) : list ascii :=
  match bs with
  | a :: b :: c :: bs' =>
      b64_char (a / 4) :: b64_char (a mod 4 * 16 + b / 16) ::
      b64_char (b mod 16 * 4 + c / 64) :: b64_char (c mod 64) :: b64_digits bs'
  | [a; b] => [b64_char (a / 4); b64_char (a mod 4 * 16 + b / 16); b64_char (b mod 16 * 4)]
  | [a] => [b64_char (a / 4); b64_char (a mod 4 * 16)]
  | [] => []
  end.

(** [-len(text) % 4] *)
Definition padding (cs : list ascii) : list ascii :=
  replicate (Z.to_nat (- Zlength cs mod 4)) pad.

Definition urlsafe_b64encode (bs : list Z) : list ascii := b64_digits bs ++ padding (b64_digits bs).

(** [text.rstrip("=")] *)
Fixpoint drop_pads (cs : list ascii) : list ascii :=
  match cs with
  | c :: cs' => if ⌊ c = pad ⌋ then drop_pads cs' else cs
  | [] => []
  end.
Definition rstrip_pads (cs : list ascii) : list ascii := rev (drop_pads (rev cs)).

(** ** Decoding

    [binascii.a2b_base64(data, strict_mode=True)]: the position in the current group of
    four digits, the bits left over from the previous digit, the padding seen in the
    group, and whether any was seen at all.  [None] is [binascii.Error]. *)
Fixpoint a2b_base64 (quad left pads : Z) (padded : bool) (cs : list ascii) : option (list Z) :=
  match cs with
  | [] => if quad =? 0 then Some [] else None
  | c :: cs' =>
      if ⌊ c = pad ⌋ then
        if 2 <=? quad then
          if 4 <=? quad + (pads + 1) then (if ⌊ cs' = [] ⌋ then Some [] else None)
          else a2b_base64 quad left (pads + 1) true cs'
        else a2b_base64 quad left pads true cs'
      else
        v ← b64_value c;
        if padded then None
        else if quad =? 0 then a2b_base64 1 v 0 false cs'
        else if quad =? 1 then bs ← a2b_base64 2 (v mod 16) 0 false cs'; Some (left * 4 + v / 16 :: bs)
        else if quad =? 2 then bs ← a2b_base64 3 (v mod 4) 0 false cs'; Some (left * 16 + v / 4 :: bs)
        else bs ← a2b_base64 0 0 0 false cs'; Some (left * 64 + v :: bs)
  end.

(** A padding character that opens the text is refused. *)
Definition b64decode (cs : list ascii) : option (list Z) :=
  if ⌊ head cs = Some pad ⌋ then None else a2b_base64 0 0 0 false cs.

(** ** The round trip *)

Definition is_byte (n : Z) : Prop := 0 <= n < 256.

(** What the decoder sees of a digit. *)
Lemma b64_value_char n : 0 <= n < 64 → b64_char n ≠ pad ∧ b64_value (b64_char n) = Some n.
Proof.
  intros Hn. assert (Forall (λ n, b64_char n ≠ pad ∧ b64_value (b64_char n) = Some n)
    (seqZ 0 64)) as Hall by (refine (bool_decide_unpack _ _); vm_compute; exact I).
  rewrite Forall_forall in Hall. apply Hall. apply elem_of_seqZ. lia.
Qed.

Lemma a2b_digit quad left cs n :
  0 <= n < 64 →
  a2b_base64 quad left 0 false (b64_char n :: cs) =
  if quad =? 0 then a2b_base64 1 n 0 false cs
  else if quad =? 1 then bs ← a2b_base64 2 (n mod 16) 0 false cs; Some (left * 4 + n / 16 :: bs)
  else if quad =? 2 then bs ← a2b_base64 3 (n mod 4) 0 false cs; Some (left * 16 + n / 4 :: bs)
  else bs ← a2b_base64 0 0 0 false cs; Some (left * 64 + n :: bs).
Proof.
  intros Hn. destruct (b64_value_char n Hn) as [Hp Hv]. cbn [a2b_base64].
  rewrite bool_decide_eq_false_2 by done. by rewrite Hv.
Qed.

Lemma a2b_pads x :
  a2b_base64 2 x 0 false (replicate 2 pad) = Some [] ∧
  a2b_base64 3 x 0 false (replicate 1 pad) = Some [].
Proof. done. Qed.

(** Induction on the groups of three bytes. *)
Lemma groups_ind (P : list Z → Prop) :
  P [] → (∀ a, P [a]) → (∀ a b, P [a; b]) → (∀ a b c bs, P bs → P (a :: b :: c :: bs)) →
  ∀ bs, P bs.
Proof.
  intros H0 H1 H2 H3. fix IH 1. intros [|a [|b [|c bs]]]; [done|apply H1|apply H2|apply H3, IH].
Qed.

(** Reads the digits of a group and puts the bytes together again. *)
Ltac read_digits :=
  repeat (rewrite a2b_digit by (zify; Z.to_euclidean_division_equations; lia); cbn [Z.eqb Pos.eqb]).

Ltac pad_count n := match goal with |- context [Z.to_nat ?e] => change (Z.to_nat e) with n end.

Lemma digits_length bs :
  Zlength (b64_digits bs) mod 4 = match Zlength bs mod 3 with 0 => 0 | 1 => 2 | _ => 3 end.
Proof.
  induction bs as [|a|a b|a b c bs IH] using groups_ind; [done..|].
  unfold Zlength in *. cbn [b64_digits length].
  replace (Z.of_nat (S (S (S (S (length (b64_digits bs))))))) with
    (Z.of_nat (length (b64_digits bs)) + 1 * 4) by lia.
  replace (Z.of_nat (S (S (S (length bs))))) with (Z.of_nat (length bs) + 1 * 3) by lia.
  by rewrite !Z.mod_add.
Qed.

Lemma digits_head bs : Forall is_byte bs → head (b64_digits bs) ≠ Some pad.
Proof.
  intros Hbs. destruct bs as [|a bs]; [done|]. apply Forall_cons in Hbs as [Ha _]. unfold is_byte in Ha.
  destruct (b64_value_char (a / 4)) as [Hp _]; [Z.to_euclidean_division_equations; lia|].
  destruct bs as [|b [|c bs]]; simpl; congruence.
Qed.

Lemma digits_not_pad bs : Forall is_byte bs → Forall (λ c, c ≠ pad) (b64_digits bs).
Proof.
  intros Hbs. assert (∀ n, 0 <= n < 64 → b64_char n ≠ pad) as Hc by (intros n Hn; by apply b64_value_char).
  induction bs as [|a|a b|a b c bs IH] using groups_ind; simpl; unfold is_byte in *;
    decompose_Forall_hyps; repeat constructor;
    try (apply Hc; Z.to_euclidean_division_equations; lia).
  by apply IH.
Qed.

Lemma a2b_digits bs :
  Forall is_byte bs → a2b_base64 0 0 0 false (b64_digits bs ++ padding (b64_digits bs)) = Some bs.
Proof.
  unfold padding.
  assert (∀ n, - n mod 4 = (4 - n mod 4) mod 4) as Hneg
    by (intros n; Z.to_euclidean_division_equations; lia).
  rewrite Hneg, digits_length. clear Hneg. unfold is_byte.
  induction bs as [|a|a b|a b c bs IH] using groups_ind; intros Hbs.
  - done.
  - rewrite !Forall_cons in Hbs. destruct_and? Hbs. cbn [b64_digits app]. read_digits.
    pad_count 2%nat. rewrite (proj1 (a2b_pads _)).
    simpl. do 2 f_equal. Z.to_euclidean_division_equations; lia.
  - rewrite !Forall_cons in Hbs. destruct_and? Hbs. cbn [b64_digits app]. read_digits.
    pad_count 1%nat. rewrite (proj2 (a2b_pads _)).
    simpl. repeat f_equal; Z.to_euclidean_division_equations; lia.
  - rewrite !Forall_cons in Hbs. destruct_and? Hbs. cbn [b64_digits app]. read_digits.
    replace (Zlength (a :: b :: c :: bs)) with (Zlength bs + 1 * 3)
      by (unfold Zlength; simpl; lia).
    rewrite Z.mod_add by done. rewrite IH by done. simpl.
    repeat f_equal; Z.to_euclidean_division_equations; lia.
Qed.

(** [rstrip("=")] takes the padding away, and nothing else. *)
Lemma rstrip_encode bs : Forall is_byte bs → rstrip_pads (urlsafe_b64encode bs) = b64_digits bs.
Proof.
  intros Hbs. unfold rstrip_pads, urlsafe_b64encode. rewrite rev_app_distr.
  unfold padding. generalize (Z.to_nat (- Zlength (b64_digits bs) mod 4)). intros n.
  rewrite <-(rev_involutive (b64_digits bs)) at 2. f_equal.
  induction n as [|n IH].
  - pose proof (digits_not_pad bs Hbs) as Hd. simpl. apply Forall_rev in Hd.
    destruct Hd as [|c cs Hc]; [done|]. simpl. by rewrite bool_decide_eq_false_2.
  - rewrite replicate_S_end, rev_app_distr. simpl. exact IH.
Qed.

(** Decoding the stripped text with its padding restored gives the bytes back. *)
Lemma b64decode_stripped bs :
  Forall is_byte bs →
  let text := rstrip_pads (urlsafe_b64encode bs) in b64decode (text ++ padding text) = Some bs.
Proof.
  intros Hbs. cbv zeta. rewrite rstrip_encode by done. unfold b64decode.
  rewrite bool_decide_eq_false_2; [by apply a2b_digits|].
  pose proof (digits_head bs Hbs). pose proof (digits_length bs) as Hlen.
  destruct (b64_digits bs); [|done]. by unfold padding.
Qed.

Example b64_example :
  urlsafe_b64encode [251; 255; 104; 105] = str_chars "-_9oaQ==" ∧
  b64decode (str_chars "-_9oaQ==") = Some [251; 255; 104; 105] ∧
  b64decode (str_chars "+/9oaQ==") = Some [251; 255; 104; 105] ∧
  b64decode (str_chars "-_9oaQ") = None ∧ b64decode (str_chars "-_9 aQ==") = None.
Proof. vm_compute. done. Qed.
