(* ===== verification/ObjectKeys.v ===== *)
(** * Object keys

    The keys under which [services/artifacts.py] stores the files of an upload, and
    the validation of a key by [storage.py]. *)

From S2P Require Import Prelude.

(** The file a Worker sends, and the verified copy of it. *)
Definition staging_object_key (attempt_id upload_session_id : string) : string :=
  "artifacts/staging/" +:+ attempt_id +:+ "/" +:+ upload_session_id.
Definition canonical_object_key (job_id attempt_id artifact_type upload_session_id : string)
    : string :=
  "artifacts/verified/" +:+ job_id +:+ "/" +:+ attempt_id +:+ "/" +:+ artifact_type +:+ "/" +:+
  upload_session_id.

(** The parts of [PurePosixPath(object_key)], when it is a relative path that does not
    climb; [None] is [InvalidObjectKey]. *)
Definition validate_object_key (object_key : string) : option (list string) :=
  let parts := List.filter (λ part, negb ⌊ part = "" ⌋ && negb ⌊ part = "." ⌋)
                 (split_on (chr 47) object_key) in
  if ⌊ object_key = "" ⌋ || existsb (λ c, ⌊ c = chr 92 ⌋) (str_chars object_key) ||
     startswith object_key "/" || existsb (λ part, ⌊ part = ".." ⌋) parts
  then None else Some parts.

(** [PurePosixPath.as_posix] of a relative path *)
Definition as_posix (parts : list string) : string :=
  match parts with [] => "." | p :: ps => foldl (λ path part, path +:+ "/" +:+ part) p ps end.

(** No staged file is stored under the key of a verified one. *)
Lemma staging_not_canonical a u j a' ty u' :
  staging_object_key a u ≠ canonical_object_key j a' ty u'.
Proof. unfold staging_object_key, canonical_object_key. intros [=]. Qed.

(** The parts of a valid key name no parent directory. *)
Lemma validate_object_key_parts key parts :
  validate_object_key key = Some parts → ".." ∉ parts ∧ "" ∉ parts ∧ "." ∉ parts.
Proof.
  unfold validate_object_key. set (ps := List.filter _ _).
  destruct (_ || existsb _ ps) eqn:Hb; [done|]. intros [= <-].
  apply orb_false_iff in Hb as [_ Hb]. split.
  - intros Hin%list_elem_of_In. apply not_true_iff_false in Hb. apply Hb, existsb_exists.
    exists "..". by rewrite bool_decide_eq_true_2.
  - split; intros [_ Hp]%list_elem_of_In%filter_In; by simpl in Hp.
Qed.
