(* ===== verification/JsonRead.v ===== *)
(** * Reading JSON

    [json.loads] of Python's standard library on bytes: the detection of the encoding, the
    scanner of [json.scanner], and what it reads of the documents the program writes.
    A text is a list of UTF-8 bytes; a surrogate code point, which [surrogatepass] lets
    through, is its three-byte encoding.  [None] is a [ValueError] ([JSONDecodeError] and
    [UnicodeDecodeError] are such). *)

From S2P Require Import Prelude Json PyText.

(** ** From bytes to text *)

(** The UTF-8 encoding of a code point. *)
Definition utf8_encode (n : Z) : list ascii :=
  let tail k := chr (128 + n / 2 ^ k mod 64) in
  if n <? 128 then [chr n]
  else if n <? 2048 then [chr (192 + n / 64); tail 0]
  else if n <? 65536 then [chr (224 + n / 4096); tail 6; tail 0]
  else [chr (240 + n / 262144); tail 12; tail 6; tail 0].

Definition between (lo hi n : Z) : bool := (lo <=? n) && (n <=? hi).

(** Well-formed UTF-8, surrogates included. *)
Fixpoint utf8_valid (bs : list Z) : bool :=
  let cont := between 128 191 in
  match bs with
  | [] => true
  | a :: bs =>
      if a <? 128 then utf8_valid bs else
      match bs with
      | [] => false
      | b :: bs =>
          if between 194 223 a then cont b && utf8_valid bs else
          match bs with
          | [] => false
          | c :: bs =>
              if between 224 239 a
              then between (if a =? 224 then 160 else 128) 191 b && cont c && utf8_valid bs else
              match bs with
              | [] => false
              | d :: bs =>
                  between 240 244 a &&
                  between (if a =? 240 then 144 else 128) (if a =? 244 then 143 else 191) b &&
                  cont c && cont d && utf8_valid bs
              end
          end
      end
  end.

Definition high_surrogate (n : Z) : bool := between 55296 56319 n.
Definition low_surrogate (n : Z) : bool := between 56320 57343 n.
Definition join_surrogates (high low : Z) : Z := 65536 + (high - 55296) * 1024 + (low - 56320).

(** Units of 16 bits. *)
Fixpoint utf16_units (big : bool) (bs : list Z) : option (list Z) :=
  match bs with
  | [] => Some []
  | a :: b :: bs => us ← utf16_units big bs; Some ((if big then 256 * a + b else 256 * b + a) :: us)
  | _ => None
  end.
Fixpoint utf16_decode (us : list Z) : list ascii :=
  match us with
  | [] => []
  | u :: us' =>
      match us' with
      | v :: us'' => if high_surrogate u && low_surrogate v
                     then utf8_encode (join_surrogates u v) ++ utf16_decode us''
                     else utf8_encode u ++ utf16_decode us'
      | [] => utf8_encode u
      end
  end.
Fixpoint utf32_decode (big : bool) (bs : list Z) : option (list ascii) :=
  match bs with
  | [] => Some []
  | a :: b :: c :: d :: bs =>
      let n := if big then 16777216 * a + 65536 * b + 256 * c + d
               else 16777216 * d + 65536 * c + 256 * b + a in
      if n <=? 1114111 then cs ← utf32_decode big bs; Some (utf8_encode n ++ cs) else None
  | _ => None
  end.

Definition text_of_utf8 (bs : list Z) : option (list ascii) :=
  if utf8_valid bs then Some (map chr bs) else None.
Definition text_of_utf16 (big : bool) (bs : list Z) : option (list ascii) :=
  utf16_decode <$> utf16_units big bs.

(** [bs.decode(json.detect_encoding(bs), "surrogatepass")]; a byte order mark is dropped. *)
Definition json_text (bs : list Z) : option (list ascii) :=
  match bs with
  | 0 :: 0 :: 254 :: 255 :: bs => utf32_decode true bs
  | 255 :: 254 :: 0 :: 0 :: bs => utf32_decode false bs
  | 254 :: 255 :: bs => text_of_utf16 true bs
  | 255 :: 254 :: bs => text_of_utf16 false bs
  | 239 :: 187 :: 191 :: bs => text_of_utf8 bs
  | 0 :: 0 :: _ :: _ :: _ => utf32_decode true bs
  | 0 :: _ :: _ :: _ :: _ => text_of_utf16 true bs
  | _ :: 0 :: 0 :: 0 :: _ => utf32_decode false bs
  | _ :: 0 :: _ :: _ :: _ => text_of_utf16 false bs
  | [0; _] => text_of_utf16 true bs
  | [_; 0] => text_of_utf16 false bs
  | _ => text_of_utf8 bs
  end.

(** ** Strings *)

Definition hex_digit_value (c : ascii) : option Z :=
  if is_digit c then Some (code c - 48)
  else if between 97 102 (code c) then Some (code c - 87)
  else if between 65 70 (code c) then Some (code c - 55)
  else None.

(** The code unit of four hexadecimal digits, and the rest. *)
Definition unicode_escape (cs : list ascii) : option (Z * list ascii) :=
  match cs with
  | a :: b :: c :: d :: cs =>
      a ← hex_digit_value a; b ← hex_digit_value b; c ← hex_digit_value c; d ← hex_digit_value d;
      Some (4096 * a + 256 * b + 16 * c + d, cs)
  | _ => None
  end.

Definition simple_escape (c : ascii) : option ascii :=
  match code c with
  | 34 => Some c | 92 => Some c | 47 => Some c
  | 98 => Some (chr 8) | 102 => Some (chr 12) | 110 => Some (chr 10) | 114 => Some (chr 13)
  | 116 => Some (chr 9) | _ => None
  end.

(** The code point of an escape, a pair of surrogates being one, and the rest. *)
Definition code_point (cs : list ascii) : option (Z * list ascii) :=
  '(u, cs) ← unicode_escape cs;
  match cs with
  | b :: e :: cs' =>
      if high_surrogate u && ⌊ code b = 92 ⌋ && ⌊ code e = 117 ⌋ then
        '(v, cs'') ← unicode_escape cs';
        if low_surrogate v then Some (join_surrogates u v, cs'') else Some (u, cs)
      else Some (u, cs)
  | _ => Some (u, cs)
  end.

(** The characters up to the closing quotation mark, and the rest. *)
Fixpoint scan_string (fuel : nat) (cs : list ascii) : option (list ascii * list ascii) :=
  match fuel, cs with
  | S fuel, c :: cs =>
      if code c =? 34 then Some ([], cs)
      else if code c =? 92 then
        match cs with
        | e :: cs =>
            if code e =? 117 then
              '(n, cs) ← code_point cs; '(s, cs) ← scan_string fuel cs;
              Some (utf8_encode n ++ s, cs)
            else c ← simple_escape e; '(s, cs) ← scan_string fuel cs; Some (c :: s, cs)
        | [] => None
        end
      else if code c <? 32 then None
      else '(s, cs) ← scan_string fuel cs; Some (c :: s, cs)
  | _, _ => None
  end.

(** ** Numbers *)

Fixpoint span_digits (cs : list ascii) : list ascii * list ascii :=
  match cs with
  | c :: cs' => if is_digit c then let '(ds, r) := span_digits cs' in (c :: ds, r) else ([], cs)
  | [] => ([], [])
  end.
Definition digits_value (ds : list ascii) : Z := foldl (λ n c, 10 * n + (code c - 48)) 0 ds.

(** A float from [c * 10^k]: correctly rounded, ties to even. *)
Definition float_of_scaled (c k : Z) : spec_float :=
  if 0 <=? k then float_of (c * 10 ^ k) 0 else
  let den := 10 ^ (- k) in
  let shift := 66 + Z.log2 den in
  let scaled := c * 2 ^ shift in
  float_of (2 * (scaled / den) + (if scaled mod den =? 0 then 0 else 1)) (- shift - 1).

Definition is_char (c : ascii) (n : Z) : bool := code c =? n.

(** The fraction: its digits and the rest. *)
Definition scan_fraction (cs : list ascii) : option (list ascii * list ascii) :=
  match cs with
  | dot :: ((d :: _) as cs') => if is_char dot 46 && is_digit d then Some (span_digits cs') else None
  | _ => None
  end.
(** The exponent: its value and the rest. *)
Definition scan_exponent (cs : list ascii) : option (Z * list ascii) :=
  match cs with
  | e :: cs' =>
      if is_char e 101 || is_char e 69 then
        let '(neg, cs') := match cs' with
                           | s :: cs'' => if is_char s 45 then (true, cs'')
                                          else if is_char s 43 then (false, cs'') else (false, cs')
                           | [] => (false, [])
                           end in
        match span_digits cs' with
        | ([], _) => None
        | (ds, r) => Some (if neg then - digits_value ds else digits_value ds, r)
        end
      else None
  | [] => None
  end.

(** An integer of more than 4300 digits is a [ValueError]. *)
Definition scan_number (cs : list ascii) : option (json * list ascii) :=
  let '(neg, cs) := match cs with
                    | c :: cs' => if is_char c 45 then (true, cs') else (false, cs)
                    | [] => (false, cs)
                    end in
  '(ds, r) ← match cs with
             | c :: cs' => if is_char c 48 then Some ([c], cs')
                           else if is_digit c then Some (span_digits cs) else None
             | [] => None
             end;
  let fraction := scan_fraction r in
  let '(fs, r) := default ([], r) fraction in
  let exponent := scan_exponent r in
  let '(e, r) := default (0, r) exponent in
  if is_none fraction && is_none exponent then
    if 4300 <? Zlength ds then None
    else Some (JInt (if neg then - digits_value ds else digits_value ds), r)
  else
    let f := float_of_scaled (digits_value (ds ++ fs)) (e - Zlength fs) in
    Some (JFloat (if neg then SFopp f else f), r).

(** ** Values *)

Definition is_json_space (c : ascii) : bool :=
  is_char c 32 || is_char c 9 || is_char c 10 || is_char c 13.
Fixpoint skip_space (cs : list ascii) : list ascii :=
  match cs with
  | c :: cs' => if is_json_space c then skip_space cs' else cs
  | [] => []
  end.

(** The constant at the head of the text is dropped. *)
Fixpoint drop_prefix (word cs : list ascii) : option (list ascii) :=
  match word, cs with
  | [], _ => Some cs
  | w :: word, c :: cs => if ⌊ w = c ⌋ then drop_prefix word cs else None
  | _, [] => None
  end.
Fixpoint scan_constant (words : list (string * json)) (cs : list ascii)
    : option (json * list ascii) :=
  match words with
  | [] => None
  | (w, j) :: words => match drop_prefix (str_chars w) cs with
                       | Some r => Some (j, r)
                       | None => scan_constant words cs
                       end
  end.
Definition constants : list (string * json) :=
  [("null", JNull); ("true", JBool true); ("false", JBool false);
   ("NaN", JFloat S754_nan); ("Infinity", JFloat (S754_infinity false));
   ("-Infinity", JFloat (S754_infinity true))].

(** A repeated key keeps its place and takes the last value. *)
Fixpoint put_key (key : string) (v : json) (fs : list (string * json)) : list (string * json) :=
  match fs with
  | [] => [(key, v)]
  | (k, w) :: fs => if ⌊ k = key ⌋ then (k, v) :: fs else (k, w) :: put_key key v fs
  end.

Definition string_of (cs : list ascii) : string := String.string_of_list_ascii cs.

(** [scan_once], and the elements of an array and the members of an object after the
    first bracket; each call reads a character at least, so the length of the text is
    enough fuel. *)
Fixpoint scan_once (fuel : nat) (cs : list ascii) {struct fuel} : option (json * list ascii) :=
  match fuel, cs with
  | S fuel, c :: cs' =>
      if is_char c 34 then '(s, r) ← scan_string fuel cs'; Some (JString (string_of s), r)
      else if is_char c 91 then
        match skip_space cs' with
        | d :: r => if is_char d 93 then Some (JArray [], r)
                    else '(xs, r) ← scan_items fuel (d :: r); Some (JArray xs, r)
        | [] => None
        end
      else if is_char c 123 then
        match skip_space cs' with
        | d :: r => if is_char d 125 then Some (JObject [], r)
                    else '(fs, r) ← scan_members fuel [] (d :: r); Some (JObject fs, r)
        | [] => None
        end
      else match scan_constant constants cs with Some r => Some r | None => scan_number cs end
  | _, _ => None
  end
with scan_items (fuel : nat) (cs : list ascii) {struct fuel} : option (list json * list ascii) :=
  match fuel with
  | O => None
  | S fuel =>
      '(x, r) ← scan_once fuel cs;
      match skip_space r with
      | c :: r => if is_char c 93 then Some ([x], r)
                  else if is_char c 44 then '(xs, r) ← scan_items fuel (skip_space r); Some (x :: xs, r)
                  else None
      | [] => None
      end
  end
with scan_members (fuel : nat) (fs : list (string * json)) (cs : list ascii) {struct fuel}
    : option (list (string * json) * list ascii) :=
  match fuel, cs with
  | S fuel, q :: cs =>
      if negb (is_char q 34) then None else
      '(key, r) ← scan_string fuel cs;
      match skip_space r with
      | c :: r =>
          if negb (is_char c 58) then None else
          '(v, r) ← scan_once fuel (skip_space r);
          let fs := put_key (string_of key) v fs in
          match skip_space r with
          | c :: r => if is_char c 125 then Some (fs, r)
                      else if is_char c 44 then scan_members fuel fs (skip_space r)
                      else None
          | [] => None
          end
      | [] => None
      end
  | _, _ => None
  end.

(** [json.loads(bs)] *)
Definition json_loads (bs : list Z) : option json :=
  cs ← json_text bs;
  '(j, r) ← scan_once (S (length cs)) (skip_space cs);
  if ⌊ skip_space r = [] ⌋ then Some j else None.

(** ** Examples *)

Definition loads (s : string) : option json := json_loads (map code (str_chars s)).
Definition dq : string := String (chr 34) "".

Example loads_values :
  loads " [null, true , -12, 0, 2.5e1, -0.0, {}, [] ] " =
    Some (JArray [JNull; JBool true; JInt (-12); JInt 0; JFloat (float_of 25 0);
                  JFloat (S754_zero true); JObject []; JArray []]).
Proof. vm_compute. reflexivity. Qed.
Example loads_tenth : loads "0.1" = Some (JFloat (float_of_decimal 1 10)).
Proof. vm_compute. reflexivity. Qed.
Example loads_object : loads ("{" +:+ dq +:+ "a\u00e9\ud83d\ude00" +:+ dq +:+ ": 1, " +:+ dq +:+ "b" +:+ dq +:+ ":2}") =
  Some (JObject [(string_of (chr 97 :: utf8_encode 233 ++ utf8_encode 128512), JInt 1); ("b", JInt 2)]).
Proof. vm_compute. reflexivity. Qed.
Example loads_refused :
  loads "[1,]" = None ∧ loads "01" = None ∧ loads "1 2" = None ∧ loads "[" = None ∧
  loads "tru" = None ∧ loads "" = None ∧ json_loads [34; 255; 34] = None.
Proof. vm_compute. done. Qed.
Example loads_utf16 : json_loads [255; 254; 91; 0; 49; 0; 93; 0] = Some (JArray [JInt 1]).
Proof. vm_compute. reflexivity. Qed.

(** ** What is read of text that was written *)

(** A character that no escape and no bracket concerns. *)
Definition plain (c : ascii) : bool := between 32 126 (code c) && negb (is_char c 34) && negb (is_char c 92).

Lemma scan_plain s r n :
  forallb plain s = true → (length s < n)%nat → scan_string n (s ++ chr 34 :: r) = Some (s, r).
Proof.
  revert n. induction s as [|c s IH]; intros [|n] Hs Hn; simpl in *; try lia; [done|].
  apply andb_true_iff in Hs as [Hc Hs]. unfold plain, between, is_char in Hc. bools.
  rewrite (proj2 (Z.eqb_neq _ _)), (proj2 (Z.eqb_neq _ _)), (proj2 (Z.ltb_ge _ _)) by lia.
  rewrite IH by (done || lia). done.
Qed.

(** The digits [str(n)] writes. *)
Lemma span_digits_app ds r :
  forallb is_digit ds = true → match r with c :: _ => is_digit c = false | [] => True end →
  span_digits (ds ++ r) = (ds, r).
Proof.
  intros Hds Hr. induction ds as [|d ds IH]; simpl in *.
  - destruct r as [|c r]; [done|]. simpl. by rewrite Hr.
  - apply andb_true_iff in Hds as [-> Hds]. by rewrite IH.
Qed.

(** The value of a decimal digit character. *)
Lemma digit_char d :
  (d < 10)%N → is_digit (pretty_N_char d) = true ∧ code (pretty_N_char d) = 48 + Z.of_N d.
Proof.
  intros Hd. assert (∀ n, (n < 10)%nat → is_digit (pretty_N_char (N.of_nat n)) = true ∧
    code (pretty_N_char (N.of_nat n)) = 48 + Z.of_nat n) as Hall.
  { intros n Hn. do 10 (destruct n as [|n]; [done|]). lia. }
  specialize (Hall (N.to_nat d)). rewrite N2Nat.id in Hall. destruct Hall as [? ->]; [lia|].
  split; [done|lia].
Qed.

Lemma digits_value_from acc ds :
  foldl (λ n c, 10 * n + (code c - 48)) acc ds = acc * 10 ^ Zlength ds + digits_value ds.
Proof.
  unfold digits_value, Zlength. induction ds as [|d ds IH] using rev_ind; simpl; [lia|].
  rewrite !foldl_app, length_app, Nat2Z.inj_add, Z.pow_add_r, IH by lia. simpl. lia.
Qed.

(** [pretty] prefixes the digits of a number, of which there are [k] at most below [10^k]. *)
Lemma pretty_go_digits x s :
  (0 < x)%N →
  ∃ d ds, str_chars (pretty_N_go x s) = (d :: ds) ++ str_chars s ∧
    forallb is_digit (d :: ds) = true ∧ is_char d 48 = false ∧
    digits_value (d :: ds) = Z.of_N x ∧
    ∀ k, Z.of_N x < 10 ^ k → 0 <= k → Zlength (d :: ds) <= k.
Proof.
  revert s. induction x as [x IH] using (well_founded_induction N.lt_wf_0); intros s Hx.
  rewrite pretty_N_go_step by done.
  assert (x `mod` 10 < 10)%N as Hm by (apply N.mod_lt; lia).
  destruct (digit_char _ Hm) as [Hd Hc].
  assert (x = 10 * (x `div` 10) + x `mod` 10)%N as Hdiv by (apply N.div_mod; lia).
  set (q := (x `div` 10)%N) in *. set (m := (x `mod` 10)%N) in *.
  destruct (decide (q = 0%N)) as [Hq|Hq].
  - rewrite Hq, pretty_N_go_0. eexists _, []. split; [reflexivity|]. simpl. rewrite Hd.
    split; [done|]. split; [unfold is_char; lia|]. unfold digits_value, Zlength. simpl.
    split; [lia|]. intros k Hk Hk0. destruct (decide (k = 0)) as [->|]; [simpl in Hk; lia|lia].
  - destruct (IH q ltac:(lia) (String (pretty_N_char m) s) ltac:(lia)) as (d & ds & Heq & Hds & H0 & Hv & Hlen).
    exists d, (ds ++ [pretty_N_char m]). rewrite Heq. split; [simpl; by rewrite <-app_assoc|].
    rewrite app_comm_cons, forallb_app, Hds. cbn [forallb]. rewrite Hd. split; [done|]. split; [done|].
    unfold digits_value in *. rewrite foldl_app, Hv. cbn [foldl]. split; [lia|].
    intros k Hk Hk0. unfold Zlength in *. rewrite length_app. simpl in *.
    destruct (decide (k = 0)) as [->|]; [simpl in Hk; lia|].
    assert (10 ^ k = 10 * 10 ^ (k - 1)) as Hpow by (rewrite <-Z.pow_succ_r by lia; f_equal; lia).
    specialize (Hlen (k - 1)). lia.
Qed.

Lemma str_digits n :
  0 <= n → ∃ d ds, str_chars (py_str_Z n) = d :: ds ∧ forallb is_digit (d :: ds) = true ∧
    (is_char d 48 = true → ds = []) ∧ digits_value (d :: ds) = n ∧
    ∀ k, n < 10 ^ k → 0 < k → Zlength (d :: ds) <= k.
Proof.
  intros Hn. unfold py_str_Z. destruct n as [|p|p]; [|
    |lia].
  - eexists _, []. split; [reflexivity|]. split_and!; try done. intros k _ Hk. unfold Zlength. simpl. lia.
  - destruct (pretty_go_digits (N.pos p) "" ltac:(lia)) as (d & ds & Heq & Hds & H0 & Hv & Hlen).
    exists d, ds. rewrite app_nil_r in Heq. split_and!; [exact Heq|done|congruence|done|].
    intros k Hk ?. apply Hlen; [done|lia].
Qed.

(** The text goes on with something that is not part of a number. *)
Definition ends_number (r : list ascii) : Prop :=
  match r with c :: _ => is_digit c || is_char c 46 || is_char c 101 || is_char c 69 = false | [] => True end.

Lemma scan_int n r :
  0 <= n → n < 10 ^ 18 → ends_number r →
  scan_number (str_chars (py_str_Z n) ++ r) = Some (JInt n, r).
Proof.
  intros Hn Hmax Hr. destruct (str_digits n Hn) as (d & ds & -> & Hds & H0 & Hv & Hlen).
  specialize (Hlen 18 Hmax ltac:(lia)). unfold scan_number.
  assert (span_digits ((d :: ds) ++ r) = (d :: ds, r)) as Hspan.
  { apply span_digits_app; [done|]. destruct r; [done|]. unfold ends_number in Hr. by bools. }
  assert (scan_fraction r = None ∧ scan_exponent r = None) as [Hf He].
  { destruct r as [|c r]; [done|]. unfold ends_number in Hr. bools. unfold scan_fraction, scan_exponent.
    repeat match goal with H : is_char c ?n = false |- _ => rewrite H; clear H end.
    by destruct r. }
  assert (is_char d 45 = false ∧ (is_char d 48 = false → is_digit d = true)) as [Hminus Hdig].
  { simpl in Hds. apply andb_true_iff in Hds as [Hd _]. split; [|done].
    unfold is_digit, is_char in *. bools. lia. }
  cbn [app]. rewrite Hminus. change (d :: ds ++ r) with ((d :: ds) ++ r). rewrite Hspan.
  destruct (is_char d 48).
  - rewrite (H0 eq_refl) in *. cbn -[scan_fraction scan_exponent]. rewrite Hf.
    cbn -[scan_exponent digits_value]. rewrite He. by rewrite <-Hv.
  - rewrite Hdig by done. cbn -[scan_fraction scan_exponent digits_value Z.ltb]. rewrite Hf.
    cbn -[scan_exponent digits_value Z.ltb]. rewrite He. cbn -[digits_value Z.ltb].
    rewrite (proj2 (Z.ltb_ge _ _)) by lia. by rewrite <-Hv.
Qed.

(** No constant starts like a number. *)
Lemma scan_constant_digit d r : is_digit d = true → scan_constant constants (d :: r) = None.
Proof.
  intros Hd. simpl.
  repeat (rewrite bool_decide_eq_false_2 by (intros <-; by vm_compute in Hd)). done.
Qed.

(** ** Documents: arrays of integers and plain strings *)

Inductive simple_item :=
  | ItemInt (n : Z)
  | ItemText (s : string).

Definition item_json (x : simple_item) : json :=
  match x with ItemInt n => JInt n | ItemText s => JString s end.
Definition item_text (x : simple_item) : list ascii :=
  match x with
  | ItemInt n => str_chars (py_str_Z n)
  | ItemText s => chr 34 :: str_chars s ++ [chr 34]
  end.
Definition item_ok (x : simple_item) : Prop :=
  match x with ItemInt n => 0 <= n < 10 ^ 18 | ItemText s => forallb plain (str_chars s) = true end.

Lemma item_text_cons x : item_ok x → ∃ c cs, item_text x = c :: cs ∧ is_json_space c = false ∧
  is_char c 93 = false.
Proof.
  destruct x as [n|s]; intros Hok; [|by eexists _, _].
  destruct (str_digits n (proj1 Hok)) as (d & ds & Heq & Hds & _). exists d, ds. split; [done|].
  simpl in Hds. apply andb_true_iff in Hds as [Hd _]. unfold is_digit, is_json_space, is_char in *.
  bools. split; lia.
Qed.

Lemma scan_item x fuel r :
  item_ok x → ends_number r → (length (item_text x) < fuel)%nat →
  scan_once fuel (item_text x ++ r) = Some (item_json x, r).
Proof.
  destruct fuel as [|fuel]; [lia|].
  destruct x as [n|s]; cbn [item_text item_json item_ok]; intros Hok Hr Hlen.
  - destruct (str_digits n (proj1 Hok)) as (d & ds & Heq & Hds & _).
    pose proof (scan_int n r (proj1 Hok) (proj2 Hok) Hr) as Hscan. rewrite Heq in *.
    simpl in Hds. apply andb_true_iff in Hds as [Hd _]. cbn -[scan_constant constants scan_number].
    rewrite scan_constant_digit by done.
    unfold is_digit, is_char in *. bools.
    rewrite !(proj2 (Z.eqb_neq _ _)) by lia. exact Hscan.
  - cbn [app]. rewrite <-app_assoc. cbn -[scan_string]. rewrite scan_plain; [|done|].
    { simpl. by rewrite String.string_of_list_ascii_of_string. }
    simpl in Hlen. rewrite length_app in Hlen. simpl in Hlen. lia.
Qed.

(** The elements after the opening bracket, with what [json.dumps] puts between. *)
Fixpoint items_text (xs : list simple_item) : list ascii :=
  match xs with
  | [] => []
  | [x] => item_text x ++ [chr 93]
  | x :: xs => item_text x ++ chr 44 :: items_text xs
  end.

Lemma scan_items_text xs fuel :
  xs ≠ [] → Forall item_ok xs → (length (items_text xs) < fuel)%nat →
  scan_items fuel (items_text xs) = Some (map item_json xs, []).
Proof.
  revert fuel. induction xs as [|x xs IH]; intros fuel Hne Hok Hlen; [done|].
  apply Forall_cons in Hok as [Hx Hxs]. destruct fuel as [|fuel]; [lia|].
  destruct xs as [|y xs].
  - simpl in *. rewrite length_app in Hlen. simpl in Hlen.
    rewrite scan_item; [done|done|done|lia].
  - destruct (item_text_cons y) as (c & cs & Hy & Hsp & _); [by apply Forall_cons in Hxs as [? _]|].
    assert (skip_space (items_text (y :: xs)) = items_text (y :: xs)) as Hskip.
    { destruct xs; simpl; rewrite Hy; simpl; by rewrite Hsp. }
    change (items_text (x :: y :: xs)) with (item_text x ++ chr 44 :: items_text (y :: xs)) in *.
    rewrite length_app in Hlen. specialize (IH fuel ltac:(done) Hxs).
    remember (items_text (y :: xs)) as t. simpl in Hlen.
    cbn [scan_items]. rewrite scan_item; [|done|done|lia].
    change (scan_items fuel (skip_space t) ≫= (λ '(xs, r), Some (item_json x :: xs, r)) =
      Some (map item_json (x :: y :: xs), [])).
    rewrite Hskip, IH; [done|lia].
Qed.

Lemma scan_array n c rest xs r :
  is_json_space c = false → is_char c 93 = false → scan_items n (c :: rest) = Some (xs, r) →
  scan_once (S n) (chr 91 :: c :: rest) = Some (JArray xs, r).
Proof.
  intros Hsp Hbr Hscan. transitivity (match skip_space (c :: rest) with
    | d :: r => if is_char d 93 then Some (JArray [], r)
                else '(xs, r) ← scan_items n (d :: r); Some (JArray xs, r)
    | [] => None
    end); [reflexivity|].
  cbn [skip_space]. by rewrite Hsp, Hbr, Hscan.
Qed.

(** What is read of an array that was written in UTF-8. *)
Lemma loads_items xs :
  xs ≠ [] → Forall item_ok xs →
  json_text (map code (chr 91 :: items_text xs)) = Some (chr 91 :: items_text xs) →
  json_loads (map code (chr 91 :: items_text xs)) = Some (JArray (map item_json xs)).
Proof.
  intros Hne Hok Htext. unfold json_loads. rewrite Htext.
  destruct xs as [|x xs]; [done|].
  destruct (item_text_cons x) as (c & cs & Hx & Hsp & Hbr); [by apply Forall_cons in Hok as [? _]|].
  assert (∃ rest, items_text (x :: xs) = c :: rest) as [rest Hrest].
  { destruct xs; simpl; rewrite Hx; by eexists. }
  pose proof (scan_items_text (x :: xs) (S (length (items_text (x :: xs)))) ltac:(done) Hok ltac:(lia)) as Hscan.
  rewrite Hrest in *. cbn [mbind option_bind].
  change (skip_space (chr 91 :: c :: rest)) with (chr 91 :: c :: rest).
  cbn [length] in *. by rewrite (scan_array _ _ _ _ _ Hsp Hbr Hscan).
Qed.

(** ASCII text is its own encoding. *)
Lemma utf8_valid_ascii cs :
  forallb (λ c, code c <? 128) cs = true → text_of_utf8 (map code cs) = Some cs.
Proof.
  intros Hcs. unfold text_of_utf8.
  assert (utf8_valid (map code cs) = true) as ->.
  { induction cs as [|c cs IH]; [done|]. simpl in *. apply andb_true_iff in Hcs as [-> Hcs]. by apply IH. }
  f_equal. rewrite map_map. rewrite <-(map_id cs) at 2. apply map_ext. intros c.
  unfold chr, code. by rewrite N2Z.id, Ascii.ascii_N_embedding.
Qed.

(** A text that opens with a bracket has no byte order mark. *)
Lemma json_text_bracket a cs :
  code a ≠ 0 → json_text (91 :: code a :: map code cs) = text_of_utf8 (91 :: code a :: map code cs).
Proof.
  intros Ha. unfold json_text. destruct (code a) as [|p|p]; [done| |]; [|by destruct p].
  by destruct (map code cs) as [|? [|? ?]].
Qed.

Definition visible (c : ascii) : bool := between 1 127 (code c).

Lemma items_visible xs : Forall item_ok xs → forallb visible (items_text xs) = true.
Proof.
  assert (∀ x, item_ok x → forallb visible (item_text x) = true) as Hitem.
  { intros [n|s] Hok; simpl in *.
    - destruct (str_digits n (proj1 Hok)) as (d & ds & -> & Hds & _).
      apply forallb_forall. intros c Hc. rewrite forallb_forall in Hds. specialize (Hds _ Hc).
      unfold is_digit, visible, between in *. bools. lia.
    - rewrite forallb_app. simpl. rewrite andb_true_r. apply forallb_forall. intros c Hc.
      rewrite forallb_forall in Hok. specialize (Hok _ Hc). unfold plain, visible, between in *. bools. lia. }
  induction 1 as [|x xs Hx Hxs IH]; [done|]. simpl.
  destruct xs; rewrite forallb_app, Hitem by done; [done|exact IH].
Qed.

(** The array is read back. *)
Lemma loads_written xs :
  xs ≠ [] → Forall item_ok xs →
  json_loads (map code (chr 91 :: items_text xs)) = Some (JArray (map item_json xs)).
Proof.
  intros Hne Hok. apply loads_items; [done|done|].
  pose proof (items_visible xs Hok) as Hvis.
  destruct xs as [|x xs]; [done|].
  destruct (items_text (x :: xs)) as [|a cs] eqn:Ht.
  { destruct (item_text_cons x) as (c & cs & Hx & _); [by apply Forall_cons in Hok as [? _]|].
    destruct xs; simpl in Ht; by rewrite Hx in Ht. }
  change (map code (chr 91 :: a :: cs)) with (91 :: code a :: map code cs).
  rewrite json_text_bracket; [change (91 :: code a :: map code cs) with (map code (chr 91 :: a :: cs));
    apply utf8_valid_ascii|].
  - change (forallb (λ c, code c <? 128) (a :: cs) = true). apply forallb_forall. intros c Hc.
    rewrite forallb_forall in Hvis. specialize (Hvis _ Hc). unfold visible, between in Hvis. bools. lia.
  - simpl in Hvis. apply andb_true_iff in Hvis as [Hvis _]. unfold visible, between in Hvis. bools. lia.
Qed.

(** ** What [json.dumps] writes with [ensure_ascii=True] *)

(** The code point of one encoded character. *)
Definition char_code (w : string) : Z :=
  match map code (str_chars w) with
  | [a] => a
  | [a; b] => (a - 192) * 64 + (b - 128)
  | [a; b; c] => ((a - 224) * 64 + (b - 128)) * 64 + (c - 128)
  | [a; b; c; d] => (((a - 240) * 64 + (b - 128)) * 64 + (c - 128)) * 64 + (d - 128)
  | _ => 0
  end.

Definition unicode_escape_of (n : Z) : list ascii :=
  let digit d := chr (if d <? 10 then 48 + d else 87 + d) in
  [chr 92; chr 117; digit (n / 4096); digit (n / 256 mod 16); digit (n / 16 mod 16); digit (n mod 16)].

Definition ascii_escape (w : string) : list ascii :=
  let n := char_code w in
  if n =? 34 then [chr 92; chr 34] else if n =? 92 then [chr 92; chr 92]
  else if n =? 8 then [chr 92; chr 98] else if n =? 9 then [chr 92; chr 116]
  else if n =? 10 then [chr 92; chr 110] else if n =? 12 then [chr 92; chr 102]
  else if n =? 13 then [chr 92; chr 114]
  else if between 32 126 n then str_chars w
  else if n <? 65536 then unicode_escape_of n
  else unicode_escape_of (55296 + (n - 65536) / 1024) ++ unicode_escape_of (56320 + (n - 65536) mod 1024).

Definition ascii_string (s : string) : list ascii :=
  chr 34 :: concat (map ascii_escape (utf8_chars s)) ++ [chr 34].

Example ascii_string_example :
  string_of (ascii_string (string_of (chr 97 :: chr 10 :: utf8_encode 233 ++ utf8_encode 128512))) =
  dq +:+ "a\n\u00e9\ud83d\ude00" +:+ dq.
Proof. vm_compute. reflexivity. Qed.

Lemma utf8_chars_plain s :
  forallb plain (str_chars s) = true → utf8_chars s = map (λ c, String c "") (str_chars s).
Proof.
  induction s as [|c s IH]; [done|]. simpl. intros [Hc Hs]%andb_true_iff. rewrite IH by done.
  destruct s as [|d s]; [done|]. simpl in *. apply andb_true_iff in Hs as [Hd Hs].
  unfold is_continuation. unfold plain, between in Hd. bools.
  rewrite (proj2 (Z.leb_gt _ _)) by lia. done.
Qed.

Lemma ascii_string_plain s :
  forallb plain (str_chars s) = true → ascii_string s = item_text (ItemText s).
Proof.
  intros Hs. unfold ascii_string. rewrite utf8_chars_plain by done. simpl. f_equal. f_equal.
  induction (str_chars s) as [|c cs IH]; [done|]. simpl in *. apply andb_true_iff in Hs as [Hc Hs].
  rewrite IH by done. f_equal. unfold ascii_escape. change (char_code (String c "")) with (code c).
  unfold plain, is_char, between in *. bools.
  repeat (rewrite (proj2 (Z.eqb_neq _ _)) by lia).
  by rewrite (proj2 (Z.leb_le _ _)), (proj2 (Z.leb_le _ _)) by lia.
Qed.
