(* ===== verification/Settings.v ===== *)
(** * Settings and object storage

    The settings of [apps/api/src/rvc_manager_api/config.py] that the modelled
    handlers read, and [ClaimStoragePort], the storage view of
    [services/workers.py].  Object storage is outside the ledger: its contents are
    the functions of the record. *)

From S2P Require Import Prelude Json.

Inductive Environment := development | test | production.
#[export] Instance Environment_eq_dec : EqDecision Environment.
Proof. solve_decision. Defined.

Record Settings := mkSettings {
  environment : Environment;
  worker_bootstrap_token : option string;
  worker_token_pepper : string;
  worker_token_rotation_ttl_seconds : Z;
  lease_seconds : Z;
  worker_offline_seconds : Z;
  lease_recovery_max_attempts : Z;
  allow_fake_workers : bool;
  artifact_stream_chunk_bytes : Z;
  dataset_download_ttl_seconds : Z;
  approved_sample_runtime_bundles : list (string * string);
  test_set_max_items : Z;
  test_set_max_total_bytes : Z;
  test_set_max_total_duration_seconds : spec_float;
  resolved_storage_backend : string;
  mlflow_enabled : bool;
  mlflow_fail_closed : bool;
  mlflow_processing_stale_seconds : Z;
  mlflow_retry_max_seconds : Z;
  mlflow_sync_batch_size : Z;
  auto_sample_jobs_enabled : bool;
  jwt_secret : string;
  jwt_issuer : string;
  jwt_audience : string;
  jwt_access_ttl_seconds : Z;
  jwt_leeway_seconds : Z;
  public_api_base_url : option string;
  artifact_upload_ttl_seconds : Z;
  artifact_download_ttl_seconds : Z;
  artifact_max_bytes : Z;
  sample_max_bytes : Z;
  artifact_staging_cleanup_grace_seconds : Z;
  artifact_cleanup_confirmation_grace_seconds : Z;
  artifact_cleanup_claim_stale_seconds : Z;
  artifact_cleanup_reconcile_batch_size : Z;
  artifact_finalizing_stale_seconds : Z;
  artifact_retry_after_seconds : Z;
  artifact_attempt_max_sessions : Z;
  artifact_attempt_max_bytes : Z }.

(** The bounds [config.py] declares on the fields above that have one. *)
Definition Settings_valid (s : Settings) : bool :=
  (60 <=? worker_token_rotation_ttl_seconds s) && (worker_token_rotation_ttl_seconds s <=? 3600) &&
  (15 <=? lease_seconds s) && (lease_seconds s <=? 3600) &&
  (30 <=? worker_offline_seconds s) && (worker_offline_seconds s <=? 7200) &&
  (0 <=? lease_recovery_max_attempts s) && (lease_recovery_max_attempts s <=? 20) &&
  (64 * 1024 <=? artifact_stream_chunk_bytes s) && (artifact_stream_chunk_bytes s <=? 8 * 1024 ^ 2) &&
  (15 <=? dataset_download_ttl_seconds s) && (dataset_download_ttl_seconds s <=? 300) &&
  (1 <=? test_set_max_items s) && (test_set_max_items s <=? 128) &&
  (15 <=? mlflow_processing_stale_seconds s) && (mlflow_processing_stale_seconds s <=? 3600) &&
  (5 <=? mlflow_retry_max_seconds s) && (mlflow_retry_max_seconds s <=? 3600) &&
  (1 <=? mlflow_sync_batch_size s) && (mlflow_sync_batch_size s <=? 200) &&
  (60 <=? jwt_access_ttl_seconds s) && (jwt_access_ttl_seconds s <=? 3600) &&
  (0 <=? jwt_leeway_seconds s) && (jwt_leeway_seconds s <=? 60) && (32 <=? py_len (jwt_secret s)) &&
  (300 <=? artifact_upload_ttl_seconds s) && (artifact_upload_ttl_seconds s <=? 7200) &&
  (15 <=? artifact_download_ttl_seconds s) && (artifact_download_ttl_seconds s <=? 300) &&
  (1 <=? artifact_max_bytes s) && (artifact_max_bytes s <=? 5 * 1024 ^ 3) &&
  (44 <=? sample_max_bytes s) && (sample_max_bytes s <=? 256 * 1024 ^ 2) &&
  (300 <=? artifact_staging_cleanup_grace_seconds s) &&
  (artifact_staging_cleanup_grace_seconds s <=? 86400) &&
  (artifact_upload_ttl_seconds s <=? artifact_staging_cleanup_grace_seconds s) &&
  (30 <=? artifact_cleanup_confirmation_grace_seconds s) &&
  (artifact_cleanup_confirmation_grace_seconds s <=? 3600) &&
  (60 <=? artifact_cleanup_claim_stale_seconds s) &&
  (artifact_cleanup_claim_stale_seconds s <=? 7200) &&
  (1 <=? artifact_cleanup_reconcile_batch_size s) &&
  (artifact_cleanup_reconcile_batch_size s <=? 256) &&
  (60 <=? artifact_finalizing_stale_seconds s) && (artifact_finalizing_stale_seconds s <=? 86400) &&
  (1 <=? artifact_retry_after_seconds s) && (artifact_retry_after_seconds s <=? 60) &&
  (1 <=? artifact_attempt_max_sessions s) && (artifact_attempt_max_sessions s <=? 10000) &&
  (1 <=? artifact_attempt_max_bytes s) && (artifact_attempt_max_bytes s <=? 500 * 1024 ^ 3).

(** [timedelta(seconds=n)] in microseconds *)
Definition seconds (n : Z) : Z := n * 1000000.

(** [None] is an exception of the adapter. [stream_object key chunk_size max_bytes]
    lists the chunks it yields. *)
Record ClaimStoragePort := mkClaimStoragePort {
  st_backend : string;
  st_namespace_fingerprint : string;
  st_storage_uri : string → option string;
  st_stream_object : string → Z → Z → option (list string) }.
