(* ===== verification/Ledger.v ===== *)
(** * The Manager's ledger

    Model of [apps/api/src/rvc_manager_api/models.py]: the rows of the tables the
    Worker protocol reads and writes, and the database as a record of tables.

    Column names carry a prefix per table ([w_status], [j_status], ...).  A
    timestamp is an integer number of microseconds; [as_utc] is the identity on
    it.  [created_at] and [updated_at] are kept where a query reads them.  A
    table is a finite map from its primary key; the telemetry tables are keyed by
    the unique constraint the code relies on; tables that are only appended to
    are lists, in insertion order. *)

From S2P Require Import Prelude Json.

(** ** Rows *)

Record User := mkUser {
  u_id : string;
  u_row_version : Z;
  u_email : string;
  u_password_hash : string;
  u_role : string;
  u_disabled : bool;
  u_access_token_version : Z;
  u_created_at : Z;
  u_updated_at : Z }.

(** [op_response] is the [AdminUserRead] that [response_json] stores. *)
Record AdminUserRead := mkAdminUserRead {
  ur_id : string;
  ur_email : string;
  ur_role : string;
  ur_active : bool;
  ur_row_version : Z;
  ur_created_at : Z;
  ur_updated_at : Z }.

Record AdminUserOperation := mkAdminUserOperation {
  op_actor_id : string;
  op_idempotency_key_hash : string;
  op_request_fingerprint : string;
  op_operation_type : string;
  op_resource_id : string;
  op_response : AdminUserRead }.

Record RevokedAccessToken := mkRevokedAccessToken {
  rt_jti : string;
  rt_user_id : string;
  rt_expires_at : Z }.

(** The row [id = 1] of [admin_bootstrap_state]. *)
Record AdminBootstrapState := mkAdminBootstrapState {
  bs_admin_user_id : option string;
  bs_completed_at : option Z;
  bs_lock_version : Z }.

Record Worker := mkWorker {
  w_id : string;
  w_row_version : Z;
  w_name : string;
  w_token_hash : string;
  w_token_issued_at : Z;
  w_token_rotation_id : option string;
  w_pending_token_hash : option string;
  w_token_rotation_started_at : option Z;
  w_token_rotation_expires_at : option Z;
  w_status : string;
  w_capabilities_json : json;
  w_worker_version : string;
  w_rvc_commit_hash : string;
  w_last_heartbeat_at : option Z;
  w_current_job_id : option string;
  w_is_active : bool }.

Record Dataset := mkDataset {
  d_id : string;
  d_status : string;
  d_is_usable : bool;
  d_flat_storage_uri : option string;
  d_prepared_flat_size_bytes : option Z;
  d_prepared_flat_sha256 : option string;
  d_created_by : option string }.

Record DatasetUploadSession := mkDatasetUploadSession {
  du_id : string;
  du_dataset_id : string;
  du_generation : Z;
  du_prepared_flat_object_key : string;
  du_storage_backend : string;
  du_storage_namespace_sha256 : string;
  du_status : string;
  du_finalized_at : option Z }.

Record TestSet := mkTestSet {
  t_id : string;
  t_family_id : string;
  t_name : string;
  t_revision : Z;
  t_status : string;
  t_manifest_storage_uri : option string;
  t_manifest_sha256 : option string;
  t_item_count : Z;
  t_created_by : option string }.

Record TestSetItem := mkTestSetItem {
  i_id : string;
  i_test_set_id : string;
  i_item_key : string;
  i_display_name : string;
  i_sort_order : Z;
  i_storage_uri : string;
  i_original_filename : string;
  i_size_bytes : Z;
  i_sha256 : string;
  i_mime_type : string;
  i_sample_rate_hz : Z;
  i_channels : Z;
  i_duration_seconds : spec_float;
  i_license_reference : string;
  i_provenance_reference : string }.

Record TestSetItemUploadSession := mkTestSetItemUploadSession {
  iu_id : string;
  iu_test_set_id : string;
  iu_item_key : string;
  iu_display_name : string;
  iu_sort_order : Z;
  iu_filename : string;
  iu_content_type : string;
  iu_expected_size_bytes : Z;
  iu_expected_sha256 : string;
  iu_license_reference : string;
  iu_provenance_reference : string;
  iu_canonical_object_key : string;
  iu_storage_backend : string;
  iu_storage_namespace_sha256 : string;
  iu_status : string;
  iu_finalized_at : option Z }.

Record Experiment := mkExperiment {
  e_id : string;
  e_row_version : Z;
  e_name : string;
  e_name_conflict_key : option string;
  e_dataset_id : string;
  e_description : option string;
  e_created_by : option string;
  e_created_at : Z }.

Record Job := mkJob {
  j_id : string;
  j_row_version : Z;
  j_experiment_id : string;
  j_dataset_id : string;
  j_worker_id : option string;
  j_job_name : string;
  j_status : string;
  j_config_json : json;
  j_config_sha256 : option string;
  j_test_set_id : option string;
  j_preset_id : option string;
  j_sample_plan_json : option json;
  j_sample_plan_sha256 : option string;
  j_priority : Z;
  j_current_epoch : option Z;
  j_total_epoch : Z;
  j_attempt_count : Z;
  j_current_attempt_id : option string;
  j_cancel_requested_at : option Z;
  j_error_code : option string;
  j_error_message : option string;
  j_started_at : option Z;
  j_completed_at : option Z;
  j_created_at : Z }.

Record JobAttempt := mkJobAttempt {
  a_id : string;
  a_job_id : string;
  a_worker_id : string;
  a_attempt_number : Z;
  a_engine_mode : string;
  a_rvc_commit_hash : option string;
  a_execution_provenance_version : option string;
  a_job_config_sha256 : option string;
  a_runtime_image_digest : option string;
  a_runtime_asset_manifest_sha256 : option string;
  a_telemetry_log_count : option Z;
  a_telemetry_metric_count : option Z;
  a_status : string;
  a_error_code : option string;
  a_error_message : option string;
  a_started_at : Z;
  a_finished_at : option Z }.

Record JobLease := mkJobLease {
  l_id : string;
  l_job_id : string;
  l_attempt_id : string;
  l_worker_id : string;
  l_expires_at : Z;
  l_last_renewed_at : Z;
  l_released_at : option Z;
  l_active : bool }.

Record JobStatusEvent := mkJobStatusEvent {
  ev_job_id : string;
  ev_attempt_id : option string;
  ev_previous_status : option string;
  ev_status : string;
  ev_occurred_at : Z;
  ev_source : string }.

Record IngestBatch := mkIngestBatch {
  b_job_id : string;
  b_attempt_id : string;
  b_batch_type : string;
  b_idempotency_key : string;
  b_payload_fingerprint : option string;
  b_item_count : Z }.

Record JobLog := mkJobLog {
  lg_id : string;
  lg_job_id : string;
  lg_attempt_id : string;
  lg_sequence : Z;
  lg_level : string;
  lg_message : string;
  lg_fields_json : json;
  lg_occurred_at : Z }.

Record Metric := mkMetric {
  m_id : string;
  m_job_id : string;
  m_attempt_id : string;
  m_sequence : Z;
  m_epoch : option Z;
  m_step : option Z;
  m_key : string;
  m_value : spec_float;
  m_occurred_at : Z }.

Record Artifact := mkArtifact {
  ar_id : string;
  ar_job_id : string;
  ar_attempt_id : string;
  ar_artifact_type : string;
  ar_filename : string;
  ar_storage_uri : string;
  ar_size_bytes : Z;
  ar_sha256 : string;
  ar_mime_type : option string;
  ar_metadata_json : json }.

Record ArtifactUploadSession := mkArtifactUploadSession {
  au_id : string;
  au_job_id : string;
  au_attempt_id : string;
  au_lease_id : string;
  au_worker_id : string;
  au_artifact_id : option string;
  au_artifact_type : string;
  au_filename : string;
  au_content_type : string;
  au_expected_size_bytes : Z;
  au_expected_sha256 : string;
  au_metadata_json : json;
  au_idempotency_key : string;
  au_generation : Z;
  au_request_fingerprint : string;
  au_dedupe_key : option string;
  au_temporary_object_key : string;
  au_canonical_object_key : string;
  au_storage_backend : string;
  au_storage_namespace_sha256 : string;
  au_status : string;
  au_upload_write_token : option string;
  au_upload_heartbeat_at : option Z;
  au_finalization_token : option string;
  au_cleanup_token : option string;
  au_cleanup_heartbeat_at : option Z;
  au_upload_token_hash : option string;
  au_expires_at : Z;
  au_uploaded_at : option Z;
  au_finalized_at : option Z;
  au_staging_cleanup_completed_at : option Z;
  au_staging_cleanup_first_deleted_at : option Z;
  au_canonical_cleanup_completed_at : option Z;
  au_canonical_cleanup_first_deleted_at : option Z;
  au_failure_code : option string;
  au_updated_at : Z }.

(** [payload_json], the read model's copy of the event, is not kept. *)
Record MlflowSyncEvent := mkMlflowSyncEvent {
  ms_id : string;
  ms_event_key : string;
  ms_event_type : string;
  ms_aggregate_type : string;
  ms_aggregate_id : string;
  ms_status : string;
  ms_attempt_count : Z;
  ms_next_attempt_at : option Z;
  ms_locked_at : option Z;
  ms_last_error_code : option string;
  ms_synced_at : option Z;
  ms_created_at : Z }.

Record AuditEvent := mkAuditEvent {
  ae_actor_type : string;
  ae_actor_id : option string;
  ae_action : string;
  ae_resource_type : string;
  ae_resource_id : option string;
  ae_details_json : list (string * json) }.

#[export] Instance eta_ArtifactUploadSession : Eta ArtifactUploadSession := λ u,
  mkArtifactUploadSession (au_id u) (au_job_id u) (au_attempt_id u) (au_lease_id u)
    (au_worker_id u) (au_artifact_id u) (au_artifact_type u) (au_filename u) (au_content_type u)
    (au_expected_size_bytes u) (au_expected_sha256 u) (au_metadata_json u)
    (au_idempotency_key u) (au_generation u) (au_request_fingerprint u) (au_dedupe_key u)
    (au_temporary_object_key u) (au_canonical_object_key u) (au_storage_backend u)
    (au_storage_namespace_sha256 u) (au_status u) (au_upload_write_token u)
    (au_upload_heartbeat_at u) (au_finalization_token u) (au_cleanup_token u)
    (au_cleanup_heartbeat_at u) (au_upload_token_hash u) (au_expires_at u) (au_uploaded_at u)
    (au_finalized_at u) (au_staging_cleanup_completed_at u)
    (au_staging_cleanup_first_deleted_at u) (au_canonical_cleanup_completed_at u)
    (au_canonical_cleanup_first_deleted_at u) (au_failure_code u) (au_updated_at u).

#[export] Instance eta_Worker : Eta Worker := λ w,
  mkWorker (w_id w) (w_row_version w) (w_name w) (w_token_hash w) (w_token_issued_at w)
    (w_token_rotation_id w) (w_pending_token_hash w) (w_token_rotation_started_at w)
    (w_token_rotation_expires_at w) (w_status w) (w_capabilities_json w) (w_worker_version w)
    (w_rvc_commit_hash w) (w_last_heartbeat_at w) (w_current_job_id w) (w_is_active w).
#[export] Instance eta_User : Eta User := λ u,
  mkUser (u_id u) (u_row_version u) (u_email u) (u_password_hash u) (u_role u) (u_disabled u)
    (u_access_token_version u) (u_created_at u) (u_updated_at u).
#[export] Instance eta_AdminBootstrapState : Eta AdminBootstrapState := λ b,
  mkAdminBootstrapState (bs_admin_user_id b) (bs_completed_at b) (bs_lock_version b).
#[export] Instance eta_Job : Eta Job := λ j,
  mkJob (j_id j) (j_row_version j) (j_experiment_id j) (j_dataset_id j) (j_worker_id j)
    (j_job_name j) (j_status j) (j_config_json j) (j_config_sha256 j) (j_test_set_id j)
    (j_preset_id j) (j_sample_plan_json j) (j_sample_plan_sha256 j) (j_priority j)
    (j_current_epoch j) (j_total_epoch j) (j_attempt_count j) (j_current_attempt_id j)
    (j_cancel_requested_at j) (j_error_code j) (j_error_message j) (j_started_at j)
    (j_completed_at j) (j_created_at j).
#[export] Instance eta_JobAttempt : Eta JobAttempt := λ a,
  mkJobAttempt (a_id a) (a_job_id a) (a_worker_id a) (a_attempt_number a) (a_engine_mode a)
    (a_rvc_commit_hash a) (a_execution_provenance_version a) (a_job_config_sha256 a)
    (a_runtime_image_digest a) (a_runtime_asset_manifest_sha256 a) (a_telemetry_log_count a)
    (a_telemetry_metric_count a) (a_status a) (a_error_code a) (a_error_message a)
    (a_started_at a) (a_finished_at a).
#[export] Instance eta_JobLease : Eta JobLease := λ l,
  mkJobLease (l_id l) (l_job_id l) (l_attempt_id l) (l_worker_id l) (l_expires_at l)
    (l_last_renewed_at l) (l_released_at l) (l_active l).
#[export] Instance eta_Experiment : Eta Experiment := λ e,
  mkExperiment (e_id e) (e_row_version e) (e_name e) (e_name_conflict_key e) (e_dataset_id e)
    (e_description e) (e_created_by e) (e_created_at e).
#[export] Instance eta_MlflowSyncEvent : Eta MlflowSyncEvent := λ m,
  mkMlflowSyncEvent (ms_id m) (ms_event_key m) (ms_event_type m) (ms_aggregate_type m)
    (ms_aggregate_id m) (ms_status m) (ms_attempt_count m) (ms_next_attempt_at m)
    (ms_locked_at m) (ms_last_error_code m) (ms_synced_at m) (ms_created_at m).

(** ** Constraints of the User table *)

(** [role_allowed] *)
Definition role_allowed (role : string) : bool := ⌊ role = "admin" ⌋ || ⌊ role = "user" ⌋.

Definition active_admin (u : User) : bool := ⌊ u_role u = "admin" ⌋ && negb (u_disabled u).

(** ** The database *)

Record DB := mkDB {
  workers : gmap string Worker;
  jobs : gmap string Job;
  attempts : gmap string JobAttempt;
  leases : gmap string JobLease;
  status_events : list JobStatusEvent;
  ingest_batches : gmap (string * string * string) IngestBatch;
  job_logs : gmap (string * Z) JobLog;
  metrics : gmap (string * Z) Metric;
  artifact_rows : gmap string Artifact;
  artifact_uploads : gmap string ArtifactUploadSession;
  datasets : gmap string Dataset;
  dataset_uploads : gmap string DatasetUploadSession;
  test_sets : gmap string TestSet;
  test_set_items : gmap string TestSetItem;
  test_set_uploads : gmap string TestSetItemUploadSession;
  experiments : gmap string Experiment;
  mlflow_events : gmap string MlflowSyncEvent;
  audit_events : list AuditEvent;
  users : gmap string User;
  admin_operations : gmap (string * string) AdminUserOperation;
  revoked_tokens : gmap string RevokedAccessToken;
  bootstrap_state : option AdminBootstrapState;
  objects : gmap string string }.

#[export] Instance eta_DB : Eta DB := λ d,
  mkDB (workers d) (jobs d) (attempts d) (leases d) (status_events d) (ingest_batches d)
    (job_logs d) (metrics d) (artifact_rows d) (artifact_uploads d) (datasets d)
    (dataset_uploads d) (test_sets d) (test_set_items d) (test_set_uploads d) (experiments d)
    (mlflow_events d) (audit_events d) (users d) (admin_operations d) (revoked_tokens d)
    (bootstrap_state d) (objects d).

Definition empty_DB : DB := mkDB ∅ ∅ ∅ ∅ [] ∅ ∅ ∅ ∅ ∅ ∅ ∅ ∅ ∅ ∅ ∅ ∅ [] ∅ ∅ ∅ None ∅.

(** The tables of artifacts and the object store.  The store is no table: its operations
    ([Session.v]) take effect at once, and neither a commit nor a rollback touches them. *)
Definition artifacts_of (d : DB) := (artifact_rows d, artifact_uploads d, objects d).

(** The tables of accounts. *)
Definition accounts_of (d : DB) :=
  (users d, admin_operations d, revoked_tokens d, bootstrap_state d).

Definition rest_of (d : DB) := (accounts_of d, artifacts_of d).

(** ** Queries *)

(** [select(T).where(p)] on a table, and [.order_by(...)]. *)
Definition rows {K A} `{Countable K} (table : gmap K A) : list A := (map_to_list table).*2.
Definition where_ {K A} `{Countable K} (p : A → bool) (table : gmap K A) : list A :=
  List.filter p (rows table).

Definition holds {A} (le : A → A → bool) (x y : A) : Prop := le x y = true.
#[export] Instance holds_dec {A} (le : A → A → bool) : RelDecision (holds le).
Proof. intros x y. unfold holds. apply _. Defined.

Definition order_by {A} (le : A → A → bool) (xs : list A) : list A := merge_sort (holds le) xs.

(** Ascending lexicographic comparison on integers then strings. *)
Definition str_leb (a b : string) : bool := ⌊ String.le a b ⌋.
Definition lex_leb (a b : Z) (rest : bool) : bool := (a <? b) || ((a =? b) && rest).

(** [finalized_at.desc()] puts NULL first (PostgreSQL's default). *)
Definition nullable_desc_leb (a b : option Z) (rest : bool) : bool :=
  match a, b with
  | None, None => rest
  | None, Some _ => true
  | Some _, None => false
  | Some x, Some y => lex_leb y x rest
  end.

Lemma elem_of_where {K A} `{Countable K} (p : A → bool) (table : gmap K A) (x : A) :
  x ∈ where_ p table ↔ p x = true ∧ ∃ k, table !! k = Some x.
Proof.
  unfold where_, rows. rewrite list_elem_of_In, filter_In, <-list_elem_of_In.
  rewrite list_elem_of_fmap. split.
  - intros [([k y] & -> & Hy) Hp]. apply elem_of_map_to_list in Hy. simpl in *. eauto.
  - intros (Hp & k & Hk). split; [|done]. exists (k, x). by rewrite elem_of_map_to_list.
Qed.

Lemma order_by_permutation {A} (le : A → A → bool) xs : order_by le xs ≡ₚ xs.
Proof. apply merge_sort_Permutation. Qed.

Lemma elem_of_order_by {A} (le : A → A → bool) (x : A) xs : x ∈ order_by le xs ↔ x ∈ xs.
Proof. by rewrite order_by_permutation. Qed.

Lemma elem_of_where_order {K A} `{Countable K} le (p : A → bool) (table : gmap K A) x :
  x ∈ order_by le (where_ p table) ↔ p x = true ∧ ∃ k, table !! k = Some x.
Proof. by rewrite elem_of_order_by, elem_of_where. Qed.

(** ** Constraints of the Worker table *)

(** Another Worker has the same name, token hash or pending token hash. *)
Definition worker_conflict (w : Worker) (d : DB) : bool :=
  existsb (λ v, negb ⌊ w_id v = w_id w ⌋ &&
    (⌊ w_name v = w_name w ⌋ || ⌊ w_token_hash v = w_token_hash w ⌋ ||
     (is_some (w_pending_token_hash w) && ⌊ w_pending_token_hash v = w_pending_token_hash w ⌋)))
    (rows (workers d)).

(** [token_rotation_fields_together] *)
Definition rotation_fields_together (w : Worker) : bool :=
  (is_none (w_token_rotation_id w) && is_none (w_pending_token_hash w) &&
   is_none (w_token_rotation_started_at w) && is_none (w_token_rotation_expires_at w)) ||
  (is_some (w_token_rotation_id w) && is_some (w_pending_token_hash w) &&
   is_some (w_token_rotation_started_at w) && is_some (w_token_rotation_expires_at w)).
