(* ===== verification/Evolution.v ===== *)
(** * How the ledger evolves

    [evolves c d]: what one committed transaction, and so any number of them, may do to
    the assignment and telemetry tables.  The configuration of a Job never changes and
    its status follows the life cycle; a Job row that changes gets a larger version; a
    finished attempt and a released lease are final; the end of a lease moves only
    forward; a log line or a metric that is stored stays as it is; no row disappears.
    A completed upload has its artifact and a verified copy, which stay.  Well-typed
    account tables stay so, an account changes its authority only together with its token
    version, and an active administrator remains.
    It is the guarantee of every handler, and what a handler relies on when other
    transactions are interleaved with it ([Wp.v]). *)

From S2P Require Import Prelude Sha256 Json JobStatus ObjectKeys Ledger.

(** ** Rows *)

(** One status change of the life cycle, on the stored strings. *)
Definition status_hop (x y : string) : Prop :=
  ∃ s t, x = value s ∧ y = value t ∧ status_step s t.
Definition status_path : relation string := rtc status_hop.

#[export] Instance status_path_PreOrder : PreOrder status_path.
Proof. unfold status_path. split; apply _. Qed.

Lemma status_path_step s t : status_step s t → status_path (value s) (value t).
Proof. intros Hst. apply rtc_once. by exists s, t. Qed.

Lemma status_path_transition s t : can_transition s t true = true → status_path (value s) (value t).
Proof.
  unfold can_transition. intros Hcan. apply orb_true_iff in Hcan as [Hcan|Hcan]; bools.
  - subst. reflexivity.
  - by apply status_path_step.
Qed.

(** The columns of a Job that are set when it is created. *)
Definition job_frame (j : Job) :=
  (j_id j, j_experiment_id j, j_dataset_id j, j_job_name j, j_config_json j, j_config_sha256 j,
   (j_test_set_id j, j_preset_id j, j_sample_plan_json j, j_sample_plan_sha256 j),
   (j_priority j, j_total_epoch j, j_created_at j)).

Record job_soft (j j' : Job) : Prop := mkJobSoft {
  jf_frame : job_frame j' = job_frame j;
  jf_status : status_path (j_status j) (j_status j');
  jf_attempts : j_attempt_count j <= j_attempt_count j' }.

#[export] Instance job_soft_PreOrder : PreOrder job_soft.
Proof.
  split; [by constructor|]. intros x y z [F1 S1 A1] [F2 S2 A2].
  split; [congruence|by etrans|lia].
Qed.

(** The same row, or a later version of it. *)
Definition job_evolves (j j' : Job) : Prop :=
  j' = j ∨ (j_row_version j < j_row_version j' ∧ job_soft j j').

#[export] Instance job_evolves_PreOrder : PreOrder job_evolves.
Proof.
  split; [by left|]. intros x y z [->|[V1 S1]] [->|[V2 S2]]; [by left|by right..|].
  right. split; [lia|by etrans].
Qed.

Lemma job_evolves_soft j j' : job_evolves j j' → job_soft j j'.
Proof. intros [->|[_ ?]]; done. Qed.

(** A new Job starts its life cycle as [queued]. *)
Definition job_new (j : Job) : Prop := status_path (value QUEUED) (j_status j).

Definition attempt_frame (a : JobAttempt) :=
  (a_id a, a_job_id a, a_worker_id a, a_attempt_number a, a_engine_mode a, a_rvc_commit_hash a,
   (a_execution_provenance_version a, a_job_config_sha256 a, a_runtime_image_digest a,
    a_runtime_asset_manifest_sha256 a, a_started_at a)).

Record attempt_evolves (a a' : JobAttempt) : Prop := mkAttemptEvolves {
  ae_frame : attempt_frame a' = attempt_frame a;
  ae_final : is_Some (a_finished_at a) → a' = a }.

#[export] Instance attempt_evolves_PreOrder : PreOrder attempt_evolves.
Proof.
  split; [done|]. intros x y z [F1 E1] [F2 E2]. split; [congruence|].
  intros Hf. pose proof (E1 Hf) as ->. auto.
Qed.

Record lease_evolves (l l' : JobLease) : Prop := mkLeaseEvolves {
  le_frame : (l_id l', l_job_id l', l_attempt_id l', l_worker_id l') =
             (l_id l, l_job_id l, l_attempt_id l, l_worker_id l);
  le_expiry : l_expires_at l <= l_expires_at l';
  le_final : l_active l = false → l' = l }.

#[export] Instance lease_evolves_PreOrder : PreOrder lease_evolves.
Proof.
  split; [by constructor|]. intros x y z [F1 X1 E1] [F2 X2 E2]. split; [congruence|lia|].
  intros Hf. pose proof (E1 Hf) as ->. auto.
Qed.

(** ** Tables *)

Section table.
  Context {A : Type} (new : A → Prop) (R : relation A).
  Hypothesis new_stable : ∀ a a', new a → R a a' → new a'.
  Context `{!PreOrder R}.
  Implicit Types (T : gmap string A).

(** A row appears as a new one, changes along [R], or is absent. *)
Definition row_step (o o' : option A) : Prop :=
  match o, o' with
  | None, None => True
  | None, Some a => new a
  | Some a, Some b => R a b
  | Some _, None => False
  end.

Definition table_step T T' : Prop := ∀ k, row_step (T !! k) (T' !! k).

Lemma table_step_refl T : table_step T T.
Proof using PreOrder0. intros k. by destruct (T !! k); simpl. Qed.

Lemma table_step_trans T1 T2 T3 : table_step T1 T2 → table_step T2 T3 → table_step T1 T3.
Proof using All.
  intros H1 H2 k. specialize (H1 k). specialize (H2 k). unfold row_step in *.
  destruct (T1 !! k), (T2 !! k), (T3 !! k); try done; [by etrans|by eapply new_stable].
Qed.

Lemma table_step_insert T T' k a' :
  table_step T T' → row_step (T !! k) (Some a') → table_step T (<[k := a']> T').
Proof using Type.
  intros H1 H2 k'. destruct (decide (k = k')) as [<-|Hne].
  - by rewrite lookup_insert_eq.
  - rewrite lookup_insert_ne by done. apply H1.
Qed.

(** A row already read from the later table changes. *)
Lemma table_step_update T T' k a a' :
  table_step T T' → T' !! k = Some a → R a a' → table_step T (<[k := a']> T').
Proof using All.
  intros H1 Hk HR. apply table_step_insert; [done|]. specialize (H1 k). rewrite Hk in H1.
  unfold row_step in *. destruct (T !! k); [by etrans|by eapply new_stable].
Qed.

Lemma table_step_lookup T T' k a :
  table_step T T' → T !! k = Some a → ∃ a', T' !! k = Some a' ∧ R a a'.
Proof using Type.
  intros H1 Hk. specialize (H1 k). rewrite Hk in H1. destruct (T' !! k) as [a'|]; [|done].
  by exists a'.
Qed.
End table.

Definition jobs_step : relation (gmap string Job) := table_step job_new job_evolves.
Definition attempts_step : relation (gmap string JobAttempt) :=
  table_step (λ _, True) attempt_evolves.
Definition leases_step : relation (gmap string JobLease) := table_step (λ _, True) lease_evolves.

Lemma job_new_stable j j' : job_new j → job_evolves j j' → job_new j'.
Proof. intros Hn [_ Hs _]%job_evolves_soft. unfold job_new. by etrans. Qed.

(** ** Accounts *)

(** The columns of a User that authorise what the account does. *)
Definition authority (u : User) := (u_role u, u_disabled u, u_password_hash u).

(** The same row, or a later version of it; whatever changes the authority of an account
    gives its access tokens a new version. *)
Record user_later (u u' : User) : Prop := mkUserLater {
  ul_frame : (u_id u', u_email u', u_created_at u') = (u_id u, u_email u, u_created_at u);
  ul_row : u_row_version u < u_row_version u';
  ul_token : u_access_token_version u <= u_access_token_version u';
  ul_authority : authority u' = authority u ∨
                 u_access_token_version u < u_access_token_version u' }.
Definition user_evolves (u u' : User) : Prop := u' = u ∨ user_later u u'.

#[export] Instance user_evolves_PreOrder : PreOrder user_evolves.
Proof.
  split; [by left|]. intros x y z [->|[F1 R1 T1 A1]] [->|[F2 R2 T2 A2]];
    [by left|by right; split..|].
  right. split; [congruence|lia|lia|]. destruct A1 as [A1|?]; [|right; lia].
  destruct A2 as [A2|?]; [left; congruence|right; lia].
Qed.

Definition users_step : relation (gmap string User) := table_step (λ _, True) user_evolves.

(** The bootstrap counter grows, and its outcome is recorded once. *)
Definition bootstrap_step (o o' : option AdminBootstrapState) : Prop :=
  match o, o' with
  | None, _ => True
  | Some _, None => False
  | Some b, Some b' =>
      bs_lock_version b <= bs_lock_version b' ∧
      (is_Some (bs_admin_user_id b) → bs_admin_user_id b' = bs_admin_user_id b ∧
                                      bs_completed_at b' = bs_completed_at b)
  end.

#[export] Instance bootstrap_step_PreOrder : PreOrder bootstrap_step.
Proof.
  split; [by intros [b|]; [split|]|]. intros [x|] [y|] [z|]; simpl; try done.
  intros [L1 H1] [L2 H2]. split; [lia|]. intros Hx. destruct (H1 Hx) as [E1 E2].
  rewrite <-E1 in Hx. destruct (H2 Hx). split; congruence.
Qed.

(** Types and keys of the account tables: what their constraints declare. *)
Record AccountsInv (d : DB) : Prop := mkAccountsInv {
  ai_key : ∀ k u, users d !! k = Some u → u_id u = k;
  ai_email : ∀ k1 u1 k2 u2, users d !! k1 = Some u1 → users d !! k2 = Some u2 →
    u_email u1 = u_email u2 → k1 = k2;
  ai_role : ∀ k u, users d !! k = Some u → role_allowed (u_role u) = true;
  ai_versions : ∀ k u, users d !! k = Some u →
    1 <= u_row_version u ∧ 1 <= u_access_token_version u;
  ai_operation : ∀ k o, admin_operations d !! k = Some o →
    k = (op_actor_id o, op_idempotency_key_hash o) ∧ ur_id (op_response o) = op_resource_id o ∧
    is_Some (users d !! op_actor_id o) ∧ is_Some (users d !! op_resource_id o);
  ai_revoked : ∀ k t, revoked_tokens d !! k = Some t →
    rt_jti t = k ∧ is_Some (users d !! rt_user_id t);
  ai_bootstrap : ∀ b id, bootstrap_state d = Some b → bs_admin_user_id b = Some id →
    is_Some (users d !! id) }.

Definition has_admin (d : DB) : Prop :=
  ∃ k u, users d !! k = Some u ∧ active_admin u = true.

Record accounts_later (c d : DB) : Prop := mkAccountsLater {
  al_inv : AccountsInv d;
  al_users : users_step (users c) (users d);
  al_operations : admin_operations c ⊆ admin_operations d;
  al_revoked : revoked_tokens c ⊆ revoked_tokens d;
  al_bootstrap : bootstrap_step (bootstrap_state c) (bootstrap_state d);
  al_admin : has_admin c → has_admin d }.

(** From well-typed tables. *)
Definition accounts_step (c d : DB) : Prop := AccountsInv c → accounts_later c d.

#[export] Instance accounts_step_PreOrder : PreOrder accounts_step.
Proof.
  split.
  - intros c Hc. by split.
  - intros x y z H1 H2 Hx. destruct (H1 Hx) as [I1 U1 O1 R1 B1 A1].
    destruct (H2 I1) as [I2 U2 O2 R2 B2 A2]. split; [done| |by etrans..|auto].
    by eapply table_step_trans; [|apply _|..].
Qed.

Lemma AccountsInv_ext d d' : accounts_of d' = accounts_of d → AccountsInv d → AccountsInv d'.
Proof.
  intros [= E1 E2 E3 E4] []. by split; rewrite ?E1, ?E2, ?E3, ?E4.
Qed.

Lemma accounts_step_ext c d d' : accounts_of d' = accounts_of d → accounts_step c d → accounts_step c d'.
Proof.
  intros E Hs Hc. destruct (Hs Hc) as [I1 U1 O1 R1 B1 A1].
  pose proof (AccountsInv_ext _ _ E I1). injection E as E1 E2 E3 E4.
  split; rewrite ?E1, ?E2, ?E3, ?E4; try done. intros Ha.
  destruct (A1 Ha) as (k & u & Hu & Hact). exists k, u. by rewrite E1.
Qed.

Lemma accounts_step_same c d : accounts_of d = accounts_of c → accounts_step c d.
Proof. intros E. by apply (accounts_step_ext c c). Qed.

(** ** Artifact uploads *)

(** The columns of an upload that are set when it is created. *)
Definition upload_frame (u : ArtifactUploadSession) :=
  (au_id u, au_job_id u, au_attempt_id u, au_lease_id u, au_worker_id u,
   (au_artifact_type u, au_filename u, au_content_type u, au_expected_size_bytes u,
    au_expected_sha256 u, au_metadata_json u),
   (au_idempotency_key u, au_generation u, au_request_fingerprint u, au_temporary_object_key u,
    au_canonical_object_key u, au_storage_backend u, au_storage_namespace_sha256 u),
   (au_upload_token_hash u, au_expires_at u)).

Definition upload_failed (u : ArtifactUploadSession) : bool :=
  ⌊ au_status u = "failed" ⌋ || ⌊ au_status u = "expired" ⌋.
Definition upload_terminal (u : ArtifactUploadSession) : bool :=
  ⌊ au_status u = "completed" ⌋ || upload_failed u.

(** The statuses an upload can have, and the columns that belong to each of them: the
    token of a finalizer, the token of a writer before the content is sealed, the
    artifact of a completed upload, the key that keeps equal uploads apart. *)
Definition upload_ok (u : ArtifactUploadSession) : bool :=
  (⌊ au_status u = "pending" ⌋ || ⌊ au_status u = "finalizing" ⌋ || upload_terminal u) &&
  eqb (is_some (au_finalization_token u)) ⌊ au_status u = "finalizing" ⌋ &&
  (is_none (au_upload_write_token u) ||
   ⌊ au_status u = "pending" ⌋ && is_none (au_uploaded_at u)) &&
  eqb (is_some (au_artifact_id u)) ⌊ au_status u = "completed" ⌋ &&
  (is_none (au_dedupe_key u) || negb (upload_failed u)) &&
  eqb (is_some (au_finalized_at u)) (upload_terminal u).

(** A later state of an upload: a terminal status is final, and sealed content stays
    sealed. *)
Record upload_evolves (u u' : ArtifactUploadSession) : Prop := mkUploadEvolves {
  ue_frame : upload_frame u' = upload_frame u;
  ue_final : upload_terminal u = true →
    au_status u' = au_status u ∧ au_artifact_id u' = au_artifact_id u;
  ue_sealed : is_Some (au_uploaded_at u) → is_Some (au_uploaded_at u') }.

#[export] Instance upload_evolves_PreOrder : PreOrder upload_evolves.
Proof.
  split; [by constructor|]. intros x y z [F1 E1 S1] [F2 E2 S2]. split; [congruence| |auto].
  intros Ht. destruct (E1 Ht) as [Hs Ha].
  destruct E2 as [Hs2 Ha2]; [|split; congruence]. unfold upload_terminal, upload_failed in *.
  by rewrite Hs.
Qed.

Definition uploads_step : relation (gmap string ArtifactUploadSession) :=
  table_step (λ _, True) upload_evolves.

(** [content] has the size and the checksum that were announced. *)
Definition verified (u : ArtifactUploadSession) (content : string) : Prop :=
  Z.of_nat (String.length content) = au_expected_size_bytes u ∧
  sha256_hex content = au_expected_sha256 u.

(** The artifact an upload has become. *)
Definition registered (u : ArtifactUploadSession) (a : Artifact) : Prop :=
  (ar_job_id a, ar_attempt_id a, ar_artifact_type a, ar_filename a, ar_size_bytes a,
   ar_sha256 a, ar_mime_type a) =
  (au_job_id u, au_attempt_id u, au_artifact_type u, au_filename u, au_expected_size_bytes u,
   au_expected_sha256 u, Some (au_content_type u)).

Record upload_verified (d : DB) (u : ArtifactUploadSession) : Prop := mkUploadVerified {
  uv_artifact : ∃ id a, au_artifact_id u = Some id ∧ artifact_rows d !! id = Some a ∧
    registered u a;
  uv_object : ∃ content, objects d !! au_canonical_object_key u = Some content ∧
    verified u content }.

Record ArtifactsInv (d : DB) : Prop := mkArtifactsInv {
  ui_key : ∀ k u, artifact_uploads d !! k = Some u → au_id u = k;
  ui_shape : ∀ k u, artifact_uploads d !! k = Some u → upload_ok u = true;
  ui_objects : ∀ k u, artifact_uploads d !! k = Some u →
    au_temporary_object_key u = staging_object_key (au_attempt_id u) (au_id u) ∧
    au_canonical_object_key u =
      canonical_object_key (au_job_id u) (au_attempt_id u) (au_artifact_type u) (au_id u);
  ui_unique : ∀ k1 u1 k2 u2, artifact_uploads d !! k1 = Some u1 → artifact_uploads d !! k2 = Some u2 →
    au_canonical_object_key u1 = au_canonical_object_key u2 → k1 = k2;
  ui_verified : ∀ k u, artifact_uploads d !! k = Some u → au_status u = "completed" →
    upload_verified d u;
  ui_row : ∀ k a, artifact_rows d !! k = Some a → ar_id a = k }.

(** The verified copy of an upload is written once, and deleted only when the upload has
    failed or expired. *)
Definition object_kept (c d : DB) (k : string) (u : ArtifactUploadSession) : Prop :=
  ∀ content, objects c !! au_canonical_object_key u = Some content →
    objects d !! au_canonical_object_key u = Some content ∨
    ∃ u', artifact_uploads d !! k = Some u' ∧ upload_failed u' = true.

Record artifacts_later (c d : DB) : Prop := mkArtifactsLater {
  rl_inv : ArtifactsInv d;
  rl_uploads : uploads_step (artifact_uploads c) (artifact_uploads d);
  rl_rows : artifact_rows c ⊆ artifact_rows d;
  rl_objects : ∀ k u, artifact_uploads c !! k = Some u → object_kept c d k u }.

Definition artifacts_step (c d : DB) : Prop := ArtifactsInv c → artifacts_later c d.

Lemma upload_evolves_failed u u' :
  upload_evolves u u' → upload_failed u = true → upload_failed u' = true.
Proof.
  intros [_ Hf _] Hu. destruct Hf as [Hs _].
  - unfold upload_terminal. rewrite Hu. apply orb_true_r.
  - unfold upload_failed in *. by rewrite Hs.
Qed.

Lemma upload_evolves_canonical u u' :
  upload_evolves u u' → au_canonical_object_key u' = au_canonical_object_key u.
Proof. by intros [[=] _ _]. Qed.

#[export] Instance artifacts_step_PreOrder : PreOrder artifacts_step.
Proof.
  split.
  - intros c Hc. split; [done|apply table_step_refl, _|done|]. intros k u _ content. by left.
  - intros x y z H1 H2 Hx. destruct (H1 Hx) as [I1 U1 R1 O1]. destruct (H2 I1) as [I2 U2 R2 O2].
    split; [done|by eapply table_step_trans; [|apply _|..]|by etrans|].
    intros k u Hu content Hc.
    destruct (table_step_lookup _ _ _ _ _ _ U1 Hu) as (u1 & Hu1 & He1).
    destruct (O1 _ _ Hu _ Hc) as [Hy|(u' & Hu' & Hf)].
    + rewrite <-(upload_evolves_canonical _ _ He1) in *. by apply (O2 _ _ Hu1).
    + right. destruct (table_step_lookup _ _ _ _ _ _ U2 Hu') as (u2 & Hu2 & He2).
      exists u2. split; [done|by eapply upload_evolves_failed].
Qed.

Lemma ArtifactsInv_ext d d' : artifacts_of d' = artifacts_of d → ArtifactsInv d → ArtifactsInv d'.
Proof.
  intros [= E1 E2 E3] [K S O U V W]. split; rewrite ?E1, ?E2; try done.
  intros k u Hu Hc. destruct (V k u Hu Hc). by split; rewrite ?E1, ?E3.
Qed.

Lemma artifacts_step_ext c d d' :
  artifacts_of d' = artifacts_of d → artifacts_step c d → artifacts_step c d'.
Proof.
  intros E Hs Hc. destruct (Hs Hc) as [I1 U1 R1 O1].
  pose proof (ArtifactsInv_ext _ _ E I1). injection E as E1 E2 E3.
  split; rewrite ?E1, ?E2; try done. intros k u Hu content. unfold object_kept in O1.
  rewrite E2, E3. by apply O1.
Qed.

(** A new artifact is registered. *)
Lemma artifacts_step_row d a :
  artifact_rows d !! ar_id a = None →
  artifacts_step d (d <| artifact_rows := <[ar_id a := a]> (artifact_rows d) |>).
Proof.
  intros Hnew [K S O U V W]. split; simpl; [|apply table_step_refl, _|by apply insert_subseteq|].
  - split; try done.
    + intros k u Hu Hc. destruct (V k u Hu Hc) as [(id & a' & Hi & Ha & Hr) Ho].
      split; [|done]. exists id, a'. split; [done|]. simpl. rewrite lookup_insert_ne; [done|congruence].
    + simpl. intros k a' [[<- <-]|[_ Ha]]%lookup_insert_Some; [done|by apply W].
  - intros k u _ content. by left.
Qed.

(** ** The tables beside Jobs and telemetry *)

Record rest_step (c d : DB) : Prop := mkRestStep {
  rst_accounts : accounts_step c d;
  rst_artifacts : artifacts_step c d }.

#[export] Instance rest_step_PreOrder : PreOrder rest_step.
Proof. split; [by split|]. intros x y z [] []. split; by etrans. Qed.

Lemma rest_step_ext c d d' : rest_of d' = rest_of d → rest_step c d → rest_step c d'.
Proof.
  intros E []. split.
  - eapply accounts_step_ext; [exact (f_equal fst E)|done].
  - eapply artifacts_step_ext; [exact (f_equal snd E)|done].
Qed.

Lemma rest_step_same c d : rest_of d = rest_of c → rest_step c d.
Proof. intros E. by apply (rest_step_ext c c). Qed.

(** ** The ledger *)

Record evolves (c d : DB) : Prop := mkEvolves {
  ev_jobs : jobs_step (jobs c) (jobs d);
  ev_attempts : attempts_step (attempts c) (attempts d);
  ev_leases : leases_step (leases c) (leases d);
  ev_logs : job_logs c ⊆ job_logs d;
  ev_metrics : metrics c ⊆ metrics d;
  ev_rest : rest_step c d }.

#[export] Instance evolves_PreOrder : PreOrder evolves.
Proof.
  split.
  - intros c. split; try done; apply table_step_refl; apply _.
  - intros c d e [J1 A1 L1 G1 M1 P1] [J2 A2 L2 G2 M2 P2]. split; [..|by etrans|by etrans|by etrans].
    + by eapply table_step_trans; [apply job_new_stable|apply _|..].
    + by eapply table_step_trans; [|apply _|..].
    + by eapply table_step_trans; [|apply _|..].
Qed.

(** Rows of other tables are irrelevant. *)
Lemma evolves_ext c d d' :
  jobs d' = jobs d → attempts d' = attempts d → leases d' = leases d →
  job_logs d' = job_logs d → metrics d' = metrics d → rest_of d' = rest_of d →
  evolves c d → evolves c d'.
Proof.
  intros E1 E2 E3 E4 E5 E6 []. split; rewrite ?E1, ?E2, ?E3, ?E4, ?E5; try done.
  by eapply rest_step_ext.
Qed.

(** Nothing but the tables beside them changes. *)
Lemma evolves_rest c d :
  jobs d = jobs c → attempts d = attempts c → leases d = leases c → job_logs d = job_logs c →
  metrics d = metrics c → rest_step c d → evolves c d.
Proof.
  intros E1 E2 E3 E4 E5 Hr. split; rewrite ?E1, ?E2, ?E3, ?E4, ?E5; try done;
    apply table_step_refl, _.
Qed.

Lemma ev_accounts c d : evolves c d → accounts_step c d.
Proof. by intros [_ _ _ _ _ []]. Qed.
Lemma ev_artifacts c d : evolves c d → artifacts_step c d.
Proof. by intros [_ _ _ _ _ []]. Qed.

(** ** Single row changes *)

Lemma jobs_step_update J J' k job job' :
  jobs_step J J' → J' !! k = Some job → job_evolves job job' → jobs_step J (<[k := job']> J').
Proof. apply table_step_update; [apply job_new_stable|apply _]. Qed.

(** A Job saved with a version above the committed one. *)
Definition saved_over (J : gmap string Job) (k : string) (job' : Job) : Prop :=
  ∀ j0, J !! k = Some j0 → job' = j0 ∨ j_row_version j0 < j_row_version job'.

Lemma jobs_step_save J J' k job job' :
  jobs_step J J' → J' !! k = Some job → job_soft job job' → saved_over J k job' →
  jobs_step J (<[k := job']> J').
Proof.
  intros HJ Hk Hsoft Hv. apply table_step_insert; [done|]. specialize (HJ k). rewrite Hk in HJ.
  unfold row_step in *. destruct (J !! k) as [j0|] eqn:Hj0; simpl in HJ.
  - destruct (Hv j0 Hj0) as [->|Hlt]; [by left|]. right. split; [done|].
    etrans; [by apply job_evolves_soft|done].
  - destruct Hsoft as [_ Hs _]. unfold job_new in *. by etrans.
Qed.

Lemma attempts_step_update A A' k a a' :
  attempts_step A A' → A' !! k = Some a → attempt_evolves a a' → attempts_step A (<[k := a']> A').
Proof. apply table_step_update; [done|apply _]. Qed.

Lemma attempts_step_new A A' k a' :
  attempts_step A A' → A' !! k = None → attempts_step A (<[k := a']> A').
Proof.
  intros HA Hk. apply table_step_insert; [done|]. specialize (HA k). rewrite Hk in HA.
  by destruct (A !! k).
Qed.

Lemma leases_step_update L L' k l l' :
  leases_step L L' → L' !! k = Some l → lease_evolves l l' → leases_step L (<[k := l']> L').
Proof. apply table_step_update; [done|apply _]. Qed.

Lemma leases_step_new L L' k l' :
  leases_step L L' → L' !! k = None → leases_step L (<[k := l']> L').
Proof.
  intros HL Hk. apply table_step_insert; [done|]. specialize (HL k). rewrite Hk in HL.
  by destruct (L !! k).
Qed.

(** ** Optimistic reads *)

(** [job] was read from a database of which [d] is a later state. *)
Definition seen (d : DB) (job : Job) : Prop :=
  ∃ row, jobs d !! j_id job = Some row ∧ (row = job ∨ j_row_version job < j_row_version row).

Lemma seen_evolves c d job : seen c job → evolves c d → seen d job.
Proof.
  intros (row & Hr & Hv) [HJ _ _ _ _ _].
  destruct (table_step_lookup _ _ _ _ _ _ HJ Hr) as (row' & Hr' & He). exists row'. split; [done|].
  destruct He as [->|[Hlt _]]; [done|]. right. destruct Hv as [->|]; lia.
Qed.

(** An unchanged version is an unchanged row. *)
Lemma seen_version d job row :
  seen d job → jobs d !! j_id job = Some row → j_row_version row = j_row_version job → row = job.
Proof. intros (row' & Hr & [->|Hv]) Hrow Heq; [congruence|]. simplify_eq. lia. Qed.
