(* ===== verification/Session.v ===== *)
(** * Transactions

    The state a request handler works on and the monad it runs in: SQLAlchemy's
    [AsyncSession] as [database.py] configures it ([autoflush=False],
    [expire_on_commit=False]), over PostgreSQL with READ COMMITTED isolation.

    - A handler reads and writes a working copy of the database; [commit] makes it
      the committed one, [rollback] discards it.  What is uncommitted when the
      handler returns or raises is discarded.
    - [SELECT ... FOR UPDATE] may wait: at that moment, and when a transaction ends,
      other transactions commit.  What they do is an interference function of
      the session, applied to the committed database; it is given the rows this
      transaction has locked, and [respects_locks] says it leaves them alone.  A
      transaction that has written holds its locks, and is not interleaved.
    - The errors a commit or a fencing UPDATE can raise besides those the
      written rows cause are an oracle, [s_outcomes].
    - The object store is shared by all transactions: its operations take effect at once
      and nothing rolls them back; how each ends is an oracle, [s_io].
    - Every commit and every change of the object store is recorded in [s_log].
    - [utc_now] reads a clock that never goes back. *)

From S2P Require Import Prelude Json JobStatus Ledger.

(** ** Exceptions *)

Inductive db_error := StaleDataError | IntegrityError | OperationalError.

Inductive exn :=
  | HTTPException (status_code : Z) (detail : string)
  | InvalidJobTransition (e : transition_error)
  | InvalidJobConfigLedger (message : string)
  | DatabaseError (e : db_error)
  | ValueError (message : string)
  | RuntimeError (message : string)
  | MlflowProjectionRequired (event_key : string)
  | RecursionError
  | StorageError (message : string)
  | InvalidObjectKey
  | ObjectNotFound
  | ObjectTooLarge
  | ObjectSizeMismatch
  | ArtifactSpoolError (failure_code : string)
  | ArtifactVerificationMismatch (failure_code : string)
  | OwnershipLost
  | TimeoutError
  | CancelledError.

#[export] Instance db_error_eq_dec : EqDecision db_error.
Proof. solve_decision. Defined.

Inductive result (A : Type) := Ok (a : A) | Raise (e : exn).
Arguments Ok {_} _.
Arguments Raise {_} _.

(** ** Row locks *)

Inductive lock :=
  | LockLease (id : string)
  | LockJob (id : string)
  | LockAttempt (id : string)
  | LockWorker (id : string)
  | LockDataset (id : string)
  | LockExperiment (id : string)
  | LockTestSet (id : string)
  | LockUser (id : string)
  | LockBootstrapState.

#[export] Instance lock_eq_dec : EqDecision lock.
Proof. solve_decision. Defined.
#[export] Instance lock_countable : Countable lock.
Proof.
  refine (inj_countable' (λ l, match l with
    | LockLease i => (0, i)%nat | LockJob i => (1, i)%nat | LockAttempt i => (2, i)%nat
    | LockWorker i => (3, i)%nat | LockDataset i => (4, i)%nat | LockExperiment i => (5, i)%nat
    | LockTestSet i => (6, i)%nat | LockUser i => (7, i)%nat | LockBootstrapState => (8, "")%nat
    end) (λ '(n, i), match n with
    | 0 => LockLease i | 1 => LockJob i | 2 => LockAttempt i | 3 => LockWorker i
    | 4 => LockDataset i | 5 => LockExperiment i | 6 => LockTestSet i | 7 => LockUser i
    | _ => LockBootstrapState end%nat) _).
  by intros [].
Defined.

(** The row a lock protects is the same in both databases. *)
Definition lock_agrees (d d' : DB) (k : lock) : Prop :=
  match k with
  | LockLease i => leases d' !! i = leases d !! i
  | LockJob i => jobs d' !! i = jobs d !! i
  | LockAttempt i => attempts d' !! i = attempts d !! i
  | LockWorker i => workers d' !! i = workers d !! i
  | LockDataset i => datasets d' !! i = datasets d !! i
  | LockExperiment i => experiments d' !! i = experiments d !! i
  | LockTestSet i => test_sets d' !! i = test_sets d !! i
  | LockUser i => users d' !! i = users d !! i
  | LockBootstrapState => bootstrap_state d' = bootstrap_state d
  end.

Definition interference := gset lock → DB → DB.

Definition respects_locks (f : interference) : Prop :=
  ∀ locks d k, k ∈ locks → lock_agrees d (f locks d) k.

(** ** Object storage

    An operation on the object store, or on the local file it is copied to, meets an
    [io_result]; a failed one may have taken effect.  While it runs, a heartbeat is sent a
    number of times before and after the moment it takes effect. *)

Inductive io_result :=
  | IoDone
  | IoFailed (applied : bool)
  | IoTimeout (applied : bool)
  | IoCancelled (applied : bool)
  | IoSpool (failure_code : string).

Record io_event := mkIoEvent {
  io_before : nat;
  io_what : io_result;
  io_after : nat }.

(** ** Sessions *)

Record Session := mkSession {
  s_committed : DB;
  s_working : DB;
  s_dirty : bool;
  s_doomed : option db_error;
  s_locks : gset lock;
  s_held : gset lock;
  s_env : list interference;
  s_outcomes : list (option db_error);
  s_clock : Z;
  s_delays : list N;
  s_fresh : nat;
  s_info : gmap string Z;
  s_projections : list (option string);
  s_log : list (DB * DB);
  s_io : list io_event }.

#[export] Instance eta_Session : Eta Session := λ s,
  mkSession (s_committed s) (s_working s) (s_dirty s) (s_doomed s) (s_locks s) (s_held s)
    (s_env s) (s_outcomes s) (s_clock s) (s_delays s) (s_fresh s) (s_info s) (s_projections s)
    (s_log s) (s_io s).

(** A new session on a database, at time [now]. *)
Definition new_session (d : DB) (now : Z) : Session :=
  mkSession d d false None ∅ ∅ [] [] now [] 0 ∅ [] [] [].

Definition M (A : Type) : Type := Session → result A * Session.

#[export] Instance M_ret : MRet M := λ A a s, (Ok a, s).
#[export] Instance M_bind : MBind M := λ A B k m s,
  match m s with
  | (Ok a, s') => k a s'
  | (Raise e, s') => (Raise e, s')
  end.
#[export] Instance M_fmap : FMap M := λ A B f m s,
  match m s with
  | (Ok a, s') => (Ok (f a), s')
  | (Raise e, s') => (Raise e, s')
  end.

(** A primitive that does not raise. *)
Definition step {A} (f : Session → A * Session) : M A := λ s, let '(a, s') := f s in (Ok a, s').

Definition raise {A} (e : exn) : M A := λ s, (Raise e, s).
(** [try: m except handled e: h e], where [h] gives [None] for an exception it does
    not name. *)
Definition catch {A} (m : M A) (h : exn → option (M A)) : M A := λ s,
  match m s with
  | (Ok a, s') => (Ok a, s')
  | (Raise e, s') => match h e with Some k => k s' | None => (Raise e, s') end
  end.
Definition http {A} (status_code : Z) (detail : string) : M A :=
  raise (HTTPException status_code detail).

(** [if b: m] as a statement *)
Definition when (b : bool) (m : M ()) : M () := if b then m else mret ().
(** [if b: raise HTTPException(...)] *)
Definition reject_if (b : bool) (status_code : Z) (detail : string) : M () :=
  when b (http status_code detail).

(** [for x in xs: ...] and list comprehensions with awaits *)
Fixpoint for_each {A} (xs : list A) (f : A → M ()) : M () :=
  match xs with
  | [] => mret ()
  | x :: xs' => _ ← f x; for_each xs' f
  end.
Fixpoint collect {A B} (xs : list A) (f : A → M B) : M (list B) :=
  match xs with
  | [] => mret []
  | x :: xs' => y ← f x; ys ← collect xs' f; mret (y :: ys)
  end.

(** [some_or_none o k]: [return None] when [o] is [None]. *)
Definition some_or_none {A B} (o : option A) (k : A → M (option B)) : M (option B) :=
  match o with Some a => k a | None => mret None end.
Definition some_or_raise {A B} (o : option A) (e : exn) (k : A → M B) : M B :=
  match o with Some a => k a | None => raise e end.

(** ** Reading and writing *)

Definition ask {A} (f : DB → A) : M A := λ s, (Ok (f (s_working s)), s).
Definition write (f : DB → DB) : M () := λ s,
  (Ok (), s <| s_working := f (s_working s) |> <| s_dirty := true |>).

(** A row that violates a constraint fails the flush that the commit runs. *)
Definition doom (e : db_error) : M () := λ s,
  (Ok (), s <| s_doomed := Some (default e (s_doomed s)) |>).

(** Other transactions commit, if this one has not written. *)
Definition interleave : M () := λ s,
  match s_dirty s, s_env s with
  | false, f :: rest =>
      let d := f (s_locks s) (s_committed s) in
      (Ok (), s <| s_committed := d |> <| s_working := d |> <| s_env := rest |>)
  | _, _ => (Ok (), s)
  end.

(** [select(...).with_for_update()] on one row; the row need not exist. *)
Definition lock_row {A} (k : lock) (read : DB → A) : M A :=
  _ ← interleave; step (λ s, (read (s_working s), s <| s_locks := {[k]} ∪ s_locks s |>)).

Definition lock_rows (ks : list lock) : M () := λ s,
  (Ok (), s <| s_locks := list_to_set ks ∪ s_locks s |>).

Definition held_by_others : M (gset lock) := λ s, (Ok (s_held s), s).

Definition pop_outcome : M () := λ s,
  match s_outcomes s with
  | [] => (Ok (), s)
  | o :: rest =>
      let s' := s <| s_outcomes := rest |> in
      match o with None => (Ok (), s') | Some e => (Raise (DatabaseError e), s') end
  end.

Definition publish : M () := λ s,
  match s_doomed s with
  | Some e => (Raise (DatabaseError e), s)
  | None =>
      (Ok (), s <| s_committed := s_working s |> <| s_dirty := false |> <| s_locks := ∅ |>
                <| s_log := (s_committed s, s_working s) :: s_log s |>)
  end.

Definition commit : M () := _ ← pop_outcome; publish.

(** [session.flush()]: the pending rows are checked now. *)
Definition flush : M () := λ s,
  match s_doomed s with Some e => (Raise (DatabaseError e), s) | None => (Ok (), s) end.

Definition rollback : M () :=
  _ ← step (λ s, ((), s <| s_working := s_committed s |> <| s_dirty := false |>
                         <| s_doomed := None |> <| s_locks := ∅ |>));
  interleave.

(** The rollback of a second, short-lived session. *)
Definition discard : M () :=
  step (λ s, ((), s <| s_working := s_committed s |> <| s_dirty := false |> <| s_doomed := None |>)).

(** A query that locks all the rows it returns. *)
Definition lock_query {A} (read : DB → A) (keys : A → list lock) : M A :=
  _ ← interleave; a ← ask read; _ ← lock_rows (keys a); mret a.

(** [except StaleDataError], [except (IntegrityError, StaleDataError)], ... *)
Definition on_db_error {A} (es : list db_error) (h : M A) (e : exn) : option (M A) :=
  match e with
  | DatabaseError d => if decide (d ∈ es) then Some h else None
  | _ => None
  end.

(** ** Clock, identifiers, request-local information *)

Definition utc_now : M Z := λ s,
  (Ok (s_clock s),
   s <| s_clock := s_clock s + Z.of_N (hd 0%N (s_delays s)) |> <| s_delays := tl (s_delays s) |>).

(** Identifiers and secrets drawn from the operating system's randomness. *)
Class Platform := {
  uuid4 : nat → string;
  token_urlsafe : nat → string }.

Definition fresh : M nat := λ s, (Ok (s_fresh s), s <| s_fresh := S (s_fresh s) |>).
(** [models.new_id] *)
Definition new_id `{Platform} : M string := n ← fresh; mret (uuid4 n).

(** [session.info.get(key, 0)] and [session.info[key] = n] *)
Definition info_get (key : string) : M Z := λ s, (Ok (default 0 (s_info s !! key)), s).
Definition info_set (key : string) (n : Z) : M () := λ s,
  (Ok (), s <| s_info := <[key := n]> (s_info s) |>).

(** ** Saving ORM rows

    Workers, Jobs and Experiments are versioned ([version_id_col]): the flush of a
    changed row stores the loaded version plus one. *)

#[export] Instance Worker_eq_dec : EqDecision Worker.
Proof. solve_decision. Defined.
#[export] Instance Job_eq_dec : EqDecision Job.
Proof. solve_decision. Defined.
#[export] Instance Experiment_eq_dec : EqDecision Experiment.
Proof. solve_decision. Defined.
#[export] Instance User_eq_dec : EqDecision User.
Proof. solve_decision. Defined.

Definition bump {A} `{EqDecision A} (set_version : A → Z → A) (version : A → Z)
    (loaded : option A) (a : A) : A :=
  match loaded with
  | None => a
  | Some c => if decide (set_version a (version c) = c) then c
              else set_version a (version c + 1)
  end.

Definition worker_with_version (w : Worker) (v : Z) : Worker := w <| w_row_version := v |>.
Definition job_with_version (j : Job) (v : Z) : Job := j <| j_row_version := v |>.
Definition experiment_with_version (e : Experiment) (v : Z) : Experiment :=
  e <| e_row_version := v |>.

Definition save_worker (w : Worker) : M () := λ s,
  let w' := bump worker_with_version w_row_version (workers (s_committed s) !! w_id w) w in
  write (λ d, d <| workers := <[w_id w := w']> (workers d) |>) s.
Definition save_job (j : Job) : M () := λ s,
  let j' := bump job_with_version j_row_version (jobs (s_committed s) !! j_id j) j in
  write (λ d, d <| jobs := <[j_id j := j']> (jobs d) |>) s.
Definition save_experiment (e : Experiment) : M () := λ s,
  let e' := bump experiment_with_version e_row_version
              (experiments (s_committed s) !! e_id e) e in
  write (λ d, d <| experiments := <[e_id e := e']> (experiments d) |>) s.
Definition save_attempt (a : JobAttempt) : M () :=
  write (λ d, d <| attempts := <[a_id a := a]> (attempts d) |>).
Definition save_lease (l : JobLease) : M () :=
  write (λ d, d <| leases := <[l_id l := l]> (leases d) |>).

(** ** Adding rows: an existing key fails the flush *)

Definition doom_if (bad : DB → bool) : M () :=
  b ← ask bad; when b (doom IntegrityError).

(** [session.add(row)] of a row with a unique key: a taken key fails the flush. *)
Definition add_unique (taken : DB → bool) (put : DB → DB) : M () :=
  duplicate ← ask taken; _ ← write put; doom_if (λ _, duplicate).

Definition add_attempt (a : JobAttempt) : M () :=
  _ ← doom_if (λ d, is_some (attempts d !! a_id a)); save_attempt a.
Definition add_lease (l : JobLease) : M () :=
  _ ← doom_if (λ d, is_some (leases d !! l_id l)); save_lease l.
Definition add_status_event (e : JobStatusEvent) : M () :=
  write (λ d, d <| status_events := status_events d ++ [e] |>).
Definition add_audit_event (actor_type : string) (actor_id : option string) (action : string)
    (resource_type : string) (resource_id : option string) (details : list (string * json)) : M () :=
  write (λ d, d <| audit_events := audit_events d ++
    [mkAuditEvent actor_type actor_id action resource_type resource_id details] |>).

(** ** Status checks and conditional updates *)

(** [raise InvalidJobTransition] *)
Definition check_transition (current target : string) (allow_same : bool) : M JobStatus :=
  match validate_job_transition current target allow_same with
  | inl e => raise (InvalidJobTransition e)
  | inr s => mret s
  end.

(** [update(Job).where(Job.id == id, p).values(f)]: the rows it matched. *)
Definition update_job_where (id : string) (p : Job → bool) (f : Job → Job) : M bool :=
  row ← ask (λ d, jobs d !! id);
  match row with
  | Some job =>
      if p job then _ ← write (λ d, d <| jobs := <[id := f job]> (jobs d) |>); mret true
      else mret false
  | None => mret false
  end.

(** [update(ArtifactUploadSession).where(ArtifactUploadSession.id == id, p).values(f)] on the
    row as other transactions have left it: the rows it matched. *)
Definition update_upload (id : string) (p : ArtifactUploadSession → bool)
    (f : ArtifactUploadSession → ArtifactUploadSession) : M bool :=
  _ ← interleave;
  row ← ask (λ d, artifact_uploads d !! id);
  match row with
  | Some u =>
      if p u then
        _ ← write (λ d, d <| artifact_uploads := <[id := f u]> (artifact_uploads d) |>); mret true
      else mret false
  | None => mret false
  end.

(** ** Object storage *)

(** What the next operation meets. *)
Definition next_io : M io_event := λ s,
  (Ok (hd (mkIoEvent 0 IoDone 0) (s_io s)), s <| s_io := tl (s_io s) |>).

(** The store changes for everyone, whatever becomes of the transaction. *)
Definition change_objects (f : gmap string string → gmap string string) : M () := λ s,
  let put d := d <| objects := f (objects d) |> in
  (Ok (), s <| s_committed := put (s_committed s) |> <| s_working := put (s_working s) |>
            <| s_log := (s_committed s, put (s_committed s)) :: s_log s |>).

(** [try: result = m except BaseException as exc: error = exc] *)
Definition attempt {A} (m : M A) : M (result A) := λ s, let '(r, s') := m s in (Ok r, s').

(** [except StorageError] *)
Definition is_storage_error (e : exn) : bool :=
  match e with
  | StorageError _ | InvalidObjectKey | ObjectNotFound | ObjectTooLarge | ObjectSizeMismatch => true
  | _ => false
  end.

(** The committed database after a request. *)
Definition after {A} (m : M A) (s : Session) : DB := s_committed (m s).2.
Definition outcome {A} (m : M A) (s : Session) : result A := (m s).1.

(** The transaction that leads from [d] to [d'] is one that the request has committed. *)
Definition committed {A} (m : M A) (s : Session) (d d' : DB) : Prop := (d, d') ∈ s_log (m s).2.

(** It has committed this transaction and no other. *)
Definition committed_only {A} (m : M A) (s : Session) (d d' : DB) : Prop :=
  s_log (m s).2 = [(d, d')].

(** The session, and the committed database, when others have committed [n] times at its
    awaits. *)
Definition later (n : nat) (s : Session) : Session := Nat.iter n (λ s, (interleave s).2) s.
Definition moment (s : Session) (n : nat) : DB := s_committed (later n s).
