(* ===== verification/Storage.v ===== *)
(** * Object storage

    [storage.py]: the adapters of the local file system and of S3.  The store itself is
    the map [objects] of the database: an object is written at once (a rename or a link on
    the file system, one PUT on S3), a read sees the object as it was when it was opened,
    and any operation may fail, with or without effect ([io_result]).  Two spellings of one
    path are not identified: the keys of the program have one. *)

From S2P Require Import Prelude Sha256 Base64 Json ObjectKeys Ledger Session.

(** boto3's [generate_presigned_url operation params expires_in method]; [None] is an
    exception. *)
Class S3Client := {
  generate_presigned_url : string → list (string * json) → Z → string → option string }.

Record UploadTarget := mkUploadTarget {
  ut_url : string;
  ut_headers : list (string * string) }.

(** The settings of the two adapters; [root] is the resolved directory. *)
Inductive StorageAdapter :=
  | LocalStorageAdapter (root : string)
  | S3StorageAdapter (endpoint_url : option string) (bucket region addressing_style : string)
      (bind_checksum : bool).

Definition unit_separator : string := String (chr 31) "".

Definition backend (storage : StorageAdapter) : string :=
  match storage with LocalStorageAdapter _ => "local" | S3StorageAdapter _ _ _ _ _ => "s3" end.

Definition namespace_fingerprint (storage : StorageAdapter) : string :=
  match storage with
  | LocalStorageAdapter root => sha256_hex ("local" +:+ unit_separator +:+ root)
  | S3StorageAdapter endpoint_url bucket region style _ =>
      let endpoint := match endpoint_url with
                      | Some url => if ⌊ url = "" ⌋ then "aws-default" else url
                      | None => "aws-default" end in
      sha256_hex (String.concat unit_separator ["s3"; endpoint; bucket; region; style])
  end.

(** [storage_namespace_matches] *)
Definition namespace_matches (storage : StorageAdapter) (stored namespace_sha256 : string) : bool :=
  ⌊ stored = backend storage ⌋ && ⌊ namespace_sha256 = namespace_fingerprint storage ⌋.

(** [storage_uri]; [None] is [InvalidObjectKey]. *)
Definition storage_uri (storage : StorageAdapter) (object_key : string) : option string :=
  parts ← validate_object_key object_key;
  Some (match storage with
        | LocalStorageAdapter _ => "local:///" +:+ as_posix parts
        | S3StorageAdapter _ bucket _ _ _ => "s3://" +:+ bucket +:+ "/" +:+ as_posix parts
        end).

(** [text.rstrip("/")] *)
Definition rstrip_slashes (s : string) : string :=
  let fix drop cs := match cs with
                     | c :: cs' => if ⌊ c = chr 47 ⌋ then drop cs' else cs
                     | [] => [] end in
  String.string_of_list_ascii (rev (drop (rev (str_chars s)))).

(** [base64.b64encode(bytes.fromhex(sha256))] on a hexadecimal checksum *)
Definition nibble (c : ascii) : Z := if is_digit c then code c - 48 else Z.land (code c) 7 + 9.
Fixpoint bytes_fromhex (cs : list ascii) : list Z :=
  match cs with
  | a :: b :: cs' => 16 * nibble a + nibble b :: bytes_fromhex cs'
  | _ => []
  end.
Definition standard_b64 (c : ascii) : ascii :=
  if ⌊ c = chr 45 ⌋ then chr 43 else if ⌊ c = chr 95 ⌋ then chr 47 else c.
Definition b64_checksum (sha256 : string) : string :=
  String.string_of_list_ascii (map standard_b64 (urlsafe_b64encode (bytes_fromhex (str_chars sha256)))).

(** The key of an operation, which raises on an invalid one. *)
Definition valid_key (object_key : string) : M () :=
  match validate_object_key object_key with Some _ => mret () | None => raise InvalidObjectKey end.

Section storage.
  Context `{S3Client}.
  Variable storage : StorageAdapter.

(** [create_upload_target]; the default of [local_upload_path] is the route of
    [local_presigned_upload]. *)
Definition create_upload_target (session_id object_key public_api_base_url content_type : string)
    (content_length : Z) (sha256 : string) (expires_at : Z) (local_upload_token : option string)
    : M UploadTarget :=
  match storage with
  | LocalStorageAdapter _ =>
      match local_upload_token with
      | None => raise (StorageError "local upload token is required")
      | Some token =>
          mret (mkUploadTarget
            (rstrip_slashes public_api_base_url +:+ "/api/v1/storage/uploads/" +:+ session_id)
            [("Content-Type", content_type); ("Content-Length", pretty content_length);
             ("X-RVC-Upload-Token", token)])
      end
  | S3StorageAdapter _ bucket _ _ bind_checksum =>
      _ ← valid_key object_key;
      now ← utc_now;
      let remaining := Z.max 1 (Z.quot (expires_at - now) 1000000) in
      let checksum := b64_checksum sha256 in
      let params :=
        [("Bucket", JString bucket); ("Key", JString object_key);
         ("ContentType", JString content_type); ("ContentLength", JInt content_length);
         ("Metadata", JObject [("sha256", JString sha256)]); ("IfNoneMatch", JString "*")] ++
        (if bind_checksum then [("ChecksumSHA256", JString checksum)] else []) in
      let headers :=
        [("Content-Type", content_type); ("Content-Length", pretty content_length);
         ("If-None-Match", "*"); ("x-amz-meta-sha256", sha256)] ++
        (if bind_checksum then [("x-amz-checksum-sha256", checksum)] else []) in
      match generate_presigned_url "put_object" params remaining "PUT" with
      | Some url => mret (mkUploadTarget url headers)
      | None => raise (StorageError "object upload signing failed")
      end
  end.

(** [create_download_url]: a local object has none. *)
Definition create_download_url (object_key content_disposition : string) (expires_in_seconds : Z)
    : M (option string) :=
  match storage with
  | LocalStorageAdapter _ => mret None
  | S3StorageAdapter _ bucket _ _ _ =>
      _ ← valid_key object_key;
      match generate_presigned_url "get_object"
              [("Bucket", JString bucket); ("Key", JString object_key);
               ("ResponseContentDisposition", JString content_disposition)] expires_in_seconds "GET" with
      | Some url => mret (Some url)
      | None => raise (StorageError "object storage download signing failed")
      end
  end.

(** The effect of an operation that fails, and how it fails. *)
Definition failing (io : io_result) (effect : M ()) (message : string) : M () :=
  match io with
  | IoDone => effect
  | IoFailed applied | IoTimeout applied | IoCancelled applied =>
      _ ← when applied effect;
      raise (match io with
             | IoTimeout _ => TimeoutError | IoCancelled _ => CancelledError
             | _ => StorageError message end)
  | IoSpool code => raise (ArtifactSpoolError code)
  end.

(** *** Bounded reads *)

(** The loop of [stream_object]: the chunks it yields, and whether the object exceeds the
    bound; one round for each byte of the object is enough. *)
Fixpoint stream_chunks (fuel : nat) (chunk_size : nat) (max_bytes total : Z) (rest : string)
    : list string * bool :=
  match fuel with
  | O => ([], false)
  | S fuel' =>
      let chunk := str_take chunk_size rest in
      if ⌊ chunk = "" ⌋ then ([], false) else
      let total' := total + Z.of_nat (String.length chunk) in
      if max_bytes <? total' then ([], true) else
      let '(chunks, too_large) :=
        stream_chunks fuel' chunk_size max_bytes total' (str_drop chunk_size rest) in
      (chunk :: chunks, too_large)
  end.

(** [stream_object]: the chunks, and the error that ends them. *)
Definition stream_object (io : io_result) (object_key : string) (chunk_size : nat) (max_bytes : Z)
    : M (list string * bool) :=
  _ ← valid_key object_key;
  content ← ask (λ d, objects d !! object_key);
  match content with
  | None => raise ObjectNotFound
  | Some content =>
      _ ← failing io (mret ()) "object storage read failed";
      mret (stream_chunks (S (String.length content)) chunk_size max_bytes 0 content)
  end.

(** *** Writes *)

(** The loop of [write_upload_stream]: what is written, unless it exceeds the size. *)
Fixpoint receive_chunks (expected_size : Z) (written : string) (chunks : list string)
    : option string :=
  match chunks with
  | [] => Some written
  | chunk :: chunks' =>
      let written' := written +:+ chunk in
      if expected_size <? Z.of_nat (String.length written') then None
      else receive_chunks expected_size written' chunks'
  end.

Definition put_object (object_key content : string) : gmap string string → gmap string string :=
  <[object_key := content]>.

(** [write_upload_stream]: the object is replaced when the whole body has arrived. *)
Definition write_upload_stream (io : io_result) (object_key : string) (chunks : list string)
    (expected_size : Z) : M () :=
  match storage with
  | S3StorageAdapter _ _ _ _ _ =>
      raise (StorageError "direct upload is unavailable for this storage backend")
  | LocalStorageAdapter _ =>
      _ ← valid_key object_key;
      match receive_chunks expected_size "" chunks with
      | None => raise ObjectTooLarge
      | Some content =>
          if negb (Z.of_nat (String.length content) =? expected_size) then raise ObjectSizeMismatch
          else failing io (change_objects (put_object object_key content)) "local object upload failed"
      end
  end.

(** [store_verified_file]: [link(2)], or a PUT with [IfNoneMatch]; an existing object is
    never replaced. *)
Definition store_verified_file (io : io_result) (object_key content : string) : M () :=
  _ ← valid_key object_key;
  existing ← ask (λ d, objects d !! object_key);
  match existing with
  | Some _ => raise (StorageError "verified object publish failed")
  | None => failing io (change_objects (put_object object_key content)) "verified object publish failed"
  end.

(** [delete_object] *)
Definition delete_object (io : io_result) (object_key : string) : M () :=
  _ ← valid_key object_key;
  failing io (change_objects (delete object_key)) "object storage cleanup failed".
End storage.

(** ** Chunks *)

Lemma str_take_drop n s : str_take n s +:+ str_drop n s = s.
Proof. revert n. induction s as [|c s IH]; intros [|n]; try done.
  change (String c (str_take n s +:+ str_drop n s) = String c s). by rewrite IH.
Qed.

Lemma string_length_app s t : String.length (s +:+ t) = (String.length s + String.length t)%nat.
Proof.
  induction s as [|c s IH]; [done|].
  change (S (String.length (s +:+ t)) = S (String.length s + String.length t)). by rewrite IH.
Qed.

Lemma str_take_empty n s : str_take (S n) s = "" → s = "".
Proof. by destruct s. Qed.

(** A stream that ends without an error yields the whole object, within the bound. *)
Lemma stream_chunks_whole fuel n max_bytes total rest chunks :
  stream_chunks fuel (S n) max_bytes total rest = (chunks, false) →
  (String.length rest < fuel)%nat →
  String.concat "" chunks = rest ∧
  (total <= max_bytes → total + Z.of_nat (String.length rest) <= max_bytes).
Proof.
  revert total rest chunks. induction fuel as [|fuel IH]; intros total rest chunks; [lia|].
  cbn [stream_chunks]. case_bool_decide as Hempty.
  - intros [= <-] _. apply str_take_empty in Hempty as ->. simpl. split; [done|lia].
  - set (chunk := str_take (S n) rest) in *.
    destruct (max_bytes <? _) eqn:Hmax; [done|].
    destruct (stream_chunks _ _ _ _ _) as [cs e] eqn:Hs. intros [= <- ->] Hlen.
    pose proof (str_take_drop (S n) rest) as Hsplit. fold chunk in Hsplit.
    pose proof (f_equal String.length Hsplit) as Hl. rewrite string_length_app in Hl.
    assert (0 < String.length chunk)%nat as Hpos by (destruct chunk; [done|simpl; lia]).
    destruct (IH _ _ _ Hs) as [Hc Hb]; [lia|]. apply Z.ltb_ge in Hmax. split; [|lia].
    rewrite <-Hsplit, <-Hc. destruct cs; simpl; [by rewrite append_empty_r|done].
Qed.

(** An object within the bound is streamed to its end. *)
Lemma stream_chunks_ends fuel n max_bytes total rest :
  (String.length rest < fuel)%nat → total + Z.of_nat (String.length rest) <= max_bytes →
  ∃ chunks, stream_chunks fuel (S n) max_bytes total rest = (chunks, false).
Proof.
  revert total rest. induction fuel as [|fuel IH]; intros total rest Hlen Hmax; [lia|].
  cbn [stream_chunks]. case_bool_decide as Hempty; [by eexists|].
  pose proof (str_take_drop (S n) rest) as Hsplit.
  pose proof (f_equal String.length Hsplit) as Hl. rewrite string_length_app in Hl.
  assert (0 < String.length (str_take (S n) rest))%nat as Hpos.
  { destruct (str_take (S n) rest); [done|simpl; lia]. }
  replace (max_bytes <? _) with false by (symmetry; apply Z.ltb_ge; lia).
  destruct (IH (total + Z.of_nat (String.length (str_take (S n) rest))) (str_drop (S n) rest))
    as [chunks ->]; [lia..|]. by eexists.
Qed.

(** What is received is the whole body, and is not longer than announced. *)
Lemma receive_chunks_whole size written chunks content :
  receive_chunks size written chunks = Some content →
  content = written +:+ String.concat "" chunks.
Proof.
  revert written. induction chunks as [|chunk chunks IH]; intros written; cbn [receive_chunks].
  - intros [= ->]. by rewrite append_empty_r.
  - destruct (size <? _); [done|]. intros Hr%IH. rewrite Hr, <-append_assoc.
    f_equal. by destruct chunks; simpl; rewrite ?append_empty_r.
Qed.
