(* ===== verification/ArtifactService.v ===== *)
(** * Artifacts

    [services/artifacts.py]: the lifetime, fingerprint and keys of an upload, its local
    token, and the verification of an uploaded object; with the request schemas of the
    upload routes ([schemas.py]) after their normalisation.

    The verification spool is a local file: its contents are the string that
    [verify_object_to_spool] returns, and its failures are [IoSpool] events. *)

From S2P Require Import Prelude Sha256 Base64 Json JsonRead PyText WorkerContract Settings.
From S2P Require Import ObjectKeys Ledger Session Storage.

(** ** Requests and responses *)

Record ArtifactUploadInitRequest := mkArtifactUploadInitRequest {
  ui_lease_id : string;
  ui_attempt_id : string;
  ui_idempotency_key : string;
  ui_artifact_type : ArtifactType;
  ui_filename : string;
  ui_content_type : string;
  ui_size_bytes : Z;
  ui_sha256 : string;
  ui_metadata : json }.

Definition ARTIFACT_CONTENT_TYPES (t : ArtifactType) : list string :=
  match t with
  | FINAL_SMALL_MODEL | GENERATOR_CHECKPOINT | DISCRIMINATOR_CHECKPOINT =>
      ["application/octet-stream"; "application/x-pytorch"]
  | FINAL_INDEX | TOTAL_FEATURES | TENSORBOARD => ["application/octet-stream"]
  | TRAIN_LOG => ["text/plain"; "application/octet-stream"]
  | SAMPLE => ["audio/wav"; "audio/x-wav"; "audio/flac"; "audio/mpeg"]
  | ENVIRONMENT | CONFIG | DATASET_REPORT => ["application/json"]
  end.

Definition within_length (lo hi : Z) (s : string) : bool := (lo <=? py_len s) && (py_len s <=? hi).

(** [safe_filename]; [PurePath(value).name] is [value] when it holds no separator. *)
Definition safe_filename (value : string) : bool :=
  negb ⌊ value ∈ ["."; ".."] ⌋ && negb (contains value "/") && negb (contains value "\") &&
  all_chars (λ c, 32 <=? code c) value.

(** [ensure_ascii=True] on a text that is escaped already *)
Definition ensure_ascii_char (w : string) : list ascii :=
  match w with
  | String c "" => if between 32 126 (code c) then [c] else ascii_escape w
  | _ => ascii_escape w
  end.
Definition ensure_ascii (text : string) : string :=
  String.string_of_list_ascii (concat (map ensure_ascii_char (utf8_chars text))).

(** [bounded_metadata] *)
Definition bounded_metadata (value : json) : bool :=
  match json_dumps value with
  | Some text => Z.of_nat (String.length (ensure_ascii text)) <=? 16 * 1024
  | None => false
  end.

Definition ArtifactUploadInitRequest_valid (p : ArtifactUploadInitRequest) : bool :=
  within_length 1 128 (ui_lease_id p) && within_length 1 128 (ui_attempt_id p) &&
  within_length 8 128 (ui_idempotency_key p) && within_length 1 255 (ui_filename p) &&
  within_length 3 255 (ui_content_type p) && (1 <=? ui_size_bytes p) &&
  all_chars is_lower_hex (ui_sha256 p) && (py_len (ui_sha256 p) =? 64) &&
  safe_filename (ui_filename p) && bounded_metadata (ui_metadata p) &&
  ⌊ ui_content_type p ∈ ARTIFACT_CONTENT_TYPES (ui_artifact_type p) ⌋.

Record ArtifactUploadFinalizeRequest := mkArtifactUploadFinalizeRequest {
  uf_lease_id : string;
  uf_attempt_id : string }.
Definition ArtifactUploadFinalizeRequest_valid (p : ArtifactUploadFinalizeRequest) : bool :=
  within_length 1 128 (uf_lease_id p) && within_length 1 128 (uf_attempt_id p).

Record ArtifactUploadInitResponse := mkArtifactUploadInitResponse {
  ur_upload_session_id : string;
  ur_status : string;
  ur_method : option string;
  ur_upload_url : option string;
  ur_upload_headers : list (string * string);
  ur_expires_at : Z;
  ur_artifact : option Artifact;
  ur_failure_code : option string;
  ur_retryable : bool;
  ur_retry_after_seconds : option Z }.

Section artifacts.
  Variable settings : Settings.

(** ** Uploads *)

Definition MIN_UPLOAD_TTL_SECONDS : Z := 300.
Definition ASSUMED_MIN_UPLOAD_BYTES_PER_SECOND : Z := 2 * 1024 ^ 2.

(** [effective_artifact_upload_ttl_seconds] *)
Definition effective_artifact_upload_ttl_seconds (size_bytes : Z) : Z :=
  let transfer_seconds :=
    (size_bytes + ASSUMED_MIN_UPLOAD_BYTES_PER_SECOND - 1) / ASSUMED_MIN_UPLOAD_BYTES_PER_SECOND in
  Z.min (artifact_upload_ttl_seconds settings) (MIN_UPLOAD_TTL_SECONDS + transfer_seconds).

(** [upload_request_fingerprint]; [None] is a document that cannot be serialised, which
    validated metadata is not. *)
Definition upload_request_fingerprint (p : ArtifactUploadInitRequest) : option string :=
  text ← json_dumps (JObject
    [("artifact_type", JString (ArtifactType_value (ui_artifact_type p)));
     ("filename", JString (ui_filename p)); ("content_type", JString (ui_content_type p));
     ("size_bytes", JInt (ui_size_bytes p)); ("sha256", JString (ui_sha256 p));
     ("metadata", ui_metadata p)]);
  Some (sha256_hex (ensure_ascii text)).

(** [upload_dedupe_key] *)
Definition upload_dedupe_key (attempt_id artifact_type sha256 : string) : string :=
  sha256_hex (attempt_id +:+ unit_separator +:+ artifact_type +:+ unit_separator +:+ sha256).

(** [derive_local_upload_token] *)
Definition derive_local_upload_token (upload_session_id : string) (expires_at_timestamp : Z) : string :=
  let message := "artifact-upload" +:+ unit_separator +:+ upload_session_id +:+ unit_separator +:+
                 pretty expires_at_timestamp in
  "rvcu_" +:+ String.string_of_list_ascii
    (rstrip_pads (urlsafe_b64encode (hmac_sha256_bytes (worker_token_pepper settings) message))).

(** [upload_token_hash], [verify_upload_token] *)
Definition upload_token_hash (token : string) : string := sha256_hex token.
Definition verify_upload_token (token : string) (expected_hash : option string) : bool :=
  match expected_hash with None => false | Some hash => ⌊ upload_token_hash token = hash ⌋ end.

(** [safe_download_filename] *)
Definition safe_download_filename (filename artifact_id : string) : string :=
  if ⌊ filename = "" ⌋ || negb (safe_filename filename)
  then "artifact-" +:+ artifact_id +:+ ".bin" else filename.

(** ** Verification *)

(** The loop over the chunks: their total length and what the spool holds. *)
Fixpoint spool_chunks (total : Z) (spool : string) (chunks : list string) : Z * string :=
  match chunks with
  | [] => (total, spool)
  | chunk :: chunks' =>
      spool_chunks (total + Z.of_nat (String.length chunk)) (spool +:+ chunk) chunks'
  end.

(** [verify_object_to_spool] *)
Definition verify_object_to_spool (io : io_result) (object_key : string) (expected_size : Z)
    (expected_sha256 : string) : M string :=
  streamed ← stream_object io object_key (Z.to_nat (artifact_stream_chunk_bytes settings))
               (expected_size + 1);
  let '(chunks, too_large) := streamed in
  let '(total, spool) := spool_chunks 0 "" chunks in
  if too_large : bool then raise ObjectTooLarge
  else if negb (total =? expected_size) then raise (ArtifactVerificationMismatch "size_mismatch")
  else if negb ⌊ sha256_hex spool = expected_sha256 ⌋
  then raise (ArtifactVerificationMismatch "sha256_mismatch")
  else mret spool.

(** [remove_spool_file] *)
Definition remove_spool_file : M () :=
  io ← next_io;
  match io_what io with IoSpool code => raise (ArtifactSpoolError code) | _ => mret () end.

(** ** Work under a heartbeat

    [_run_with_artifact_finalization_heartbeat], [_run_with_artifact_upload_write_heartbeat]
    and [_run_with_cleanup_heartbeat] differ in the row update [touch] that proves the
    caller still owns its claim.  The operation runs while the heartbeats are sent; a
    cancellation or a deadline ends the wait at once, a lost claim ends it with the
    operation. *)

(** Heartbeats until one finds the claim lost. *)
Fixpoint beat (touch : M bool) (n : nat) : M bool :=
  match n with
  | O => mret true
  | S n' => owned ← touch; if owned : bool then beat touch n' else mret false
  end.

Definition interrupted {A} (r : result A) : bool :=
  match r with Raise TimeoutError | Raise CancelledError => true | _ => false end.

Definition of_result {A} (r : result A) : M A :=
  match r with Ok a => mret a | Raise e => raise e end.

Definition run_with_heartbeat {A} (touch : M bool) (operation : io_result → M A) : M A :=
  first ← touch;
  if negb first then raise OwnershipLost else
  io ← next_io;
  owned ← beat touch (io_before io);
  _ ← interleave;
  outcome ← attempt (operation (io_what io));
  if interrupted outcome then of_result outcome else
  owned ← (if owned : bool then beat touch (io_after io) else mret false);
  owned ← (if owned : bool then touch else mret false);
  if negb owned then raise OwnershipLost else of_result outcome.
End artifacts.

(** ** Spools *)

Lemma spool_chunks_length t s chunks total spool :
  spool_chunks t s chunks = (total, spool) → t = Z.of_nat (String.length s) →
  total = Z.of_nat (String.length spool).
Proof.
  revert t s. induction chunks as [|x chunks IH]; intros t s; simpl; [by intros [= <- <-]|].
  intros Hs ->. apply (IH _ _ Hs). rewrite string_length_app. lia.
Qed.
