(* ===== verification/ArtifactCleanup.v ===== *)
(** * Cleanup of artifact uploads

    [services/artifact_cleanup.py]: the files of a finished upload are deleted by whoever
    holds its cleanup claim.  A staged file is deleted once its signed URL has expired, a
    verified copy only when the upload has failed or expired; on S3 each is deleted twice,
    the second time after a grace period.  Every ledger access is a session of its own. *)

From S2P Require Import Prelude Settings ObjectKeys Ledger Evolution Session Storage.
From S2P Require Import ArtifactService.

Definition TERMINAL_UPLOAD_STATUSES : list string := ["completed"; "failed"; "expired"].

(** The commit of a session of its own, which is rolled back when the commit fails. *)
Definition commit_or_discard : M () := catch commit (λ e, Some (_ ← discard; raise e)).

(** [async with database.session_factory() as session: update(...); commit] *)
Definition update_and_commit (id : string) (p : ArtifactUploadSession → bool)
    (f : ArtifactUploadSession → ArtifactUploadSession) : M bool :=
  changed ← update_upload id p f;
  _ ← commit_or_discard;
  mret changed.

Record ArtifactCleanupResult := mkArtifactCleanupResult {
  cr_examined : nat;
  cr_claimed : nat;
  cr_object_deletes : nat;
  cr_first_deletes : nat;
  cr_confirmed_deletes : nat;
  cr_ledger_updates : nat;
  cr_conflicts : nat;
  cr_failed : nat }.
Definition no_cleanup : ArtifactCleanupResult := mkArtifactCleanupResult 0 0 0 0 0 0 0 0.
Definition add_result (a b : ArtifactCleanupResult) : ArtifactCleanupResult :=
  mkArtifactCleanupResult (cr_examined a + cr_examined b) (cr_claimed a + cr_claimed b)
    (cr_object_deletes a + cr_object_deletes b) (cr_first_deletes a + cr_first_deletes b)
    (cr_confirmed_deletes a + cr_confirmed_deletes b) (cr_ledger_updates a + cr_ledger_updates b)
    (cr_conflicts a + cr_conflicts b) (cr_failed a + cr_failed b).
#[export] Instance eta_ArtifactCleanupResult : Eta ArtifactCleanupResult := λ r,
  mkArtifactCleanupResult (cr_examined r) (cr_claimed r) (cr_object_deletes r)
    (cr_first_deletes r) (cr_confirmed_deletes r) (cr_ledger_updates r) (cr_conflicts r) (cr_failed r).

Inductive cleanup_kind := Canonical | Staging.
Inductive cleanup_action := LocalDelete | FirstDelete | ConfirmDelete.

Section cleanup.
  Context `{Platform}.
  Variable settings : Settings.
  Variable storage : StorageAdapter.

(** [NULL <= t] is not true. *)
Definition at_or_before (o : option Z) (t : Z) : bool :=
  match o with Some x => x <=? t | None => false end.

Definition claimable_cleanup (stale_before : Z) (u : ArtifactUploadSession) : bool :=
  is_none (au_cleanup_token u) || is_none (au_cleanup_heartbeat_at u) ||
  at_or_before (au_cleanup_heartbeat_at u) stale_before.

(** [_cleanup_due_predicate] *)
Definition cleanup_due (now : Z) (u : ArtifactUploadSession) : bool :=
  let confirmation_before := now - seconds (artifact_cleanup_confirmation_grace_seconds settings) in
  let staging_first_due :=
    is_none (au_staging_cleanup_first_deleted_at u) &&
    (⌊ backend storage = "local" ⌋ ||
     (au_expires_at u <=? now - seconds (artifact_staging_cleanup_grace_seconds settings))) in
  let staging_due :=
    ⌊ au_status u ∈ TERMINAL_UPLOAD_STATUSES ⌋ && is_none (au_staging_cleanup_completed_at u) &&
    (staging_first_due || at_or_before (au_staging_cleanup_first_deleted_at u) confirmation_before) in
  let canonical_anchor := default (au_updated_at u) (au_finalized_at u) in
  let canonical_due :=
    upload_failed u && is_none (au_canonical_cleanup_completed_at u) &&
    (is_none (au_canonical_cleanup_first_deleted_at u) &&
       (canonical_anchor <=? now - seconds (artifact_finalizing_stale_seconds settings)) ||
     at_or_before (au_canonical_cleanup_first_deleted_at u) confirmation_before) in
  staging_due || canonical_due.

(** [_candidate_ids] *)
Definition cleanup_candidates (d : DB) (now : Z) (upload_ids : option (list string)) : list string :=
  let stale_before := now - seconds (artifact_cleanup_claim_stale_seconds settings) in
  map au_id (take (Z.to_nat (artifact_cleanup_reconcile_batch_size settings))
    (order_by (λ a b, au_updated_at a <=? au_updated_at b)
      (where_ (λ u, namespace_matches storage (au_storage_backend u) (au_storage_namespace_sha256 u) &&
                    claimable_cleanup stale_before u && cleanup_due now u &&
                    match upload_ids with Some ids => ⌊ au_id u ∈ ids ⌋ | None => true end)
              (artifact_uploads d)))).

(** [_claim_candidate]: the token of the claim and the row. *)
Definition claim_cleanup (upload_id : string) : M (option (string * ArtifactUploadSession)) :=
  token ← new_id;
  claimed_at ← utc_now;
  let stale_before := claimed_at - seconds (artifact_cleanup_claim_stale_seconds settings) in
  claimed ← update_upload upload_id
    (λ u, namespace_matches storage (au_storage_backend u) (au_storage_namespace_sha256 u) &&
          ⌊ au_status u ∈ TERMINAL_UPLOAD_STATUSES ⌋ && claimable_cleanup stale_before u &&
          (is_none (au_staging_cleanup_completed_at u) ||
           upload_failed u && is_none (au_canonical_cleanup_completed_at u)))
    (λ u, u <| au_cleanup_token := Some token |> <| au_cleanup_heartbeat_at := Some claimed_at |>
            <| au_finalized_at := Some (default (au_updated_at u) (au_finalized_at u)) |>
            <| au_updated_at := claimed_at |>);
  if negb claimed then _ ← rollback; mret None else
  _ ← commit_or_discard;
  _ ← interleave;
  row ← ask (λ d, artifact_uploads d !! upload_id);
  match row with
  | Some u => mret (if ⌊ au_cleanup_token u = Some token ⌋ then Some (token, u) else None)
  | None => mret None
  end.

(** [_touch_cleanup_claim] *)
Definition touch_cleanup_claim (upload_id cleanup_token : string) : M bool :=
  heartbeat_at ← utc_now;
  update_and_commit upload_id
    (λ u, ⌊ au_status u ∈ TERMINAL_UPLOAD_STATUSES ⌋ && ⌊ au_cleanup_token u = Some cleanup_token ⌋)
    (λ u, u <| au_cleanup_heartbeat_at := Some heartbeat_at |> <| au_updated_at := heartbeat_at |>).

(** [_candidate_identity_predicates] with the claim and the namespace *)
Definition same_candidate (candidate : ArtifactUploadSession) (cleanup_token : string)
    (u : ArtifactUploadSession) : bool :=
  ⌊ au_cleanup_token u = Some cleanup_token ⌋ &&
  ⌊ au_storage_backend u = au_storage_backend candidate ⌋ &&
  ⌊ au_storage_namespace_sha256 u = au_storage_namespace_sha256 candidate ⌋ &&
  ⌊ au_job_id u = au_job_id candidate ⌋ && ⌊ au_attempt_id u = au_attempt_id candidate ⌋ &&
  ⌊ au_artifact_type u = au_artifact_type candidate ⌋ &&
  ⌊ au_temporary_object_key u = au_temporary_object_key candidate ⌋ &&
  ⌊ au_canonical_object_key u = au_canonical_object_key candidate ⌋.

(** [_record_cleanup_failure] *)
Definition record_cleanup_failure (candidate : ArtifactUploadSession) (cleanup_token : string)
    (kind : cleanup_kind) : M bool :=
  changed_at ← utc_now;
  let touched code u := u <| au_failure_code := Some code |>
                          <| au_cleanup_heartbeat_at := Some changed_at |>
                          <| au_updated_at := changed_at |> in
  match kind with
  | Canonical =>
      update_and_commit (au_id candidate)
        (λ u, same_candidate candidate cleanup_token u && upload_failed u &&
              is_none (au_canonical_cleanup_completed_at u))
        (touched "canonical_cleanup_failed")
  | Staging =>
      update_and_commit (au_id candidate)
        (λ u, same_candidate candidate cleanup_token u && ⌊ au_status u = au_status candidate ⌋ &&
              is_none (au_staging_cleanup_completed_at u))
        (λ u, touched (if is_none (au_canonical_cleanup_completed_at u) &&
                          ⌊ au_failure_code u = Some "canonical_cleanup_failed" ⌋
                       then "canonical_cleanup_failed" else "cleanup_failed") u)
  end.

(** [_record_cleanup_key_mismatch] *)
Definition record_cleanup_key_mismatch (candidate : ArtifactUploadSession) (cleanup_token : string)
    : M bool :=
  changed_at ← utc_now;
  update_and_commit (au_id candidate) (same_candidate candidate cleanup_token)
    (λ u, u <| au_failure_code := Some "cleanup_key_mismatch" |>
            <| au_cleanup_heartbeat_at := Some changed_at |> <| au_updated_at := changed_at |>).

(** [_record_first_delete] *)
Definition record_first_delete (candidate : ArtifactUploadSession) (cleanup_token : string)
    (kind : cleanup_kind) : M bool :=
  deleted_at ← utc_now;
  let touched u := u <| au_cleanup_heartbeat_at := Some deleted_at |> <| au_updated_at := deleted_at |> in
  match kind with
  | Canonical =>
      update_and_commit (au_id candidate)
        (λ u, same_candidate candidate cleanup_token u && upload_failed u &&
              is_none (au_canonical_cleanup_first_deleted_at u) &&
              is_none (au_canonical_cleanup_completed_at u))
        (λ u, touched (u <| au_canonical_cleanup_first_deleted_at := Some deleted_at |>))
  | Staging =>
      update_and_commit (au_id candidate)
        (λ u, same_candidate candidate cleanup_token u && ⌊ au_status u = au_status candidate ⌋ &&
              is_none (au_staging_cleanup_first_deleted_at u) &&
              is_none (au_staging_cleanup_completed_at u))
        (λ u, touched (u <| au_staging_cleanup_first_deleted_at := Some deleted_at |>))
  end.

(** [_record_cleanup_complete] *)
Definition record_cleanup_complete (candidate : ArtifactUploadSession) (cleanup_token : string)
    (kind : cleanup_kind) (local_single_pass : bool) : M bool :=
  completed_at ← utc_now;
  let touched u := u <| au_cleanup_heartbeat_at := Some completed_at |> <| au_updated_at := completed_at |> in
  match kind with
  | Canonical =>
      update_and_commit (au_id candidate)
        (λ u, same_candidate candidate cleanup_token u && upload_failed u &&
              is_some (au_canonical_cleanup_first_deleted_at u) &&
              is_none (au_canonical_cleanup_completed_at u))
        (λ u, touched (u <| au_canonical_cleanup_completed_at := Some completed_at |>))
  | Staging =>
      update_and_commit (au_id candidate)
        (λ u, same_candidate candidate cleanup_token u && ⌊ au_status u = au_status candidate ⌋ &&
              (local_single_pass || is_some (au_staging_cleanup_first_deleted_at u)) &&
              is_none (au_staging_cleanup_completed_at u))
        (λ u, let u' := touched (u <| au_staging_cleanup_completed_at := Some completed_at |>) in
              if local_single_pass
              then u' <| au_staging_cleanup_first_deleted_at := Some completed_at |> else u')
  end.

(** [_release_cleanup_claim] *)
Definition release_cleanup_claim (upload_id cleanup_token : string) : M bool :=
  now ← utc_now;
  update_and_commit upload_id (λ u, ⌊ au_cleanup_token u = Some cleanup_token ⌋)
    (λ u, u <| au_cleanup_token := None |> <| au_cleanup_heartbeat_at := None |>
            <| au_updated_at := now |>).

(** [_validated_candidate_object_keys]: the staging key and the canonical key. *)
Definition validated_candidate_object_keys (candidate : ArtifactUploadSession)
    : option (string * string) :=
  let staging := staging_object_key (au_attempt_id candidate) (au_id candidate) in
  let canonical := canonical_object_key (au_job_id candidate) (au_attempt_id candidate)
                     (au_artifact_type candidate) (au_id candidate) in
  if is_some (validate_object_key staging) && is_some (validate_object_key canonical) &&
     ⌊ au_temporary_object_key candidate = staging ⌋ &&
     ⌊ au_canonical_object_key candidate = canonical ⌋
  then Some (staging, canonical) else None.

(** [_canonical_action], [_staging_action] *)
Definition canonical_action (candidate : ArtifactUploadSession) (now : Z) : option cleanup_action :=
  if negb (upload_failed candidate) || is_some (au_canonical_cleanup_completed_at candidate)
  then None else
  match au_canonical_cleanup_first_deleted_at candidate with
  | Some first =>
      if first + seconds (artifact_cleanup_confirmation_grace_seconds settings) <=? now
      then Some ConfirmDelete else None
  | None =>
      let anchor := default (au_updated_at candidate) (au_finalized_at candidate) in
      if anchor + seconds (artifact_finalizing_stale_seconds settings) <=? now
      then Some FirstDelete else None
  end.

Definition staging_action (candidate : ArtifactUploadSession) (now : Z) : option cleanup_action :=
  if negb ⌊ au_status candidate ∈ TERMINAL_UPLOAD_STATUSES ⌋ ||
     is_some (au_staging_cleanup_completed_at candidate) then None else
  match au_staging_cleanup_first_deleted_at candidate with
  | Some first =>
      if first + seconds (artifact_cleanup_confirmation_grace_seconds settings) <=? now
      then Some ConfirmDelete else None
  | None =>
      if ⌊ backend storage = "local" ⌋ then Some LocalDelete else
      if au_expires_at candidate + seconds (artifact_staging_cleanup_grace_seconds settings) <=? now
      then Some FirstDelete else None
  end.

Definition recorded_result (r : ArtifactCleanupResult) (recorded : bool) : ArtifactCleanupResult :=
  if recorded then r <| cr_ledger_updates := 1%nat |> else r <| cr_conflicts := 1%nat |>.

(** One deletion of the loop: what it counts, and whether the claim was lost. *)
Definition cleanup_object (candidate : ArtifactUploadSession) (cleanup_token : string)
    (kind : cleanup_kind) (object_key : string) (action : cleanup_action)
    : M (ArtifactCleanupResult * bool) :=
  deleted ← attempt (run_with_heartbeat (touch_cleanup_claim (au_id candidate) cleanup_token)
                       (λ io, delete_object io object_key));
  match deleted with
  | Ok _ =>
      match action with
      | FirstDelete =>
          recorded ← record_first_delete candidate cleanup_token kind;
          mret (recorded_result (no_cleanup <| cr_object_deletes := 1%nat |>
                  <| cr_first_deletes := if recorded : bool then 1%nat else 0%nat |>) recorded, false)
      | _ =>
          recorded ← record_cleanup_complete candidate cleanup_token kind
                       (match action with LocalDelete => true | _ => false end);
          mret (recorded_result (no_cleanup <| cr_object_deletes := 1%nat |>
                  <| cr_confirmed_deletes := if recorded : bool then 1%nat else 0%nat |>) recorded, false)
      end
  | Raise OwnershipLost => mret (no_cleanup <| cr_conflicts := 1%nat |>, true)
  | Raise e =>
      if is_storage_error e then
        recorded ← record_cleanup_failure candidate cleanup_token kind;
        mret (recorded_result (no_cleanup <| cr_failed := 1%nat |>) recorded, false)
      else raise e
  end.

Fixpoint cleanup_objects (candidate : ArtifactUploadSession) (cleanup_token : string)
    (actions : list (cleanup_kind * string * option cleanup_action))
    : M (ArtifactCleanupResult * bool) :=
  match actions with
  | [] => mret (no_cleanup, false)
  | (_, _, None) :: actions' => cleanup_objects candidate cleanup_token actions'
  | (kind, key, Some action) :: actions' =>
      done ← cleanup_object candidate cleanup_token kind key action;
      let '(r, lost) := done in
      if lost : bool then mret (r, true) else
      rest ← cleanup_objects candidate cleanup_token actions';
      let '(r', lost') := rest in
      mret (add_result r r', lost')
  end.

(** The [try] of the loop over the candidates. *)
Definition cleanup_claimed (candidate : ArtifactUploadSession) (cleanup_token : string) (now : Z)
    : M (ArtifactCleanupResult * bool) :=
  match validated_candidate_object_keys candidate with
  | None =>
      recorded ← record_cleanup_key_mismatch candidate cleanup_token;
      mret (recorded_result (no_cleanup <| cr_failed := 1%nat |>) recorded, false)
  | Some (staging, canonical) =>
      cleanup_objects candidate cleanup_token
        [(Canonical, canonical, canonical_action candidate now);
         (Staging, staging, staging_action candidate now)]
  end.

(** The body of the loop: the claim is released however the deletions end. *)
Definition cleanup_candidate (now : Z) (upload_id : string) : M ArtifactCleanupResult :=
  claimed ← claim_cleanup upload_id;
  match claimed with
  | None => mret (no_cleanup <| cr_conflicts := 1%nat |>)
  | Some (cleanup_token, candidate) =>
      ended ← attempt (cleanup_claimed candidate cleanup_token now);
      let lost := match ended with Ok (_, lost) => lost | Raise _ => false end in
      released ← (if lost then mret true else release_cleanup_claim (au_id candidate) cleanup_token);
      r ← of_result ended;
      mret (add_result (no_cleanup <| cr_claimed := 1%nat |>
                          <| cr_conflicts := if released : bool then 0%nat else 1%nat |>) r.1)
  end.

(** [reconcile_artifact_upload_cleanup] *)
Definition reconcile_artifact_upload_cleanup (upload_ids : option (list string))
    : M ArtifactCleanupResult :=
  now ← utc_now;
  _ ← interleave;
  candidates ← ask (λ d, cleanup_candidates d now upload_ids);
  results ← collect candidates (cleanup_candidate now);
  mret (foldr add_result (no_cleanup <| cr_examined := length candidates |>) results).
End cleanup.
