(* ===== verification/Wp.v ===== *)
(** * Reasoning about handlers

    A weakest-precondition calculus for the monad of [Session.v].  [St I c d b dm L t i s]
    describes a session symbolically: [c] is the committed database, which satisfies
    the invariant [I], [d] the working one, [b] whether something was written, [dm] a
    pending constraint failure, [L] the rows locked, [t] the clock and [i] the
    request-local information; every interference left in the session preserves [I],
    evolves the ledger ([Evolution.v]) and respects locks.  The tactic [wp_step] runs one operation of a handler. *)

From S2P Require Import Prelude Json JobStatus Ledger Evolution Session.

Definition wp {A} (m : M A) (Q : result A → Session → Prop) (s : Session) : Prop :=
  Q (m s).1 (m s).2.

Section wp.
  Context {A B : Type}.
  Implicit Types (s : Session).

Lemma wp_mono (m : M A) (Q R : result A → Session → Prop) s :
  wp m Q s → (∀ r s', Q r s' → R r s') → wp m R s.
Proof. unfold wp. auto. Qed.

Lemma wp_ret (a : A) (Q : result A → Session → Prop) s : Q (Ok a) s → wp (mret a) Q s.
Proof. done. Qed.

Lemma wp_raise (e : exn) (Q : result A → Session → Prop) s : Q (Raise e) s → wp (raise e) Q s.
Proof. done. Qed.

Lemma wp_http n text (Q : result A → Session → Prop) s :
  Q (Raise (HTTPException n text)) s → wp (http n text) Q s.
Proof. done. Qed.

Lemma wp_bind (m : M A) (k : A → M B) (Q : result B → Session → Prop) s :
  wp m (λ r s', match r with Ok a => wp (k a) Q s' | Raise e => Q (Raise e) s' end) s →
  wp (m ≫= k) Q s.
Proof.
  unfold wp, mbind, M_bind. destruct (m s) as [[a|e] s']; done.
Qed.

Lemma wp_catch (m : M A) h (Q : result A → Session → Prop) s :
  wp m (λ r s', match r with
                | Ok a => Q (Ok a) s'
                | Raise e => match h e with Some k => wp k Q s' | None => Q (Raise e) s' end
                end) s →
  wp (catch m h) Q s.
Proof. unfold wp, catch. destruct (m s) as [[a|e] s']; simpl; [done|]. by destruct (h e). Qed.
End wp.

Lemma wp_when b m (Q : result () → Session → Prop) s :
  (b = true → wp m Q s) → (b = false → Q (Ok ()) s) → wp (when b m) Q s.
Proof. destruct b; intros H1 H2; [by apply H1|by apply H2]. Qed.

Lemma wp_reject_if b n text (Q : result () → Session → Prop) s :
  (b = true → Q (Raise (HTTPException n text)) s) → (b = false → Q (Ok ()) s) →
  wp (reject_if b n text) Q s.
Proof. intros. by apply wp_when. Qed.

(** ** Symbolic sessions *)

Section symbolic.
  Variable I : DB → Prop.
  Implicit Types (s : Session) (c d : DB) (L : gset lock).

(** A change of the committed database that keeps the invariant and the history. *)
Definition commits (c d : DB) : Prop := I d ∧ evolves c d.

(** The other transactions commit such changes only, and so did this session. *)
Definition env_ok s : Prop :=
  Forall (λ f, respects_locks f ∧ ∀ L d, I d → commits d (f L d)) (s_env s) ∧
  Forall (λ p, commits p.1 p.2) (s_log s).

(** What holds of a session between any two operations. *)
Definition safe s : Prop := I (s_committed s) ∧ env_ok s.

(** A session between two transactions. *)
Definition clean_session s : Prop :=
  safe s ∧ s_working s = s_committed s ∧ s_dirty s = false ∧ s_doomed s = None.

(** A session at the start of a request. *)
Definition fresh_session s : Prop :=
  safe s ∧ s_working s = s_committed s ∧ s_dirty s = false ∧ s_doomed s = None ∧ s_log s = [].

Record St c d (b : bool) (dm : option db_error) L (t : Z) (i : gmap string Z) s : Prop := mkSt {
  st_inv : I c;
  st_env : env_ok s;
  st_committed : s_committed s = c;
  st_working : s_working s = d;
  st_dirty : s_dirty s = b;
  st_doomed : s_doomed s = dm;
  st_locks : s_locks s = L;
  st_clock : s_clock s = t;
  st_info : s_info s = i;
  st_clean : b = false → d = c ∧ dm = None }.

(** What other transactions may have done while this one holds the locks [L]. *)
Record agree L c c' : Prop := mkAgree {
  ag_rows : ∀ k, k ∈ L → lock_agrees c c' k;
  ag_evolves : evolves c c' }.

Lemma agree_refl L c : agree L c c.
Proof. split; [by intros [] _|done]. Qed.

Lemma St_safe c d b dm L t i s : St c d b dm L t i s → safe s.
Proof. intros []. split; [congruence|done]. Qed.

Lemma clean_St s : clean_session s →
  St (s_committed s) (s_committed s) false None (s_locks s) (s_clock s) (s_info s) s.
Proof. intros ([] & ? & ? & ?). by constructor. Qed.

Lemma fresh_clean s : fresh_session s → clean_session s.
Proof. by intros (? & ? & ? & ? & _). Qed.

Lemma fresh_St s : fresh_session s →
  St (s_committed s) (s_committed s) false None (s_locks s) (s_clock s) (s_info s) s.
Proof. intros Hs. by apply clean_St, fresh_clean. Qed.

Lemma wp_ask {A} (f : DB → A) (Q : result A → Session → Prop) c d b dm L t i s :
  St c d b dm L t i s → Q (Ok (f d)) s → wp (ask f) Q s.
Proof. intros [] HQ. unfold wp, ask. simpl. congruence. Qed.

Lemma wp_write f (Q : result () → Session → Prop) c d b dm L t i s :
  St c d b dm L t i s → (∀ s', St c (f d) true dm L t i s' → Q (Ok ()) s') → wp (write f) Q s.
Proof. intros [] HQ. apply HQ. by constructor; simpl; subst. Qed.

Lemma wp_doom_if bad (Q : result () → Session → Prop) c d dm L t i s :
  St c d true dm L t i s →
  (∀ dm' s', (dm' = None → dm = None ∧ bad d = false) → St c d true dm' L t i s' →
     Q (Ok ()) s') →
  wp (doom_if bad) Q s.
Proof.
  intros Hst HQ. unfold doom_if. apply wp_bind. eapply wp_ask; [done|].
  destruct (bad d) eqn:Hbad; unfold when.
  - destruct Hst. eapply (HQ (Some (default IntegrityError dm))); [done|].
    constructor; simpl; try done. by subst.
  - by apply (HQ dm).
Qed.

Lemma wp_add_unique taken put (Q : result () → Session → Prop) c d b dm L t i s :
  St c d b dm L t i s →
  (∀ dm' s', (dm' = None → dm = None ∧ taken d = false) → St c (put d) true dm' L t i s' →
     Q (Ok ()) s') →
  wp (add_unique taken put) Q s.
Proof.
  intros Hst HQ. unfold add_unique. apply wp_bind. eapply wp_ask; [done|].
  apply wp_bind. eapply wp_write; [done|]. intros s1 Hst1. eapply wp_doom_if; [done|].
  intros dm' s2 Hdm Hst2. by apply (HQ dm').
Qed.

Lemma wp_add_unique_exact (taken : DB → bool) (put : DB → DB) (Q : result () → Session → Prop)
    c d b dm L t i s :
  St c d b dm L t i s →
  (∀ s', St c (put d) true (if taken d then Some (default IntegrityError dm) else dm) L t i s' →
     Q (Ok ()) s') →
  wp (add_unique taken put) Q s.
Proof.
  intros Hst HQ. unfold add_unique. apply wp_bind. eapply wp_ask; [done|].
  apply wp_bind. eapply wp_write; [done|]. intros s1 Hst1. unfold doom_if. apply wp_bind.
  eapply wp_ask; [done|]. destruct (taken d); [|by apply HQ].
  apply HQ. destruct Hst1. constructor; simpl; try done. by subst.
Qed.

Lemma wp_interleave (Q : result () → Session → Prop) c L t i s :
  St c c false None L t i s →
  (∀ c' s', agree L c c' → St c' c' false None L t i s' → Q (Ok ()) s') →
  wp interleave Q s.
Proof.
  intros Hst HQ. pose proof Hst as []. unfold wp, interleave. rewrite st_dirty0.
  destruct (s_env s) as [|f rest] eqn:Henv.
  - simpl. apply (HQ c); [apply agree_refl|done].
  - simpl. unfold env_ok in st_env0. rewrite Henv in st_env0.
    destruct st_env0 as [[[Hresp Hf] Hrest]%Forall_cons Hlog].
    assert (I (s_committed s)) as HI by congruence.
    destruct (Hf (s_locks s) (s_committed s) HI) as [HI' Hev].
    apply (HQ (f (s_locks s) (s_committed s))).
    + subst. split; [|done]. intros k Hk. by apply Hresp.
    + by constructor.
Qed.

(** Once something is written, other transactions wait. *)
Lemma wp_interleave_any (Q : result () → Session → Prop) c d b dm L t i s :
  St c d b dm L t i s →
  (∀ c' d' s', (b = true ∧ c' = c ∧ d' = d ∨ b = false ∧ d' = c' ∧ agree L c c') →
     St c' d' b dm L t i s' → Q (Ok ()) s') →
  wp interleave Q s.
Proof.
  intros Hst HQ. destruct b.
  - pose proof Hst as []. unfold wp, interleave. rewrite st_dirty0. simpl. apply (HQ c d); auto.
  - destruct (st_clean _ _ _ _ _ _ _ _ Hst eq_refl) as [-> ->].
    eapply wp_interleave; [done|]. intros c' s' Hag Hst'. apply (HQ c' c'); auto.
Qed.

Lemma wp_lock_row {A} k (read : DB → A) (Q : result A → Session → Prop) c L t i s :
  St c c false None L t i s →
  (∀ c' s', agree L c c' → St c' c' false None ({[k]} ∪ L) t i s' → Q (Ok (read c')) s') →
  wp (lock_row k read) Q s.
Proof.
  intros Hst HQ. unfold lock_row. apply wp_bind. eapply wp_interleave; [done|].
  intros c' s' Hagree []. unfold wp. simpl. rewrite st_working0. apply HQ; [done|].
  constructor; simpl; try done. congruence.
Qed.

(** A transaction that has written holds its locks: nothing else commits. *)
Lemma wp_lock_row_dirty {A} k (read : DB → A) (Q : result A → Session → Prop) c d dm L t i s :
  St c d true dm L t i s →
  (∀ s', St c d true dm ({[k]} ∪ L) t i s' → Q (Ok (read d)) s') → wp (lock_row k read) Q s.
Proof.
  intros Hst HQ. unfold lock_row. apply wp_bind. unfold wp, interleave.
  pose proof Hst as []. rewrite st_dirty0. simpl. rewrite st_working0. apply HQ.
  constructor; simpl; try done. congruence.
Qed.

Lemma wp_lock_row_any {A} k (read : DB → A) (Q : result A → Session → Prop) c d b dm L t i s :
  St c d b dm L t i s →
  (∀ c' d' s', (b = true ∧ c' = c ∧ d' = d ∨ b = false ∧ d' = c' ∧ agree L c c') →
     St c' d' b dm ({[k]} ∪ L) t i s' → Q (Ok (read d')) s') →
  wp (lock_row k read) Q s.
Proof.
  intros Hst HQ. unfold lock_row. apply wp_bind. eapply wp_interleave_any; [done|].
  intros c' d' s' Hcase []. unfold wp. simpl. rewrite st_working0. apply (HQ c' d'); [done|].
  constructor; simpl; try done. congruence.
Qed.

Lemma wp_lock_rows ks (Q : result () → Session → Prop) c d b dm L t i s :
  St c d b dm L t i s →
  (∀ s', St c d b dm (list_to_set ks ∪ L) t i s' → Q (Ok ()) s') → wp (lock_rows ks) Q s.
Proof. intros [] HQ. apply HQ. constructor; simpl; try done. congruence. Qed.

Lemma wp_held (Q : result (gset lock) → Session → Prop) c d b dm L t i s :
  St c d b dm L t i s → (∀ held, Q (Ok held) s) → wp held_by_others Q s.
Proof. intros _ HQ. apply HQ. Qed.

Lemma wp_pop_outcome (Q : result () → Session → Prop) c d b dm L t i s :
  St c d b dm L t i s →
  (∀ e s', St c d b dm L t i s' → Q (Raise (DatabaseError e)) s') →
  (∀ s', St c d b dm L t i s' → Q (Ok ()) s') → wp pop_outcome Q s.
Proof.
  intros Hst HR HO. unfold wp, pop_outcome.
  destruct (s_outcomes s) as [|o rest]; [by apply HO|].
  assert (St c d b dm L t i (s <| s_outcomes := rest |>)) as Hst'.
  { destruct Hst. by constructor. }
  destruct o; [by apply HR|by apply HO].
Qed.

(** A commit that succeeds must restore the invariant. *)
Lemma wp_commit (Q : result () → Session → Prop) c d b dm L t i s :
  St c d b dm L t i s →
  (∀ e s', St c d b dm L t i s' → Q (Raise (DatabaseError e)) s') →
  (dm = None → commits c d) →
  (∀ s', dm = None → St d d false None ∅ t i s' → Q (Ok ()) s') → wp commit Q s.
Proof.
  intros Hst HR HI HO. unfold commit. apply wp_bind. eapply wp_pop_outcome; [done|done|].
  intros s' Hst'. unfold wp, publish. destruct Hst'. rewrite st_doomed0.
  destruct dm as [e|]; [by apply HR|].
  apply HO; [done|]. destruct (HI eq_refl) as [HId Hev]. constructor; simpl; try done.
  destruct st_env0 as [Henv Hlog]. split; [done|]. constructor; [by subst|done].
Qed.

Lemma wp_flush (Q : result () → Session → Prop) c d b dm L t i s :
  St c d b dm L t i s → (∀ e, Q (Raise (DatabaseError e)) s) →
  (dm = None → Q (Ok ()) s) → wp flush Q s.
Proof. intros [] HR HQ. unfold wp, flush. rewrite st_doomed0. destruct dm; [apply HR|by apply HQ]. Qed.

Lemma wp_rollback_agree (Q : result () → Session → Prop) c d b dm L t i s :
  St c d b dm L t i s →
  (∀ c' s', agree (∅ : gset lock) c c' → St c' c' false None ∅ t i s' → Q (Ok ()) s') → wp rollback Q s.
Proof.
  intros [] HQ. unfold rollback. apply wp_bind. unfold wp at 1. simpl.
  eapply (wp_interleave _ c); [|exact HQ]. by constructor; simpl; subst.
Qed.

Lemma wp_rollback (Q : result () → Session → Prop) c d b dm L t i s :
  St c d b dm L t i s →
  (∀ c' s', St c' c' false None ∅ t i s' → Q (Ok ()) s') → wp rollback Q s.
Proof. intros Hst HQ. eapply wp_rollback_agree; [done|]. intros c' s' _. apply HQ. Qed.

Lemma wp_discard (Q : result () → Session → Prop) c d b dm L t i s :
  St c d b dm L t i s →
  (∀ s', St c c false None L t i s' → Q (Ok ()) s') → wp discard Q s.
Proof. intros [] HQ. apply HQ. by constructor. Qed.

Lemma wp_lock_query {A} (read : DB → A) keys (Q : result A → Session → Prop) c L t i s :
  St c c false None L t i s →
  (∀ c' s', agree L c c' → St c' c' false None (list_to_set (keys (read c')) ∪ L) t i s' →
     Q (Ok (read c')) s') →
  wp (lock_query read keys) Q s.
Proof.
  intros Hst HQ. unfold lock_query. apply wp_bind. eapply wp_interleave; [done|].
  intros c' s' Hag Hst'. apply wp_bind. eapply wp_ask; [done|].
  apply wp_bind. eapply wp_lock_rows; [done|]. intros s2 Hst2. by apply HQ.
Qed.

Lemma wp_utc_now (Q : result Z → Session → Prop) c d b dm L t i s :
  St c d b dm L t i s →
  (∀ t' s', t <= t' → St c d b dm L t' i s' → Q (Ok t) s') → wp utc_now Q s.
Proof.
  intros [] HQ. unfold wp, utc_now. simpl. rewrite st_clock0.
  apply (HQ (t + Z.of_N (hd 0%N (s_delays s)))); [lia|]. by constructor.
Qed.

Lemma wp_fresh (Q : result nat → Session → Prop) c d b dm L t i s :
  St c d b dm L t i s →
  (∀ n s', St c d b dm L t i s' → Q (Ok n) s') → wp fresh Q s.
Proof. intros [] HQ. apply HQ. by constructor. Qed.

Lemma wp_new_id `{Platform} (Q : result string → Session → Prop) c d b dm L t i s :
  St c d b dm L t i s →
  (∀ id s', St c d b dm L t i s' → Q (Ok id) s') → wp new_id Q s.
Proof.
  intros Hst HQ. unfold new_id. apply wp_bind. eapply wp_fresh; [done|].
  intros n s' Hst'. apply wp_ret. by apply HQ.
Qed.

Lemma wp_info_get key (Q : result Z → Session → Prop) c d b dm L t i s :
  St c d b dm L t i s → Q (Ok (default 0 (i !! key))) s → wp (info_get key) Q s.
Proof. intros [] HQ. unfold wp. simpl. by rewrite st_info0. Qed.

Lemma wp_info_set key n (Q : result () → Session → Prop) c d b dm L t i s :
  St c d b dm L t i s →
  (∀ s', St c d b dm L t (<[key := n]> i) s' → Q (Ok ()) s') → wp (info_set key n) Q s.
Proof. intros [] HQ. apply HQ. constructor; simpl; try done. congruence. Qed.

(** Saving a versioned row stores it with some version. *)
Lemma wp_save_worker w (Q : result () → Session → Prop) c d b dm L t i s :
  St c d b dm L t i s →
  (∀ v s', St c (d <| workers := <[w_id w := w <| w_row_version := v |> ]> (workers d) |>)
             true dm L t i s' → Q (Ok ()) s') →
  wp (save_worker w) Q s.
Proof.
  intros Hst HQ. unfold save_worker, wp.
  assert (∃ v, bump worker_with_version w_row_version (workers (s_committed s) !! w_id w) w =
               w <| w_row_version := v |>) as [v ->].
  { unfold bump. destruct (workers _ !! _) as [c'|]; [|by exists (w_row_version w); destruct w].
    case_decide as Heq; [|by eexists]. by exists (w_row_version c'). }
  eapply wp_write; [done|]. apply HQ.
Qed.

Lemma wp_save_job j (Q : result () → Session → Prop) c d b dm L t i s :
  St c d b dm L t i s →
  (∀ v s',
     saved_over (jobs c) (j_id j) (j <| j_row_version := v |>) →
     St c (d <| jobs := <[j_id j := j <| j_row_version := v |> ]> (jobs d) |>)
             true dm L t i s' → Q (Ok ()) s') →
  wp (save_job j) Q s.
Proof.
  intros Hst HQ. unfold save_job, wp.
  assert (∃ v, bump job_with_version j_row_version (jobs (s_committed s) !! j_id j) j =
               j <| j_row_version := v |> ∧
             saved_over (jobs c) (j_id j) (j <| j_row_version := v |>)) as (v & -> & Hv).
  { rewrite (st_committed _ _ _ _ _ _ _ _ Hst). unfold bump, saved_over.
    destruct (jobs c !! _) as [c'|]; [|by exists (j_row_version j); destruct j].
    case_decide as Heq.
    - exists (j_row_version c'). split; [done|]. intros j0 [= <-]. by left.
    - eexists. split; [done|]. intros j0 [= <-]. right. simpl. lia. }
  eapply wp_write; [done|]. intros s' Hst'. by eapply HQ.
Qed.

Lemma wp_fmap {A B} (f : A → B) (m : M A) (Q : result B → Session → Prop) s :
  wp m (λ r s', match r with Ok a => Q (Ok (f a)) s' | Raise e => Q (Raise e) s' end) s →
  wp (f <$> m) Q s.
Proof. unfold wp, fmap, M_fmap. by destruct (m s) as [[a|e] s']. Qed.

(** [try: commit except ...: rollback; raise HTTPException(...)] *)
Lemma wp_commit_or_http es n text (Q : result () → Session → Prop) c d b dm L t i s :
  St c d b dm L t i s →
  (∀ e s', e ≠ RecursionError → safe s' → Q (Raise e) s') →
  (dm = None → commits c d) →
  (∀ s', dm = None → St d d false None ∅ t i s' → Q (Ok ()) s') →
  wp (catch commit (on_db_error es (_ ← rollback; http n text))) Q s.
Proof.
  intros Hst HR HI HO. apply wp_catch. eapply wp_commit; [done| |done|done].
  intros e s' Hst'. unfold on_db_error. case_decide; [|by eapply HR; [|eapply St_safe]].
  apply wp_bind. eapply wp_rollback; [done|]. intros c' s2 Hst2. by eapply HR; [|eapply St_safe].
Qed.

Lemma wp_check_transition cur target same (Q : result JobStatus → Session → Prop) s :
  (∀ e, Q (Raise (InvalidJobTransition e)) s) →
  (∀ u, validate_job_transition cur target same = inr u → Q (Ok u) s) →
  wp (check_transition cur target same) Q s.
Proof.
  intros HR HO. unfold check_transition.
  destruct (validate_job_transition cur target same) as [e|u]; [apply HR|by apply HO].
Qed.

(** The conditional update either changes a row that satisfies the predicate or
    nothing. *)
Lemma wp_update_job_where id p f (Q : result bool → Session → Prop) c d b dm L t i s :
  St c d b dm L t i s →
  (∀ job s', jobs d !! id = Some job → p job = true →
     St c (d <| jobs := <[id := f job]> (jobs d) |>) true dm L t i s' → Q (Ok true) s') →
  ((∀ job, jobs d !! id = Some job → p job = false) → Q (Ok false) s) →
  wp (update_job_where id p f) Q s.
Proof.
  intros Hst HT HF. unfold update_job_where. apply wp_bind. eapply wp_ask; [done|].
  destruct (jobs d !! id) as [job|] eqn:Hjob; [|by apply HF].
  destruct (p job) eqn:Hp; [|apply wp_ret, HF; naive_solver].
  apply wp_bind. eapply wp_write; [done|]. intros s' Hst'. by eapply HT.
Qed.
End symbolic.

(** ** Parts of a session that an operation leaves alone *)

Definition keeps_field {X A} (f : Session → X) (m : M A) : Prop := ∀ s, f (m s).2 = f s.

Lemma wp_keep_field {X A} (f : Session → X) (m : M A) (Q : result A → Session → Prop) s :
  keeps_field f m → wp m (λ r s', f s' = f s → Q r s') s → wp m Q s.
Proof. intros Hk Hwp. apply Hwp, Hk. Qed.

Lemma keeps_field_bind {X A B} (f : Session → X) (m : M A) (k : A → M B) :
  keeps_field f m → (∀ a, keeps_field f (k a)) → keeps_field f (m ≫= k).
Proof.
  intros Hm Hk s. specialize (Hm s). unfold mbind, M_bind.
  destruct (m s) as [[a|e] s']; simpl in *; [by rewrite Hk|done].
Qed.

Lemma keeps_outcomes_interleave : keeps_field s_outcomes interleave.
Proof. intros s. unfold interleave. by destruct (s_dirty s), (s_env s). Qed.

Lemma keeps_outcomes_add_unique taken put : keeps_field s_outcomes (add_unique taken put).
Proof. intros s. unfold add_unique, doom_if, mbind, M_bind. simpl. by destruct (taken _). Qed.

Lemma keeps_field_collect {X A B} (f : Session → X) (xs : list A) (k : A → M B) :
  (∀ x, keeps_field f (k x)) → keeps_field f (collect xs k).
Proof.
  intros Hk. induction xs as [|x xs IH]; [done|]. simpl. apply keeps_field_bind; [done|]. intros y.
  by apply keeps_field_bind.
Qed.

(** The error of a commit is one of those that were announced. *)
Lemma wp_pop_outcome_in (I : DB → Prop) (Q : result () → Session → Prop) c d b dm L t i s :
  St I c d b dm L t i s →
  (∀ e s', Some e ∈ s_outcomes s → Q (Raise (DatabaseError e)) s') →
  (∀ s', St I c d b dm L t i s' → Q (Ok ()) s') → wp pop_outcome Q s.
Proof.
  intros Hst HR HO. unfold wp, pop_outcome.
  destruct (s_outcomes s) as [|[e|] rest]; simpl; [by apply HO|apply HR; left|apply HO].
  by destruct Hst.
Qed.

(** A commit that meets no error publishes the working copy. *)
Lemma wp_commit_calm (I : DB → Prop) (Q : result () → Session → Prop) c d b L t i s :
  St I c d b None L t i s → s_outcomes s = [] → commits I c d →
  (∀ s', St I d d false None ∅ t i s' → Q (Ok ()) s') → wp commit Q s.
Proof.
  intros Hst Hcalm HI HO. unfold commit. apply wp_bind. eapply wp_pop_outcome_in; [done| |].
  { intros e s'. rewrite Hcalm. by intros ?%not_elem_of_nil. }
  intros s' Hst'. unfold wp, publish. destruct Hst', HI as [HI Hev]. rewrite st_doomed0.
  apply HO. constructor; simpl; try done.
  destruct st_env0 as [Henv Hlog]. split; [done|]. constructor; [by subst|done].
Qed.

(** ** What a run has committed *)

(** An operation does not lose transactions that have been committed. *)
Definition log_grows {A} (m : M A) : Prop := ∀ s p, p ∈ s_log s → p ∈ s_log (m s).2.

Lemma wp_log_grows {A} (m : M A) p (Q : result A → Session → Prop) s :
  log_grows m → p ∈ s_log s → wp m (λ r s', p ∈ s_log s' → Q r s') s → wp m Q s.
Proof. intros Hm Hp Hwp. by apply Hwp, Hm. Qed.

Lemma log_grows_keeps {A} (m : M A) : keeps_field s_log m → log_grows m.
Proof. intros Hm s p. by rewrite Hm. Qed.

Lemma log_grows_bind {A B} (m : M A) (k : A → M B) :
  log_grows m → (∀ a, log_grows (k a)) → log_grows (m ≫= k).
Proof.
  intros Hm Hk s p Hp. apply Hm in Hp. unfold mbind, M_bind.
  destruct (m s) as [[a|e] s']; simpl in *; [by apply Hk|done].
Qed.

Lemma log_grows_catch {A} (m : M A) h :
  log_grows m → (∀ e k, h e = Some k → log_grows k) → log_grows (catch m h).
Proof.
  intros Hm Hh s p Hp. apply Hm in Hp. unfold catch.
  destruct (m s) as [[a|e] s']; simpl in *; [done|].
  destruct (h e) as [k|] eqn:Hk; simpl; [by eapply Hh|done].
Qed.

Lemma keeps_log_interleave : keeps_field s_log interleave.
Proof. intros s. unfold interleave. by destruct (s_dirty s), (s_env s). Qed.

Lemma keeps_log_rollback : keeps_field s_log rollback.
Proof. intros s. unfold rollback, mbind, M_bind. simpl. by rewrite keeps_log_interleave. Qed.

Lemma keeps_log_lock_row {A} k (read : DB → A) : keeps_field s_log (lock_row k read).
Proof. apply keeps_field_bind; [apply keeps_log_interleave|done]. Qed.

Lemma keeps_log_lock_query {A} (read : DB → A) keys : keeps_field s_log (lock_query read keys).
Proof. apply keeps_field_bind; [apply keeps_log_interleave|done]. Qed.

Lemma keeps_log_pop : keeps_field s_log pop_outcome.
Proof. intros s. unfold pop_outcome. by destruct (s_outcomes s) as [|[|] ?]. Qed.

Lemma log_grows_commit : log_grows commit.
Proof.
  apply log_grows_bind; [apply log_grows_keeps, keeps_log_pop|]. intros _ s p Hp. unfold publish.
  destruct (s_doomed s); simpl; [done|by right].
Qed.

(** Proves that an operation keeps what has been committed. *)
Ltac log_grows_step :=
  lazymatch goal with
  | |- log_grows (_ ≫= _) => apply log_grows_bind; [|intros ?]
  | |- log_grows (catch _ _) =>
      apply log_grows_catch; [|unfold on_db_error; intros [] ? ?; repeat case_decide; simplify_eq]
  | |- log_grows commit => apply log_grows_commit
  | |- log_grows interleave => apply log_grows_keeps, keeps_log_interleave
  | |- log_grows rollback => apply log_grows_keeps, keeps_log_rollback
  | |- log_grows (lock_row _ _) => apply log_grows_keeps, keeps_log_lock_row
  | |- log_grows (lock_query _ _) => apply log_grows_keeps, keeps_log_lock_query
  | |- log_grows pop_outcome => apply log_grows_keeps, keeps_log_pop
  | |- log_grows (when ?b _) => destruct b; simpl
  | |- log_grows (let '(_, _) := ?x in _) => destruct x
  | |- log_grows (match ?x with _ => _ end) => destruct x
  | |- log_grows (if ?b then _ else _) => destruct b
  | |- log_grows _ => intros ? ? ?; done
  end.

(** An operation commits at most [n] transactions. *)
Definition commits_within (n : nat) {A} (m : M A) : Prop :=
  ∀ s, (length (s_log (m s).2) <= n + length (s_log s))%nat.

Lemma within_keeps {A} n (m : M A) : keeps_field s_log m → commits_within n m.
Proof. intros Hm s. rewrite Hm. lia. Qed.

Lemma within_bind {A B} n p (m : M A) (k : A → M B) :
  commits_within n m → (∀ a, commits_within p (k a)) → commits_within (n + p) (m ≫= k).
Proof.
  intros Hm Hk s. specialize (Hm s). unfold mbind, M_bind.
  destruct (m s) as [[a|e] s']; simpl in *; [|lia]. specialize (Hk a s'). lia.
Qed.

Lemma within_catch {A} n (m : M A) h :
  commits_within n m → (∀ e k, h e = Some k → commits_within 0 k) → commits_within n (catch m h).
Proof.
  intros Hm Hh s. specialize (Hm s). unfold catch. destruct (m s) as [[a|e] s']; simpl in *; [done|].
  destruct (h e) as [k|] eqn:Hk; simpl; [|done]. specialize (Hh _ _ Hk s'). lia.
Qed.

Lemma within_commit : commits_within 1 commit.
Proof.
  apply (within_bind 0 1); [apply within_keeps, keeps_log_pop|]. intros _ s. unfold publish.
  destruct (s_doomed s); simpl; lia.
Qed.

Lemma within_for_each {A} (xs : list A) f :
  (∀ x, commits_within 0 (f x)) → commits_within 0 (for_each xs f).
Proof.
  intros Hf. induction xs as [|x xs IH]; simpl; [by apply within_keeps|].
  by apply (within_bind 0 0).
Qed.

(** Proves that an operation commits at most once. *)
Ltac within_step :=
  lazymatch goal with
  | |- commits_within ?n (?m ≫= _) =>
      lazymatch m with
      | context [commit] => apply (within_bind n 0); [|intros ?]
      | _ => apply (within_bind 0 n); [|intros ?]
      end
  | |- commits_within _ (catch _ _) =>
      apply within_catch; [|unfold on_db_error; intros [] ? ?; repeat case_match; simplify_eq]
  | |- commits_within _ commit => apply within_commit
  | |- commits_within _ (for_each _ _) => apply within_for_each; intros ?
  | |- commits_within _ interleave => apply within_keeps, keeps_log_interleave
  | |- commits_within _ rollback => apply within_keeps, keeps_log_rollback
  | |- commits_within _ (lock_row _ _) => apply within_keeps, keeps_log_lock_row
  | |- commits_within _ (lock_query _ _) => apply within_keeps, keeps_log_lock_query
  | |- commits_within _ pop_outcome => apply within_keeps, keeps_log_pop
  | |- commits_within _ (when ?b _) => destruct b; simpl
  | |- commits_within _ (reject_if ?b _ _) => apply within_keeps; intros ?; by destruct b
  | |- commits_within _ (let '(_, _) := ?x in _) => destruct x
  | |- commits_within _ (match ?x with _ => _ end) => destruct x
  | |- commits_within _ _ => apply within_keeps; intros ?; done
  end.

(** The only transaction of a request that commits at most once. *)
Lemma within_only {A} (m : M A) s d d' :
  commits_within 1 m → s_log s = [] → committed m s d d' → committed_only m s d d'.
Proof.
  intros Hm Hs Hc. specialize (Hm s). rewrite Hs in Hm. unfold committed, committed_only in *.
  destruct (s_log (m s).2) as [|p [|q l]]; simpl in Hm; [by apply not_elem_of_nil in Hc| |lia].
  by apply list_elem_of_singleton in Hc as <-.
Qed.

(** A commit that succeeds has committed the working copy. *)
Lemma wp_commit_logged (I : DB → Prop) (Q : result () → Session → Prop) c d b dm L t i s :
  St I c d b dm L t i s →
  (∀ e s', St I c d b dm L t i s' → Q (Raise (DatabaseError e)) s') →
  (dm = None → commits I c d) →
  (∀ s', dm = None → (c, d) ∈ s_log s' → St I d d false None ∅ t i s' → Q (Ok ()) s') →
  wp commit Q s.
Proof.
  intros Hst HR HI HO. unfold commit. apply wp_bind. eapply wp_pop_outcome; [done|done|].
  intros s' Hst'. unfold wp, publish. destruct Hst'. rewrite st_doomed0.
  destruct dm as [e|]; [by apply HR|].
  apply HO; [done|simpl; subst; left|]. destruct (HI eq_refl) as [HId Hev]. constructor; simpl; try done.
  destruct st_env0 as [Henv Hlog]. split; [done|]. constructor; [by subst|done].
Qed.

(** ** Reads at an await *)

(** What a session reads after an await is what others have left then. *)
Lemma wp_interleave_later (I : DB → Prop) (Q : result () → Session → Prop) c L t i s :
  St I c c false None L t i s →
  (agree L c (moment s 1) → St I (moment s 1) (moment s 1) false None L t i (later 1 s) →
   Q (Ok ()) (later 1 s)) →
  wp interleave Q s.
Proof.
  intros Hst HQ.
  assert (wp interleave (λ r s', r = Ok () ∧ agree L c (s_committed s') ∧
    St I (s_committed s') (s_committed s') false None L t i s') s) as (Hr & Hag & Hst').
  { eapply wp_interleave; [done|]. intros c' s' Hag Hst'.
    by rewrite (st_committed _ _ _ _ _ _ _ _ _ Hst'). }
  unfold wp. rewrite Hr. by apply HQ.
Qed.

Lemma St_moment (I : DB → Prop) c L t i s : St I c c false None L t i s → moment s 0 = c.
Proof. by intros []. Qed.

(** A handler that, started on a clean session, leaves it safe on every path. *)
Definition preserves (I : DB → Prop) {A} (m : M A) : Prop :=
  ∀ s, clean_session I s → wp m (λ _ s', safe I s') s.

(** ** Automation *)

Ltac start_handler :=
  intros ? ?; match goal with Hf : clean_session _ _ |- _ =>
    apply clean_St in Hf; let Hst := fresh "Hst" in rename Hf into Hst end.

Ltac wp_simpl := cbv beta iota zeta.

(** Runs the operation at the head of a handler; leaves its side conditions and the
    state after it. *)
Ltac wp_step :=
  cbv beta iota zeta;
  lazymatch goal with
  | |- wp (_ ≫= _) _ _ => apply wp_bind
  | |- wp (mret _) _ _ => apply wp_ret
  | |- wp (raise _) _ _ => apply wp_raise
  | |- wp (http _ _) _ _ => apply wp_http
  | H : St _ _ _ _ _ _ _ _ ?s |-
      wp (catch commit (on_db_error _ (rollback ≫= (λ _, http _ _)))) _ ?s =>
      eapply wp_commit_or_http;
        [exact H|clear H; intros ? ? ? ?|intros ?|clear H; intros ? ? H]
  | |- wp (catch _ _) _ _ => apply wp_catch
  | |- wp (when _ _) _ _ => apply wp_when; intros ?
  | |- wp (reject_if _ _ _) _ _ => apply wp_reject_if; intros ?
  | H : St _ _ _ _ _ _ _ _ ?s |- wp (ask _) _ ?s => eapply wp_ask; [exact H|]
  | H : St _ _ _ _ _ _ _ _ ?s |- wp (write _) _ ?s =>
      eapply wp_write; [exact H|clear H; intros ? H]
  | H : St _ _ _ _ _ _ _ _ ?s |- wp (add_status_event _) _ ?s =>
      eapply wp_write; [exact H|clear H; intros ? H]
  | H : St _ _ _ _ _ _ _ _ ?s |- wp (add_audit_event _ _ _ _ _ _) _ ?s =>
      eapply wp_write; [exact H|clear H; intros ? H]
  | H : St _ _ _ _ _ _ _ _ ?s |- wp (save_attempt _) _ ?s =>
      eapply wp_write; [exact H|clear H; intros ? H]
  | H : St _ _ _ _ _ _ _ _ ?s |- wp (save_lease _) _ ?s =>
      eapply wp_write; [exact H|clear H; intros ? H]
  | H : St _ _ _ _ _ _ _ _ ?s |- wp (save_worker _) _ ?s =>
      eapply wp_save_worker; [exact H|clear H; intros ? ? H]
  | H : St _ _ _ _ _ _ _ _ ?s |- wp (save_job _) _ ?s =>
      eapply wp_save_job; [exact H|clear H; let Hv := fresh "Hversion" in intros ? ? Hv H]
  | H : St _ _ _ _ _ _ _ _ ?s |- wp (doom_if _) _ ?s =>
      eapply wp_doom_if; [exact H|clear H; intros ? ? ? H]
  | H : St _ _ _ _ _ _ _ _ ?s |- wp (add_unique _ _) _ ?s =>
      eapply wp_add_unique; [exact H|clear H; intros ? ? ? H]
  | H : St _ _ _ true _ _ _ _ ?s |- wp (lock_row _ _) _ ?s =>
      eapply wp_lock_row_dirty; [exact H|clear H; intros ? H]
  | H : St _ _ _ _ _ _ _ _ ?s |- wp (lock_row _ _) _ ?s =>
      eapply wp_lock_row; [exact H|clear H; intros ? ? ? H]
  | H : St _ _ _ _ _ _ _ _ ?s |- wp (lock_query _ _) _ ?s =>
      eapply wp_lock_query; [exact H|clear H; intros ? ? ? H]
  | H : St _ _ _ _ _ _ _ _ ?s |- wp flush _ ?s =>
      eapply wp_flush; [exact H|intros ?|intros ?]
  | H : St _ _ _ _ _ _ _ _ ?s |- wp discard _ ?s =>
      eapply wp_discard; [exact H|clear H; intros ? H]
  | H : St _ _ _ _ _ _ _ _ ?s |- wp (lock_rows _) _ ?s =>
      eapply wp_lock_rows; [exact H|clear H; intros ? H]
  | H : St _ _ _ _ _ _ _ _ ?s |- wp interleave _ ?s =>
      eapply wp_interleave; [exact H|clear H; intros ? ? ? H]
  | H : St _ _ _ _ _ _ _ _ ?s |- wp held_by_others _ ?s =>
      eapply wp_held; [exact H|intros ?]
  | H : St _ _ _ _ _ _ _ _ ?s |- wp rollback _ ?s =>
      eapply wp_rollback; [exact H|clear H; intros ? ? H]
  | H : St _ _ _ _ _ _ _ _ ?s |- wp utc_now _ ?s =>
      eapply wp_utc_now; [exact H|clear H; intros ? ? ? H]
  | H : St _ _ _ _ _ _ _ _ ?s |- wp new_id _ ?s =>
      eapply wp_new_id; [exact H|clear H; intros ? ? H]
  | H : St _ _ _ _ _ _ _ _ ?s |- wp fresh _ ?s =>
      eapply wp_fresh; [exact H|clear H; intros ? ? H]
  | H : St _ _ _ _ _ _ _ _ ?s |- wp (info_get _) _ ?s => eapply wp_info_get; [exact H|]
  | H : St _ _ _ _ _ _ _ _ ?s |- wp (info_set _ _) _ ?s =>
      eapply wp_info_set; [exact H|clear H; intros ? H]
  | H : St _ _ _ _ _ _ _ _ ?s |- wp pop_outcome _ ?s =>
      eapply wp_pop_outcome; [exact H|clear H; intros ? ? H|clear H; intros ? H]
  | |- wp (some_or_none _ _) _ _ => unfold some_or_none
  | |- wp (some_or_raise _ _ _) _ _ => unfold some_or_raise
  | |- wp (check_transition _ _ _) _ _ => apply wp_check_transition; [intros ?|intros ? ?]
  | H : St _ _ _ _ _ _ _ _ ?s |- wp (update_job_where _ _ _) _ ?s =>
      eapply wp_update_job_where; [exact H|clear H; intros ? ? ? ? H|intros ?]
  | |- wp (match negb true with _ => _ end) _ _ => change (negb true) with false
  | |- wp (match negb false with _ => _ end) _ _ => change (negb false) with true
  | |- wp (match ?o with _ => _ end) _ _ => destruct o eqn:?
  end;
  cbv beta iota zeta.

(** Side conditions left by the write and commit rules. *)
Ltac wp_steps := repeat wp_step.

(** The handlers of a database error: caught, or passed on. *)
Ltac caught_or_raised :=
  unfold on_db_error; wp_simpl;
  repeat (match goal with |- context [decide (?e ∈ ?es)] =>
    destruct (decide (e ∈ es)) end; wp_simpl).

(** The invariant of the committed database. *)
Ltac committed_inv HI :=
  match goal with H : St _ _ _ _ _ _ _ _ _ |- _ =>
    pose proof (st_inv _ _ _ _ _ _ _ _ _ H) as HI end.

#[export] Hint Resolve ag_evolves : core.

(** Ends a branch whose session is described by [St]. *)
Ltac finish_safe := first [eassumption | eapply St_safe; eassumption].

(** Carries the rows read under a lock to the database of the last acquisition. *)
Ltac settle_rows :=
  repeat match goal with
  | Ha : agree _ ?c ?c', Hr : leases ?c !! ?k = _ |- _ =>
      rewrite <-(ag_rows _ _ _ Ha (LockLease k) ltac:(set_solver)) in Hr
  | Ha : agree _ ?c ?c', Hr : jobs ?c !! ?k = _ |- _ =>
      rewrite <-(ag_rows _ _ _ Ha (LockJob k) ltac:(set_solver)) in Hr
  | Ha : agree _ ?c ?c', Hr : attempts ?c !! ?k = _ |- _ =>
      rewrite <-(ag_rows _ _ _ Ha (LockAttempt k) ltac:(set_solver)) in Hr
  | Ha : agree _ ?c ?c', Hr : workers ?c !! ?k = _ |- _ =>
      rewrite <-(ag_rows _ _ _ Ha (LockWorker k) ltac:(set_solver)) in Hr
  end.
