(* ===== verification/JobConfigLedger.v ===== *)
(** * Integrity of stored Job configurations

    Model of [apps/api/src/rvc_manager_api/services/job_configs.py]: a stored
    configuration is used only when its hash, its normalised form and the columns
    copied from it all agree. *)

From S2P Require Import Prelude Json JobConfig Ledger.

Section ledger.
  Context `{ContractParser}.

(** [validated_job_config]; the left side is the message of the
    [InvalidJobConfigLedger]. *)
Definition validated_job_config (job : Job) (attempt : option JobAttempt) : string + JobConfig :=
  match j_config_sha256 job with
  | None => inl "Job config hash is missing or malformed"
  | Some stored_sha256 =>
      if negb (lower_hex_of_length 64 stored_sha256) then
        inl "Job config hash is missing or malformed"
      else
        match job_config_sha256 (j_config_json job),
              JobConfig_model_validate (j_config_json job) with
        | Some raw_sha256, Some config =>
            match job_config_sha256_of config with
            | None => inl "Job config snapshot is invalid"
            | Some normalized_sha256 =>
                if negb ⌊ raw_sha256 = stored_sha256 ⌋ || negb ⌊ normalized_sha256 = stored_sha256 ⌋
                then inl "Job config snapshot does not match its hash"
                else if
                  negb ⌊ job_name config = j_job_name job ⌋ ||
                  negb ⌊ experiment_id config = j_experiment_id job ⌋ ||
                  negb ⌊ dataset_id config = j_dataset_id job ⌋ ||
                  negb (epochs (training config) =? j_total_epoch job) ||
                  negb (priority (resource config) =? j_priority job) ||
                  negb ⌊ test_set_id (auto_inference_samples config) = j_test_set_id job ⌋
                then inl "Job config snapshot does not match the Job ledger"
                else if
                  match attempt with
                  | Some a => negb ⌊ a_job_id a = j_id job ⌋ ||
                              negb ⌊ a_job_config_sha256 a = Some stored_sha256 ⌋
                  | None => false
                  end
                then inl "Job attempt does not match the Job config snapshot"
                else inr config
            end
        | _, _ => inl "Job config snapshot is invalid"
        end
  end.

(** ** What an accepted configuration guarantees *)

Lemma validated_job_config_inr job attempt config :
  validated_job_config job attempt = inr config →
  ∃ h, j_config_sha256 job = Some h ∧ lower_hex_of_length 64 h = true ∧
    job_config_sha256 (j_config_json job) = Some h ∧ job_config_sha256_of config = Some h ∧
    JobConfig_model_validate (j_config_json job) = Some config ∧
    dataset_id config = j_dataset_id job ∧
    epochs (training config) = j_total_epoch job ∧ priority (resource config) = j_priority job ∧
    job_name config = j_job_name job ∧ experiment_id config = j_experiment_id job ∧
    test_set_id (auto_inference_samples config) = j_test_set_id job ∧
    (∀ a, attempt = Some a → a_job_id a = j_id job ∧ a_job_config_sha256 a = Some h).
Proof.
  unfold validated_job_config. intros Hv.
  destruct (j_config_sha256 job) as [h|]; [|done].
  destruct (lower_hex_of_length 64 h) eqn:Hhex; [|done]. simpl in Hv.
  destruct (job_config_sha256 (j_config_json job)) as [raw|] eqn:Hraw; [|done].
  destruct (JobConfig_model_validate (j_config_json job)) as [c|] eqn:Hparse; [|done].
  destruct (job_config_sha256_of c) as [norm|] eqn:Hnorm; [|done].
  destruct (negb _ || negb _) eqn:Hhash in Hv; [done|]. bools. subst raw norm.
  destruct (_ || negb ⌊ test_set_id _ = _ ⌋) eqn:Hcols in Hv; [done|]. bools.
  assert (∀ a, attempt = Some a → a_job_id a = j_id job ∧ a_job_config_sha256 a = Some h) as Ha.
  { intros a ->. destruct (negb _ || negb _) eqn:Hatt in Hv; [done|]. by bools. }
  destruct (match attempt with Some _ => _ | None => false end) in Hv; [done|].
  injection Hv as ->. exists h. by split_and!.
Qed.

(** The configuration depends only on columns no handler changes. *)
Lemma validated_job_config_ext job job' attempt :
  j_id job' = j_id job → j_config_sha256 job' = j_config_sha256 job →
  j_config_json job' = j_config_json job → j_job_name job' = j_job_name job →
  j_experiment_id job' = j_experiment_id job → j_dataset_id job' = j_dataset_id job →
  j_total_epoch job' = j_total_epoch job → j_priority job' = j_priority job →
  j_test_set_id job' = j_test_set_id job →
  validated_job_config job' attempt = validated_job_config job attempt.
Proof. unfold validated_job_config. by intros -> -> -> -> -> -> -> -> ->. Qed.
End ledger.
