(* ===== verification/TestSets.v ===== *)
(** * Datasets and test sets offered to Workers

    Model of the functions of [services/datasets.py] and [services/test_sets.py] that
    decide whether a snapshot can be handed to a Worker: readiness of a Dataset,
    the manifest and sample-plan documents of a TestSet, and object keys. *)

From S2P Require Import Prelude Sha256 Json JobConfig Ledger.

(** [dataset_ready_for_training] *)
Definition dataset_ready_for_training (d : Dataset) : bool :=
  d_is_usable d && ⌊ d_status d ∈ ["ready"; "legacy_imported"] ⌋ &&
  is_some (d_flat_storage_uri d).

(** [canonical_json] and [canonical_sha256]; [None] is the [ValueError] of a
    non-finite float. *)
Definition canonical_json (v : json) : option string := json_dumps v.
Definition canonical_sha256 (v : json) : option string := sha256_hex <$> canonical_json v.

Definition item_leb (a b : TestSetItem) : bool :=
  lex_leb (i_sort_order a) (i_sort_order b)
    (if decide (i_item_key a = i_item_key b) then str_leb (i_id a) (i_id b)
     else str_leb (i_item_key a) (i_item_key b)).

(** [sorted(items, key=lambda item: (item.sort_order, item.item_key, item.id))] *)
Definition ordered_items (items : list TestSetItem) : list TestSetItem := order_by item_leb items.

Definition item_manifest_fields (item : TestSetItem) : list (string * json) :=
  [("item_key", JString (i_item_key item));
   ("display_name", JString (i_display_name item));
   ("sort_order", JInt (i_sort_order item));
   ("filename", JString (i_item_key item +:+ ".wav"));
   ("original_filename", JString (i_original_filename item));
   ("size_bytes", JInt (i_size_bytes item));
   ("sha256", JString (i_sha256 item));
   ("mime_type", JString (i_mime_type item));
   ("sample_rate_hz", JInt (i_sample_rate_hz item));
   ("channels", JInt (i_channels item));
   ("duration_seconds", JFloat (i_duration_seconds item));
   ("license_reference", JString (i_license_reference item));
   ("provenance_reference", JString (i_provenance_reference item))].

Definition test_set_item_manifest_document (item : TestSetItem) : json :=
  JObject (item_manifest_fields item).

Definition build_test_set_manifest_document (test_set : TestSet) (items : list TestSetItem) : json :=
  JObject
    [("schema_version", JInt 1);
     ("test_set", JObject [("name", JString (t_name test_set));
                           ("revision", JInt (t_revision test_set))]);
     ("items", JArray (map test_set_item_manifest_document (ordered_items items)))].

Definition build_sample_plan_document (test_set : TestSet) (items : list TestSetItem)
    (inference_config : InferencePresetConfig) : option json :=
  let inference := dump_InferencePresetConfig inference_config in
  h ← canonical_sha256 inference;
  Some (JObject
    [("schema_version", JInt 1);
     ("test_set", JObject
        [("id", JString (t_id test_set));
         ("family_id", JString (t_family_id test_set));
         ("revision", JInt (t_revision test_set));
         ("manifest_sha256", dump_option JString (t_manifest_sha256 test_set))]);
     ("items", JArray (map (λ item,
        JObject (("test_set_item_id", JString (i_id item)) :: item_manifest_fields item))
        (ordered_items items)));
     ("inference_config", inference);
     ("inference_config_sha256", JString h)]).

Definition test_set_item_object_key (test_set_id upload_id : string) : string :=
  "test-sets/verified/" +:+ test_set_id +:+ "/items/" +:+ upload_id +:+ ".wav".
Definition test_set_manifest_object_key (test_set_id : string) : string :=
  "test-sets/verified/" +:+ test_set_id +:+ "/manifest.json".
Definition test_set_temporary_object_key (test_set_id upload_id : string) : string :=
  "test-sets/staging/" +:+ test_set_id +:+ "/" +:+ upload_id.

(** ** Python equality of JSON values

    [==] on dictionaries ignores the order of entries; [==] on numbers compares
    values across [bool], [int] and [float]. *)

Definition Z_eqb_float (n : Z) (f : spec_float) : bool :=
  match f with
  | S754_zero _ => n =? 0
  | S754_finite s m e =>
      let m := if s then Z.neg m else Z.pos m in
      if 0 <=? e then n =? m * 2 ^ e else n * 2 ^ (- e) =? m
  | _ => false
  end.

(** [f <= n] for a float and an integer, exactly. *)
Definition float_leb_Z (f : spec_float) (n : Z) : bool :=
  match f with
  | S754_zero _ => 0 <=? n
  | S754_finite s m e =>
      let m := if s then Z.neg m else Z.pos m in
      if 0 <=? e then m * 2 ^ e <=? n else m <=? n * 2 ^ (- e)
  | S754_infinity s => s
  | S754_nan => false
  end.

Definition num_eqb (a b : json) : bool :=
  let as_int (v : json) : option Z :=
    match v with JInt z => Some z | JBool b => Some (if b then 1 else 0) | _ => None end in
  match as_int a, as_int b, a, b with
  | Some x, Some y, _, _ => x =? y
  | Some x, None, _, JFloat g => Z_eqb_float x g
  | None, Some y, JFloat f, _ => Z_eqb_float y f
  | None, None, JFloat f, JFloat g => SFeqb f g
  | _, _, _, _ => false
  end.

Definition field (k : string) (fs : list (string * json)) : option json :=
  snd <$> List.find (λ kv, ⌊ kv.1 = k ⌋) fs.

Fixpoint py_eqb (a b : json) : bool :=
  match a, b with
  | JNull, JNull => true
  | JString s, JString t => ⌊ s = t ⌋
  | JArray xs, JArray ys =>
      (fix go (xs ys : list json) : bool :=
         match xs, ys with
         | [], [] => true
         | x :: xs', y :: ys' => py_eqb x y && go xs' ys'
         | _, _ => false
         end) xs ys
  | JObject fs, JObject gs =>
      (length fs =? length gs)%nat &&
      forallb (λ kv, match field kv.1 gs with Some w => py_eqb kv.2 w | None => false end) fs
  | _, _ => num_eqb a b
  end.

Example py_eqb_order :
  py_eqb (JObject [("a", JInt 1); ("b", JNull)]) (JObject [("b", JNull); ("a", JFloat f_one)]) = true.
Proof. reflexivity. Qed.
