(* ===== verification/Redaction.v ===== *)
(** * Redaction of log fields

    Model of [redact_log_fields] of
    [apps/api/src/rvc_manager_api/services/job_observability.py]: the values of
    sensitive keys are replaced at every depth, and nothing deeper than twelve levels is
    kept.  [redact_log_text], a sequence of regular-expression substitutions, is an
    operation of the interface [LogTextRedactor]. *)

From S2P Require Import Prelude Json.

Class LogTextRedactor := { redact_log_text : string → string }.

(** ** Key normalisation *)

(** [str.casefold], on UTF-8 bytes, up to what [[^a-z0-9]+] separates: the
    characters outside ASCII whose folding has an ASCII letter are listed; every
    other one separates parts with or without folding. *)
Definition special_folds : list (list Z * string) :=
  [([195; 159], "ss"); ([196; 176], "i."); ([197; 137], ".n"); ([197; 191], "s");
   ([199; 176], "j."); ([225; 186; 150], "h."); ([225; 186; 151], "t.");
   ([225; 186; 152], "w."); ([225; 186; 153], "y."); ([225; 186; 154], "a.");
   ([225; 186; 158], "ss"); ([226; 132; 170], "k"); ([239; 172; 128], "ff");
   ([239; 172; 129], "fi"); ([239; 172; 130], "fl"); ([239; 172; 131], "ffi");
   ([239; 172; 132], "ffl"); ([239; 172; 133], "st"); ([239; 172; 134], "st")].

Definition fold_ascii (c : ascii) : ascii := if is_upper c then chr (code c + 32) else c.

(** The folding at the head of [cs] and the characters it consumes. *)
Definition fold_head (cs : list ascii) : option (string * nat) :=
  '(bytes, text) ← List.find (λ p, ⌊ take (length p.1) (map code cs) = p.1 ⌋) special_folds;
  Some (text, length bytes).

Fixpoint casefold (fuel : nat) (cs : list ascii) : list ascii :=
  match fuel, cs with
  | S fuel', c :: rest =>
      match fold_head cs with
      | Some (text, n) => str_chars text ++ casefold fuel' (drop n cs)
      | None => fold_ascii c :: casefold fuel' rest
      end
  | _, _ => []
  end.

Definition is_key_char (c : ascii) : bool := is_digit c || is_lower c.

(** The non-empty parts of [re.split(r"[^a-z0-9]+", key.casefold())] *)
Fixpoint key_parts (current : string) (cs : list ascii) : list string :=
  let flush := if ⌊ current = "" ⌋ then [] else [current] in
  match cs with
  | [] => flush
  | c :: rest =>
      if is_key_char c then key_parts (current +:+ String c "") rest
      else flush ++ key_parts "" rest
  end.

Definition normalized_parts (key : string) : list string :=
  let cs := str_chars key in key_parts "" (casefold (length cs) cs).

Definition SENSITIVE_KEY_PARTS : list string :=
  ["api-key"; "apikey"; "authorization"; "cookie"; "credential"; "password"; "passwd";
   "private-key"; "proxy-authorization"; "secret"; "set-cookie"; "signature"; "token"].

Definition sensitive_key (key : string) : bool :=
  let parts := normalized_parts key in
  ⌊ String.concat "-" parts ∈ SENSITIVE_KEY_PARTS ⌋ ||
  existsb (λ part, ⌊ part ∈ SENSITIVE_KEY_PARTS ⌋) parts.

(** ** Redaction *)

Definition MAX_REDACTION_DEPTH : nat := 12.
Definition REDACTED : json := JString "[REDACTED]".

Section redact.
  Context `{LogTextRedactor}.

(** [remaining] is [_MAX_REDACTION_DEPTH - _depth]. *)
Fixpoint redact_at (remaining : nat) (value : json) : json :=
  match remaining with
  | O => REDACTED
  | S remaining' =>
      match value with
      | JObject fs =>
          JObject (map (λ kv, (kv.1, if sensitive_key kv.1 then REDACTED
                                     else redact_at remaining' kv.2)) fs)
      | JArray items => JArray (map (redact_at remaining') items)
      | JString s => JString (redact_log_text s)
      | v => v
      end
  end.

Definition redact_log_fields (value : json) : json := redact_at MAX_REDACTION_DEPTH value.

(** ** What a redacted value can contain *)

(** Nesting of objects and arrays. *)
Fixpoint depth (v : json) : nat :=
  match v with
  | JArray xs => S (foldr (λ x acc, Nat.max (depth x) acc) 0%nat xs)
  | JObject fs => S (foldr (λ kv acc, Nat.max (depth kv.2) acc) 0%nat fs)
  | _ => 0
  end.

(** No sensitive key keeps a value, and every string went through the text redaction. *)
Inductive clean : json → Prop :=
  | clean_redacted : clean REDACTED
  | clean_null : clean JNull
  | clean_bool b : clean (JBool b)
  | clean_int z : clean (JInt z)
  | clean_float f : clean (JFloat f)
  | clean_text s : clean (JString (redact_log_text s))
  | clean_array xs : Forall clean xs → clean (JArray xs)
  | clean_object fs :
      Forall (λ kv, sensitive_key kv.1 = true → kv.2 = REDACTED) fs →
      Forall (λ kv, clean kv.2) fs → clean (JObject fs).

Lemma redact_at_clean n v : clean (redact_at n v).
Proof.
  revert v. induction n as [|n IH]; intros v; [constructor|].
  destruct v as [| | | | |xs|fs]; simpl; constructor.
  - apply Forall_map, Forall_forall. intros x _. apply IH.
  - apply Forall_map, Forall_forall. intros [k x] _. simpl. by intros ->.
  - apply Forall_map, Forall_forall. intros [k x] _. simpl.
    destruct (sensitive_key k); [constructor|apply IH].
Qed.

Lemma redact_at_depth n v : (depth (redact_at n v) <= n)%nat.
Proof.
  revert v. induction n as [|n IH]; intros v; [done|].
  destruct v as [| | | | |xs|fs]; simpl; try lia; apply le_n_S.
  - induction xs as [|x xs IHxs]; simpl; [lia|]. specialize (IH x). lia.
  - induction fs as [|[k x] fs IHfs]; simpl; [lia|].
    specialize (IH x). destruct (sensitive_key k); simpl; lia.
Qed.
End redact.

(** C35: redacted fields hold no secret under a sensitive key. At every depth the
    value of a sensitive key is the placeholder, every string has passed the text
    redaction, and the result nests at most twelve levels. *)
Theorem redaction_is_complete `{LogTextRedactor} value :
  clean (redact_log_fields value) ∧ (depth (redact_log_fields value) <= 12)%nat.
Proof. split; [apply redact_at_clean|apply redact_at_depth]. Qed.

Example sensitive_keys :
  map sensitive_key ["Authorization"; "X-Auth-Token"; "api_key"; "db.password"; "loss"]
  = [true; true; true; true; false].
Proof. vm_compute. reflexivity. Qed.

(** A prefixed name of a two-word secret is not recognised. *)
Example prefixed_api_key_kept :
  map sensitive_key ["openai_api_key"; "x-api-key"; "ssh_private_key"] = [false; false; false].
Proof. vm_compute. reflexivity. Qed.
