(* ===== verification/Mlflow.v ===== *)
(** * The MLflow outbox

    Model of [MlflowCoordinator] of [apps/api/src/rvc_manager_api/services/mlflow.py]: events
    are added to the outbox in the transaction of the change they describe, claimed
    by a conditional update, projected by the adapter, and marked synced or put back
    with a delay.  The adapter's REST calls are outside the ledger: whether a
    projection succeeds is the session's oracle [s_projections]. *)

From S2P Require Import Prelude Sha256 Json JobStatus JobConfig Settings Ledger Session Wp.
From S2P Require Import JobConfigLedger.

Definition metric_event_key (attempt_id idempotency_key : string) : string :=
  "metric:" +:+ attempt_id +:+ ":" +:+ sha256_hex idempotency_key.
Definition artifact_event_key (artifact_id : string) : string := "artifact:" +:+ artifact_id.
Definition terminal_event_key (attempt_id job_status : string) : string :=
  "terminal:" +:+ attempt_id +:+ ":" +:+ job_status.

Definition put_event (e : MlflowSyncEvent) (d : DB) : DB :=
  d <| mlflow_events := <[ms_event_key e := e]> (mlflow_events d) |>.

(** [await self.adapter.project(event)]: the code of the [MlflowUnavailable] it raises
    ([projection_failed] stands for any other exception), if any. *)
Definition project_event : M (option string) :=
  step (λ s, (hd None (s_projections s), s <| s_projections := tl (s_projections s) |>)).

Section mlflow.
  Context `{ContractParser} `{Platform}.
  Variable settings : Settings.

(** ** Adding events *)

(** [_enqueue] *)
Definition enqueue (event_key event_type aggregate_type aggregate_id : string)
    : M (option string) :=
  if negb (mlflow_enabled settings) then mret None else
  id ← new_id;
  now ← utc_now;
  duplicate ← ask (λ d, is_some (mlflow_events d !! event_key));
  _ ← write (put_event (mkMlflowSyncEvent id event_key event_type aggregate_type aggregate_id
                          "pending" 0 None None None None now));
  _ ← doom_if (λ _, duplicate);
  mret (Some event_key).

(** [_experiment_for_job] then [_job_context]: the errors they raise. *)
Definition check_job_context (job : Job) (attempt_id : option string) : M () :=
  experiment ← ask (λ d, experiments d !! j_experiment_id job);
  _ ← when (is_none experiment) (raise (RuntimeError "job references a missing experiment"));
  attempt ← ask (λ d, id ← attempt_id; attempts d !! id);
  _ ← when (is_some attempt_id && is_none attempt)
        (raise (InvalidJobConfigLedger "MLflow event references a missing Job attempt"));
  match validated_job_config job attempt with
  | inl message => raise (InvalidJobConfigLedger message)
  | inr _ => mret ()
  end.

Definition enqueue_for_job (job : Job) (attempt_id : option string)
    (event_key event_type aggregate_type aggregate_id : string) : M (option string) :=
  if negb (mlflow_enabled settings) then mret None else
  _ ← check_job_context job attempt_id;
  enqueue event_key event_type aggregate_type aggregate_id.

Definition enqueue_experiment_created (e : Experiment) : M (option string) :=
  enqueue ("experiment:" +:+ e_id e) "experiment.created" "experiment" (e_id e).
Definition enqueue_job_created (job : Job) : M (option string) :=
  enqueue_for_job job None ("job:" +:+ j_id job) "job.created" "job" (j_id job).
Definition enqueue_metric_batch (job : Job) (attempt_id idempotency_key : string)
    : M (option string) :=
  enqueue_for_job job (Some attempt_id) (metric_event_key attempt_id idempotency_key)
    "metric.batch" "job" (j_id job).
Definition enqueue_artifact (job : Job) (artifact : Artifact) : M (option string) :=
  enqueue_for_job job (Some (ar_attempt_id artifact)) (artifact_event_key (ar_id artifact))
    "artifact.verified" "artifact" (ar_id artifact).
Definition enqueue_terminal_status (job : Job) (attempt_id status : string) : M (option string) :=
  enqueue_for_job job (Some attempt_id) (terminal_event_key attempt_id status)
    "job.terminal" "job" (j_id job).

(** ** Projecting events *)

(** [_recover_stale_processing] on one row *)
Definition recover_stale_event (now : Z) (e : MlflowSyncEvent) : MlflowSyncEvent :=
  let stale_before := now - seconds (mlflow_processing_stale_seconds settings) in
  if ⌊ ms_status e = "processing" ⌋ &&
     match ms_locked_at e with Some t => t <=? stale_before | None => false end
  then e <| ms_status := "pending" |> <| ms_locked_at := None |> <| ms_next_attempt_at := Some now |>
  else e.

Definition event_leb (a b : MlflowSyncEvent) : bool :=
  lex_leb (ms_created_at a) (ms_created_at b) (str_leb (ms_id a) (ms_id b)).

Definition claimable (event_key : option string) (now : Z) (e : MlflowSyncEvent) : bool :=
  ⌊ ms_status e = "pending" ⌋ &&
  match event_key with
  | None => match ms_next_attempt_at e with None => true | Some t => t <=? now end
  | Some key => ⌊ ms_event_key e = key ⌋
  end.

(** [_claim] *)
Definition claim_event (event_key : option string) : M (option MlflowSyncEvent) :=
  now ← utc_now;
  _ ← write (λ d, d <| mlflow_events := recover_stale_event now <$> mlflow_events d |>);
  candidate ← ask (λ d, head (order_by event_leb (where_ (claimable event_key now) (mlflow_events d))));
  match candidate with
  | None => _ ← commit; mret None
  | Some found =>
      row ← ask (λ d, mlflow_events d !! ms_event_key found);
      match row with
      | Some event =>
          if ⌊ ms_id event = ms_id found ⌋ && ⌊ ms_status event = "pending" ⌋ then
            let claimed := event <| ms_status := "processing" |> <| ms_locked_at := Some now |>
                                 <| ms_next_attempt_at := None |> in
            _ ← write (put_event claimed);
            _ ← commit;
            mret (Some claimed)
          else _ ← discard; mret None
      | None => _ ← discard; mret None
      end
  end.

(** The update of an event that is still being processed. *)
Definition finish_event (event : MlflowSyncEvent) (f : MlflowSyncEvent → MlflowSyncEvent) : M () :=
  row ← ask (λ d, mlflow_events d !! ms_event_key event);
  _ ← match row with
      | Some e => when (⌊ ms_id e = ms_id event ⌋ && ⌊ ms_status e = "processing" ⌋)
                    (write (λ d, d <| mlflow_events :=
                       <[ms_event_key event := f e]> (mlflow_events d) |>))
      | None => mret ()
      end;
  commit.

(** [_mark_synced] *)
Definition mark_synced (event : MlflowSyncEvent) : M () :=
  now ← utc_now;
  finish_event event (λ e,
    e <| ms_status := "synced" |> <| ms_attempt_count := ms_attempt_count event + 1 |>
      <| ms_locked_at := None |> <| ms_next_attempt_at := None |> <| ms_last_error_code := None |>
      <| ms_synced_at := Some now |>).

(** The delay before attempt [n]: exponential up to 256 seconds, and bounded. *)
Definition retry_delay (attempts : Z) : Z :=
  Z.min (2 ^ Z.min attempts 8) (mlflow_retry_max_seconds settings).

(** [_mark_retry] *)
Definition mark_retry (event : MlflowSyncEvent) (code : string) : M () :=
  now ← utc_now;
  let attempts := ms_attempt_count event + 1 in
  finish_event event (λ e,
    e <| ms_status := "pending" |> <| ms_attempt_count := attempts |> <| ms_locked_at := None |>
      <| ms_next_attempt_at := Some (now + seconds (retry_delay attempts)) |>
      <| ms_last_error_code := Some code |>).

(** [_project_one] *)
Definition project_one (event_key : option string) : M (option MlflowSyncEvent) :=
  if negb (mlflow_enabled settings) then mret None else
  claimed ← claim_event event_key;
  match claimed with
  | None => mret None
  | Some event =>
      failure ← project_event;
      match failure with
      | None => _ ← mark_synced event; mret (Some event)
      | Some code =>
          _ ← mark_retry event code;
          if mlflow_fail_closed settings then raise (MlflowProjectionRequired (ms_event_key event))
          else mret (Some event)
      end
  end.

(** [sync_after_commit] *)
Definition sync_after_commit (event_key : option string) : M () :=
  match event_key with
  | None => mret ()
  | Some key =>
      _ ← project_one (Some key);
      if negb (mlflow_fail_closed settings) then mret () else
      event ← ask (λ d, mlflow_events d !! key);
      match event with
      | None => mret ()
      | Some e => if ⌊ ms_status e = "synced" ⌋ then mret ()
                  else raise (MlflowProjectionRequired key)
      end
  end.

(** [process_pending_once]: the events projected, at most a batch. *)
Fixpoint process_pending (fuel : nat) : M Z :=
  match fuel with
  | O => mret 0
  | S n => event ← project_one None;
           match event with None => mret 0 | Some _ => k ← process_pending n; mret (k + 1) end
  end.
Definition process_pending_once : M Z := process_pending (Z.to_nat (mlflow_sync_batch_size settings)).

(** ** The outbox leaves the rest of the ledger alone *)

(** Only the outbox may differ. *)
Definition same_ledger (c c' : DB) : Prop := c' <| mlflow_events := ∅ |> = c <| mlflow_events := ∅ |>.

Lemma same_ledger_fields c c' : same_ledger c c' →
  workers c' = workers c ∧ jobs c' = jobs c ∧ attempts c' = attempts c ∧ leases c' = leases c ∧
  job_logs c' = job_logs c ∧ metrics c' = metrics c ∧ ingest_batches c' = ingest_batches c ∧
  status_events c' = status_events c ∧ audit_events c' = audit_events c.
Proof. by destruct c, c'; intros [=]; subst. Qed.

Lemma same_ledger_rest c c' : same_ledger c c' → rest_of c' = rest_of c.
Proof. by destruct c, c'; intros [=]; subst. Qed.

Section symbolic.
  Variable I : DB → Prop.
  Hypothesis I_outbox : ∀ c c', same_ledger c c' → I c → commits I c c'.
  #[local] Set Default Proof Using "All".

Lemma wp_enqueue key type agg id (Q : result (option string) → Session → Prop) c d dm L t i s :
  St I c d true dm L t i s →
  (∀ d' dm' t' r s', same_ledger d d' → (dm' = None → dm = None) → t <= t' →
     St I c d' true dm' L t' i s' → Q (Ok r) s') →
  wp (enqueue key type agg id) Q s.
Proof.
  intros Hst HQ. unfold enqueue. wp_steps.
  - eapply HQ; [| | |done]; done.
  - eapply HQ; [| | |done]; [done|naive_solver|done].
Qed.

Lemma wp_enqueue_for_job job a key type agg id
    (Q : result (option string) → Session → Prop) c d dm L t i s :
  St I c d true dm L t i s →
  (∀ d' dm' t' r s', same_ledger d d' → (dm' = None → dm = None) → t <= t' →
     St I c d' true dm' L t' i s' → Q (Ok r) s') →
  (∀ e s', e ≠ RecursionError → s_committed s' = c → safe I s' → Q (Raise e) s') →
  wp (enqueue_for_job job a key type agg id) Q s.
Proof.
  intros Hst HQ HR. unfold enqueue_for_job, check_job_context. wp_steps.
  all: try (by eapply HR; [|eapply st_committed|eapply St_safe]).
  - eapply HQ; [| | |done]; done.
  - by eapply wp_enqueue.
Qed.

Lemma same_ledger_trans c d e : same_ledger c d → same_ledger d e → same_ledger c e.
Proof. unfold same_ledger. congruence. Qed.

(** What every operation of the projection keeps: a clean session on the same ledger. *)
Definition projection_ok {A} (m : M A) : Prop :=
  ∀ (Q : result A → Session → Prop) c L t i s,
    St I c c false None L t i s →
    (∀ r c' L' t' s', same_ledger c c' → t <= t' → St I c' c' false None L' t' i s' → Q (Ok r) s') →
    (∀ e s', e ≠ RecursionError → same_ledger c (s_committed s') → safe I s' → Q (Raise e) s') →
    wp m Q s.

Lemma commit_outbox {A} (k : M A) (Q : result A → Session → Prop) c d b L t i s :
  St I c d b None L t i s → same_ledger c d →
  (∀ s', St I d d false None ∅ t i s' → wp k Q s') →
  (∀ e s', e ≠ RecursionError → same_ledger c (s_committed s') → safe I s' → Q (Raise e) s') →
  wp (commit ≫= λ _, k) Q s.
Proof.
  intros Hst Hsame HQ HR. wp_step. eapply wp_commit; [done|..].
  - intros e s' Hst'. apply HR; [done| |by eapply St_safe]. by rewrite (st_committed _ _ _ _ _ _ _ _ _ Hst').
  - intros _. eapply I_outbox; [done|]. by destruct Hst.
  - intros s' _ Hst'. by apply HQ.
Qed.

Lemma commit_outbox_last (Q : result () → Session → Prop) c d b L t i s :
  St I c d b None L t i s → same_ledger c d →
  (∀ s', St I d d false None ∅ t i s' → Q (Ok ()) s') →
  (∀ e s', e ≠ RecursionError → same_ledger c (s_committed s') → safe I s' → Q (Raise e) s') →
  wp commit Q s.
Proof.
  intros Hst Hsame HQ HR. eapply wp_commit; [done|..].
  - intros e s' Hst'. apply HR; [done| |by eapply St_safe]. by rewrite (st_committed _ _ _ _ _ _ _ _ _ Hst').
  - intros _. eapply I_outbox; [done|]. by destruct Hst.
  - intros s' _ Hst'. by apply HQ.
Qed.

#[local] Ltac close_projection HQ :=
  eapply HQ; [| |eassumption]; [reflexivity|lia].

Lemma claim_event_ok key : projection_ok (claim_event key).
Proof.
  intros Q c L t i s Hst HQ HR. unfold claim_event. do 6 wp_step.
  wp_step; [|eapply commit_outbox; [done|done| |done]; intros; wp_step; close_projection HQ].
  do 3 wp_step; [|wp_steps; close_projection HQ].
  wp_step; [|wp_steps; close_projection HQ].
  do 2 wp_step. eapply commit_outbox; [done|done| |done]. intros. wp_step. close_projection HQ.
Qed.

Lemma finish_event_ok event f : projection_ok (finish_event event f).
Proof.
  intros Q c L t i s Hst HQ HR. unfold finish_event. do 4 wp_step; [wp_step|wp_step].
  - wp_step. eapply commit_outbox_last; [done|done| |done]. intros. close_projection HQ.
  - eapply commit_outbox_last; [done|done| |done]. intros. close_projection HQ.
  - eapply commit_outbox_last; [done|done| |done]. intros. close_projection HQ.
Qed.

Lemma bind_ok {A B} (m : M A) (k : A → M B) :
  projection_ok m → (∀ a, projection_ok (k a)) → projection_ok (m ≫= k).
Proof.
  intros Hm Hk Q c L t i s Hst HQ HR. wp_step. eapply Hm; [done| |done].
  intros r c' L' t' s' Hsame Ht Hst'. wp_simpl. eapply Hk; [done| |].
  - intros r2 c2 L2 t2 s2 Hs2 Ht2 Hst2. eapply HQ; [|  |done]; [by eapply same_ledger_trans|lia].
  - intros e s2 He Hs2 Hsafe. apply HR; [done|by eapply same_ledger_trans|done].
Qed.

Lemma ret_ok {A} (a : A) : projection_ok (mret a).
Proof. intros Q c L t i s Hst HQ HR. wp_step. close_projection HQ. Qed.
Lemma raise_ok {A} key : projection_ok (@raise A (MlflowProjectionRequired key)).
Proof.
  intros Q c L t i s Hst HQ HR. wp_step.
  apply HR; [done| |by eapply St_safe]. by rewrite (st_committed _ _ _ _ _ _ _ _ _ Hst).
Qed.
Lemma utc_now_ok : projection_ok utc_now.
Proof. intros Q c L t i s Hst HQ HR. wp_step. close_projection HQ. Qed.
Lemma ask_ok {A} (f : DB → A) : projection_ok (ask f).
Proof. intros Q c L t i s Hst HQ HR. wp_step. close_projection HQ. Qed.
Lemma project_event_ok : projection_ok project_event.
Proof. intros Q c L t i s [] HQ HR. by eapply HQ. Qed.

#[local] Hint Resolve claim_event_ok finish_event_ok bind_ok ret_ok raise_ok utc_now_ok ask_ok
  project_event_ok : rvc.

Lemma project_one_ok key : projection_ok (project_one key).
Proof.
  unfold project_one, mark_synced, mark_retry. destruct (negb _); [auto with rvc|].
  apply bind_ok; [auto with rvc|]. intros [event|]; [|auto with rvc].
  apply bind_ok; [auto with rvc|]. intros [code|]; [|auto with rvc].
  apply bind_ok; [auto with rvc|]. intros _. case_match; auto with rvc.
Qed.

Lemma sync_after_commit_ok key : projection_ok (sync_after_commit key).
Proof.
  unfold sync_after_commit. destruct key as [key|]; [|auto with rvc].
  apply bind_ok; [apply project_one_ok|]. intros _. destruct (negb _); [auto with rvc|].
  apply bind_ok; [auto with rvc|]. intros [e|]; [|auto with rvc]. case_match; auto with rvc.
Qed.

Lemma for_each_ok {A} (xs : list A) f : (∀ x, projection_ok (f x)) → projection_ok (for_each xs f).
Proof. intros Hf. induction xs as [|x xs IH]; simpl; auto with rvc. Qed.

Lemma process_pending_ok n : projection_ok (process_pending n).
Proof.
  induction n as [|n IH]; simpl; [auto with rvc|].
  apply bind_ok; [apply project_one_ok|]. intros [e|]; [|auto with rvc].
  apply bind_ok; auto with rvc.
Qed.

Lemma sync_after_commit_log key : log_grows (sync_after_commit key).
Proof using Type.
  unfold sync_after_commit, project_one, claim_event, mark_synced, mark_retry, finish_event.
  repeat log_grows_step.
Qed.

(** What was committed before the projection is still known after it. *)
Lemma wp_sync_logged key p (Q : result () → Session → Prop) c L t i s :
  St I c c false None L t i s → p ∈ s_log s →
  (∀ c' L' t' s', same_ledger c c' → p ∈ s_log s' → St I c' c' false None L' t' i s' → Q (Ok ()) s') →
  (∀ e s', e ≠ RecursionError → same_ledger c (s_committed s') → safe I s' → Q (Raise e) s') →
  wp (sync_after_commit key) Q s.
Proof.
  intros Hst Hp HQ HR. eapply wp_log_grows; [apply sync_after_commit_log|exact Hp|].
  eapply sync_after_commit_ok; [exact Hst| |intros; by apply HR].
  intros [] c' L' t' s' Hsame _ Hst' Hp'. by eapply HQ.
Qed.
End symbolic.
End mlflow.
