(* ===== verification/WorkerTokens.v ===== *)
(** * Worker credentials

    Model of the credential routes of [apps/api/src/rvc_manager_api/routers/workers.py]
    (registration, token rotation, re-enrollment, revocation), of [require_worker] of
    [dependencies.py] and of the token functions of [security.py]. *)

From S2P Require Import Prelude Sha256 Json JobStatus JobConfig WorkerContract DateTime Settings.
From S2P Require Import Ledger Session JobConfigLedger Mlflow.

Section tokens.
  Context `{ContractParser} `{CapabilitiesParser} `{Platform}.
  Variable settings : Settings.

(** ** [security.py] *)

Definition issue_worker_token : M string := n ← fresh; mret ("rvcw_" +:+ token_urlsafe n).

Definition hash_worker_token (token : string) : string :=
  hmac_sha256_hex (worker_token_pepper settings) token.

Definition verify_bootstrap_token (provided : option string) : bool :=
  match worker_bootstrap_token settings, provided with
  | Some configured, Some text => ⌊ configured = text ⌋
  | _, _ => false
  end.

(** ** [require_worker] *)

(** The active Worker with this token hash; the hash is unique. *)
Definition worker_by_token_hash (digest : string) (d : DB) : option Worker :=
  List.find (λ w, ⌊ w_token_hash w = digest ⌋ && w_is_active w) (rows (workers d)).

(** [bearer] is the scheme in lower case and the credentials of the header. *)
Definition require_worker (bearer : option (string * string)) : M Worker :=
  match bearer with
  | Some (scheme, credentials) =>
      if negb ⌊ scheme = "bearer" ⌋ then http 401 "worker bearer token required" else
      found ← ask (worker_by_token_hash (hash_worker_token credentials));
      match found with
      | None => http 401 "invalid worker token"
      | Some worker => mret worker
      end
  | None => http 401 "worker bearer token required"
  end.

(** ** Constraints of the table *)

(** The flush of a Worker whose credentials changed. *)
Definition save_credentials (w : Worker) : M () :=
  _ ← save_worker w;
  doom_if (λ d, worker_conflict w d || negb (rotation_fields_together w)).

(** ** Registration *)

Record WorkerRegisterResponse := mkWorkerRegisterResponse {
  wr_worker_id : string;
  wr_worker_token : string;
  wr_issued_at : Z }.

(** [register_worker] *)
Definition register_worker (payload : WorkerRegisterRequest) (bootstrap_token : option string)
    : M WorkerRegisterResponse :=
  _ ← reject_if (is_none (worker_bootstrap_token settings)) 503 "worker registration is disabled";
  _ ← reject_if (negb (verify_bootstrap_token bootstrap_token)) 401
        "invalid worker bootstrap token";
  raw_token ← issue_worker_token;
  now ← utc_now;
  id ← new_id;
  let capabilities := reg_capabilities payload in
  let worker :=
    mkWorker id 1 (reg_name payload) (hash_worker_token raw_token) now None None None None
      "idle" (dump_WorkerCapabilities capabilities) (cap_worker_version capabilities)
      (cap_rvc_commit_hash capabilities) (Some now) None true in
  exists_ ← ask (λ d, is_some (workers d !! id));
  if exists_ : bool then
    (* The primary key is taken: the flush fails. *)
    _ ← rollback; http 409 "worker name already registered"
  else
  _ ← save_credentials worker;
  _ ← catch commit (on_db_error [IntegrityError; StaleDataError]
        (_ ← rollback; http 409 "worker name already registered"));
  mret (mkWorkerRegisterResponse id raw_token now).

(** ** Rotation *)

(** [_token_rotation_status] *)
Definition token_rotation_status (worker : Worker) : WorkerTokenRotationStatus :=
  let pending := is_some (w_pending_token_hash worker) in
  mkWorkerTokenRotationStatus (w_id worker) (w_token_issued_at worker) pending
    (if pending then w_token_rotation_id worker else None)
    (if pending then w_token_rotation_started_at worker else None)
    (if pending then w_token_rotation_expires_at worker else None).

(** [_clear_token_rotation] *)
Definition clear_token_rotation (worker : Worker) : Worker :=
  worker <| w_token_rotation_id := None |> <| w_pending_token_hash := None |>
         <| w_token_rotation_started_at := None |> <| w_token_rotation_expires_at := None |>.

Definition lease_id_leb (a b : JobLease) : bool := str_leb (l_id a) (l_id b).

Definition active_leases (worker_id : string) (d : DB) : list JobLease :=
  order_by lease_id_leb
    (where_ (λ l, ⌊ l_worker_id l = worker_id ⌋ && l_active l && is_none (l_released_at l)) (leases d)).

Definition lease_locks (ls : list JobLease) : list lock := map (λ l, LockLease (l_id l)) ls.

(** [_lock_worker_token_rotation_boundary] *)
Definition lock_worker_token_rotation_boundary (worker_id : string) (allow_inactive : bool)
    : M (Worker * list JobLease) :=
  found ← lock_query (active_leases worker_id) lease_locks;
  locked_worker ← lock_row (LockWorker worker_id) (λ d, workers d !! worker_id);
  match locked_worker with
  | None => http 401 "invalid worker token"
  | Some worker =>
      _ ← reject_if (negb allow_inactive && negb (w_is_active worker)) 401 "invalid worker token";
      mret (worker, found)
  end.

(** [_require_rotation_idle] *)
Definition require_rotation_idle (worker : Worker) (found : list JobLease) : M () :=
  reject_if (is_some (w_current_job_id worker) || negb ⌊ length found = 0%nat ⌋) 409
    "worker token rotation requires an idle Worker with no active lease".

Record WorkerTokenRotationPrepareResponse := mkWorkerTokenRotationPrepareResponse {
  pr_worker_id : string;
  pr_rotation_id : string;
  pr_worker_token : string;
  pr_expires_at : Z }.

Definition worker_audit (worker : Worker) (action : string) (details : list (string * json)) : M () :=
  add_audit_event "worker" (Some (w_id worker)) action "worker" (Some (w_id worker)) details.

(** [prepare_token_rotation]; [worker] is the authenticated Worker. *)
Definition prepare_token_rotation (rotation_id : string) (worker : Worker)
    : M WorkerTokenRotationPrepareResponse :=
  let authenticated_token_hash := w_token_hash worker in
  locked ← lock_worker_token_rotation_boundary (w_id worker) false;
  let '(worker, found) := locked in
  _ ← reject_if (negb ⌊ w_token_hash worker = authenticated_token_hash ⌋) 401
        "worker token changed during rotation";
  _ ← require_rotation_idle worker found;
  now ← utc_now;
  let pending := is_some (w_pending_token_hash worker) in
  let expired := match w_token_rotation_expires_at worker with
                 | Some t => t <=? now | None => false end in
  _ ← reject_if (pending && negb expired) 409 "a one-time Worker token rotation is already pending";
  let previous_rotation := w_token_rotation_id worker in
  let worker := if pending then clear_token_rotation worker else worker in
  raw_token ← issue_worker_token;
  let expires_at := now + seconds (worker_token_rotation_ttl_seconds settings) in
  let worker' :=
    worker <| w_token_rotation_id := Some rotation_id |>
           <| w_pending_token_hash := Some (hash_worker_token raw_token) |>
           <| w_token_rotation_started_at := Some now |>
           <| w_token_rotation_expires_at := Some expires_at |> in
  _ ← save_credentials worker';
  _ ← when pending (worker_audit worker "worker.token_rotation_expired"
        [("rotation_id", dump_option JString previous_rotation)]);
  _ ← worker_audit worker "worker.token_rotation_prepared"
        [("rotation_id", JString rotation_id); ("expires_at", JString (isoformat expires_at))];
  _ ← catch commit (on_db_error [IntegrityError; StaleDataError]
        (_ ← rollback; http 409 "Worker token rotation conflicted"));
  mret (mkWorkerTokenRotationPrepareResponse (w_id worker) rotation_id raw_token expires_at).

(** [abort_token_rotation] *)
Definition abort_token_rotation (rotation_id : string) (worker : Worker)
    : M WorkerTokenRotationStatus :=
  let authenticated_token_hash := w_token_hash worker in
  locked ← lock_worker_token_rotation_boundary (w_id worker) false;
  let '(worker, _) := locked in
  _ ← reject_if (negb ⌊ w_token_hash worker = authenticated_token_hash ⌋) 401
        "worker token changed during rotation";
  if is_none (w_pending_token_hash worker) then mret (token_rotation_status worker) else
  _ ← reject_if (negb ⌊ w_token_rotation_id worker = Some rotation_id ⌋) 409
        "a different Worker token rotation is pending";
  let worker := clear_token_rotation worker in
  _ ← save_credentials worker;
  _ ← worker_audit worker "worker.token_rotation_aborted" [("rotation_id", JString rotation_id)];
  _ ← catch commit (on_db_error [StaleDataError]
        (_ ← rollback; http 409 "Worker token rotation changed before abort commit"));
  mret (token_rotation_status worker).

(** [activate_token_rotation]: the time the new token was issued. *)
Definition activate_token_rotation (rotation_id : string) (worker : Worker)
    (pending_worker_token : option string) : M Z :=
  match pending_worker_token with
  | None => http 401 "pending Worker token required"
  | Some pending_worker_token =>
      _ ← reject_if (negb ((37 <=? py_len pending_worker_token) &&
                           (py_len pending_worker_token <=? 133))) 422 "validation error";
      let authenticated_token_hash := w_token_hash worker in
      locked ← lock_worker_token_rotation_boundary (w_id worker) false;
      let '(worker, found) := locked in
      _ ← reject_if (negb ⌊ w_token_hash worker = authenticated_token_hash ⌋) 401
            "worker token changed during rotation";
      _ ← require_rotation_idle worker found;
      now ← utc_now;
      let pending_hash := hash_worker_token pending_worker_token in
      _ ← reject_if (negb ⌊ w_token_rotation_id worker = Some rotation_id ⌋ ||
                     negb ⌊ w_pending_token_hash worker = Some pending_hash ⌋ ||
                     match w_token_rotation_expires_at worker with
                     | Some t => t <=? now | None => true end)
            409 "pending Worker token rotation is invalid";
      let worker := clear_token_rotation
                      (worker <| w_token_hash := pending_hash |> <| w_token_issued_at := now |>) in
      _ ← save_credentials worker;
      _ ← worker_audit worker "worker.token_rotated"
            [("rotation_id", JString rotation_id); ("old_token_revoked", JBool true)];
      _ ← catch commit (on_db_error [StaleDataError]
            (_ ← rollback; http 409 "Worker token rotation changed before activation commit"));
      mret now
  end.

(** [re_enroll_worker] *)
Definition re_enroll_worker (payload : WorkerReEnrollRequest) (bootstrap_token : option string)
    : M WorkerRegisterResponse :=
  _ ← reject_if (is_none (worker_bootstrap_token settings)) 503 "worker re-enrollment is disabled";
  _ ← reject_if (negb (verify_bootstrap_token bootstrap_token)) 401
        "invalid worker bootstrap token";
  locked ← lock_worker_token_rotation_boundary (ree_worker_id payload) true;
  let '(worker, found) := locked in
  let capabilities := reg_capabilities (ree_register payload) in
  _ ← reject_if (negb ⌊ w_name worker = reg_name (ree_register payload) ⌋) 409
        "Worker re-enrollment identity does not match";
  _ ← reject_if (w_is_active worker || is_some (w_current_job_id worker) ||
                 negb ⌊ length found = 0%nat ⌋) 409
        "only an inactive unassigned Worker can be re-enrolled";
  raw_token ← issue_worker_token;
  now ← utc_now;
  let worker := clear_token_rotation
    (worker <| w_token_hash := hash_worker_token raw_token |> <| w_token_issued_at := now |>
            <| w_status := WorkerStatus_value IDLE |>
            <| w_capabilities_json := dump_WorkerCapabilities capabilities |>
            <| w_worker_version := cap_worker_version capabilities |>
            <| w_rvc_commit_hash := cap_rvc_commit_hash capabilities |>
            <| w_last_heartbeat_at := None |> <| w_is_active := true |>) in
  _ ← save_credentials worker;
  _ ← add_audit_event "system" None "worker.re_enrolled" "worker" (Some (w_id worker))
        [("authentication", JString "bootstrap"); ("worker_name", JString (w_name worker))];
  _ ← catch commit (on_db_error [IntegrityError; StaleDataError]
        (_ ← rollback; http 409 "Worker re-enrollment conflicted"));
  mret (mkWorkerRegisterResponse (w_id worker) raw_token now).

(** ** Revocation *)

Record WorkerTokenRevokeRequest := mkWorkerTokenRevokeRequest {
  rv_expected_worker_name : string;
  rv_reason_code : string;
  rv_force_cancel_active : bool }.

(** The rows with an id of the list, locked. *)
Definition restrict {A} (ids : list string) (table : gmap string A) : gmap string A :=
  filter (λ kv, kv.1 ∈ ids) table.

(** [_lock_worker_revocation_boundary] *)
Definition lock_worker_revocation_boundary (worker_id : string)
    : M (Worker * list JobLease * gmap string Job * gmap string JobAttempt) :=
  found ← lock_query (active_leases worker_id) lease_locks;
  let job_ids := map l_job_id found in
  let attempt_ids := map l_attempt_id found in
  found_jobs ← lock_query (λ d, restrict job_ids (jobs d)) (λ _, map LockJob job_ids);
  found_attempts ← lock_query (λ d, restrict attempt_ids (attempts d))
                     (λ _, map LockAttempt attempt_ids);
  worker ← lock_row (LockWorker worker_id) (λ d, workers d !! worker_id);
  match worker with
  | None => http 404 "worker not found"
  | Some worker => mret (worker, found, found_jobs, found_attempts)
  end.

Definition inconsistent : string :=
  "Worker assignment ledger is inconsistent; revoke was not applied".

(** [job.status in {item.value for item in TERMINAL_JOB_STATUSES}] *)
Definition is_terminal_value (status : string) : bool :=
  ⌊ status ∈ map value TERMINAL_JOB_STATUSES ⌋.

(** The rows of an assignment agree. *)
Definition revocable (worker : Worker) (lease : JobLease) (job : Job) (attempt : JobAttempt) : bool :=
  ⌊ l_worker_id lease = w_id worker ⌋ && ⌊ j_worker_id job = Some (w_id worker) ⌋ &&
  ⌊ j_current_attempt_id job = Some (a_id attempt) ⌋ && ⌊ a_job_id attempt = j_id job ⌋ &&
  ⌊ a_worker_id attempt = w_id worker ⌋ && is_none (a_finished_at attempt) &&
  negb (is_terminal_value (j_status job)).

Definition revoked_code : string := "worker_token_emergency_revoked".
Definition revoked_message : string :=
  "The assigned Worker credential was revoked by an administrator.".

(** The loop body of the revocation: the outbox event of the cancelled Job. *)
Definition cancel_for_revocation (worker : Worker) (found_jobs : gmap string Job)
    (found_attempts : gmap string JobAttempt) (now : Z) (lease : JobLease) : M (option string) :=
  match found_jobs !! l_job_id lease, found_attempts !! l_attempt_id lease with
  | Some job, Some attempt =>
      if negb (revocable worker lease job attempt) then http 409 inconsistent else
      let job' := job <| j_status := value CANCELLED |> <| j_cancel_requested_at := Some now |>
                      <| j_error_code := Some revoked_code |>
                      <| j_error_message := Some revoked_message |> in
      _ ← save_job job';
      _ ← save_attempt (attempt <| a_status := value CANCELLED |>
             <| a_error_code := Some revoked_code |> <| a_error_message := Some revoked_message |>
             <| a_finished_at := Some now |>);
      _ ← save_lease (lease <| l_active := false |> <| l_released_at := Some now |>);
      _ ← add_status_event (mkJobStatusEvent (j_id job) (Some (a_id attempt))
             (Some (j_status job)) (value CANCELLED) now "manager");
      enqueue_terminal_status settings job' (a_id attempt) (value CANCELLED)
  | _, _ => http 409 inconsistent
  end.

(** The Worker after a revocation: its token is replaced, not just disabled. *)
Definition revoked_worker (worker : Worker) (raw_token : string) (now : Z) : Worker :=
  clear_token_rotation
    (worker <| w_token_hash := hash_worker_token raw_token |> <| w_token_issued_at := now |>
            <| w_is_active := false |> <| w_status := WorkerStatus_value DRAINING |>
            <| w_current_job_id := None |>).

Record WorkerRead := mkWorkerRead {
  rd_id : string;
  rd_name : string;
  rd_status : WorkerStatus;
  rd_capabilities : WorkerCapabilities;
  rd_worker_version : string;
  rd_rvc_commit_hash : string;
  rd_last_heartbeat_at : option Z;
  rd_current_job_id : option string;
  rd_is_active : bool;
  rd_online : bool;
  rd_token_issued_at : Z;
  rd_token_rotation_pending : bool;
  rd_token_rotation_expires_at : option Z }.

(** [_worker_to_read] *)
Definition worker_to_read (worker : Worker) : M WorkerRead :=
  now ← utc_now;
  let online_after := now - seconds (worker_offline_seconds settings) in
  let online := w_is_active worker &&
    match w_last_heartbeat_at worker with Some t => online_after <=? t | None => false end in
  match WorkerStatus_of (w_status worker),
        WorkerCapabilities_model_validate (w_capabilities_json worker) with
  | Some status, Some capabilities =>
      mret (mkWorkerRead (w_id worker) (w_name worker) status capabilities
        (w_worker_version worker) (w_rvc_commit_hash worker) (w_last_heartbeat_at worker)
        (w_current_job_id worker) (w_is_active worker) online (w_token_issued_at worker)
        (is_some (w_pending_token_hash worker)) (w_token_rotation_expires_at worker))
  | _, _ => raise (ValueError "WorkerRead")
  end.

(** [get_worker] *)
Definition get_worker (worker_id : string) : M WorkerRead :=
  found ← ask (λ d, workers d !! worker_id);
  match found with
  | None => http 404 "worker not found"
  | Some worker => worker_to_read worker
  end.

(** The guards of a revocation on the locked rows. *)
Definition check_revocation (payload : WorkerTokenRevokeRequest) (worker : Worker)
    (found : list JobLease) : M () :=
  let busy := truthy (w_current_job_id worker) in
  _ ← reject_if (negb ⌊ w_name worker = rv_expected_worker_name payload ⌋) 409
        "Worker revocation identity does not match";
  _ ← reject_if ((is_some (w_current_job_id worker) || negb ⌊ length found = 0%nat ⌋) &&
                 negb (rv_force_cancel_active payload)) 409
        "active Worker revocation requires explicit force_cancel_active";
  reject_if (negb (Bool.eqb busy (negb ⌊ length found = 0%nat ⌋)) || (1 <? length found)%nat ||
             match w_current_job_id worker with
             | Some j => negb ⌊ j ∈ map l_job_id found ⌋ | None => false end) 409 inconsistent.

(** The writes of a revocation: the outbox events and the revoked Worker. *)
Definition apply_revocation (admin_id : string) (payload : WorkerTokenRevokeRequest)
    (worker : Worker) (found : list JobLease) (found_jobs : gmap string Job)
    (found_attempts : gmap string JobAttempt) (now : Z) : M (list (option string) * Worker) :=
  event_keys ← collect found (cancel_for_revocation worker found_jobs found_attempts now);
  raw_token ← issue_worker_token;
  let worker' := revoked_worker worker raw_token now in
  _ ← save_credentials worker';
  _ ← add_audit_event "user" (Some admin_id) "worker.token_revoked" "worker" (Some (w_id worker))
        [("reason_code", JString (rv_reason_code payload));
         ("force_cancel_active", JBool (rv_force_cancel_active payload));
         ("cancelled_job_ids", JArray (map (λ l, JString (l_job_id l)) found));
         ("old_token_revoked", JBool true)];
  mret (event_keys, worker').

(** [revoke_worker_token]; [fuel] bounds the recursion of the retry.  The
    administrator's id is kept in [session.info] across the retry. *)
Fixpoint revoke_worker_token (fuel : nat) (worker_id : string)
    (payload : WorkerTokenRevokeRequest) (admin_id : string) : M WorkerRead :=
  match fuel with
  | O => raise RecursionError
  | S fuel' =>
      locked ← lock_worker_revocation_boundary worker_id;
      let '(worker, found, found_jobs, found_attempts) := locked in
      _ ← check_revocation payload worker found;
      now ← utc_now;
      applied ← apply_revocation admin_id payload worker found found_jobs found_attempts now;
      let '(event_keys, worker') := applied in
      committed ← catch (_ ← commit; mret true)
                    (on_db_error [StaleDataError] (_ ← rollback; mret false));
      if committed : bool then
        _ ← for_each event_keys (sync_after_commit settings);
        worker_to_read worker'
      else
        retry_count ← info_get "worker_token_revoke_retry";
        if retry_count <? 1 then
          _ ← info_set "worker_token_revoke_retry" (retry_count + 1);
          revoke_worker_token fuel' worker_id payload admin_id
        else http 409 "Worker revocation raced with another assignment update"
  end.
End tokens.
