(* ===== verification/WorkerRotation.v ===== *)
(** * Token rotation by a Worker

    Model of [token_rotation.py] and [credentials.py] of [apps/worker/src/rvc_worker], with
    the requests of [client.py] that they send, against the Manager's routes of
    [WorkerTokens.v].

    A Worker has a credential file and talks to the Manager over a network that fails: a
    request may be lost, be handled while its answer is lost, or arrive after the Worker has
    stopped waiting for it.  Saving the file may fail with or without effect.  The process
    may end anywhere: [wd_seen] collects the situations it has been in, each of which is one
    in which it may have stopped.

    The file is the record that [load] reads and [save] writes; its JSON text, its modes and
    the refusal of symbolic links are left out, as is [schema_version], which is always
    written as 2.0. *)

From S2P Require Import Prelude JobConfig WorkerContract Settings Ledger Session WorkerTokens.

(** ** [credentials.py] *)

Record WorkerCredential := mkWorkerCredential {
  wc_manager_url : string;
  wc_worker_id : string;
  wc_worker_name : string;
  wc_worker_token : string;
  wc_pending_rotation_id : option string;
  wc_pending_worker_token : option string;
  wc_pending_rotation_expires_at : option Z }.

#[export] Instance eta_WorkerCredential : Eta WorkerCredential := λ c,
  mkWorkerCredential (wc_manager_url c) (wc_worker_id c) (wc_worker_name c) (wc_worker_token c)
    (wc_pending_rotation_id c) (wc_pending_worker_token c) (wc_pending_rotation_expires_at c).

Definition stage_rotation (rotation_id worker_token : string) (expires_at : Z)
    (credential : WorkerCredential) : WorkerCredential :=
  credential <| wc_pending_rotation_id := Some rotation_id |>
             <| wc_pending_worker_token := Some worker_token |>
             <| wc_pending_rotation_expires_at := Some expires_at |>.

Definition clear_pending (credential : WorkerCredential) : WorkerCredential :=
  credential <| wc_pending_rotation_id := None |> <| wc_pending_worker_token := None |>
             <| wc_pending_rotation_expires_at := None |>.

(** [activate_pending]; [None] is a [CredentialError]. *)
Definition activate_pending (credential : WorkerCredential) : option WorkerCredential :=
  token ← wc_pending_worker_token credential;
  Some ((clear_pending credential) <| wc_worker_token := token |>).

(** [str(uuid.UUID(text)) == text] *)
Definition canonical_uuid (text : string) : bool :=
  match split_on (chr 45) text with
  | [a; b; c; d; e] =>
      lower_hex_of_length 8 a && lower_hex_of_length 4 b && lower_hex_of_length 4 c &&
      lower_hex_of_length 4 d && lower_hex_of_length 12 e
  | _ => false
  end.

(** [_validate_pending_rotation] does not raise. *)
Definition pending_rotation_valid (credential : WorkerCredential) : bool :=
  is_worker_token (wc_worker_token credential) &&
  match wc_pending_rotation_id credential, wc_pending_worker_token credential,
        wc_pending_rotation_expires_at credential with
  | None, None, None => true
  | Some rotation_id, Some token, Some _ => is_worker_token token && canonical_uuid rotation_id
  | _, _, _ => false
  end.

(** [CredentialStore.load] of a file that can be read; [None] is a [CredentialError]. *)
Definition load (manager_url worker_name : string) (stored : WorkerCredential)
    : option WorkerCredential :=
  if negb ⌊ wc_worker_id stored = "" ⌋ && negb ⌊ wc_worker_token stored = "" ⌋ &&
     pending_rotation_valid stored &&
     ⌊ wc_manager_url stored = manager_url ⌋ && ⌊ wc_worker_name stored = worker_name ⌋
  then Some stored else None.

(** The answer of [GET /workers/me], of the contracts package. *)
Record WorkerSessionResponse := mkWorkerSessionResponse {
  ws_worker_id : string;
  ws_name : string;
  ws_status : WorkerStatus;
  ws_current_job_id : option string;
  ws_last_heartbeat_at : option Z }.

(** ** The world of a Worker *)

Inductive client_error :=
  | ManagerClientError (status_code : option Z)
  | CredentialError (message : string).

(** The requests that change something, as they travel. *)
Inductive rotation_request :=
  | PrepareRotation (rotation_id : string)
  | ActivateRotation (rotation_id pending_worker_token : string)
  | AbortRotation (rotation_id : string).

(** What a crash leaves: the ledger, the file, the requests that are still travelling, each
    with its bearer token, and how many secrets the Manager's platform has drawn. *)
Record Situation := mkSituation {
  es_db : DB;
  es_file : WorkerCredential;
  es_flight : list (string * rotation_request);
  es_drawn : nat }.

#[export] Instance eta_Situation : Eta Situation := λ e,
  mkSituation (es_db e) (es_file e) (es_flight e) (es_drawn e).

(** A request is handled in a new session on the ledger. *)
Definition opening : Type := DB → nat → Session.

(** What happens while the Worker is busy: others change the ledger and draw secrets, and a
    request that the Worker has given up arrives. *)
Inductive happening :=
  | Others (draws : nat) (f : nat → DB → DB)
  | Arrival (position : nat) (opens : opening).

(** The fate of a request: it never arrives, it arrives later, it is handled and its answer
    is lost or unreadable, or it is answered. *)
Inductive fate := Lost | Late | Unanswered | Answered.

Record exchange := mkExchange {
  ex_before : list happening;
  ex_fate : fate;
  ex_opens : opening }.

(** [os.replace] has not taken place, or it has; an error may follow. *)
Inductive save_outcome := Saved | NotSaved | SavedThenFailed.

Record World := mkWorld {
  wd_situation : Situation;
  wd_token : string;
  wd_clock : list Z;
  wd_ids : nat;
  wd_exchanges : list exchange;
  wd_saves : list save_outcome;
  wd_seen : list Situation }.

#[export] Instance eta_World : Eta World := λ w,
  mkWorld (wd_situation w) (wd_token w) (wd_clock w) (wd_ids w) (wd_exchanges w) (wd_saves w)
    (wd_seen w).

Definition C (A : Type) : Type := World → (client_error + A) * World.

#[export] Instance C_ret : MRet C := λ A a w, (inr a, w).
#[export] Instance C_bind : MBind C := λ A B k m w,
  match m w with
  | (inr a, w') => k a w'
  | (inl e, w') => (inl e, w')
  end.

Definition fail {A} (e : client_error) : C A := λ w, (inl e, w).
(** [try: m except ManagerClientError: h] *)
Definition except_manager {A} (m : C A) (h : option Z → C A) : C A := λ w,
  match m w with
  | (inl (ManagerClientError code), w') => h code w'
  | r => r
  end.
(** [try: m except CredentialError: h] *)
Definition except_credential {A} (m : C A) (h : string → C A) : C A := λ w,
  match m w with
  | (inl (CredentialError message), w') => h message w'
  | r => r
  end.
Definition credential_error_if (b : bool) (message : string) : C () :=
  if b then fail (CredentialError message) else mret ().

(** The Worker is in a new situation. *)
Definition move (e : Situation) (w : World) : World :=
  w <| wd_situation := e |> <| wd_seen := e :: wd_seen w |>.

Section rotation.
  Context `{Platform}.
  Variable settings : Settings.

(** ** Requests *)

(** [WorkerDep] *)
Definition authenticated {A} (token : string) (route : Worker → M A) : M A :=
  worker ← require_worker settings (Some ("bearer", token)); route worker.

Definition perform (token : string) (r : rotation_request) : M () :=
  match r with
  | PrepareRotation id =>
      _ ← authenticated token (prepare_token_rotation settings id); mret ()
  | ActivateRotation id pending =>
      _ ← authenticated token (λ worker, activate_token_rotation settings id worker (Some pending));
      mret ()
  | AbortRotation id => _ ← authenticated token (abort_token_rotation id); mret ()
  end.

(** The Manager handles a request; a secret that is skipped has been drawn by others. *)
Definition serve {A} (opens : opening) (m : M A) (e : Situation) : result A * Situation :=
  let '(r, s) := m (opens (es_db e) (es_drawn e)) in
  (r, e <| es_db := s_committed s |> <| es_drawn := S (s_fresh s) |>).

Definition happen (e : Situation) (x : happening) : Situation :=
  match x with
  | Others draws f =>
      e <| es_db := f (es_drawn e) (es_db e) |> <| es_drawn := (es_drawn e + draws)%nat |>
  | Arrival i opens =>
      match es_flight e !! i with
      | Some (token, r) =>
          (serve opens (perform token r) e).2 <| es_flight := delete i (es_flight e) |>
      | None => e
      end
  end.

Definition elapse (xs : list happening) (w : World) : World :=
  foldl (λ w x, move (happen (wd_situation w) x) w) w xs.

(** [_request] and [_send_model]: an error status, a transport failure and an answer that is
    no valid response are a [ManagerClientError]. *)
Definition call {A} (r : option rotation_request) (route : Worker → M A) (valid : A → bool) : C A :=
  λ w,
  let x := hd (mkExchange [] Lost (λ d _, new_session d 0)) (wd_exchanges w) in
  let w := elapse (ex_before x) (w <| wd_exchanges := tl (wd_exchanges w) |>) in
  let e := wd_situation w in
  let served := serve (ex_opens x) (authenticated (wd_token w) route) e in
  match ex_fate x with
  | Lost => (inl (ManagerClientError None), w)
  | Late =>
      (inl (ManagerClientError None),
       move (e <| es_flight := es_flight e ++ match r with Some r => [(wd_token w, r)] | None => [] end |>) w)
  | Unanswered => (inl (ManagerClientError None), move served.2 w)
  | Answered =>
      (match served.1 with
       | Ok a => if valid a then inr a else inl (ManagerClientError None)
       | Raise (HTTPException code _) => inl (ManagerClientError (Some code))
       | Raise _ => inl (ManagerClientError (Some 500))
       end, move served.2 w)
  end.

(** [worker_session] of the Manager *)
Definition worker_session (worker : Worker) : M WorkerSessionResponse :=
  match WorkerStatus_of (w_status worker) with
  | Some status => mret (mkWorkerSessionResponse (w_id worker) (w_name worker) status
                           (w_current_job_id worker) (w_last_heartbeat_at worker))
  | None => raise (ValueError "status")
  end.

(** *** [HttpManagerClient] *)

Definition set_worker_token (token : string) : C () := λ w, (inr (), w <| wd_token := token |>).
Definition get_session : C WorkerSessionResponse := call None worker_session (λ _, true).
Definition get_token_rotation_status : C WorkerTokenRotationStatus :=
  call None (λ worker, mret (token_rotation_status worker)) WorkerTokenRotationStatus_valid.
Definition client_prepare (rotation_id : string) : C WorkerTokenRotationPrepareResponse :=
  call (Some (PrepareRotation rotation_id)) (prepare_token_rotation settings rotation_id)
    (λ r, WorkerContract.is_uuid (pr_rotation_id r) && is_worker_token (pr_worker_token r)).
Definition client_activate (rotation_id pending_worker_token : string) : C Z :=
  call (Some (ActivateRotation rotation_id pending_worker_token))
    (λ worker, activate_token_rotation settings rotation_id worker (Some pending_worker_token))
    (λ _, true).
Definition client_abort (rotation_id : string) : C WorkerTokenRotationStatus :=
  call (Some (AbortRotation rotation_id)) (abort_token_rotation rotation_id)
    WorkerTokenRotationStatus_valid.

(** ** The file, the clock and identifiers *)

(** [CredentialStore.save] *)
Definition save (credential : WorkerCredential) : C () := λ w,
  if negb (pending_rotation_valid credential)
  then (inl (CredentialError "Worker pending credential fields are invalid"), w) else
  let o := hd Saved (wd_saves w) in
  let w := w <| wd_saves := tl (wd_saves w) |> in
  let failed := inl (CredentialError "cannot persist Worker credential") in
  let saved := move ((wd_situation w) <| es_file := credential |>) w in
  match o with
  | Saved => (inr (), saved)
  | NotSaved => (failed, w)
  | SavedThenFailed => (failed, saved)
  end.

Definition client_now : C Z := λ w, (inr (hd 0 (wd_clock w)), w <| wd_clock := tl (wd_clock w) |>).
Definition client_uuid4 : C string := λ w, (inr (uuid4 (wd_ids w)), w <| wd_ids := S (wd_ids w) |>).

(** ** [token_rotation.py] *)

(** [_validate_session_owner], [_validate_status_owner] *)
Definition validate_session_owner (session : WorkerSessionResponse) (credential : WorkerCredential)
    : C () :=
  credential_error_if (negb ⌊ ws_worker_id session = wc_worker_id credential ⌋ ||
                       negb ⌊ ws_name session = wc_worker_name credential ⌋)
    "Worker token belongs to another Worker".
Definition validate_status_owner (status : WorkerTokenRotationStatus) (credential : WorkerCredential)
    : C () :=
  credential_error_if (negb ⌊ trs_worker_id status = wc_worker_id credential ⌋)
    "Worker token rotation status belongs to another Worker".

(** [_session_for_token] *)
Definition session_for_token (token : string) : C (option WorkerSessionResponse) :=
  _ ← set_worker_token token;
  except_manager (session ← get_session; mret (Some session))
    (λ code, if ⌊ code = Some 401 ⌋ then mret None else fail (ManagerClientError code)).

(** [_persist_activated] *)
Definition persist_activated (credential : WorkerCredential) : C WorkerCredential :=
  match activate_pending credential with
  | None => fail (CredentialError "Worker credential has no pending token rotation")
  | Some activated =>
      _ ← save activated;
      _ ← set_worker_token (wc_worker_token activated);
      mret activated
  end.

(** The pending rotation is over without having been activated. *)
Definition give_back (credential : WorkerCredential) (require_activation : bool) (message : string)
    : C WorkerCredential :=
  let cleared := clear_pending credential in
  _ ← save cleared;
  _ ← credential_error_if require_activation message;
  mret cleared.

(** The handler of a failed activation: what it returns, or [None] when the activation has
    been repeated with success. *)
Definition recover_activation (credential : WorkerCredential) (rotation_id pending_token : string)
    (require_activation : bool) : C (option WorkerCredential) :=
  pending_session ← session_for_token pending_token;
  match pending_session with
  | Some session =>
      _ ← validate_session_owner session credential;
      activated ← persist_activated credential; mret (Some activated)
  | None =>
      _ ← set_worker_token (wc_worker_token credential);
      status ← get_token_rotation_status;
      _ ← validate_status_owner status credential;
      if negb (trs_pending status) then
        cleared ← give_back credential require_activation
                    "Worker token rotation was not activated";
        mret (Some cleared)
      else
        _ ← credential_error_if (negb ⌊ trs_rotation_id status = Some rotation_id ⌋)
              "Manager has a different pending Worker token rotation";
        now ← client_now;
        if match trs_expires_at status with Some t => t <=? now | None => true end then
          _ ← client_abort rotation_id;
          cleared ← give_back credential require_activation
                      "Worker token rotation expired before activation";
          mret (Some cleared)
        else
          _ ← client_activate rotation_id pending_token; mret None
  end.

(** [_complete_pending_rotation] *)
Definition complete_pending_rotation (credential : WorkerCredential) (require_activation : bool)
    : C WorkerCredential :=
  match wc_pending_rotation_id credential, wc_pending_worker_token credential,
        wc_pending_rotation_expires_at credential with
  | Some rotation_id, Some pending_token, Some _ =>
      _ ← set_worker_token (wc_worker_token credential);
      done ← except_manager (_ ← client_activate rotation_id pending_token; mret None)
               (λ _, recover_activation credential rotation_id pending_token require_activation);
      match done with
      | Some credential => mret credential
      | None =>
          _ ← set_worker_token pending_token;
          session ← get_session;
          _ ← validate_session_owner session credential;
          persist_activated credential
      end
  | _, _, _ => fail (CredentialError "Worker pending credential fields are incomplete")
  end.

(** [reconcile_worker_token_rotation] *)
Definition reconcile_worker_token_rotation (credential : WorkerCredential) : C WorkerCredential :=
  _ ← set_worker_token (wc_worker_token credential);
  if is_some (wc_pending_rotation_id credential) then complete_pending_rotation credential false else
  status ← get_token_rotation_status;
  _ ← validate_status_owner status credential;
  _ ← (if trs_pending status then
         match trs_rotation_id status with
         | None => fail (CredentialError "Manager returned an incomplete Worker token rotation")
         | Some rotation_id => _ ← client_abort rotation_id; mret ()
         end
       else mret ());
  mret credential.

(** An abort whose failure does not matter. *)
Definition try_abort (rotation_id : string) : C () :=
  except_manager (_ ← client_abort rotation_id; mret ()) (λ _, mret ()).

(** The request for a new token; a failed one is reconciled. *)
Definition request_rotation (credential : WorkerCredential) (rotation_id : string)
    : C WorkerTokenRotationPrepareResponse :=
  prepared ← except_manager (client_prepare rotation_id)
    (λ code, _ ← reconcile_worker_token_rotation credential; fail (ManagerClientError code));
  if negb ⌊ pr_worker_id prepared = wc_worker_id credential ⌋ ||
     negb ⌊ pr_rotation_id prepared = rotation_id ⌋ then
    _ ← try_abort rotation_id;
    fail (CredentialError "Manager returned a mismatched Worker token rotation")
  else mret prepared.

(** [rotate_worker_token] *)
Definition rotate_worker_token (credential : WorkerCredential) : C WorkerCredential :=
  credential ← reconcile_worker_token_rotation credential;
  _ ← set_worker_token (wc_worker_token credential);
  session ← get_session;
  _ ← validate_session_owner session credential;
  _ ← credential_error_if (is_some (ws_current_job_id session) || negb ⌊ ws_status session = IDLE ⌋)
        "Worker token rotation requires an idle Worker";
  rotation_id ← client_uuid4;
  prepared ← request_rotation credential rotation_id;
  let staged := stage_rotation rotation_id (pr_worker_token prepared) (pr_expires_at prepared)
                  credential in
  _ ← except_credential (save staged)
        (λ message, _ ← try_abort rotation_id; fail (CredentialError message));
  complete_pending_rotation staged true.
End rotation.
