(* ===== verification/LeaseService.v ===== *)
(** * Claims, leases and their recovery

    Model of [apps/api/src/rvc_manager_api/services/workers.py]: recovery of
    abandoned leases, matching of Jobs to Workers, verification of the Dataset and
    TestSet snapshots offered with a claim, the claim itself, and the check that a
    lease is current. *)

From S2P Require Import Prelude Sha256 Json JobStatus JobConfig WorkerContract Settings Ledger.
From S2P Require Import Session JobConfigLedger TestSets.

Section service.
  Context `{ContractParser} `{Platform}.
  Variable settings : Settings.

Definition lease_expiry (now : Z) : Z := now + seconds (lease_seconds settings).

(** ** Recovery of abandoned leases *)

Definition recoverable_statuses : list string :=
  map value (List.filter (λ item, negb ⌊ item ∈ [QUEUED; RETRYING; COMPLETED; FAILED; CANCELLED] ⌋)
               JobStatus_members).

(** The joined row of the recovery query: the lease with its Job (joined on the
    current attempt), attempt and Worker. *)
Definition recovery_row (d : DB) (recovered_at : Z) (lease : JobLease)
    : option (Job * JobAttempt * Worker) :=
  job ← List.find (λ j, ⌊ j_current_attempt_id j = Some (l_attempt_id lease) ⌋ &&
                        ⌊ j_status j ∈ recoverable_statuses ⌋) (rows (jobs d));
  attempt ← attempts d !! l_attempt_id lease;
  worker ← workers d !! l_worker_id lease;
  if (l_expires_at lease <=? recovered_at) && is_none (a_finished_at attempt)
  then Some (job, attempt, worker) else None.

Definition recovery_locks (lease : JobLease) (row : Job * JobAttempt * Worker) : list lock :=
  [LockLease (l_id lease); LockJob (j_id row.1.1); LockAttempt (a_id row.1.2);
   LockWorker (w_id row.2)].

Definition expiry_leb (a b : JobLease) : bool :=
  lex_leb (l_expires_at a) (l_expires_at b) (str_leb (l_id a) (l_id b)).

(** The recovery query, [FOR UPDATE SKIP LOCKED]: the leases and the rows it locks. *)
Definition recovery_candidates (d : DB) (held : gset lock) (recovered_at : Z) (batch_limit : nat)
    : list JobLease * list lock :=
  let eligible lease :=
    match recovery_row d recovered_at lease with
    | Some row => negb (existsb (λ k, ⌊ k ∈ held ⌋) (recovery_locks lease row))
    | None => false
    end in
  let found := take batch_limit (order_by expiry_leb (where_ eligible (leases d))) in
  (found, concat (map (λ lease,
     match recovery_row d recovered_at lease with
     | Some row => recovery_locks lease row
     | None => []
     end) found)).

Definition close_lease (lease : JobLease) (now : Z) : JobLease :=
  lease <| l_active := false |> <| l_released_at := Some now |>.

(** The attempt as recovery closes it. *)
Definition recovered_attempt (attempt : JobAttempt) (cancelled config_ok : bool) (now : Z)
    : JobAttempt :=
  let closed := attempt <| a_status := value (if cancelled then CANCELLED else FAILED) |>
                        <| a_finished_at := Some now |> in
  if cancelled then closed
  else if config_ok then
    closed <| a_error_code := Some "worker_lease_expired" |>
           <| a_error_message := Some "Worker became offline and its Job lease expired" |>
  else
    closed <| a_error_code := Some "job_config_integrity_failed" |>
           <| a_error_message := Some "Job configuration integrity could not be verified" |>.

Definition auto_requeue (job : Job) (cancelled config_ok : bool) : bool :=
  negb cancelled && config_ok && (0 <? lease_recovery_max_attempts settings) &&
  (j_attempt_count job <? lease_recovery_max_attempts settings).

(** The Job as recovery leaves it. *)
Definition recovered_job (job : Job) (attempt' : JobAttempt) (cancelled config_ok : bool) : Job :=
  let closed :=
    job <| j_status := value (if cancelled then CANCELLED else FAILED) |>
        <| j_error_code := if cancelled then None else a_error_code attempt' |>
        <| j_error_message := if cancelled then None else a_error_message attempt' |> in
  if auto_requeue job cancelled config_ok then
    closed <| j_status := value QUEUED |> <| j_worker_id := None |>
           <| j_current_attempt_id := None |> <| j_cancel_requested_at := None |>
           <| j_error_code := None |> <| j_error_message := None |> <| j_started_at := None |>
           <| j_completed_at := None |> <| j_current_epoch := None |>
  else closed.

(** [worker.current_job_id = None; worker.status = "idle"], when it holds this Job. *)
Definition released_worker (worker : Worker) (job_id : string) : Worker :=
  if ⌊ w_current_job_id worker = Some job_id ⌋
  then worker <| w_current_job_id := None |> <| w_status := "idle" |> else worker.

Definition manager_event (job : Job) (attempt_id : option string) (previous status : string)
    (now : Z) : JobStatusEvent :=
  mkJobStatusEvent (j_id job) attempt_id (Some previous) status now "manager".

(** The writes that close one abandoned attempt. *)
Definition close_abandoned (lease : JobLease) (job : Job) (attempt : JobAttempt) (worker : Worker)
    (cancelled config_ok : bool) (recovered_at : Z) : M () :=
  let attempt' := recovered_attempt attempt cancelled config_ok recovered_at in
  let terminal := value (if cancelled then CANCELLED else FAILED) in
  let requeue := auto_requeue job cancelled config_ok in
  let job' := recovered_job job attempt' cancelled config_ok in
  _ ← save_lease (close_lease lease recovered_at);
  _ ← save_attempt attempt';
  _ ← add_status_event (manager_event job (Some (a_id attempt)) (j_status job) terminal recovered_at);
  _ ← when requeue (
    _ ← add_status_event
          (manager_event job (Some (a_id attempt)) (value FAILED) (value RETRYING) recovered_at);
    add_status_event
          (manager_event job (Some (a_id attempt)) (value RETRYING) (value QUEUED) recovered_at));
  _ ← save_job job';
  _ ← save_worker (released_worker worker (j_id job));
  add_audit_event "system" None "job.lease_recovered" "job" (Some (j_id job))
    [("attempt_id", JString (a_id attempt)); ("worker_id", JString (w_id worker));
     ("outcome", JString (j_status job')); ("automatic_requeue", JBool requeue);
     ("job_config_integrity_valid", JBool config_ok)].

(** The guards of the recovery loop on one lease, and its body. *)
Definition recover_lease (lease : JobLease) (recovered_at : Z) : M bool :=
  let offline_before := recovered_at - seconds (worker_offline_seconds settings) in
  worker ← ask (λ d, workers d !! l_worker_id lease);
  job ← ask (λ d, jobs d !! l_job_id lease);
  attempt ← ask (λ d, attempts d !! l_attempt_id lease);
  match worker, job, attempt with
  | Some worker, Some job, Some attempt =>
      if negb ⌊ j_current_attempt_id job = Some (a_id attempt) ⌋ || is_some (a_finished_at attempt)
      then mret false
      else if match w_last_heartbeat_at worker with
              | Some heartbeat => offline_before <? heartbeat
              | None => false
              end
      then mret false
      else
        match JobStatus_of (j_status job) with
        | None => raise (ValueError "JobStatus")
        | Some _ =>
            let cancelled := is_some (j_cancel_requested_at job) in
            let config_ok := match validated_job_config job (Some attempt) with
                             | inr _ => true | inl _ => false end in
            let terminal := if cancelled then CANCELLED else FAILED in
            _ ← check_transition (j_status job) (value terminal) true;
            _ ← close_abandoned lease job attempt worker cancelled config_ok recovered_at;
            mret true
        end
  | _, _, _ => mret false
  end.

Definition count_true (bs : list bool) : nat := length (List.filter id bs).

(** [recover_expired_leases] *)
Definition recover_expired_leases (batch_limit : nat) : M nat :=
  recovered_at ← utc_now;
  held ← held_by_others;
  found ← ask (λ d, recovery_candidates d held recovered_at batch_limit);
  _ ← lock_rows found.2;
  results ← collect found.1 (λ lease, recover_lease lease recovered_at);
  let recovered := count_true results in
  _ ← when (0 <? recovered)%nat commit;
  mret recovered.

(** The default of [batch_limit]. *)
Definition default_batch_limit : nat := 100.

(** ** Matching a Job to a Worker *)

(** [worker_can_run] *)
Definition worker_can_run (config : JobConfig) (capabilities : WorkerCapabilities) : bool :=
  let is_fake := ⌊ cap_engine_mode capabilities = FAKE ⌋ in
  let commit := rvc_commit_hash (rvc_backend config) in
  let sample := auto_inference_samples config in
  let min_vram := min_vram_gb (resource config) in
  if is_fake && negb (allow_fake_workers settings) then false
  else if negb is_fake && is_some commit &&
          negb ⌊ Some (cap_rvc_commit_hash capabilities) = commit ⌋ then false
  else if negb is_fake && negb (rvc_assets_ready capabilities) then false
  else if negb ⌊ version (model config) ∈ supported_rvc_versions capabilities ⌋ then false
  else if match training_f0_method (f0_extraction config) with
          | Some method => negb ⌊ method ∈ supported_training_f0_methods capabilities ⌋
          | None => false
          end then false
  else if enabled sample &&
          (is_fake || negb (fixed_test_set_inference_ready capabilities) ||
           negb ⌊ inference_f0_method (samples_preset sample) ∈
                  supported_inference_f0_methods capabilities ⌋ ||
           match cap_runtime_image_digest capabilities,
                 cap_runtime_asset_manifest_sha256 capabilities with
           | Some digest, Some manifest =>
               negb ⌊ (digest, manifest) ∈ approved_sample_runtime_bundles settings ⌋
           | _, _ => true
           end) then false
  else if negb (forallb (λ tag, ⌊ tag ∈ tags capabilities ⌋)
                  (preferred_worker_tags (resource config))) then false
  else if negb (SFeqb min_vram f_zero) && negb is_fake &&
          negb (existsb (λ gpu, float_leb_Z (SFmul 53 1024 min_vram (float_of 1024 0))
                                  (gpu_total_vram_mb gpu)) (gpus capabilities)) then false
  else if negb is_fake && (Zlength (gpus capabilities) <? Zlength (gpu_ids (training config)))
  then false
  else true.

(** ** Verification of the snapshots offered with a claim *)

Section storage.
  Variable storage : ClaimStoragePort.

(** [_object_matches_exact_bytes]; an exception of the stream is a mismatch. *)
Definition object_matches_exact_bytes (object_key expected_bytes : string) : bool :=
  let len := Z.of_nat (String.length expected_bytes) in
  match st_stream_object storage object_key (artifact_stream_chunk_bytes settings) (len + 1) with
  | None => false
  | Some chunks =>
      let total := foldr Z.add 0 (map (λ c, Z.of_nat (String.length c)) chunks) in
      (total =? len) && ⌊ sha256_hex (String.concat "" chunks) = sha256_hex expected_bytes ⌋
  end.

(** [_resolved_inference_config]; [None] is the [ValidationError]. *)
Definition resolved_inference_config (config : JobConfig) : option InferencePresetConfig :=
  let preset := samples_preset (auto_inference_samples config) in
  if InferencePresetConfig_valid preset then Some preset else None.

(** [_upload_matches_test_set_item] *)
Definition upload_matches_test_set_item (upload : TestSetItemUploadSession) (item : TestSetItem)
    : bool :=
  let expected_key := test_set_item_object_key (i_test_set_id item) (iu_id upload) in
  match st_storage_uri storage expected_key with
  | None => false
  | Some expected_uri =>
      ⌊ iu_status upload = "completed" ⌋ && ⌊ iu_test_set_id upload = i_test_set_id item ⌋ &&
      ⌊ iu_item_key upload = i_item_key item ⌋ && ⌊ iu_display_name upload = i_display_name item ⌋ &&
      (iu_sort_order upload =? i_sort_order item) &&
      ⌊ iu_filename upload = i_original_filename item ⌋ &&
      ⌊ iu_content_type upload = i_mime_type item ⌋ && ⌊ i_mime_type item = "audio/wav" ⌋ &&
      (iu_expected_size_bytes upload =? i_size_bytes item) &&
      ⌊ iu_expected_sha256 upload = i_sha256 item ⌋ &&
      ⌊ iu_license_reference upload = i_license_reference item ⌋ &&
      ⌊ iu_provenance_reference upload = i_provenance_reference item ⌋ &&
      ⌊ iu_canonical_object_key upload = expected_key ⌋ &&
      ⌊ iu_storage_backend upload = st_backend storage ⌋ &&
      ⌊ iu_storage_namespace_sha256 upload = st_namespace_fingerprint storage ⌋ &&
      ⌊ i_storage_uri item = expected_uri ⌋
  end.

Definition transfer_item (job_id : string) (item : TestSetItem) : TestSetTransferItem :=
  mkTestSetTransferItem (i_id item) (i_item_key item) (i_sort_order item)
    (test_set_item_download_path job_id (i_id item)) (i_id item +:+ ".wav") (i_size_bytes item)
    (i_sha256 item) (i_sample_rate_hz item) (i_channels item) (i_duration_seconds item).

Definition upload_leb (a b : TestSetItemUploadSession) : bool :=
  nullable_desc_leb (iu_finalized_at a) (iu_finalized_at b) (str_leb (iu_id a) (iu_id b)).

Definition completed_item_uploads (d : DB) (test_set_id : string) : list TestSetItemUploadSession :=
  order_by upload_leb
    (where_ (λ u, ⌊ iu_test_set_id u = test_set_id ⌋ && ⌊ iu_status u = "completed" ⌋)
       (test_set_uploads d)).

(** The checks on the number, size and duration of the items; [None] is the
    exception of [math.fsum]. *)
Definition snapshot_bounds_ok (test_set : TestSet) (items : list TestSetItem) : option bool :=
  if negb (Zlength items =? t_item_count test_set) ||
     (test_set_max_items settings <? Zlength items) ||
     (test_set_max_total_bytes settings <? foldr Z.add 0 (map i_size_bytes items))
  then Some false
  else total ← fsum (map i_duration_seconds items);
       Some (negb (SFltb (test_set_max_total_duration_seconds settings) total)).

(** The loop over the items: every item has exactly one completed upload that
    matches it. *)
Definition transfer_items (job_id : string) (uploads : list TestSetItemUploadSession)
    (items : list TestSetItem) : M (option (list TestSetTransferItem)) :=
  (fix go (items : list TestSetItem) : M (option (list TestSetTransferItem)) :=
     match items with
     | [] => mret (Some [])
     | item :: rest =>
         match List.find (λ u, ⌊ iu_item_key u = i_item_key item ⌋) uploads with
         | None => mret None
         | Some upload =>
             if negb (upload_matches_test_set_item upload item) then mret None
             else if negb (TestSetTransferItem_valid (transfer_item job_id item))
             then raise (ValueError "TestSetTransferItem")
             else more ← go rest; mret (cons (transfer_item job_id item) <$> more)
         end
     end) items.

(** [verified_test_set_transfer] *)
Definition verified_test_set_transfer (job : Job) (config : JobConfig)
    : M (option TestSetTransfer) :=
  let sample := auto_inference_samples config in
  if negb (enabled sample) || is_none (test_set_id sample) ||
     negb ⌊ j_test_set_id job = test_set_id sample ⌋ || is_none (j_sample_plan_json job) ||
     is_none (j_sample_plan_sha256 job) then mret None else
  found ← ask (λ d, set_id ← j_test_set_id job; test_sets d !! set_id);
  some_or_none found (λ test_set,
  if negb ⌊ t_status test_set = "ready" ⌋ || is_none (t_manifest_sha256 test_set) ||
     is_none (t_manifest_storage_uri test_set) || (t_item_count test_set <? 1) then mret None else
  items ← ask (λ d, order_by item_leb
                      (where_ (λ i, ⌊ i_test_set_id i = t_id test_set ⌋) (test_set_items d)));
  some_or_raise (snapshot_bounds_ok test_set items) (ValueError "fsum") (λ within_bounds,
  if negb within_bounds then mret None else
  some_or_raise (resolved_inference_config config) (ValueError "inference config") (λ inference,
  let manifest_document := build_test_set_manifest_document test_set items in
  some_or_raise (canonical_json manifest_document) (ValueError "manifest") (λ manifest_bytes,
  if negb ⌊ Some (sha256_hex manifest_bytes) = t_manifest_sha256 test_set ⌋ then mret None else
  let manifest_key := test_set_manifest_object_key (t_id test_set) in
  match st_storage_uri storage manifest_key with
  | None => mret None
  | Some uri =>
  if negb ⌊ t_manifest_storage_uri test_set = Some uri ⌋ then mret None else
  if negb (object_matches_exact_bytes manifest_key manifest_bytes) then mret None else
  some_or_raise (build_sample_plan_document test_set items inference) (ValueError "plan") (λ plan,
  some_or_raise (canonical_sha256 plan) (ValueError "plan") (λ plan_sha256,
  if negb (match j_sample_plan_json job with Some p => py_eqb plan p | None => false end) ||
     negb ⌊ Some plan_sha256 = j_sample_plan_sha256 job ⌋ then mret None else
  uploads ← ask (λ d, completed_item_uploads d (t_id test_set));
  if negb (length uploads =? length items)%nat then mret None else
  if negb (distinct (map iu_item_key uploads)) then mret None else
  descriptors ← transfer_items (j_id job) uploads items;
  some_or_none descriptors (λ descriptors,
  some_or_raise (canonical_sha256 (dump_InferencePresetConfig inference)) (ValueError "inference")
    (λ inference_sha256,
  let transfer :=
    mkTestSetTransfer (t_id test_set) (t_family_id test_set) (t_revision test_set)
      (sha256_hex manifest_bytes) plan_sha256 inference inference_sha256 descriptors in
  if TestSetTransfer_valid transfer then mret (Some transfer)
  else raise (ValueError "TestSetTransfer")))))
  end)))).

Definition dataset_upload_leb (a b : DatasetUploadSession) : bool :=
  nullable_desc_leb (du_finalized_at a) (du_finalized_at b)
    (lex_leb (du_generation b) (du_generation a) (str_leb (du_id a) (du_id b))).

(** The completed upload finalised last. *)
Definition latest_dataset_upload (d : DB) (dataset_id : string) : option DatasetUploadSession :=
  head (order_by dataset_upload_leb
    (where_ (λ u, ⌊ du_dataset_id u = dataset_id ⌋ && ⌊ du_status u = "completed" ⌋)
       (dataset_uploads d))).

(** [_verified_dataset_transfer] *)
Definition verified_dataset_transfer (dataset : Dataset) (job_id : string)
    : M (option DatasetTransfer) :=
  if negb ⌊ d_status dataset = "ready" ⌋ || negb (d_is_usable dataset) then mret None else
  some_or_none (d_prepared_flat_size_bytes dataset) (λ size,
  if size <=? 0 then mret None else
  some_or_none (d_prepared_flat_sha256 dataset) (λ sha256,
  found ← ask (λ d, latest_dataset_upload d (d_id dataset));
  some_or_none found (λ upload,
  if negb ⌊ du_storage_backend upload = resolved_storage_backend settings ⌋ ||
     negb ⌊ du_storage_backend upload = st_backend storage ⌋ ||
     negb ⌊ du_storage_namespace_sha256 upload = st_namespace_fingerprint storage ⌋
  then mret None else
  match st_storage_uri storage (du_prepared_flat_object_key upload) with
  | None => mret None
  | Some uri =>
      if negb ⌊ d_flat_storage_uri dataset = Some uri ⌋ then mret None else
      let transfer :=
        mkDatasetTransfer (d_id dataset) (dataset_download_path job_id) size sha256 in
      if DatasetTransfer_valid transfer then mret (Some transfer)
      else raise (ValueError "DatasetTransfer")
  end))).

(** ** Claiming a Job *)

Definition candidate_leb (a b : Job) : bool :=
  lex_leb (j_priority b) (j_priority a)
    (lex_leb (j_created_at a) (j_created_at b) (str_leb (j_id a) (j_id b))).

(** The queued Jobs a claim looks at: highest priority first, then oldest. *)
Definition claim_candidates (d : DB) : list Job :=
  take 50 (order_by candidate_leb
    (where_ (λ j, ⌊ j_status j = value QUEUED ⌋ && is_some (j_config_sha256 j)) (jobs d))).

(** [_quarantine_invalid_queued_job_config] *)
Definition quarantine_invalid_queued_job_config (job : Job) (occurred_at : Z) : M bool :=
  _ ← check_transition (value QUEUED) (value FAILED) true;
  quarantined ← update_job_where (j_id job)
    (λ row, ⌊ j_status row = value QUEUED ⌋ && (j_row_version row =? j_row_version job) &&
            is_some (j_config_sha256 row))
    (λ row, row <| j_status := value FAILED |>
                <| j_error_code := Some "job_config_integrity_failed" |>
                <| j_error_message := Some "Job configuration integrity could not be verified" |>
                <| j_row_version := j_row_version job + 1 |>);
  if negb quarantined then mret false else
  _ ← add_status_event (manager_event job None (value QUEUED) (value FAILED) occurred_at);
  _ ← add_audit_event "system" None "job.config_integrity_quarantined" "job" (Some (j_id job))
        [("previous_status", JString (value QUEUED))];
  mret true.

(** The Job row as the compare-and-swap of a claim writes it. *)
Definition claimed_job (job : Job) (worker_id attempt_id : string) (now : Z) (row : Job) : Job :=
  row <| j_status := value ASSIGNED |> <| j_worker_id := Some worker_id |>
      <| j_attempt_count := j_attempt_count job + 1 |>
      <| j_current_attempt_id := Some attempt_id |> <| j_current_epoch := None |>
      <| j_started_at := Some now |> <| j_row_version := j_row_version job + 1 |>.

Definition claim_attempt (job : Job) (worker_id attempt_id config_sha256 : string)
    (capabilities : WorkerCapabilities) (now : Z) : JobAttempt :=
  mkJobAttempt attempt_id (j_id job) worker_id (j_attempt_count job + 1)
    (WorkerEngineMode_value (cap_engine_mode capabilities))
    (Some (cap_rvc_commit_hash capabilities)) (Some "worker-claim-v1") (Some config_sha256)
    (cap_runtime_image_digest capabilities) (cap_runtime_asset_manifest_sha256 capabilities)
    None None (value ASSIGNED) None None now None.

Definition busy_worker (worker : Worker) (job_id : string) (capabilities : WorkerCapabilities)
    (now : Z) : Worker :=
  worker <| w_status := "busy" |> <| w_current_job_id := Some job_id |>
         <| w_capabilities_json := dump_WorkerCapabilities capabilities |>
         <| w_last_heartbeat_at := Some now |>.

(** The Dataset of a candidate, locked unless another transaction holds it, and its
    transfer; [None] skips the candidate. *)
Definition candidate_dataset (job : Job) : M (option (option DatasetTransfer)) :=
  held ← held_by_others;
  if ⌊ LockDataset (j_dataset_id job) ∈ held ⌋ then mret None else
  found ← ask (λ d, datasets d !! j_dataset_id job);
  some_or_none found (λ dataset,
  _ ← lock_rows [LockDataset (j_dataset_id job)];
  if negb (dataset_ready_for_training dataset) then mret None else
  let test_legacy_compatibility :=
    ⌊ environment settings = test ⌋ && ⌊ d_status dataset = "legacy_imported" ⌋ in
  transfer ← verified_dataset_transfer dataset (j_id job);
  if is_none transfer && negb test_legacy_compatibility then mret None
  else mret (Some transfer)).

(** The TestSet transfer of a candidate; [None] skips the candidate. *)
Definition candidate_test_set (job : Job) (config : JobConfig)
    : M (option (option TestSetTransfer)) :=
  if negb (enabled (auto_inference_samples config)) then mret (Some None) else
  transfer ← verified_test_set_transfer job config;
  match transfer with None => mret None | Some t => mret (Some (Some t)) end.

(** The rows a successful claim adds. *)
Definition record_claim (job : Job) (worker : Worker) (capabilities : WorkerCapabilities)
    (attempt_id lease_id config_sha256 : string) (now : Z) : M () :=
  let attempt := claim_attempt job (w_id worker) attempt_id config_sha256 capabilities now in
  _ ← doom_if (λ d, existsb (λ a, ⌊ a_job_id a = j_id job ⌋ &&
                                  (a_attempt_number a =? j_attempt_count job + 1))
                      (rows (attempts d)));
  _ ← add_attempt attempt;
  _ ← add_lease (mkJobLease lease_id (j_id job) attempt_id (w_id worker) (lease_expiry now) now
                   None true);
  _ ← add_status_event (manager_event job (Some attempt_id) (value QUEUED) (value ASSIGNED) now);
  save_worker (busy_worker worker (j_id job) capabilities now).

(** The compare-and-swap on one candidate, and the commit; [None] when another
    transaction won the Job. *)
Definition claim_candidate (worker : Worker) (capabilities : WorkerCapabilities) (now : Z)
    (job : Job) (config : JobConfig) (config_sha256 : string)
    (dataset_transfer : option DatasetTransfer) (test_set_transfer : option TestSetTransfer)
    : M (option JobClaim) :=
  attempt_id ← new_id;
  lease_id ← new_id;
  claimed ← update_job_where (j_id job)
    (λ row, ⌊ j_status row = value QUEUED ⌋ && (j_row_version row =? j_row_version job))
    (claimed_job job (w_id worker) attempt_id now);
  if negb claimed then mret None else
  _ ← record_claim job worker capabilities attempt_id lease_id config_sha256 now;
  let response :=
    mkJobClaim (j_id job) attempt_id (j_attempt_count job + 1) lease_id (lease_expiry now) config
      config_sha256 dataset_transfer test_set_transfer in
  if negb (JobClaim_valid response) then
    _ ← rollback; http 503 "job claim transfer validation failed"
  else
    _ ← catch commit (on_db_error [StaleDataError]
          (_ ← rollback; http 409 "worker or job changed during claim commit"));
    mret (Some response).

(** The loop over the candidates; the flag is [quarantined_invalid_config].  Other
    transactions commit while the snapshots of a candidate are verified. *)
Fixpoint claim_loop (worker : Worker) (capabilities : WorkerCapabilities) (now : Z)
    (quarantined : bool) (candidates : list Job) : M (option JobClaim) :=
  match candidates with
  | [] => _ ← (if quarantined then commit else rollback); mret None
  | job :: rest =>
      match validated_job_config job None, j_config_sha256 job with
      | inr config, Some config_sha256 =>
          if negb (worker_can_run config capabilities)
          then claim_loop worker capabilities now quarantined rest else
          dataset ← candidate_dataset job;
          match dataset with
          | None => claim_loop worker capabilities now quarantined rest
          | Some dataset_transfer =>
              test_set ← candidate_test_set job config;
              match test_set with
              | None => claim_loop worker capabilities now quarantined rest
              | Some test_set_transfer =>
                  _ ← interleave;
                  claimed ← claim_candidate worker capabilities now job config config_sha256
                              dataset_transfer test_set_transfer;
                  match claimed with
                  | Some response => mret (Some response)
                  | None => claim_loop worker capabilities now quarantined rest
                  end
              end
          end
      | _, _ =>
          removed ← quarantine_invalid_queued_job_config job now;
          claim_loop worker capabilities now (removed || quarantined) rest
      end
  end.

(** [claim_job] *)
Definition claim_job (worker_id : string) (capabilities : WorkerCapabilities)
    : M (option JobClaim) :=
  _ ← recover_expired_leases default_batch_limit;
  locked_worker ← lock_row (LockWorker worker_id) (λ d, workers d !! worker_id);
  match locked_worker with
  | None => http 401 "invalid worker token"
  | Some worker =>
      _ ← reject_if (negb (w_is_active worker)) 401 "invalid worker token";
      _ ← reject_if (is_some (w_pending_token_hash worker)) 409 "worker token rotation is pending";
      if ⌊ w_status worker = "draining" ⌋ then mret None else
      _ ← reject_if (is_some (w_current_job_id worker)) 409 "worker already has an active job";
      candidates ← ask claim_candidates;
      now ← utc_now;
      claim_loop worker capabilities now false candidates
  end.
End storage.

(** ** The lease guard of the Worker routes *)

(** [require_active_lease]; with [for_update] the three rows are locked in the
    global order lease, Job, attempt. *)
Definition read_row {A} (for_update : bool) (k : lock) (read : DB → A) : M A :=
  if for_update then lock_row k read else ask read.

Definition active_lease_row (worker_id job_id lease_id : string) (d : DB) : option JobLease :=
  lease ← leases d !! lease_id;
  if ⌊ l_job_id lease = job_id ⌋ && ⌊ l_worker_id lease = worker_id ⌋ && l_active lease
  then Some lease else None.

Definition require_active_lease (worker_id job_id lease_id : string) (for_update : bool)
    : M JobLease :=
  found ← read_row for_update (LockLease lease_id) (active_lease_row worker_id job_id lease_id);
  match found with
  | None => http 409 "invalid job lease"
  | Some lease =>
      now ← utc_now;
      if l_expires_at lease <=? now then _ ← rollback; http 409 "job lease expired"
      else
        job ← read_row for_update (LockJob job_id) (λ d, jobs d !! job_id);
        attempt ← read_row for_update (LockAttempt (l_attempt_id lease))
                    (λ d, attempts d !! l_attempt_id lease);
        match job, attempt with
        | Some job, Some attempt =>
            _ ← reject_if (negb ⌊ j_current_attempt_id job = Some (a_id attempt) ⌋ ||
                           negb ⌊ j_worker_id job = Some worker_id ⌋ ||
                           negb ⌊ a_worker_id attempt = worker_id ⌋)
                  409 "job attempt is no longer current";
            match validated_job_config job (Some attempt) with
            | inl _ => http 409 "job configuration integrity check failed"
            | inr _ => mret lease
            end
        | _, _ => http 409 "job attempt is no longer current"
        end
  end.
End service.
