(* ===== verification/WorkerRoutes.v ===== *)
(** * Heartbeats, claims, renewals and downloads

    Model of the assignment routes of
    [apps/api/src/rvc_manager_api/routers/workers.py]: the heartbeat, the two claim
    routes, the renewal of a lease and the downloads of the Dataset and TestSet of
    the Job a Worker holds. *)

From S2P Require Import Prelude Sha256 Json JobStatus JobConfig WorkerContract Settings Ledger.
From S2P Require Import Session JobConfigLedger TestSets WorkerTokens LeaseService.

(** ** File names in headers ([services/artifacts.py]) *)

(** [str.strip(".")] *)
Fixpoint lstrip_dots (s : string) : string :=
  match s with
  | String c rest => if ⌊ c = chr 46 ⌋ then lstrip_dots rest else s
  | EmptyString => ""
  end.
Definition strip_dots (s : string) : string := str_rev (lstrip_dots (str_rev (lstrip_dots s))).

(** One character of the file name: a character outside ASCII is one underscore. *)
Definition ascii_name_char (c : ascii) : list ascii :=
  if is_continuation c then []
  else if is_name_char c then [c] else [chr 95].

(** [urllib.parse.quote(s, safe="")] on the UTF-8 bytes *)
Definition upper_hex_digit (n : Z) : ascii := if n <? 10 then chr (48 + n) else chr (55 + n).
Definition quote_char (c : ascii) : list ascii :=
  if is_name_char c || ⌊ c = chr 126 ⌋ then [c]
  else [chr 37; upper_hex_digit (code c / 16); upper_hex_digit (code c mod 16)].
Definition url_quote (s : string) : string :=
  String.string_of_list_ascii (concat (map quote_char (str_chars s))).

(** [attachment_content_disposition] *)
Definition attachment_content_disposition (filename : string) : string :=
  let ascii_name :=
    strip_dots (String.string_of_list_ascii (concat (map ascii_name_char (str_chars filename)))) in
  let ascii_name := if ⌊ ascii_name = "" ⌋ then "artifact.bin" else ascii_name in
  "attachment; filename=" +:+ quote +:+ str_take 150 ascii_name +:+ quote +:+
  "; filename*=UTF-8''" +:+ url_quote filename.

(** ** Responses *)

Record WorkerHeartbeatResponse := mkWorkerHeartbeatResponse {
  hr_server_time : Z;
  hr_lease_expires_at : option Z;
  hr_cancel_job_ids : list string }.

Record LeaseRenewResponse := mkLeaseRenewResponse {
  lr_lease_id : string;
  lr_lease_expires_at : Z }.

(** A redirect to object storage, or the bytes of an object up to a bound. *)
Inductive Download :=
  | RedirectResponse (url disposition : string)
  | StreamingResponse (object_key : string) (chunk_size max_bytes : Z)
      (media_type disposition : string) (content_length : Z).

Section routes.
  Context `{ContractParser} `{CapabilitiesParser} `{Platform}.
  Variable settings : Settings.
  Variable storage : ClaimStoragePort.
  (** [storage.create_download_url key content_disposition ttl]; [None] is a
      [StorageError], [Some None] a backend without URLs. *)
  Variable create_download_url : string → string → Z → option (option string).

(** ** Heartbeat *)

(** [current_job_id or ""] *)
Definition or_empty (o : option string) : string := default "" o.

(** The claim named by a heartbeat is the current one. *)
Definition heartbeat_current (worker_id job_id : string) (now : Z) (lease : JobLease) (job : Job)
    (attempt : JobAttempt) (locked_worker : Worker) : bool :=
  l_active lease && is_none (l_released_at lease) && (now <? l_expires_at lease) &&
  ⌊ l_worker_id lease = worker_id ⌋ && ⌊ l_job_id lease = job_id ⌋ &&
  ⌊ j_worker_id job = Some worker_id ⌋ &&
  ⌊ j_current_attempt_id job = Some (l_attempt_id lease) ⌋ &&
  ⌊ a_id attempt = l_attempt_id lease ⌋ && ⌊ a_job_id attempt = j_id job ⌋ &&
  ⌊ a_worker_id attempt = worker_id ⌋ && is_none (a_finished_at attempt) &&
  ⌊ w_current_job_id locked_worker = Some job_id ⌋.

(** A renewal never shortens a lease. *)
Definition renewed_lease (lease : JobLease) (now : Z) : JobLease :=
  lease <| l_expires_at := Z.max (l_expires_at lease) (lease_expiry settings now) |>
        <| l_last_renewed_at := Z.max (l_last_renewed_at lease) now |>.

Definition stale_heartbeat : string := "heartbeat lease is no longer current".

(** The branch of a busy Worker: the locked Worker and the expiry of the lease. *)
Definition heartbeat_busy (worker_id job_id : string) (lease_id : option string) (now : Z)
    : M (Worker * option Z) :=
  lease ← lock_row (LockLease (or_empty lease_id)) (λ d, leases d !! or_empty lease_id);
  job ← lock_row (LockJob job_id) (λ d, jobs d !! job_id);
  let attempt_id := match lease with Some l => l_attempt_id l | None => "" end in
  attempt ← lock_row (LockAttempt attempt_id) (λ d, attempts d !! attempt_id);
  locked_worker ← lock_row (LockWorker worker_id) (λ d, workers d !! worker_id);
  _ ← match job, attempt with
      | Some job, Some attempt =>
          match validated_job_config job (Some attempt) with
          | inl _ => http 409 "job configuration integrity check failed"
          | inr _ => mret ()
          end
      | _, _ => mret ()
      end;
  match lease, job, attempt, locked_worker with
  | Some lease, Some job, Some attempt, Some locked_worker =>
      if negb (heartbeat_current worker_id job_id now lease job attempt locked_worker)
      then http 409 stale_heartbeat else
      let lease' := renewed_lease lease now in
      _ ← save_lease lease';
      mret (locked_worker, Some (l_expires_at lease'))
  | _, _, _, _ => http 409 stale_heartbeat
  end.

(** The branch of an idle Worker. *)
Definition heartbeat_idle (worker_id : string) : M (Worker * option Z) :=
  locked_worker ← lock_row (LockWorker worker_id) (λ d, workers d !! worker_id);
  match locked_worker with
  | None => http 401 "invalid worker token"
  | Some worker =>
      _ ← reject_if (truthy (w_current_job_id worker)) 409
            "heartbeat omitted active job assignment";
      mret (worker, None)
  end.

Definition reported_worker (worker : Worker) (payload : WorkerHeartbeatRequest) (now : Z) : Worker :=
  worker <| w_status := WorkerStatus_value (hb_status payload) |>
         <| w_capabilities_json := dump_WorkerCapabilities (hb_capabilities payload) |>
         <| w_worker_version := cap_worker_version (hb_capabilities payload) |>
         <| w_rvc_commit_hash := cap_rvc_commit_hash (hb_capabilities payload) |>
         <| w_last_heartbeat_at := Some now |>.

(** The Jobs of a Worker whose cancellation was requested. *)
Definition cancelled_jobs_of (worker_id : string) (d : DB) : list string :=
  map j_id (where_ (λ j, ⌊ j_worker_id j = Some worker_id ⌋ && is_some (j_cancel_requested_at j) &&
                         negb (is_terminal_value (j_status j))) (jobs d)).

(** [heartbeat] *)
Definition heartbeat (payload : WorkerHeartbeatRequest) (worker : Worker)
    : M WorkerHeartbeatResponse :=
  _ ← recover_expired_leases settings default_batch_limit;
  now ← utc_now;
  current ← (if truthy (hb_current_job_id payload)
             then heartbeat_busy (w_id worker) (or_empty (hb_current_job_id payload))
                    (hb_current_lease_id payload) now
             else heartbeat_idle (w_id worker));
  let '(locked_worker, renewed_until) := current in
  _ ← save_worker (reported_worker locked_worker payload now);
  cancel_job_ids ← ask (cancelled_jobs_of (w_id locked_worker));
  _ ← catch commit (on_db_error [StaleDataError]
        (_ ← rollback; http 409 "Worker changed before heartbeat commit"));
  mret (mkWorkerHeartbeatResponse now renewed_until cancel_job_ids).

(** ** Claims *)

Definition stored_capabilities (worker : Worker) : M WorkerCapabilities :=
  match WorkerCapabilities_model_validate (w_capabilities_json worker) with
  | Some c => mret c
  | None => raise (ValueError "WorkerCapabilities")
  end.

(** [claim]; [None] is the empty response 204. *)
Definition claim (payload_capabilities : option WorkerCapabilities) (worker : Worker)
    : M (option JobClaim) :=
  capabilities ← match payload_capabilities with
                 | Some c => mret c
                 | None => stored_capabilities worker
                 end;
  claim_job settings storage (w_id worker) capabilities.

(** [next_job] *)
Definition next_job (worker : Worker) : M (option JobClaim) :=
  capabilities ← stored_capabilities worker;
  claim_job settings storage (w_id worker) capabilities.

(** ** Renewal *)

(** [renew_lease] *)
Definition renew_lease (job_id lease_id : string) (worker : Worker) : M LeaseRenewResponse :=
  lease ← require_active_lease (w_id worker) job_id lease_id true;
  now ← utc_now;
  let lease' := renewed_lease lease now in
  _ ← save_lease lease';
  _ ← commit;
  mret (mkLeaseRenewResponse (l_id lease') (l_expires_at lease')).

(** ** Downloads *)

(** [storage_namespace_matches] *)
Definition storage_namespace_matches (backend namespace_sha256 : string) : bool :=
  ⌊ backend = st_backend storage ⌋ && ⌊ namespace_sha256 = st_namespace_fingerprint storage ⌋.

(** The response once the request is authorised and audited. *)
Definition download_response (object_key media_type disposition unavailable : string)
    (size_bytes : Z) : M Download :=
  match create_download_url object_key disposition (dataset_download_ttl_seconds settings) with
  | None => http 503 unavailable
  | Some (Some download_url) => mret (RedirectResponse download_url disposition)
  | Some None =>
      mret (StreamingResponse object_key (artifact_stream_chunk_bytes settings) size_bytes
              media_type disposition size_bytes)
  end.

Definition worker_audit_of (worker_id action resource_type resource_id job_id attempt_id : string)
    : M () :=
  add_audit_event "worker" (Some worker_id) action resource_type (Some resource_id)
    [("job_id", JString job_id); ("attempt_id", JString attempt_id)].

(** The Dataset is ready and its archive was verified: the size of the archive. *)
Definition transferable (dataset : Dataset) : option Z :=
  size ← d_prepared_flat_size_bytes dataset;
  sha256 ← d_prepared_flat_sha256 dataset;
  if ⌊ d_status dataset = "ready" ⌋ && dataset_ready_for_training dataset && (0 <? size) &&
     (py_len sha256 =? 64)
  then Some size else None.

(** [download_job_dataset] *)
Definition download_job_dataset (job_id : string) (worker : Worker) (lease_id attempt_id : string)
    : M Download :=
  lease ← require_active_lease (w_id worker) job_id lease_id false;
  _ ← reject_if (negb ⌊ l_attempt_id lease = attempt_id ⌋) 409
        "dataset attempt does not match lease";
  job ← ask (λ d, jobs d !! job_id);
  match job with
  | None => http 409 "job attempt is no longer current"
  | Some job =>
  _ ← reject_if (negb ⌊ j_worker_id job = Some (w_id worker) ⌋ ||
                 negb ⌊ j_current_attempt_id job = Some attempt_id ⌋) 409
        "job attempt is no longer current";
  dataset ← ask (λ d, datasets d !! j_dataset_id job);
  match dataset, dataset ≫= transferable with
  | Some dataset, Some size =>
  upload ← ask (λ d, latest_dataset_upload d (d_id dataset));
  match upload with
  | None => http 409 "dataset has not been server-verified"
  | Some upload =>
  _ ← reject_if (negb (storage_namespace_matches (du_storage_backend upload)
                         (du_storage_namespace_sha256 upload))) 503
        "dataset storage namespace is unavailable";
  match st_storage_uri storage (du_prepared_flat_object_key upload) with
  | None => http 503 "dataset storage is unavailable"
  | Some canonical_uri =>
  _ ← reject_if (negb ⌊ d_flat_storage_uri dataset = Some canonical_uri ⌋) 409
        "dataset canonical object does not match";
  _ ← worker_audit_of (w_id worker) "dataset.worker_download_requested" "dataset" (d_id dataset)
        job_id attempt_id;
  _ ← commit;
  download_response (du_prepared_flat_object_key upload) "application/zip"
    (attachment_content_disposition "prepared_flat.zip") "dataset download is unavailable" size
  end end
  | _, _ => http 409 "dataset is not ready for transfer"
  end end.

(** The completed upload of an item finalised last. *)
Definition latest_item_upload (d : DB) (set_id item_key : string)
    : option TestSetItemUploadSession :=
  head (order_by upload_leb
    (where_ (λ u, ⌊ iu_test_set_id u = set_id ⌋ && ⌊ iu_item_key u = item_key ⌋ &&
                  ⌊ iu_status u = "completed" ⌋) (test_set_uploads d))).

(** [download_job_test_set_item] *)
Definition download_job_test_set_item (job_id item_id : string) (worker : Worker)
    (lease_id attempt_id : string) : M Download :=
  lease ← require_active_lease (w_id worker) job_id lease_id false;
  _ ← reject_if (negb ⌊ l_attempt_id lease = attempt_id ⌋) 409
        "test set attempt does not match lease";
  job ← ask (λ d, jobs d !! job_id);
  match job, job ≫= j_test_set_id with
  | Some job, Some set_id =>
  _ ← reject_if (negb ⌊ j_worker_id job = Some (w_id worker) ⌋ ||
                 negb ⌊ j_current_attempt_id job = Some attempt_id ⌋) 409
        "job attempt is no longer current";
  item ← ask (λ d, i ← test_set_items d !! item_id;
                   if ⌊ i_test_set_id i = set_id ⌋ then Some i else None);
  match item with
  | None => http 404 "test set item not found"
  | Some item =>
  upload ← ask (λ d, latest_item_upload d set_id (i_item_key item));
  match upload with
  | None => http 409 "test set item is not server-verified"
  | Some upload =>
  _ ← reject_if (negb (storage_namespace_matches (iu_storage_backend upload)
                         (iu_storage_namespace_sha256 upload))) 503
        "test set storage namespace is unavailable";
  attempt ← ask (λ d, attempts d !! attempt_id);
  match attempt with
  | None => http 409 "job attempt is no longer current"
  | Some attempt =>
  match validated_job_config job (Some attempt) with
  | inl _ => http 409 "job configuration integrity check failed"
  | inr config =>
  transfer ← verified_test_set_transfer settings storage job config;
  match transfer with
  | None => http 409 "test set snapshot is no longer verifiable"
  | Some transfer =>
  match List.find (λ c, ⌊ ti_test_set_item_id c = item_id ⌋) (tt_items transfer) with
  | None => http 404 "test set item is not in the Job snapshot"
  | Some descriptor =>
  _ ← worker_audit_of (w_id worker) "test_set_item.worker_download_requested" "test_set_item"
        (i_id item) job_id attempt_id;
  _ ← commit;
  download_response (test_set_item_object_key set_id (iu_id upload)) "audio/wav"
    (attachment_content_disposition (ti_filename descriptor))
    "test set download is unavailable" (ti_size_bytes descriptor)
  end end end end end end
  | _, _ => http 409 "job attempt is no longer current"
  end.
End routes.

Example disposition_plain : attachment_content_disposition "a b.wav" =
  "attachment; filename=" +:+ quote +:+ "a_b.wav" +:+ quote +:+ "; filename*=UTF-8''a%20b.wav".
Proof. reflexivity. Qed.
