(* ===== verification/StatusUpdate.v ===== *)
(** * Status updates

    Model of [update_job_status] of [apps/api/src/rvc_manager_api/routers/workers.py] and
    its helpers: the checks on an update, the write fence of a terminal one, the
    telemetry watermarks it seals, its writes, and the two retries.

    [sample_completion_ready] of [services/samples.py] is modelled up to the point where
    it verifies stored Sample rows; that verification is the argument
    [samples_verified]. *)

From S2P Require Import Prelude Sha256 Json JobStatus JobConfig WorkerContract Settings Ledger.
From S2P Require Import Session JobConfigLedger TestSets Mlflow WorkerTokens LeaseService.

(** [_validate_current_epoch] *)
Definition validate_current_epoch (job : Job) (current_epoch : option Z) : M () :=
  match current_epoch with
  | None => mret ()
  | Some n =>
      _ ← reject_if (j_total_epoch job <? n) 422 "current_epoch exceeds total_epoch";
      reject_if (match j_current_epoch job with Some m => n <? m | None => false end) 409
        "current_epoch cannot move backwards"
  end.

Record StatusAck := mkStatusAck {
  sa_job_id : string;
  sa_status : JobStatus;
  sa_lease_expires_at : option Z }.

Section status.
  Context `{ContractParser} `{Platform}.
  Variable settings : Settings.
  (** The Samples of a Job match its TestSet snapshot and their artifacts; [None] is
      [SampleCompletionUnavailable]. *)
  Variable samples_verified : Job → JobConfig → string → string → DB → option bool.

(** ** Completion requirements *)

(** The artifact types a configuration requires. *)
Definition required_artifact_types (config : JobConfig) : list string :=
  (if collect_small_model (artifacts config) then [ArtifactType_value FINAL_SMALL_MODEL] else []) ++
  (if build_index (index config) && collect_added_index (index config) &&
      collect_index (artifacts config)
   then [ArtifactType_value FINAL_INDEX] else []).

Definition allow_legacy_fake (attempt : JobAttempt) : bool :=
  ⌊ a_engine_mode attempt = "fake" ⌋ && allow_fake_workers settings &&
  negb ⌊ environment settings = production ⌋.

(** The artifact has a completed upload. *)
Definition uploaded (d : DB) (artifact : Artifact) : bool :=
  existsb (λ u, ⌊ au_artifact_id u = Some (ar_id artifact) ⌋ && ⌊ au_status u = "completed" ⌋)
    (rows (artifact_uploads d)).

(** The required types that are registered for the current attempt. *)
Definition present_artifact_types (d : DB) (job : Job) (legacy : bool) (required : list string)
    : list string :=
  map ar_artifact_type (where_ (λ a,
    ⌊ ar_job_id a = j_id job ⌋ && ⌊ Some (ar_attempt_id a) = j_current_attempt_id job ⌋ &&
    ⌊ ar_artifact_type a ∈ required ⌋ && (legacy || uploaded d a)) (artifact_rows d)).

(** The attempt [job.current_attempt_id] names, unless it is empty. *)
Definition current_attempt (job : Job) (d : DB) : option JobAttempt :=
  if truthy (j_current_attempt_id job) then j_current_attempt_id job ≫= (attempts d !!.)
  else None.

(** [_required_artifacts_exist] *)
Definition required_artifacts_exist (job : Job) (d : DB) : bool :=
  match current_attempt job d with
  | None => false
  | Some attempt =>
      match validated_job_config job (Some attempt) with
      | inl _ => false
      | inr config =>
          let required := required_artifact_types config in
          forallb (λ ty, ⌊ ty ∈ present_artifact_types d job (allow_legacy_fake attempt) required ⌋)
            required
      end
  end.

(** [sample_completion_ready] *)
Definition sample_completion_ready (job : Job) (lease_id worker_id : string) (d : DB)
    : option bool :=
  match j_current_attempt_id job ≫= (attempts d !!.) with
  | None => Some false
  | Some attempt =>
      match validated_job_config job (Some attempt) with
      | inl _ => Some false
      | inr config =>
          if negb (enabled (auto_inference_samples config)) then Some true else
          match a_runtime_image_digest attempt, a_runtime_asset_manifest_sha256 attempt with
          | Some digest, Some manifest =>
              if negb ⌊ a_job_id attempt = j_id job ⌋ || negb ⌊ a_worker_id attempt = worker_id ⌋ ||
                 negb ⌊ (digest, manifest) ∈ approved_sample_runtime_bundles settings ⌋
              then Some false
              else samples_verified job config lease_id worker_id d
          | _, _ => Some false
          end
      end
  end.

(** ** The claim an update belongs to *)

Definition claim_changed : string := "job claim changed before status commit".

(** The four rows are the unexpired, current, unfinished claim, in status
    [expected_status]. *)
Definition status_claim_current (job_id attempt_id worker_id expected_status : string) (now : Z)
    (lease : JobLease) (job : Job) (attempt : JobAttempt) (locked_worker : Worker) : bool :=
  l_active lease && is_none (l_released_at lease) && (now <? l_expires_at lease) &&
  ⌊ l_job_id lease = job_id ⌋ && ⌊ l_attempt_id lease = attempt_id ⌋ &&
  ⌊ l_worker_id lease = worker_id ⌋ && ⌊ j_worker_id job = Some worker_id ⌋ &&
  ⌊ j_current_attempt_id job = Some attempt_id ⌋ && ⌊ j_status job = expected_status ⌋ &&
  negb (is_terminal_value (j_status job)) && ⌊ a_job_id attempt = job_id ⌋ &&
  ⌊ a_worker_id attempt = worker_id ⌋ && is_none (a_finished_at attempt) &&
  ⌊ a_status attempt = expected_status ⌋ && negb (is_terminal_value (a_status attempt)) &&
  w_is_active locked_worker && ⌊ w_current_job_id locked_worker = Some job_id ⌋.

(** [_lock_current_status_claim] *)
Definition lock_current_status_claim (job_id attempt_id lease_id worker_id expected_status : string)
    : M (JobLease * Job * JobAttempt * Worker) :=
  lease ← lock_row (LockLease lease_id) (λ d, leases d !! lease_id);
  job ← lock_row (LockJob job_id) (λ d, jobs d !! job_id);
  attempt ← lock_row (LockAttempt attempt_id) (λ d, attempts d !! attempt_id);
  locked_worker ← lock_row (LockWorker worker_id) (λ d, workers d !! worker_id);
  now ← utc_now;
  _ ← match job, attempt with
      | Some job, Some attempt =>
          match validated_job_config job (Some attempt) with
          | inl _ => http 409 "job configuration integrity check failed"
          | inr _ => mret ()
          end
      | _, _ => mret ()
      end;
  match lease, job, attempt, locked_worker with
  | Some lease, Some job, Some attempt, Some locked_worker =>
      _ ← reject_if (negb (status_claim_current job_id attempt_id worker_id expected_status now
                             lease job attempt locked_worker)) 409 claim_changed;
      mret (lease, job, attempt, locked_worker)
  | _, _, _, _ => http 409 claim_changed
  end.

(** [_acquire_status_write_fence]; the UPDATE keeps the row, and the database may
    refuse it with an [OperationalError]. *)
Definition acquire_status_write_fence (job_id attempt_id lease_id worker_id expected_status : string)
    : M (JobLease * Job * JobAttempt * Worker) :=
  _ ← pop_outcome;
  fenced ← update_job_where job_id
    (λ j, ⌊ j_worker_id j = Some worker_id ⌋ && ⌊ j_current_attempt_id j = Some attempt_id ⌋ &&
          ⌊ j_status j = expected_status ⌋) (λ j, j);
  _ ← reject_if (negb fenced) 409 claim_changed;
  lock_current_status_claim job_id attempt_id lease_id worker_id expected_status.

(** ** Watermarks *)

(** [select(func.max(T.sequence)).where(T.attempt_id == attempt_id)] *)
Definition max_sequence {A} (attempt_id : string) (table : gmap (string * Z) A) : option Z :=
  foldr (λ k acc, if ⌊ k.1 = attempt_id ⌋
                  then Some (match acc with Some m => Z.max k.2 m | None => k.2 end) else acc)
    None (map_to_list table).*1.

(** [_validate_terminal_telemetry_watermarks] *)
Definition validate_terminal_telemetry_watermarks (attempt_id : string)
    (log_count metric_count : option Z) : M () :=
  match log_count, metric_count with
  | Some log_count, Some metric_count =>
      max_log_sequence ← ask (λ d, max_sequence attempt_id (job_logs d));
      max_metric_sequence ← ask (λ d, max_sequence attempt_id (metrics d));
      _ ← reject_if (match max_log_sequence with Some n => log_count <=? n | None => false end) 409
            "telemetry_log_count is below an ingested sequence";
      reject_if (match max_metric_sequence with Some n => metric_count <=? n | None => false end) 409
        "telemetry_metric_count is below an ingested sequence"
  | _, _ => mret ()
  end.

(** ** The update *)

(** [str(exc)] of an [InvalidJobTransition], without the text of the [ValueError] for
    an unknown status. *)
Definition transition_message (e : transition_error) : string :=
  match e with
  | UnknownJobStatus => "unknown job status"
  | CannotTransition current target =>
      "job status cannot transition from '" +:+ value current +:+ "' to '" +:+ value target +:+ "'"
  end.

(** The transition is allowed, and a cancelled Job only moves to CANCELLED. *)
Definition checked_target (job : Job) (payload : JobStatusUpdate) : M JobStatus :=
  target ← match validate_job_transition (j_status job) (value (su_status payload)) true with
           | inl e => http 409 (transition_message e)
           | inr target => mret target
           end;
  _ ← reject_if (is_some (j_cancel_requested_at job) && negb ⌊ target = CANCELLED ⌋) 409
        "job cancellation superseded status update";
  mret target.

(** The requirements of COMPLETED. *)
Definition check_completion (job : Job) (lease_id worker_id : string) : M () :=
  artifacts_ok ← ask (required_artifacts_exist job);
  _ ← reject_if (negb artifacts_ok) 409 "required artifacts are not registered";
  samples_ready ← ask (sample_completion_ready job lease_id worker_id);
  match samples_ready with
  | None => http 503 "sample completion verification is temporarily unavailable"
  | Some ready => reject_if (negb ready) 409 "required samples are not registered"
  end.

Definition updated_job (job : Job) (payload : JobStatusUpdate) (target : JobStatus) (now : Z) : Job :=
  let job := match su_current_epoch payload with
             | Some n => job <| j_current_epoch := Some n |> | None => job end in
  let job := job <| j_error_code := su_error_code payload |>
                 <| j_error_message := su_error_message payload |> in
  let job := if ⌊ j_status job = value target ⌋ then job
             else job <| j_status := value target |> in
  if ⌊ target = COMPLETED ⌋ then job <| j_completed_at := Some now |> else job.

Definition updated_attempt (attempt : JobAttempt) (payload : JobStatusUpdate) (previous : string)
    (target : JobStatus) (now : Z) : JobAttempt :=
  let attempt := attempt <| a_error_code := su_error_code payload |>
                         <| a_error_message := su_error_message payload |> in
  let attempt := if ⌊ previous = value target ⌋ then attempt
                 else attempt <| a_status := value target |> in
  if is_terminal target
  then attempt <| a_telemetry_log_count := su_telemetry_log_count payload |>
               <| a_telemetry_metric_count := su_telemetry_metric_count payload |>
               <| a_finished_at := Some now |>
  else attempt.

(** The writes: the event to project, and the lease as it is stored. *)
Definition apply_status_update (lease : JobLease) (job : Job) (attempt : JobAttempt)
    (worker : Worker) (payload : JobStatusUpdate) (target : JobStatus) (now : Z)
    : M (option string * JobLease) :=
  let previous := j_status job in
  let job' := updated_job job payload target now in
  _ ← save_job job';
  _ ← save_attempt (updated_attempt attempt payload previous target now);
  _ ← when (negb ⌊ previous = value target ⌋)
        (add_status_event (mkJobStatusEvent (j_id job) (Some (a_id attempt)) (Some previous)
           (value target) (su_occurred_at payload) "worker"));
  if is_terminal target then
    let lease' := close_lease lease now in
    _ ← save_lease lease';
    _ ← save_worker (worker <| w_current_job_id := None |> <| w_status := "idle" |>);
    event_key ← enqueue_terminal_status settings job' (a_id attempt) (value target);
    mret (event_key, lease')
  else mret (None, lease).

(** The claim of a terminal update is fenced by an UPDATE, and checked again;
    [None] when the database refused the fence. *)
Definition fenced_claim (claim : JobLease * Job * JobAttempt * Worker) (job_id lease_id worker_id
    expected_status : string) (payload : JobStatusUpdate) (target : JobStatus)
    : M (option (JobLease * Job * JobAttempt * Worker)) :=
  if negb (is_terminal target) then mret (Some claim) else
  let '(_, _, attempt, _) := claim in
  fenced ← catch (Some <$> acquire_status_write_fence job_id (a_id attempt) lease_id worker_id
                             expected_status)
             (on_db_error [OperationalError] (_ ← rollback; mret None));
  match fenced with
  | None => mret None
  | Some claim =>
      let '(_, job, _, _) := claim in
      _ ← checked_target job payload;
      _ ← validate_current_epoch job (su_current_epoch payload);
      mret (Some claim)
  end.

(** [retry_count = int(session.info.get(key, 0))] and the retry. *)
Definition retry_once {A} (key : string) (again : M A) : M A :=
  retry_count ← info_get key;
  if retry_count <? 1 then _ ← info_set key (retry_count + 1); again
  else http 409 claim_changed.

(** The last checks on the locked claim, the writes and the commit; [again] is the
    retry after a stale row. *)
Definition commit_status_update (again : M StatusAck)
    (claim : JobLease * Job * JobAttempt * Worker) (payload : JobStatusUpdate)
    (target : JobStatus) : M StatusAck :=
  let '(lease, job, attempt, worker) := claim in
  artifacts_ok ← ask (required_artifacts_exist job);
  _ ← reject_if (⌊ target = COMPLETED ⌋ && negb artifacts_ok) 409
        "required artifacts changed before commit";
  _ ← when (is_terminal target)
        (validate_terminal_telemetry_watermarks (a_id attempt)
           (su_telemetry_log_count payload) (su_telemetry_metric_count payload));
  now ← utc_now;
  applied ← apply_status_update lease job attempt worker payload target now;
  let '(event_key, lease') := applied in
  committed ← catch (_ ← commit; mret true)
                (on_db_error [StaleDataError] (_ ← rollback; mret false));
  if committed : bool then
    _ ← sync_after_commit settings event_key;
    mret (mkStatusAck (j_id job) target
            (if l_active lease' then Some (l_expires_at lease') else None))
  else retry_once "job_status_stale_retry" again.

(** [update_job_status]; [fuel] bounds the recursion of the retries, and
    [worker_id] is the actor kept in [session.info] across them. *)
Fixpoint update_job_status (fuel : nat) (job_id : string) (payload : JobStatusUpdate)
    (worker_id : string) : M StatusAck :=
  match fuel with
  | O => raise RecursionError
  | S fuel' =>
      lease ← require_active_lease worker_id job_id (su_lease_id payload) false;
      job ← ask (λ d, jobs d !! job_id);
      attempt ← ask (λ d, attempts d !! l_attempt_id lease);
      match job, attempt with
      | Some job, Some attempt =>
          _ ← reject_if (negb ⌊ j_current_attempt_id job = Some (a_id attempt) ⌋) 409
                "job attempt is no longer current";
          _ ← validate_current_epoch job (su_current_epoch payload);
          target ← checked_target job payload;
          _ ← when ⌊ target = COMPLETED ⌋ (check_completion job (l_id lease) worker_id);
          let expected_status := j_status job in
          claim ← lock_current_status_claim job_id (a_id attempt) (su_lease_id payload) worker_id
                    expected_status;
          let '(_, job, _, _) := claim in
          target ← checked_target job payload;
          _ ← validate_current_epoch job (su_current_epoch payload);
          fenced ← fenced_claim claim job_id (su_lease_id payload) worker_id expected_status
                     payload target;
          match fenced with
          | None =>
              retry_once "job_status_fence_retry" (update_job_status fuel' job_id payload worker_id)
          | Some claim =>
              commit_status_update (update_job_status fuel' job_id payload worker_id) claim payload
                target
          end
      | _, _ => http 409 "job attempt is no longer current"
      end
  end.
End status.
