(* ===== verification/JobApi.v ===== *)
(** * Experiments and Jobs of the users' API

    Model of [apps/api/src/rvc_manager_api/routers/experiments.py]: creation, update and
    deletion of Experiments, creation, cancellation and retry of Jobs, and their reads.
    [cancel_job] and [retry_job] read the Job without a lock; their flush updates the
    row only if its version is the one that was read. *)

From S2P Require Import Prelude Json JobStatus JobConfig WorkerContract Settings Ledger Session.
From S2P Require Import JobConfigLedger TestSets Mlflow LeaseService.

Section api.
  Context `{ContractParser} `{Platform}.
  Variable settings : Settings.

(** [require_owner_or_admin] *)
Definition require_owner_or_admin (user : User) (owner_id : option string) (resource : string)
    : M () :=
  reject_if (negb ⌊ u_role user = "admin" ⌋ && negb ⌊ owner_id = Some (u_id user) ⌋) 404
    (resource +:+ " not found").

(** ** Reads *)

Record JobRead := mkJobRead {
  jr_id : string;
  jr_experiment_id : string;
  jr_dataset_id : string;
  jr_worker_id : option string;
  jr_job_name : string;
  jr_status : JobStatus;
  jr_config : JobConfig;
  jr_config_sha256 : option string;
  jr_test_set_id : option string;
  jr_preset_id : option string;
  jr_sample_plan_sha256 : option string;
  jr_priority : Z;
  jr_current_epoch : option Z;
  jr_total_epoch : Z;
  jr_attempt_count : Z;
  jr_current_attempt_id : option string;
  jr_current_attempt_engine_mode : option WorkerEngineMode;
  jr_cancel_requested_at : option Z;
  jr_error_code : option string;
  jr_error_message : option string;
  jr_started_at : option Z;
  jr_completed_at : option Z;
  jr_created_at : Z }.

(** The configuration and engine mode [job_to_schema] exposes; [None] is an
    [InvalidJobConfigLedger] or a [ValueError]. *)
Definition job_evidence (job : Job) (current_attempt : option JobAttempt)
    : option (JobConfig * option WorkerEngineMode) :=
  match j_current_attempt_id job with
  | None =>
      if is_some current_attempt then None else
      config ← (if is_none (j_config_sha256 job) then JobConfig_model_validate (j_config_json job)
                else match validated_job_config job None with inr c => Some c | inl _ => None end);
      Some (config, None)
  | Some id =>
      attempt ← current_attempt;
      if negb ⌊ a_id attempt = id ⌋ || negb ⌊ a_job_id attempt = j_id job ⌋ then None else
      config ← match validated_job_config job (Some attempt) with
               | inr c => Some c | inl _ => None end;
      mode ← WorkerEngineMode_of (a_engine_mode attempt);
      Some (config, Some mode)
  end.

(** [job_to_schema] *)
Definition job_to_schema (job : Job) (current_attempt : option JobAttempt) : M JobRead :=
  match job_evidence job current_attempt with
  | None => http 409 "job configuration integrity check failed"
  | Some (config, mode) =>
      match JobStatus_of (j_status job) with
      | None => raise (ValueError "JobStatus")
      | Some status =>
          mret (mkJobRead (j_id job) (j_experiment_id job) (j_dataset_id job) (j_worker_id job)
            (j_job_name job) status config (j_config_sha256 job) (j_test_set_id job)
            (j_preset_id job) (j_sample_plan_sha256 job) (j_priority job) (j_current_epoch job)
            (j_total_epoch job) (j_attempt_count job) (j_current_attempt_id job) mode
            (j_cancel_requested_at job) (j_error_code job) (j_error_message job)
            (j_started_at job) (j_completed_at job) (j_created_at job))
      end
  end.

(** [_jobs_to_schema] *)
Definition jobs_to_schema (found : list Job) : M (list JobRead) :=
  _ ← interleave;
  attempts_by_id ← ask attempts;
  collect found (λ job, job_to_schema job (id ← j_current_attempt_id job; attempts_by_id !! id)).

Definition job_response (job : Job) : M JobRead :=
  _ ← interleave;
  attempt ← ask (λ d, id ← j_current_attempt_id job; attempts d !! id);
  job_to_schema job attempt.

(** [session.get(Job, job_id)], its Experiment, and the ownership check. *)
Definition owned_job (job_id : string) (user : User) : M Job :=
  job ← ask (λ d, jobs d !! job_id);
  match job with
  | None => http 404 "job not found"
  | Some job =>
      _ ← interleave;
      experiment ← ask (λ d, experiments d !! j_experiment_id job);
      match experiment with
      | None => http 404 "job not found"
      | Some experiment =>
          _ ← require_owner_or_admin user (e_created_by experiment) "job";
          mret job
      end
  end.

(** [get_job] *)
Definition get_job (job_id : string) (user : User) : M JobRead :=
  job ← owned_job job_id user; job_response job.

(** The Jobs [list_jobs] selects: those of visible Experiments, newest first. *)
Definition visible_jobs (d : DB) (user : User) (experiment_id : option string)
    (job_status : option JobStatus) : list Job :=
  order_by (λ a b, j_created_at b <=? j_created_at a)
    (where_ (λ job,
       match experiments d !! j_experiment_id job with
       | None => false
       | Some experiment =>
           (match experiment_id with
            | Some id => ⌊ id = "" ⌋ || ⌊ j_experiment_id job = id ⌋ | None => true end) &&
           (match job_status with Some s => ⌊ j_status job = value s ⌋ | None => true end) &&
           (⌊ u_role user = "admin" ⌋ || ⌊ e_created_by experiment = Some (u_id user) ⌋)
       end) (jobs d)).

(** [list_jobs]: the page and the total. *)
Definition list_jobs (user : User) (experiment_id : option string) (job_status : option JobStatus)
    (offset limit : nat) : M (list JobRead * nat) :=
  total ← ask (λ d, length (visible_jobs d user experiment_id job_status));
  _ ← interleave;
  found ← ask (λ d, visible_jobs d user experiment_id job_status);
  page ← jobs_to_schema (take limit (drop offset found));
  mret (page, total).

(** [get_experiment] *)
Definition get_experiment (experiment_id : string) (user : User) : M Experiment :=
  found ← ask (λ d, experiments d !! experiment_id);
  match found with
  | None => http 404 "experiment not found"
  | Some experiment =>
      _ ← require_owner_or_admin user (e_created_by experiment) "experiment"; mret experiment
  end.

Definition visible_experiments (d : DB) (user : User) : list Experiment :=
  order_by (λ a b, lex_leb (e_created_at b) (e_created_at a) (str_leb (e_id b) (e_id a)))
    (where_ (λ e, ⌊ u_role user = "admin" ⌋ || ⌊ e_created_by e = Some (u_id user) ⌋)
       (experiments d)).

(** [list_experiments] *)
Definition list_experiments (user : User) (offset limit : nat) : M (list Experiment * nat) :=
  total ← ask (λ d, length (visible_experiments d user));
  _ ← interleave;
  found ← ask (λ d, visible_experiments d user);
  mret (take limit (drop offset found), total).

(** ** Experiments *)

(** [session.refresh(row)]: the row as it is now. *)
Definition refresh {A} (read : DB → option A) : M A :=
  _ ← interleave;
  row ← ask read;
  some_or_raise row (RuntimeError "refresh") mret.

Record ExperimentCreate := mkExperimentCreate {
  xc_name : string;
  xc_dataset_id : string;
  xc_description : option string }.

(** [uq_experiments_owner_name_conflict_key]; NULLs are distinct. *)
Definition experiment_conflict (e : Experiment) (d : DB) : bool :=
  is_some (experiments d !! e_id e) ||
  existsb (λ x, is_some (e_created_by e) && is_some (e_name_conflict_key e) &&
                ⌊ e_created_by x = e_created_by e ⌋ &&
                ⌊ e_name_conflict_key x = e_name_conflict_key e ⌋) (rows (experiments d)).

(** [create_experiment] *)
Definition create_experiment (payload : ExperimentCreate) (user : User) : M Experiment :=
  found ← lock_row (LockDataset (xc_dataset_id payload)) (λ d, datasets d !! xc_dataset_id payload);
  match found with
  | None => http 404 "dataset not found"
  | Some dataset =>
      _ ← require_owner_or_admin user (d_created_by dataset) "dataset";
      _ ← reject_if (negb (dataset_ready_for_training dataset)) 409
            "dataset is not ready for experiments";
      _ ← interleave;
      existing ← ask (λ d, existsb (λ e, ⌊ e_created_by e = Some (u_id user) ⌋ &&
                                         ⌊ e_name e = xc_name payload ⌋) (rows (experiments d)));
      _ ← reject_if existing 409 "experiment name already exists for owner";
      id ← new_id;
      now ← utc_now;
      let experiment := mkExperiment id 1 (xc_name payload) (Some (xc_name payload))
                          (xc_dataset_id payload) (xc_description payload) (Some (u_id user)) now in
      conflict ← ask (experiment_conflict experiment);
      _ ← write (λ d, d <| experiments := <[id := experiment]> (experiments d) |>);
      _ ← doom_if (λ _, conflict);
      _ ← catch flush (on_db_error [IntegrityError]
            (_ ← rollback; http 409 "experiment name already exists for owner"));
      _ ← add_audit_event "user" (Some (u_id user)) "experiment.created" "experiment" (Some id) [];
      event_key ← enqueue_experiment_created settings experiment;
      _ ← commit;
      experiment ← refresh (λ d, experiments d !! id);
      _ ← sync_after_commit settings event_key;
      mret experiment
  end.

(** [_locked_owned_experiment] *)
Definition locked_owned_experiment (experiment_id : string) (user : User) : M Experiment :=
  found ← lock_row (LockExperiment experiment_id) (λ d,
    e ← experiments d !! experiment_id;
    if ⌊ u_role user = "admin" ⌋ || ⌊ e_created_by e = Some (u_id user) ⌋ then Some e else None);
  match found with Some e => mret e | None => http 404 "experiment not found" end.

Record ExperimentUpdate := mkExperimentUpdate {
  xu_expected_row_version : Z;
  xu_description : option string }.

(** [update_experiment] *)
Definition update_experiment (experiment_id : string) (payload : ExperimentUpdate) (user : User)
    : M Experiment :=
  experiment ← locked_owned_experiment experiment_id user;
  _ ← reject_if (negb (e_row_version experiment =? xu_expected_row_version payload)) 409
        "experiment changed; refresh and retry";
  if ⌊ e_description experiment = xu_description payload ⌋ then mret experiment else
  _ ← save_experiment (experiment <| e_description := xu_description payload |>);
  _ ← add_audit_event "user" (Some (u_id user)) "experiment.updated" "experiment"
        (Some (e_id experiment))
        [("changed_fields", JArray [JString "description"]);
         ("previous_row_version", JInt (e_row_version experiment));
         ("new_row_version", JInt (e_row_version experiment + 1))];
  _ ← catch commit (on_db_error [StaleDataError]
        (_ ← rollback; http 409 "experiment changed; refresh and retry"));
  refresh (λ d, experiments d !! experiment_id).

(** [delete_experiment]; the foreign keys of the Jobs restrict the deletion. *)
Definition delete_experiment (experiment_id : string) (expected_row_version : Z) (user : User)
    : M () :=
  experiment ← locked_owned_experiment experiment_id user;
  _ ← reject_if (negb (e_row_version experiment =? expected_row_version)) 409
        "experiment changed; refresh and retry";
  let references d :=
    existsb (λ job, ⌊ j_experiment_id job = e_id experiment ⌋) (rows (jobs d)) in
  _ ← interleave;
  job_exists ← ask references;
  _ ← reject_if job_exists 409 "experiment with jobs cannot be deleted";
  _ ← interleave;
  projection_exists ← ask (λ d,
    existsb (λ e, ⌊ ms_aggregate_type e = "experiment" ⌋ &&
                  ⌊ ms_aggregate_id e = e_id experiment ⌋) (rows (mlflow_events d)));
  _ ← reject_if (mlflow_enabled settings || projection_exists) 409
        "experiment with MLflow projection cannot be deleted";
  _ ← add_audit_event "user" (Some (u_id user)) "experiment.deleted" "experiment"
        (Some (e_id experiment))
        [("dataset_id", JString (e_dataset_id experiment));
         ("row_version", JInt (e_row_version experiment))];
  _ ← doom_if references;
  _ ← write (λ d, d <| experiments := delete (e_id experiment) (experiments d) |>);
  catch commit (λ e,
    match on_db_error [StaleDataError]
            (_ ← rollback; http 409 "experiment changed; refresh and retry") e with
    | Some h => Some h
    | None => on_db_error [IntegrityError]
                (_ ← rollback; http 409 "experiment became referenced and cannot be deleted") e
    end).

(** ** Creation of Jobs *)

(** The immutable sample plan of a Job with automatic samples.  [test_set.id] is the
    key the TestSet was read by. *)
Record SamplePlan := mkSamplePlan {
  sp_test_set_id : option string;
  sp_document : option json;
  sp_sha256 : option string }.

Definition plan_samples (config : JobConfig) (user : User) : M SamplePlan :=
  let auto_samples := auto_inference_samples config in
  if negb (enabled auto_samples) then mret (mkSamplePlan None None None) else
  _ ← reject_if (negb (auto_sample_jobs_enabled settings)) 409
        "automatic sample jobs are disabled until the runtime gate is verified";
  _ ← reject_if (negb (collect_samples (artifacts config))) 409
        "automatic samples require collect_samples=true";
  _ ← reject_if (SFltb f_zero (index_rate (samples_preset auto_samples)) &&
                 negb (build_index (index config))) 409
        "sample index_rate requires index.build_index=true";
  let set_id := default "" (test_set_id auto_samples) in
  found ← lock_row (LockTestSet set_id) (λ d, test_sets d !! set_id);
  match found with
  | None => http 404 "test set not found"
  | Some test_set =>
      _ ← require_owner_or_admin user (t_created_by test_set) "test set";
      _ ← reject_if (negb ⌊ t_status test_set = "ready" ⌋ ||
                     is_none (t_manifest_storage_uri test_set) ||
                     is_none (t_manifest_sha256 test_set) || (t_item_count test_set <? 1)) 409
            "test set is not ready for jobs";
      _ ← interleave;
      items ← ask (λ d, order_by item_leb
                          (where_ (λ i, ⌊ i_test_set_id i = t_id test_set ⌋) (test_set_items d)));
      some_or_raise (canonical_sha256 (build_test_set_manifest_document test_set items))
        (ValueError "manifest") (λ current_manifest_sha256,
      _ ← reject_if (negb (Zlength items =? t_item_count test_set) ||
                     negb ⌊ Some current_manifest_sha256 = t_manifest_sha256 test_set ⌋) 409
            "test set manifest no longer matches its immutable ledger";
      some_or_raise (resolved_inference_config config) (ValueError "inference config")
        (λ inference_config,
      some_or_raise (build_sample_plan_document test_set items inference_config) (ValueError "plan")
        (λ sample_plan,
      some_or_raise (canonical_sha256 sample_plan) (ValueError "plan") (λ sample_plan_sha256,
      mret (mkSamplePlan (Some set_id) (Some sample_plan) (Some sample_plan_sha256))))))
  end.

(** The row [create_job] adds; [experiment.id] is the key the Experiment was read by. *)
Definition queued_job (job_id : string) (experiment : Experiment) (config : JobConfig)
    (config_sha256 : string) (plan : SamplePlan) (now : Z) : Job :=
  mkJob job_id 1 (experiment_id config) (e_dataset_id experiment) None (job_name config) (value QUEUED)
    (dump_JobConfig config) (Some config_sha256) (sp_test_set_id plan) None (sp_document plan)
    (sp_sha256 plan) (priority (resource config)) None (epochs (training config)) 0 None None None
    None None None now.

(** The primary key, [uq_jobs_experiment_job_name] and the foreign keys. *)
Definition job_conflict (job : Job) (d : DB) : bool :=
  is_some (jobs d !! j_id job) || is_none (experiments d !! j_experiment_id job) ||
  existsb (λ x, ⌊ j_experiment_id x = j_experiment_id job ⌋ && ⌊ j_job_name x = j_job_name job ⌋)
    (rows (jobs d)).

(** [create_job] *)
Definition create_job (config : JobConfig) (user : User) : M JobRead :=
  found ← ask (λ d, experiments d !! experiment_id config);
  match found with
  | None => http 404 "experiment not found"
  | Some experiment =>
      _ ← require_owner_or_admin user (e_created_by experiment) "experiment";
      _ ← reject_if (negb ⌊ e_dataset_id experiment = dataset_id config ⌋) 409
            "job dataset does not match experiment dataset";
      dataset ← lock_row (LockDataset (e_dataset_id experiment))
                  (λ d, datasets d !! e_dataset_id experiment);
      _ ← reject_if (negb match dataset with
                          | Some x => dataset_ready_for_training x | None => false end) 409
            "dataset is not ready for jobs";
      plan ← plan_samples config user;
      some_or_raise (job_config_sha256 (dump_JobConfig config)) (ValueError "config")
        (λ config_sha256,
      job_id ← new_id;
      created_at ← utc_now;
      let job := queued_job job_id experiment config config_sha256 plan created_at in
      conflict ← ask (job_conflict job);
      _ ← write (λ d, d <| jobs := <[job_id := job]> (jobs d) |>);
      _ ← doom_if (λ _, conflict);
      _ ← catch flush (on_db_error [IntegrityError]
            (_ ← rollback; http 409 "job name already exists in experiment"));
      now ← utc_now;
      _ ← add_status_event (mkJobStatusEvent job_id None None (value QUEUED) now "manager");
      _ ← add_audit_event "user" (Some (u_id user)) "job.created" "job" (Some job_id)
            [("config_sha256", JString config_sha256);
             ("test_set_id", dump_option JString (sp_test_set_id plan));
             ("sample_plan_sha256", dump_option JString (sp_sha256 plan))];
      event_key ← enqueue_job_created settings job;
      _ ← commit;
      job ← refresh (λ d, jobs d !! job_id);
      _ ← sync_after_commit settings event_key;
      job_response job)
  end.

(** ** Cancellation and retry *)

(** A flush whose versioned UPDATE matched no row. *)
Definition stale_flush : M () := _ ← write (λ d, d); doom StaleDataError.

(** The flush of a Job that was read without a lock:
    [UPDATE jobs SET ... WHERE id = ? AND row_version = ?]. *)
Definition save_loaded_job (loaded : Job) (f : Job → Job) : M () :=
  _ ← interleave;
  matched ← update_job_where (j_id loaded) (λ row, j_row_version row =? j_row_version loaded)
              (λ row, bump job_with_version j_row_version (Some row) (f row));
  when (negb matched) stale_flush.

(** [session.refresh(job)] and the response. *)
Definition refreshed_response (job_id : string) : M JobRead :=
  job ← refresh (λ d, jobs d !! job_id); job_response job.

Definition user_event (job : Job) (previous status : JobStatus) (now : Z) : JobStatusEvent :=
  mkJobStatusEvent (j_id job) None (Some (value previous)) (value status) now "manager".

(** The columns a cancellation sets: a queued Job is cancelled at once, a Job held by a
    Worker is marked. *)
Definition cancelled_row (current : JobStatus) (now : Z) (row : Job) : Job :=
  if ⌊ current = QUEUED ⌋ then row <| j_status := value CANCELLED |>
  else row <| j_cancel_requested_at := Some now |>.

(** The rows a cancellation adds. *)
Definition record_cancellation (job : Job) (user : User) (current : JobStatus) (now : Z) : M () :=
  _ ← when ⌊ current = QUEUED ⌋ (add_status_event (user_event job current CANCELLED now));
  add_audit_event "user" (Some (u_id user)) "job.cancel_requested" "job" (Some (j_id job))
    [("previous_status", JString (value current))].

(** [cancel_job] *)
Definition cancel_job (job_id : string) (user : User) : M JobRead :=
  job ← owned_job job_id user;
  match JobStatus_of (j_status job) with
  | None => raise (ValueError "JobStatus")
  | Some current =>
      _ ← reject_if (is_terminal current) 409 "terminal job cannot be cancelled";
      now ← utc_now;
      _ ← when ⌊ current = QUEUED ⌋
            (_ ← check_transition (value current) (value CANCELLED) false; mret ());
      _ ← save_loaded_job job (cancelled_row current now);
      _ ← record_cancellation job user current now;
      _ ← commit;
      refreshed_response job_id
  end.

(** The columns a retry resets. *)
Definition requeued_job (row : Job) : Job :=
  row <| j_status := value QUEUED |> <| j_worker_id := None |> <| j_current_attempt_id := None |>
      <| j_cancel_requested_at := None |> <| j_error_code := None |> <| j_error_message := None |>
      <| j_started_at := None |> <| j_completed_at := None |> <| j_current_epoch := None |>.

(** The rows a retry adds. *)
Definition record_retry (job : Job) (user : User) (now : Z) : M () :=
  _ ← add_status_event (mkJobStatusEvent (j_id job) (j_current_attempt_id job)
        (Some (value FAILED)) (value RETRYING) now "manager");
  _ ← add_status_event (mkJobStatusEvent (j_id job) (j_current_attempt_id job)
        (Some (value RETRYING)) (value QUEUED) now "manager");
  add_audit_event "user" (Some (u_id user)) "job.retried" "job" (Some (j_id job))
    [("attempt_count", JInt (j_attempt_count job))].

(** [retry_job] *)
Definition retry_job (job_id : string) (user : User) : M JobRead :=
  job ← owned_job job_id user;
  match JobStatus_of (j_status job) with
  | None => raise (ValueError "JobStatus")
  | Some current =>
      _ ← reject_if (negb ⌊ current = FAILED ⌋) 409 "only failed jobs can be retried";
      _ ← interleave;
      attempt ← ask (λ d, id ← j_current_attempt_id job; attempts d !! id);
      let ledger_ok :=
        match attempt with
        | None => false
        | Some a => match validated_job_config job (Some a) with inr _ => true | inl _ => false end
        end in
      _ ← reject_if (negb ledger_ok) 409 "job configuration integrity check failed";
      now ← utc_now;
      _ ← check_transition (value FAILED) (value RETRYING) false;
      _ ← check_transition (value RETRYING) (value QUEUED) false;
      _ ← save_loaded_job job requeued_job;
      _ ← record_retry job user now;
      _ ← commit;
      refreshed_response job_id
  end.
End api.
