(* ===== verification/TelemetryIngest.v ===== *)
(** * Telemetry ingestion

    Model of the log, metric and artifact routes of
    [apps/api/src/rvc_manager_api/routers/workers.py] and their helpers: fingerprints
    of batches, the claim a batch belongs to (active, or terminal with watermarks), the
    write fence of an active one, and idempotent insertion. *)

From S2P Require Import Prelude Sha256 Json JobStatus JobConfig WorkerContract DateTime Settings.
From S2P Require Import Ledger Session JobConfigLedger TestSets Redaction Mlflow WorkerTokens.
From S2P Require Import LeaseService StatusUpdate.

Record OperationAck := mkOperationAck {
  oa_accepted : Z;
  oa_duplicate : bool }.

Definition duplicate_ack : OperationAck := mkOperationAck 0 true.

(** ** Batches *)

Definition batch_key (attempt_id batch_type idempotency_key : string) : string * string * string :=
  (attempt_id, batch_type, idempotency_key).

(** [_find_ingest_batch] *)
Definition find_ingest_batch (attempt_id batch_type idempotency_key : string) (d : DB)
    : option IngestBatch :=
  ingest_batches d !! batch_key attempt_id batch_type idempotency_key.

(** [_is_duplicate_batch] *)
Definition is_duplicate_batch (attempt_id batch_type idempotency_key : string) (d : DB) : bool :=
  is_some (find_ingest_batch attempt_id batch_type idempotency_key d).

Definition put_batch (b : IngestBatch) (d : DB) : DB :=
  d <| ingest_batches :=
    <[batch_key (b_attempt_id b) (b_batch_type b) (b_idempotency_key b) := b]>
      (ingest_batches d) |>.
Definition add_ingest_batch (b : IngestBatch) : M () :=
  add_unique (λ d, is_some (find_ingest_batch (b_attempt_id b) (b_batch_type b)
                              (b_idempotency_key b) d)) (put_batch b).

(** [_canonical_fingerprint] *)
Definition canonical_fingerprint (value : json) : M string :=
  match json_dumps value with
  | Some encoded => mret (sha256_hex encoded)
  | None => http 422 "telemetry payload is not canonical JSON"
  end.

(** [_validate_batch_replay] *)
Definition validate_batch_replay (existing : IngestBatch) (fingerprint : string) : M () :=
  reject_if (negb ⌊ b_payload_fingerprint existing = Some fingerprint ⌋) 409
    "telemetry idempotency key conflicts with a prior batch".

Section telemetry.
  Context `{ContractParser} `{LogTextRedactor} `{Platform}.
  Variable settings : Settings.

Definition occurred_field (is_set : bool) (at_ : Z) : list (string * json) :=
  if is_set then [("occurred_at", JString (isoformat at_))] else [].

Definition log_document (entry : LogEntry) : json :=
  JObject ([("sequence", JInt (le_sequence entry));
            ("level", JString (LogLevel_value (le_level entry)));
            ("message", JString (redact_log_text (le_message entry)));
            ("fields", redact_log_fields (le_fields entry))] ++
           occurred_field (le_occurred_at_set entry) (le_occurred_at entry)).

(** [_log_batch_fingerprint] *)
Definition log_batch_fingerprint (payload : LogBatch) : M string :=
  canonical_fingerprint (JArray (map log_document (lb_entries payload))).

Definition metric_document (entry : MetricEntry) : json :=
  JObject ([("sequence", JInt (me_sequence entry)); ("key", JString (me_key entry));
            ("value", JFloat (me_value entry)); ("epoch", dump_option JInt (me_epoch entry));
            ("step", dump_option JInt (me_step entry))] ++
           occurred_field (me_occurred_at_set entry) (me_occurred_at entry)).

(** [_metric_batch_fingerprint] *)
Definition metric_batch_fingerprint (payload : MetricBatch) : M string :=
  canonical_fingerprint (JArray (map metric_document (mb_entries payload))).

(** ** The claim of a batch *)

Definition telemetry_claim_changed : string := "job claim changed before telemetry commit".

Inductive batch_kind := logs_batch | metrics_batch.
Definition batch_type (k : batch_kind) : string :=
  match k with logs_batch => "logs" | metrics_batch => "metrics" end.

(** The rows of an active claim are the Worker's current, open assignment. *)
Definition active_claim_ok (worker_id job_id attempt_id : string) (job : Job) (attempt : JobAttempt)
    (locked_worker : Worker) : bool :=
  ⌊ j_worker_id job = Some worker_id ⌋ && ⌊ j_current_attempt_id job = Some attempt_id ⌋ &&
  negb (is_terminal_value (j_status job)) && is_none (a_finished_at attempt) &&
  ⌊ a_status attempt = j_status job ⌋ && negb (is_terminal_value (a_status attempt)) &&
  is_none (a_telemetry_log_count attempt) && is_none (a_telemetry_metric_count attempt) &&
  ⌊ w_current_job_id locked_worker = Some job_id ⌋.

(** A finished attempt accepts only sequences below its watermark. *)
Definition check_watermark (kind : batch_kind) (sequences : list Z) (attempt : JobAttempt) : M () :=
  match a_telemetry_log_count attempt, a_telemetry_metric_count attempt with
  | Some log_count, Some metric_count =>
      let watermark := match kind with logs_batch => log_count | metrics_batch => metric_count end in
      reject_if (existsb (λ sequence, watermark <=? sequence) sequences) 409
        "telemetry sequence exceeds terminal watermark"
  | _, _ => http 409 "terminal attempt has no telemetry watermarks"
  end.

(** The locked rows are an active claim, or a finished one with room for the sequences. *)
Definition judge_telemetry_claim (worker_id job_id attempt_id : string) (kind : batch_kind)
    (sequences : list Z) (lease : JobLease) (job : Job) (attempt : JobAttempt)
    (locked_worker : Worker) : M (JobLease * Job * JobAttempt * bool) :=
  if l_active lease && is_none (l_released_at lease) then
    now ← utc_now;
    _ ← reject_if (l_expires_at lease <=? now) 409 "job lease expired";
    _ ← reject_if (negb (active_claim_ok worker_id job_id attempt_id job attempt
                           locked_worker)) 409 telemetry_claim_changed;
    mret (lease, job, attempt, false)
  else
    _ ← reject_if (l_active lease || is_none (l_released_at lease) ||
                   is_none (a_finished_at attempt) ||
                   negb (is_terminal_value (a_status attempt))) 409
          "job lease is not a terminal telemetry lease";
    _ ← check_watermark kind sequences attempt;
    mret (lease, job, attempt, true).

(** [_lock_telemetry_claim]; the flag is [late]. *)
Definition lock_telemetry_claim (worker_id job_id lease_id attempt_id : string) (kind : batch_kind)
    (sequences : list Z) : M (JobLease * Job * JobAttempt * bool) :=
  lease ← lock_row (LockLease lease_id)
    (λ d, l ← leases d !! lease_id;
          if ⌊ l_job_id l = job_id ⌋ && ⌊ l_worker_id l = worker_id ⌋ then Some l else None);
  match lease with
  | None => http 409 "invalid job lease"
  | Some lease =>
      _ ← reject_if (negb ⌊ l_attempt_id lease = attempt_id ⌋) 409
            "batch attempt does not match lease";
      job ← lock_row (LockJob job_id) (λ d, jobs d !! job_id);
      attempt ← lock_row (LockAttempt attempt_id) (λ d, attempts d !! attempt_id);
      locked_worker ← lock_row (LockWorker worker_id) (λ d, workers d !! worker_id);
      match job, attempt, locked_worker with
      | Some job, Some attempt, Some locked_worker =>
          _ ← reject_if (negb ⌊ a_job_id attempt = job_id ⌋ ||
                         negb ⌊ a_worker_id attempt = worker_id ⌋ ||
                         negb (w_is_active locked_worker)) 409 telemetry_claim_changed;
          match validated_job_config job (Some attempt) with
          | inl _ => http 409 "job configuration integrity check failed"
          | inr _ =>
              judge_telemetry_claim worker_id job_id attempt_id kind sequences lease job attempt
                locked_worker
          end
      | _, _, _ => http 409 telemetry_claim_changed
      end
  end.

(** [raise _retryable_telemetry_fence_conflict()] *)
Definition retryable_fence_conflict {A} : M A :=
  http 503 "telemetry claim changed; retry against the terminal watermark".

(** The subquery of the fence. *)
Definition active_lease_exists (worker_id job_id lease_id attempt_id : string) (now : Z) (d : DB)
    : bool :=
  match leases d !! lease_id with
  | Some l => ⌊ l_job_id l = job_id ⌋ && ⌊ l_attempt_id l = attempt_id ⌋ &&
              ⌊ l_worker_id l = worker_id ⌋ && l_active l && is_none (l_released_at l) &&
              (now <? l_expires_at l)
  | None => false
  end.

(** [_acquire_active_telemetry_write_fence] *)
Definition acquire_active_telemetry_write_fence (worker_id job_id lease_id attempt_id : string)
    (kind : batch_kind) (sequences : list Z) : M (JobLease * Job * JobAttempt) :=
  now ← utc_now;
  _ ← catch pop_outcome (on_db_error [OperationalError] (_ ← rollback; retryable_fence_conflict));
  lease_ok ← ask (active_lease_exists worker_id job_id lease_id attempt_id now);
  fenced ← update_job_where job_id
    (λ j, ⌊ j_worker_id j = Some worker_id ⌋ && ⌊ j_current_attempt_id j = Some attempt_id ⌋ &&
          is_none (j_cancel_requested_at j) && negb (is_terminal_value (j_status j)) && lease_ok)
    (λ j, j);
  _ ← when (negb fenced) retryable_fence_conflict;
  claim ← lock_telemetry_claim worker_id job_id lease_id attempt_id kind sequences;
  let '(lease, job, attempt, late) := claim in
  _ ← when (late || is_some (j_cancel_requested_at job)) retryable_fence_conflict;
  mret (lease, job, attempt).

(** ** Entries *)

(** [_log_entry_matches] *)
Definition log_entry_matches (stored : JobLog) (entry : LogEntry) : bool :=
  ⌊ lg_level stored = LogLevel_value (le_level entry) ⌋ &&
  ⌊ lg_message stored = redact_log_text (le_message entry) ⌋ &&
  py_eqb (lg_fields_json stored) (redact_log_fields (le_fields entry)) &&
  (negb (le_occurred_at_set entry) || (lg_occurred_at stored =? le_occurred_at entry)).

(** [_metric_entry_matches] *)
Definition metric_entry_matches (stored : Metric) (entry : MetricEntry) : bool :=
  ⌊ m_key stored = me_key entry ⌋ && SFeqb (m_value stored) (me_value entry) &&
  ⌊ m_epoch stored = me_epoch entry ⌋ && ⌊ m_step stored = me_step entry ⌋ &&
  (negb (me_occurred_at_set entry) || (m_occurred_at stored =? me_occurred_at entry)).

(** [int(value)], when [value.is_integer()]. *)
Definition float_integer (f : spec_float) : option Z :=
  match f with
  | S754_zero _ => Some 0
  | S754_finite s m e =>
      let m := if s then Z.neg m else Z.pos m in
      if 0 <=? e then Some (m * 2 ^ e)
      else if m mod 2 ^ (- e) =? 0 then Some (m / 2 ^ (- e)) else None
  | _ => None
  end.

(** [_metric_epoch] *)
Definition metric_epoch (entry : MetricEntry) (total_epoch : Z) : M (option Z) :=
  let epoch := me_epoch entry in
  _ ← reject_if (match epoch with Some n => total_epoch <? n | None => false end) 422
        "metric epoch exceeds total_epoch";
  _ ← reject_if (⌊ me_key entry = "total_epoch" ⌋ &&
                 negb ⌊ float_integer (me_value entry) = Some total_epoch ⌋) 422
        "total_epoch metric does not match Job";
  if negb ⌊ me_key entry = "current_epoch" ⌋ then mret epoch else
  match float_integer (me_value entry) with
  | None => http 422 "current_epoch metric must be an integer"
  | Some current_epoch =>
      _ ← reject_if (current_epoch <? 0) 422 "current_epoch metric must be an integer";
      _ ← reject_if (total_epoch <? current_epoch) 422 "current_epoch metric exceeds total_epoch";
      _ ← reject_if (match epoch with Some n => negb (n =? current_epoch) | None => false end) 422
            "current_epoch metric conflicts with epoch";
      mret (Some current_epoch)
  end.

(** ** Insertion *)

(** The row of an entry.  A sequence is unique in an attempt, an id in the table. *)
Definition log_row (id job_id attempt_id : string) (entry : LogEntry) : JobLog :=
  mkJobLog id job_id attempt_id (le_sequence entry) (LogLevel_value (le_level entry))
    (redact_log_text (le_message entry)) (redact_log_fields (le_fields entry))
    (le_occurred_at entry).
Definition put_log (job_id attempt_id : string) (line : string * LogEntry) (d : DB) : DB :=
  d <| job_logs := <[(attempt_id, le_sequence line.2) := log_row line.1 job_id attempt_id line.2]>
         (job_logs d) |>.
Definition log_taken (attempt_id : string) (line : string * LogEntry) (d : DB) : bool :=
  is_some (job_logs d !! (attempt_id, le_sequence line.2)) ||
  existsb (λ row, ⌊ lg_id row = line.1 ⌋) (rows (job_logs d)).
Definition add_log (job_id attempt_id : string) (entry : LogEntry) : M () :=
  id ← new_id;
  add_unique (log_taken attempt_id (id, entry)) (put_log job_id attempt_id (id, entry)).

Definition metric_row (id job_id attempt_id : string) (entry : MetricEntry) : Metric :=
  mkMetric id job_id attempt_id (me_sequence entry) (me_epoch entry) (me_step entry)
    (me_key entry) (me_value entry) (me_occurred_at entry).
Definition put_metric (job_id attempt_id : string) (line : string * MetricEntry) (d : DB) : DB :=
  d <| metrics := <[(attempt_id, me_sequence line.2) := metric_row line.1 job_id attempt_id line.2]>
         (metrics d) |>.
Definition metric_taken (attempt_id : string) (line : string * MetricEntry) (d : DB) : bool :=
  is_some (metrics d !! (attempt_id, me_sequence line.2)) ||
  existsb (λ row, ⌊ m_id row = line.1 ⌋) (rows (metrics d)).
Definition add_metric (job_id attempt_id : string) (entry : MetricEntry) : M () :=
  id ← new_id;
  add_unique (metric_taken attempt_id (id, entry)) (put_metric job_id attempt_id (id, entry)).

(** The commit of a batch: [false] after a conflict, which was rolled back. *)
Definition commit_batch : M bool :=
  catch (_ ← commit; mret true) (λ e,
    match e with
    | DatabaseError OperationalError => Some (_ ← rollback; retryable_fence_conflict)
    | DatabaseError _ => Some (_ ← rollback; mret false)
    | _ => None
    end).

(** After a conflict: the batch of the request that won is verified as a replay. *)
Definition raced_replay (worker_id job_id lease_id attempt_id idempotency_key : string)
    (kind : batch_kind) (sequences : list Z) (fingerprint : string) : M () :=
  raced ← ask (find_ingest_batch attempt_id (batch_type kind) idempotency_key);
  match raced with
  | None => http 409 "telemetry ingest conflicted"
  | Some raced =>
      _ ← validate_batch_replay raced fingerprint;
      _ ← lock_telemetry_claim worker_id job_id lease_id attempt_id kind sequences;
      rollback
  end.

(** ** Logs *)

(** [ingest_logs] *)
Definition ingest_logs (job_id : string) (payload : LogBatch) (worker_id : string)
    : M OperationAck :=
  fingerprint ← log_batch_fingerprint payload;
  let sequences := map le_sequence (lb_entries payload) in
  claim ← lock_telemetry_claim worker_id job_id (lb_lease_id payload) (lb_attempt_id payload)
            logs_batch sequences;
  let '(lease, _, _, late) := claim in
  replay ← ask (find_ingest_batch (l_attempt_id lease) "logs" (lb_idempotency_key payload));
  match replay with
  | Some replay => _ ← validate_batch_replay replay fingerprint; _ ← rollback; mret duplicate_ack
  | None =>
      existing ← ask (λ d sequence, job_logs d !! (l_attempt_id lease, sequence));
      _ ← for_each (lb_entries payload) (λ entry,
            match existing (le_sequence entry) with
            | Some stored => reject_if (negb (log_entry_matches stored entry)) 409
                               "log sequence conflicts with prior payload"
            | None => mret ()
            end);
      let new_entries :=
        List.filter (λ entry, is_none (existing (le_sequence entry))) (lb_entries payload) in
      lease ← (if late : bool then mret lease
               else fenced ← acquire_active_telemetry_write_fence worker_id job_id
                               (lb_lease_id payload) (lb_attempt_id payload) logs_batch sequences;
                    mret fenced.1.1);
      _ ← for_each new_entries (add_log job_id (l_attempt_id lease));
      _ ← add_ingest_batch (mkIngestBatch job_id (l_attempt_id lease) "logs"
            (lb_idempotency_key payload) (Some fingerprint) (Zlength new_entries));
      committed ← commit_batch;
      if committed : bool then mret (mkOperationAck (Zlength new_entries) false)
      else
        _ ← raced_replay worker_id job_id (lb_lease_id payload) (lb_attempt_id payload)
              (lb_idempotency_key payload) logs_batch sequences fingerprint;
        mret duplicate_ack
  end.

(** ** Metrics *)

(** [max(projected_epochs)], when there is one *)
Definition max_epoch (epochs : list Z) : option Z :=
  match epochs with [] => None | x :: xs => Some (foldr Z.max x xs) end.

(** [job.current_epoch = projected_epoch], when it moves the Job forward. *)
Definition project_epoch (job : Job) (projected : option Z) : M Job :=
  match projected with
  | Some n =>
      if match j_current_epoch job with Some m => m <? n | None => true end
      then let job' := job <| j_current_epoch := Some n |> in _ ← save_job job'; mret job'
      else mret job
  | None => mret job
  end.

(** The writes of a metric batch and its commit. *)
Definition store_metric_batch (job_id : string) (payload : MetricBatch)
    (worker_id fingerprint : string) (lease : JobLease) (job : Job) (attempt : JobAttempt)
    (projected : option Z) (new_entries : list MetricEntry) : M OperationAck :=
  job ← project_epoch job projected;
  _ ← for_each new_entries (add_metric job_id (l_attempt_id lease));
  _ ← add_ingest_batch (mkIngestBatch job_id (l_attempt_id lease) "metrics"
        (mb_idempotency_key payload) (Some fingerprint) (Zlength new_entries));
  event_key ← enqueue_metric_batch settings job (a_id attempt) (mb_idempotency_key payload);
  committed ← commit_batch;
  if committed : bool then
    _ ← sync_after_commit settings event_key;
    mret (mkOperationAck (Zlength new_entries) false)
  else
    _ ← raced_replay worker_id job_id (mb_lease_id payload) (mb_attempt_id payload)
          (mb_idempotency_key payload) metrics_batch (map me_sequence (mb_entries payload))
          fingerprint;
    _ ← sync_after_commit settings
          (Some (metric_event_key (mb_attempt_id payload) (mb_idempotency_key payload)));
    mret duplicate_ack.

(** [ingest_metrics] *)
Definition ingest_metrics (job_id : string) (payload : MetricBatch) (worker_id : string)
    : M OperationAck :=
  let key := metric_event_key (mb_attempt_id payload) (mb_idempotency_key payload) in
  fingerprint ← metric_batch_fingerprint payload;
  let sequences := map me_sequence (mb_entries payload) in
  claim ← lock_telemetry_claim worker_id job_id (mb_lease_id payload) (mb_attempt_id payload)
            metrics_batch sequences;
  let '(lease, job, attempt, late) := claim in
  replay ← ask (find_ingest_batch (l_attempt_id lease) "metrics" (mb_idempotency_key payload));
  match replay with
  | Some replay =>
      _ ← validate_batch_replay replay fingerprint;
      _ ← rollback;
      _ ← sync_after_commit settings (Some key);
      mret duplicate_ack
  | None =>
      incoming_epochs ← collect (mb_entries payload) (λ e, metric_epoch e (j_total_epoch job));
      existing ← ask (λ d sequence, metrics d !! (l_attempt_id lease, sequence));
      _ ← for_each (mb_entries payload) (λ entry,
            match existing (me_sequence entry) with
            | Some stored => reject_if (negb (metric_entry_matches stored entry)) 409
                               "metric sequence conflicts with prior payload"
            | None => mret ()
            end);
      let is_new entry := is_none (existing (me_sequence entry)) in
      let new_entries := List.filter is_new (mb_entries payload) in
      rows ← (if late : bool then mret (lease, job, attempt)
              else acquire_active_telemetry_write_fence worker_id job_id (mb_lease_id payload)
                     (mb_attempt_id payload) metrics_batch sequences);
      let '(lease, job, attempt) := rows in
      let projected_epochs :=
        omap (λ p : MetricEntry * option Z, if is_new p.1 then p.2 else None)
          (zip (mb_entries payload) incoming_epochs) in
      store_metric_batch job_id payload worker_id fingerprint lease job attempt
        (if late : bool then None else max_epoch projected_epochs) new_entries
  end.

(** ** Artifacts of test Workers *)

(** The scheme [urllib.parse.urlparse] finds: leading controls and spaces are
    dropped, tabs and newlines are ignored.  The [ValueError] of a malformed host is
    not modelled. *)
Definition is_scheme_char (c : ascii) : bool :=
  is_alnum c || (code c =? 43) || (code c =? 45) || (code c =? 46).
Fixpoint drop_controls (cs : list ascii) : list ascii :=
  match cs with c :: rest => if code c <=? 32 then drop_controls rest else cs | [] => [] end.
Definition lower (c : ascii) : ascii := if is_upper c then chr (code c + 32) else c.
Definition url_scheme (url : string) : string :=
  let cs := List.filter (λ c, negb ⌊ code c ∈ [9; 10; 13] ⌋) (drop_controls (str_chars url)) in
  let '(scheme, separator, _) := partition_on (chr 58) (String.string_of_list_ascii cs) in
  match str_chars scheme with
  | c :: _ =>
      if ⌊ separator = "" ⌋ || negb (is_lower c || is_upper c) ||
         negb (all_chars is_scheme_char scheme) then ""
      else String.string_of_list_ascii (map lower (str_chars scheme))
  | [] => ""
  end.

Definition fake_item (item : ArtifactItem) : bool :=
  ⌊ url_scheme (ai_storage_uri item) = "file" ⌋ &&
  ⌊ json_get "fake" (ai_metadata item) = Some (JBool true) ⌋.

Definition put_artifact (a : Artifact) (d : DB) : DB :=
  d <| artifact_rows := <[ar_id a := a]> (artifact_rows d) |>.
Definition add_artifact (a : Artifact) : M () :=
  add_unique (λ d, is_some (artifact_rows d !! ar_id a) ||
        existsb (λ x, ⌊ ar_attempt_id x = ar_attempt_id a ⌋ &&
                      ⌊ ar_artifact_type x = ar_artifact_type a ⌋ && ⌊ ar_sha256 x = ar_sha256 a ⌋)
          (rows (artifact_rows d))) (put_artifact a).

(** [ingest_artifacts] *)
Definition ingest_artifacts (job_id : string) (payload : ArtifactBatch) (worker_id : string)
    : M OperationAck :=
  lease ← require_active_lease worker_id job_id (ab_lease_id payload) false;
  let attempt_id := l_attempt_id lease in
  _ ← reject_if (negb ⌊ attempt_id = ab_attempt_id payload ⌋) 409
        "batch attempt does not match lease";
  attempt ← ask (λ d, attempts d !! attempt_id);
  _ ← reject_if (negb (match attempt with Some a => allow_legacy_fake settings a | None => false end))
        403 "metadata-only artifacts are restricted to fake test workers";
  _ ← reject_if (negb (forallb fake_item (ab_artifacts payload))) 422
        "fake metadata artifacts require file:// URIs and fake=true metadata";
  duplicate ← ask (is_duplicate_batch attempt_id "artifacts" (ab_idempotency_key payload));
  if duplicate : bool then
    existing ← ask (λ d, where_ (λ a, ⌊ ar_attempt_id a = attempt_id ⌋ &&
      ⌊ ar_sha256 a ∈ map ai_sha256 (ab_artifacts payload) ⌋) (artifact_rows d));
    _ ← for_each existing (λ a, sync_after_commit settings (Some (artifact_event_key (ar_id a))));
    mret duplicate_ack
  else
    existing ← ask (λ d, map (λ a, (ar_artifact_type a, ar_sha256 a))
      (where_ (λ a, ⌊ ar_attempt_id a = attempt_id ⌋) (artifact_rows d)));
    let new_items := List.filter
      (λ item, negb ⌊ (ArtifactType_value (ai_artifact_type item), ai_sha256 item) ∈ existing ⌋)
      (ab_artifacts payload) in
    _ ← interleave;
    artifacts ← collect new_items (λ item,
      id ← new_id;
      let a := mkArtifact id job_id attempt_id (ArtifactType_value (ai_artifact_type item))
                 (ai_filename item) (ai_storage_uri item) (ai_size_bytes item) (ai_sha256 item)
                 (ai_mime_type item) (ai_metadata item) in
      _ ← add_artifact a; mret a);
    _ ← add_ingest_batch (mkIngestBatch job_id attempt_id "artifacts" (ab_idempotency_key payload)
          None (Zlength new_items));
    _ ← flush;
    job ← ask (λ d, jobs d !! job_id);
    match job with
    | None => http 409 "job is no longer available"
    | Some job =>
        event_keys ← collect artifacts (enqueue_artifact settings job);
        _ ← commit;
        _ ← for_each event_keys (sync_after_commit settings);
        mret (mkOperationAck (Zlength new_items) false)
    end.
End telemetry.
