(* ===== verification/Accounts.v ===== *)
(** * Accounts

    Model of the accounts of the users' API: [apps/api/src/rvc_manager_api/security.py]
    (passwords and access tokens), [require_user_auth] and [require_admin_user] of
    [dependencies.py], [routers/auth.py], [routers/users.py] and [ensure_admin_user] of
    [bootstrap.py].

    Argon2 (pwdlib) and JSON web tokens (PyJWT) are the interfaces [PasswordHasher] and
    [JwtLibrary].  Every administrator write updates the bootstrap row first: the UPDATE
    waits for the row, and everything after it runs behind that lock. *)

From S2P Require Import Prelude Sha256 Json DateTime PyText Settings Ledger Session.

(** [argon2_hash salt password]; [argon2_verify password hash] is [None] when it raises. *)
Class PasswordHasher := {
  argon2_hash : nat → string → string;
  argon2_verify : string → string → option bool;
  dummy_salt : nat }.

(** [jwt_decode token secret audience issuer leeway now] is [None] on an
    [InvalidTokenError]; times are in microseconds. *)
Class JwtLibrary := {
  jwt_encode : list (string * json) → string → string;
  jwt_decode : string → string → string → string → Z → Z → option (list (string * json)) }.

Section accounts.
  Context `{UnicodeTables} `{PasswordHasher} `{JwtLibrary} `{Platform}.
  Variable settings : Settings.

(** ** [security.py] *)

(** [normalize_email]; [None] is the [ValueError]. *)
Definition normalize_email (value : string) : option string :=
  let normalized := py_casefold (py_strip value) in
  if negb ((3 <=? py_len normalized) && (py_len normalized <=? 320)) ||
     negb (email_pattern normalized) then None
  else Some normalized.

Definition hash_password (password : string) : M string :=
  if negb ((12 <=? py_len password) && (py_len password <=? 1024))
  then raise (ValueError "password must contain between 12 and 1024 characters")
  else salt ← fresh; mret (argon2_hash salt password).

Definition is_control (c : ascii) : bool := (code c <? 32) || (code c =? 127).
Definition is_compact (c : ascii) : bool := is_lower c || is_digit c.

Definition compact (folded : string) : string :=
  String.string_of_list_ascii (List.filter is_compact (str_chars folded)).

(** The local part of the address, folded. *)
Definition local_part (email : string) : string :=
  let '(local, _, _) := partition_on (chr 64) email in py_casefold local.

(** [validate_management_password] does not raise. *)
Definition management_password_ok (password email : string) : bool :=
  let folded := py_casefold password in
  (16 <=? py_len password) && (py_len password <=? 1024) &&
  negb (existsb is_control (str_chars password)) &&
  (8 <=? Zlength (remove_dups (utf8_chars password))) &&
  negb ((3 <=? py_len (local_part email)) && contains folded (local_part email)) &&
  negb ⌊ compact folded ∈ ["passwordpassword"; "administrator"; "changemechangeme";
                           "correcthorsebatterystaple"] ⌋.

Definition DUMMY_PASSWORD_HASH : string :=
  argon2_hash dummy_salt "rvc-login-enumeration-dummy-password".

(** The second verification, of a malformed stored hash, only takes its time. *)
Definition verify_password (password : string) (encoded_hash : option string) : M bool :=
  let candidate := if truthy encoded_hash then default "" encoded_hash
                   else DUMMY_PASSWORD_HASH in
  match argon2_verify password candidate with
  | Some verified => mret (is_some encoded_hash && verified)
  | None =>
      if is_some encoded_hash && is_none (argon2_verify password DUMMY_PASSWORD_HASH)
      then raise (ValueError "password hash") else mret false
  end.

Definition audit_email_fingerprint (email : string) : string := sha256_hex email.

Record AccessTokenClaims := mkAccessTokenClaims {
  tc_subject : string;
  tc_jti : string;
  tc_issued_at : Z;
  tc_expires_at : Z;
  tc_access_token_version : Z }.

(** The payload of a token. *)
Definition token_payload (c : AccessTokenClaims) : list (string * json) :=
  [("sub", JString (tc_subject c)); ("jti", JString (tc_jti c));
   ("iat", JInt (tc_issued_at c / 1000000)); ("exp", JInt (tc_expires_at c / 1000000));
   ("iss", JString (jwt_issuer settings)); ("aud", JString (jwt_audience settings));
   ("ver", JInt (tc_access_token_version c))].

Definition issue_access_token (user_id : string) (access_token_version : Z)
    : M (string * AccessTokenClaims) :=
  if access_token_version <? 1 then raise (ValueError "access token version must be positive") else
  now ← utc_now;
  let issued_at := now - now mod 1000000 in
  let expires_at := issued_at + seconds (jwt_access_ttl_seconds settings) in
  jti ← new_id;
  let claims := mkAccessTokenClaims user_id jti issued_at expires_at access_token_version in
  mret (jwt_encode (token_payload claims) (jwt_secret settings), claims).

(** [isinstance(value, int)] *)
Definition int_value (j : json) : option Z :=
  match j with JInt n => Some n | JBool b => Some (if b then 1 else 0) | _ => None end.

(** [datetime.fromtimestamp(n, UTC)]: the years 1 to 9999. *)
Definition from_timestamp (n : Z) : option Z :=
  if (-62135596800 <=? n) && (n <=? 253402300799) then Some (n * 1000000) else None.

(** The checks of [decode_access_token] on a payload; [None] is [InvalidAccessToken]. *)
Definition payload_claims (payload : list (string * json)) : option (string * string * Z * Z * Z) :=
  let get key := json_get key (JObject payload) in
  match get "sub", get "jti", get "iat", get "exp", get "ver" with
  | Some (JString subject), Some (JString jti), Some iat, Some exp_, Some (JInt version) =>
      issued_at ← int_value iat; expires_at ← int_value exp_;
      if (version <? 1) || negb (is_uuid subject) || negb (is_uuid jti) then None
      else Some (subject, jti, issued_at, expires_at, version)
  | _, _, _, _, _ => None
  end.

(** [decode_access_token]; a timestamp out of range is a [ValueError], not a refusal. *)
Definition decode_access_token (token : string) : M (option AccessTokenClaims) :=
  now ← utc_now;
  match (payload ← jwt_decode token (jwt_secret settings) (jwt_audience settings)
                     (jwt_issuer settings) (seconds (jwt_leeway_seconds settings)) now;
         payload_claims payload) with
  | None => mret None
  | Some (subject, jti, issued_at, expires_at, version) =>
      match from_timestamp issued_at, from_timestamp expires_at with
      | Some issued_at, Some expires_at =>
          mret (Some (mkAccessTokenClaims subject jti issued_at expires_at version))
      | _, _ => raise (ValueError "timestamp out of range")
      end
  end.

(** ** [dependencies.py] *)

Record UserAuthContext := mkUserAuthContext {
  au_user : User;
  au_claims : AccessTokenClaims }.

(** What the claims of a token say of its account. *)
Definition claims_hold (claims : AccessTokenClaims) (user : User) : bool :=
  negb (u_disabled user) &&
  (u_access_token_version user =? tc_access_token_version claims).

Definition unauthorized {A} : M A := http 401 "invalid or expired access token".

(** [bearer] is the scheme in lower case and the credentials of the header. *)
Definition require_user_auth (bearer : option (string * string)) : M UserAuthContext :=
  match bearer with
  | Some (scheme, credentials) =>
      if negb ⌊ scheme = "bearer" ⌋ then http 401 "user bearer token required" else
      decoded ← decode_access_token credentials;
      match decoded with
      | None => unauthorized
      | Some claims =>
          revoked ← ask (λ d, is_some (revoked_tokens d !! tc_jti claims));
          if revoked : bool then unauthorized else
          _ ← interleave;
          found ← ask (λ d, users d !! tc_subject claims);
          match found with
          | None => unauthorized
          | Some user =>
              if negb (claims_hold claims user) then unauthorized
              else mret (mkUserAuthContext user claims)
          end
      end
  | None => http 401 "user bearer token required"
  end.

Definition current_user (bearer : option (string * string)) : M User :=
  auth ← require_user_auth bearer; mret (au_user auth).

Definition require_admin_user (bearer : option (string * string)) : M User :=
  auth ← require_user_auth bearer;
  _ ← reject_if (negb ⌊ u_role (au_user auth) = "admin" ⌋) 403 "administrator role required";
  mret (au_user auth).

(** ** [routers/auth.py] *)

Record LoginRequest := mkLoginRequest { lq_email : string; lq_password : string }.

(** The validators; [None] is a validation error. *)
Definition LoginRequest_of (email password : string) : option LoginRequest :=
  if (3 <=? py_len email) && (py_len email <=? 320) &&
     (1 <=? py_len password) && (py_len password <=? 1024)
  then normalized ← normalize_email email; Some (mkLoginRequest normalized password)
  else None.

Record AccessTokenResponse := mkAccessTokenResponse {
  at_access_token : string;
  at_expires_in : Z }.

Definition user_by_email (email : string) (d : DB) : option User :=
  List.find (λ u, ⌊ u_email u = email ⌋) (rows (users d)).

Definition login_failed (payload : LoginRequest) : M AccessTokenResponse :=
  _ ← add_audit_event "anonymous" None "auth.login.failed" "user" None
        [("email_fingerprint", JString (audit_email_fingerprint (lq_email payload)))];
  _ ← commit;
  http 401 "incorrect email or password".

Definition login (payload : LoginRequest) : M AccessTokenResponse :=
  found ← ask (user_by_email (lq_email payload));
  _ ← interleave;
  password_ok ← verify_password (lq_password payload) (u_password_hash <$> found);
  match found with
  | None => login_failed payload
  | Some user =>
      if negb password_ok || u_disabled user then login_failed payload else
      '(token, claims) ← issue_access_token (u_id user) (u_access_token_version user);
      _ ← add_audit_event "user" (Some (u_id user)) "auth.login.succeeded" "user"
            (Some (u_id user))
            [("jti", JString (tc_jti claims));
             ("expires_at", JString (isoformat (tc_expires_at claims)))];
      _ ← commit;
      mret (mkAccessTokenResponse token (jwt_access_ttl_seconds settings))
  end.

Definition revoke_token (t : RevokedAccessToken) (d : DB) : DB :=
  d <| revoked_tokens := <[rt_jti t := t]> (revoked_tokens d) |>.

(** The jti is taken, or the account is missing. *)
Definition revocation_conflict (t : RevokedAccessToken) (d : DB) : bool :=
  is_some (revoked_tokens d !! rt_jti t) || is_none (users d !! rt_user_id t).

(** The INSERT may wait for that of a concurrent logout. *)
Definition logout (auth : UserAuthContext) : M () :=
  let claims := au_claims auth in
  let user_id := u_id (au_user auth) in
  let revoked := mkRevokedAccessToken (tc_jti claims) user_id (tc_expires_at claims) in
  _ ← interleave;
  _ ← add_unique (revocation_conflict revoked) (revoke_token revoked);
  _ ← add_audit_event "user" (Some user_id) "auth.logout" "access_token" (Some (tc_jti claims))
        [("expires_at", JString (isoformat (tc_expires_at claims)))];
  catch commit (on_db_error [IntegrityError] rollback).
End accounts.
