(* ===== verification/UserAdmin.v ===== *)
(** * Administration of accounts

    Model of [apps/api/src/rvc_manager_api/routers/users.py], the lifecycle of accounts
    with its idempotency ledger, and of [ensure_admin_user] of [bootstrap.py], which
    creates the first administrator.  An answer is the body and whether it replays a
    recorded operation. *)

From S2P Require Import Prelude Sha256 Json DateTime PyText Settings Ledger Session Accounts.

(** [Literal["admin", "user"]] *)
Inductive Role := RoleAdmin | RoleUser.
Definition Role_value (r : Role) : string :=
  match r with RoleAdmin => "admin" | RoleUser => "user" end.

Record AdminUserAccessUpdate := mkAdminUserAccessUpdate {
  up_expected_row_version : Z;
  up_role : Role;
  up_active : bool }.

Record AdminUserCreate := mkAdminUserCreate {
  uc_email : string;
  uc_password : string;
  uc_role : Role;
  uc_active : bool }.

Record AdminUserPasswordReset := mkAdminUserPasswordReset {
  pr_expected_row_version : Z;
  pr_new_password : string }.

(** [ge=1, le=2_147_483_647] *)
Definition row_version_field (n : Z) : bool := (1 <=? n) && (n <=? 2147483647).
Definition password_field (password : string) : bool :=
  (16 <=? py_len password) && (py_len password <=? 1024).

Definition AdminUserAccessUpdate_valid (p : AdminUserAccessUpdate) : bool :=
  row_version_field (up_expected_row_version p).
Definition AdminUserPasswordReset_valid (p : AdminUserPasswordReset) : bool :=
  row_version_field (pr_expected_row_version p) && password_field (pr_new_password p).

(** [[A-Za-z0-9][A-Za-z0-9._:-]{0,127}] *)
Definition IdempotencyKey_valid (key : string) : bool :=
  match key with
  | EmptyString => false
  | String c rest =>
      is_alnum c && all_chars (λ c, is_name_char c || (code c =? 58)) rest &&
      (Z.of_nat (String.length key) <=? 128)
  end.

Definition IDEMPOTENCY_CONFLICT : string :=
  "idempotency key conflicts with a prior user lifecycle request".
Definition STALE_USER : string := "user changed; refresh and retry".
Definition PASSWORD_POLICY : string :=
  "password does not satisfy the administrator password policy".

(** [_to_read] *)
Definition to_read (user : User) : AdminUserRead :=
  mkAdminUserRead (u_id user) (u_email user) (u_role user) (negb (u_disabled user))
    (u_row_version user) (u_created_at user) (u_updated_at user).

Definition idempotency_key_hash (value : string) : string := sha256_hex value.

Section administration.
  Context `{UnicodeTables} `{PasswordHasher} `{JwtLibrary} `{Platform}.
  Variable settings : Settings.

(** The validators of [AdminUserCreate]; [None] is a validation error. *)
Definition AdminUserCreate_of (email password : string) (role : Role) (active : bool)
    : option AdminUserCreate :=
  if (3 <=? py_len email) && (py_len email <=? 320) && password_field password
  then normalized ← normalize_email email; Some (mkAdminUserCreate normalized password role active)
  else None.

(** [_request_fingerprint] *)
Definition request_fingerprint (operation_type resource_id : string)
    (document : list (string * json)) : M string :=
  match json_dumps (JObject [("operation_type", JString operation_type);
                             ("resource_id", JString resource_id);
                             ("document", JObject document)]) with
  | Some canonical => mret (hmac_sha256_hex (jwt_secret settings) canonical)
  | None => raise (ValueError "Out of range float values are not JSON compliant")
  end.

Definition create_document (payload : AdminUserCreate) : list (string * json) :=
  [("email", JString (uc_email payload)); ("password", JString (uc_password payload));
   ("role", JString (Role_value (uc_role payload))); ("active", JBool (uc_active payload))].
Definition update_document (payload : AdminUserAccessUpdate) : list (string * json) :=
  [("expected_row_version", JInt (up_expected_row_version payload));
   ("role", JString (Role_value (up_role payload))); ("active", JBool (up_active payload))].
Definition reset_document (payload : AdminUserPasswordReset) : list (string * json) :=
  [("expected_row_version", JInt (pr_expected_row_version payload));
   ("new_password", JString (pr_new_password payload))].

(** ** Guards and the idempotency ledger *)

(** [_replay_or_none] *)
Definition replay_or_none (actor_id key_hash operation_type fingerprint : string)
    : M (option AdminUserRead) :=
  _ ← interleave;
  operation ← ask (λ d, admin_operations d !! (actor_id, key_hash));
  match operation with
  | None => mret None
  | Some operation =>
      _ ← reject_if (negb ⌊ op_operation_type operation = operation_type ⌋ ||
                     negb ⌊ op_request_fingerprint operation = fingerprint ⌋) 409
            IDEMPOTENCY_CONFLICT;
      mret (Some (op_response operation))
  end.

Definition put_bootstrap (state : AdminBootstrapState) (d : DB) : DB :=
  d <| bootstrap_state := Some state |>.
(** [lock_version=AdminBootstrapState.lock_version + 1] *)
Definition next_lock (state : AdminBootstrapState) : AdminBootstrapState :=
  state <| bs_lock_version := bs_lock_version state + 1 |>.

(** [_lock_lifecycle_fence] *)
Definition lock_lifecycle_fence (actor_id : string) : M User :=
  state ← lock_row LockBootstrapState bootstrap_state;
  match state with
  | None => http 503 "administrator lifecycle fence is unavailable"
  | Some state =>
      _ ← write (put_bootstrap (next_lock state));
      actor ← lock_row (LockUser actor_id) (λ d, users d !! actor_id);
      match actor with
      | None => http 403 "administrator role required"
      | Some actor =>
          _ ← reject_if (u_disabled actor || negb ⌊ u_role actor = "admin" ⌋) 403
                "administrator role required";
          mret actor
      end
  end.

(** [_locked_user] *)
Definition locked_user (user_id : string) : M User :=
  found ← lock_row (LockUser user_id) (λ d, users d !! user_id);
  match found with
  | None => http 404 "user not found"
  | Some user => mret user
  end.

Definition put_operation (o : AdminUserOperation) (d : DB) : DB :=
  d <| admin_operations :=
    <[(op_actor_id o, op_idempotency_key_hash o) := o]> (admin_operations d) |>.

(** The key is taken, or an account it names is missing. *)
Definition operation_conflict (o : AdminUserOperation) (d : DB) : bool :=
  is_some (admin_operations d !! (op_actor_id o, op_idempotency_key_hash o)) ||
  is_none (users d !! op_actor_id o) || is_none (users d !! op_resource_id o).

(** [_record_operation] *)
Definition record_operation (actor_id key_hash operation_type fingerprint : string)
    (result : AdminUserRead) : M () :=
  let o := mkAdminUserOperation actor_id key_hash fingerprint operation_type (ur_id result)
             result in
  add_unique (operation_conflict o) (put_operation o).

Definition validate_new_password (password email : string) : M () :=
  reject_if (negb (management_password_ok password email)) 422 PASSWORD_POLICY.

Definition put_user (u : User) (d : DB) : DB := d <| users := <[u_id u := u]> (users d) |>.

(** The flush of a loaded User: a changed row gets the next version and a new
    [updated_at]. *)
Definition flush_user (loaded user : User) : M User :=
  if decide (user = loaded) then mret user else
  now ← utc_now;
  let user := user <| u_row_version := u_row_version loaded + 1 |> <| u_updated_at := now |> in
  _ ← write (put_user user);
  mret user.

Definition flush_user_or_stale (loaded user : User) : M User :=
  catch (user ← flush_user loaded user; _ ← flush; mret user)
    (on_db_error [StaleDataError] (_ ← rollback; http 409 STALE_USER)).

Definition user_audit (actor_id action user_id : string) (details : list (string * json)) : M () :=
  add_audit_event "user" (Some actor_id) action "user" (Some user_id) details.

(** ** Reads *)

(** [list_users]: the page and the total. *)
Definition list_users (email : option string) (role : option Role) (active : option bool)
    (offset limit : nat) : M (list AdminUserRead * nat) :=
  match (match email with
         | None => Some None
         | Some e => normalized ← normalize_email e; Some (Some normalized)
         end) with
  | None => http 422 "invalid email filter"
  | Some email =>
      let selected u :=
        match email with Some e => ⌊ u_email u = e ⌋ | None => true end &&
        match role with Some r => ⌊ u_role u = Role_value r ⌋ | None => true end &&
        match active with Some a => Bool.eqb (u_disabled u) (negb a) | None => true end in
      total ← ask (λ d, length (where_ selected (users d)));
      _ ← interleave;
      found ← ask (λ d, order_by (λ a b, lex_leb (u_created_at b) (u_created_at a)
                                           (str_leb (u_id b) (u_id a)))
                          (where_ selected (users d)));
      mret (map to_read (take limit (drop offset found)), total)
  end.

Definition get_user (user_id : string) : M AdminUserRead :=
  found ← ask (λ d, users d !! user_id);
  match found with
  | None => http 404 "user not found"
  | Some user => mret (to_read user)
  end.

(** ** Lifecycle writes

    [with_replay]: the two lookups of a recorded operation around the work of a handler;
    [prepare] runs between them, outside the fence, and [apply] behind it. *)
Definition with_replay {A} (actor_id key_hash operation_type fingerprint : string)
    (prepare : M A) (apply : A → M AdminUserRead) : M (AdminUserRead * bool) :=
  replay ← replay_or_none actor_id key_hash operation_type fingerprint;
  match replay with
  | Some result => mret (result, true)
  | None =>
      _ ← rollback;
      prepared ← prepare;
      _ ← lock_lifecycle_fence actor_id;
      replay ← replay_or_none actor_id key_hash operation_type fingerprint;
      match replay with
      | Some result => _ ← rollback; mret (result, true)
      | None => result ← apply prepared; mret (result, false)
      end
  end.

(** The row a creation inserts. *)
Definition new_user (id : string) (payload : AdminUserCreate) (encoded : string)
    (created_at updated_at : Z) : User :=
  mkUser id 1 (uc_email payload) encoded (Role_value (uc_role payload)) (negb (uc_active payload))
    1 created_at updated_at.

Definition user_conflict (u : User) (d : DB) : bool :=
  is_some (users d !! u_id u) || is_some (user_by_email (u_email u) d).

(** [session.add(user)] and the flush *)
Definition insert_user (u : User) (text : string) : M () :=
  _ ← add_unique (user_conflict u) (put_user u);
  catch flush (on_db_error [IntegrityError] (_ ← rollback; http 409 text)).

(** The body of [create_user] behind the fence. *)
Definition apply_create (actor_id key_hash fingerprint : string) (payload : AdminUserCreate)
    (encoded : string) : M AdminUserRead :=
  taken ← ask (λ d, truthy (u_id <$> user_by_email (uc_email payload) d));
  _ ← reject_if taken 409 "user email already exists";
  id ← new_id;
  created_at ← utc_now;
  updated_at ← utc_now;
  let user := new_user id payload encoded created_at updated_at in
  _ ← insert_user user "user email already exists";
  let result := to_read user in
  _ ← record_operation actor_id key_hash "create" fingerprint result;
  _ ← user_audit actor_id "admin.user.created" (u_id user)
        [("role", JString (u_role user)); ("active", JBool (negb (u_disabled user)));
         ("row_version", JInt 1)];
  _ ← catch commit (on_db_error [IntegrityError] (_ ← rollback; http 409 IDEMPOTENCY_CONFLICT));
  mret result.

Definition create_user (payload : AdminUserCreate) (actor_id idempotency_key : string)
    : M (AdminUserRead * bool) :=
  let key_hash := idempotency_key_hash idempotency_key in
  fingerprint ← request_fingerprint "create" "new" (create_document payload);
  with_replay actor_id key_hash "create" fingerprint
    (_ ← validate_new_password (uc_password payload) (uc_email payload);
     hash_password (uc_password payload))
    (apply_create actor_id key_hash fingerprint payload).

(** The number of active administrators. *)
Definition active_admin_count (d : DB) : nat := length (where_ active_admin (users d)).

Definition access_changes (user : User) (payload : AdminUserAccessUpdate) : list string :=
  (if negb ⌊ u_role user = Role_value (up_role payload) ⌋ then ["role"] else []) ++
  (if negb (Bool.eqb (u_disabled user) (negb (up_active payload))) then ["active"] else []).

(** The row after the assignments of [update_user_access]. *)
Definition accessed_user (user : User) (payload : AdminUserAccessUpdate) : User :=
  if ⌊ access_changes user payload = [] ⌋ then user
  else user <| u_role := Role_value (up_role payload) |>
            <| u_disabled := negb (up_active payload) |>
            <| u_access_token_version := u_access_token_version user + 1 |>.

(** The update takes the rights of an active administrator. *)
Definition removes_active_admin (user : User) (payload : AdminUserAccessUpdate) : bool :=
  active_admin user &&
  (negb ⌊ Role_value (up_role payload) = "admin" ⌋ || negb (up_active payload)).

(** The body of [update_user_access] behind the fence. *)
Definition apply_update (actor_id key_hash fingerprint user_id : string)
    (payload : AdminUserAccessUpdate) : M AdminUserRead :=
  user ← locked_user user_id;
  _ ← reject_if (negb (u_row_version user =? up_expected_row_version payload)) 409 STALE_USER;
  _ ← reject_if (⌊ u_id user = actor_id ⌋ &&
                 (negb ⌊ Role_value (up_role payload) = "admin" ⌋ || negb (up_active payload))) 409
        "administrators cannot disable or demote their own account";
  _ ← (if removes_active_admin user payload then
         count ← ask active_admin_count;
         reject_if ⌊ (count <= 1)%nat ⌋ 409 "at least one active administrator is required"
       else mret ());
  let changed_fields := access_changes user payload in
  saved ← flush_user_or_stale user (accessed_user user payload);
  let result := to_read saved in
  _ ← record_operation actor_id key_hash "access_update" fingerprint result;
  _ ← user_audit actor_id
        (if ⌊ changed_fields = [] ⌋ then "admin.user.access_unchanged"
         else "admin.user.access_updated") (u_id saved)
        [("changed_fields", JArray (map JString changed_fields));
         ("previous_role", JString (u_role user));
         ("new_role", JString (Role_value (up_role payload)));
         ("previous_active", JBool (negb (u_disabled user)));
         ("new_active", JBool (up_active payload));
         ("previous_row_version", JInt (u_row_version user));
         ("new_row_version", JInt (ur_row_version result));
         ("access_tokens_invalidated", JBool (negb ⌊ changed_fields = [] ⌋))];
  _ ← catch commit (on_db_error [IntegrityError; StaleDataError] (_ ← rollback; http 409 STALE_USER));
  mret result.

Definition update_user_access (user_id : string) (payload : AdminUserAccessUpdate)
    (actor_id idempotency_key : string) : M (AdminUserRead * bool) :=
  let key_hash := idempotency_key_hash idempotency_key in
  fingerprint ← request_fingerprint "access_update" user_id (update_document payload);
  with_replay actor_id key_hash "access_update" fingerprint (mret ())
    (λ _, apply_update actor_id key_hash fingerprint user_id payload).

(** The row after the assignments of [reset_user_password]. *)
Definition reset_user (user : User) (encoded : string) : User :=
  user <| u_password_hash := encoded |>
       <| u_access_token_version := u_access_token_version user + 1 |>.

(** The body of [reset_user_password] behind the fence. *)
Definition apply_reset (actor_id key_hash fingerprint user_id : string)
    (payload : AdminUserPasswordReset) (encoded : string) : M AdminUserRead :=
  user ← locked_user user_id;
  _ ← reject_if (negb (u_row_version user =? pr_expected_row_version payload)) 409 STALE_USER;
  _ ← validate_new_password (pr_new_password payload) (u_email user);
  saved ← flush_user_or_stale user (reset_user user encoded);
  let result := to_read saved in
  _ ← record_operation actor_id key_hash "password_reset" fingerprint result;
  _ ← user_audit actor_id "admin.user.password_reset" (u_id saved)
        [("previous_row_version", JInt (u_row_version user));
         ("new_row_version", JInt (ur_row_version result));
         ("access_tokens_invalidated", JBool true)];
  _ ← catch commit (on_db_error [IntegrityError; StaleDataError] (_ ← rollback; http 409 STALE_USER));
  mret result.

Definition reset_user_password (user_id : string) (payload : AdminUserPasswordReset)
    (actor_id idempotency_key : string) : M (AdminUserRead * bool) :=
  let key_hash := idempotency_key_hash idempotency_key in
  fingerprint ← request_fingerprint "password_reset" user_id (reset_document payload);
  with_replay actor_id key_hash "password_reset" fingerprint
    (_ ← interleave;
     unlocked ← ask (λ d, users d !! user_id);
     match unlocked with
     | None => http 404 "user not found"
     | Some unlocked_user =>
         _ ← validate_new_password (pr_new_password payload) (u_email unlocked_user);
         _ ← rollback;
         hash_password (pr_new_password payload)
     end)
    (apply_reset actor_id key_hash fingerprint user_id payload).

(** ** The first administrator *)

Definition bootstrap_error {A} (text : string) : M A := raise (RuntimeError text).

(** The flush of the new row fails when a concurrent bootstrap has inserted it. *)
Definition initial_bootstrap_state : M (option AdminBootstrapState) :=
  state ← ask bootstrap_state;
  match state with
  | Some state => mret (Some state)
  | None =>
      _ ← interleave;
      _ ← catch (_ ← add_unique (λ d, is_some (bootstrap_state d))
                       (put_bootstrap (mkAdminBootstrapState None None 0));
                 flush)
            (on_db_error [IntegrityError] rollback);
      _ ← interleave;
      ask bootstrap_state
  end.

(** [_lock_bootstrap_state] *)
Definition lock_bootstrap_state : M AdminBootstrapState :=
  state ← initial_bootstrap_state;
  match state with
  | None => bootstrap_error "administrator bootstrap state is unavailable"
  | Some _ =>
      locked ← lock_row LockBootstrapState bootstrap_state;
      match locked with
      | None => bootstrap_error "administrator bootstrap lock could not be acquired"
      | Some locked =>
          _ ← write (put_bootstrap (next_lock locked));
          mret (next_lock locked)
      end
  end.

(** The account is the administrator that the bootstrap asks for. *)
Definition bootstrapped (email : string) (user : User) : bool :=
  ⌊ u_email user = email ⌋ && active_admin user.

Definition bootstrap_audit (action user_id : string) : M () :=
  add_audit_event "system" None action "user" (Some user_id) [].

Definition closed_state (state : AdminBootstrapState) (user_id : string) (now : Z)
    : AdminBootstrapState :=
  state <| bs_admin_user_id := Some user_id |> <| bs_completed_at := Some now |>.

Definition close_bootstrap (state : AdminBootstrapState) (user_id : string) : M () :=
  now ← utc_now; write (put_bootstrap (closed_state state user_id now)).

(** The account created first. *)
Definition first_user (d : DB) : option User :=
  head (order_by (λ a b, lex_leb (u_created_at a) (u_created_at b) (str_leb (u_id a) (u_id b)))
          (rows (users d))).

Definition closed_text : string := "initial administrator bootstrap is already closed".

(** [ensure_admin_user]: the administrator and whether it was created. *)
Definition ensure_admin_user (email password : string) : M (User * bool) :=
  match normalize_email email with
  | None => raise (ValueError "email must be a valid address")
  | Some normalized_email =>
      if negb ((12 <=? py_len password) && (py_len password <=? 1024))
      then bootstrap_error "bootstrap password must contain 12 to 1024 characters" else
      encoded_password ← hash_password password;
      state ← lock_bootstrap_state;
      match bs_admin_user_id state with
      | Some admin_user_id =>
          found ← ask (λ d, users d !! admin_user_id);
          match found with
          | None => bootstrap_error closed_text
          | Some user =>
              if negb (bootstrapped normalized_email user) then bootstrap_error closed_text else
              _ ← bootstrap_audit "auth.bootstrap_admin.existing" (u_id user);
              _ ← commit;
              mret (user, false)
          end
      | None =>
          found ← ask first_user;
          match found with
          | Some user =>
              if negb (bootstrapped normalized_email user) then bootstrap_error closed_text else
              _ ← bootstrap_audit "auth.bootstrap_admin.existing" (u_id user);
              _ ← close_bootstrap state (u_id user);
              _ ← commit;
              mret (user, false)
          | None =>
              id ← new_id;
              created_at ← utc_now;
              updated_at ← utc_now;
              let user := mkUser id 1 normalized_email encoded_password "admin" false 1
                            created_at updated_at in
              _ ← add_unique (user_conflict user) (put_user user);
              _ ← catch flush (on_db_error [IntegrityError]
                    (_ ← rollback;
                     bootstrap_error "administrator bootstrap conflicted with an existing user"));
              _ ← bootstrap_audit "auth.bootstrap_admin.created" (u_id user);
              _ ← close_bootstrap state (u_id user);
              _ ← commit;
              _ ← interleave;
              refreshed ← ask (λ d, users d !! id);
              match refreshed with
              | None => raise (RuntimeError "Could not refresh instance")
              | Some row => mret (row, true)
              end
          end
      end
  end.
End administration.
