(* ===== verification/LogReads.v ===== *)
(** * Reading logs and metrics

    Model of the reads of [apps/api/src/rvc_manager_api/services/job_observability.py],
    of [routers/job_observability.py] and of [services/authorization.py]: the pages of
    log lines with their opaque cursors, the pages of metrics, and the live stream.

    A page is asked for after a cursor, the position of the last line that was read; the
    cursor travels as base 64 of a JSON array.  The time a live stream waits between its
    polls, its deadline and its heartbeat comments are left out: [event_source] is given
    the polls that take place. *)

From S2P Require Import Prelude Json JsonRead Base64 PyText JobConfig WorkerContract Redaction.
From S2P Require Import Settings Ledger Session JobApi Accounts.

(** ** Cursors *)

Record LogCursor := mkLogCursor {
  lc_attempt_number : Z;
  lc_sequence : Z;
  lc_log_id : string }.

(** [json.dumps(["v1", ...], separators=(",", ":"))] *)
Definition cursor_document (cursor : LogCursor) : list ascii :=
  chr 91 :: ascii_string "v1" ++ chr 44 :: str_chars (py_str_Z (lc_attempt_number cursor)) ++
  chr 44 :: str_chars (py_str_Z (lc_sequence cursor)) ++
  chr 44 :: ascii_string (lc_log_id cursor) ++ [chr 93].

Definition encode_log_cursor (cursor : LogCursor) : string :=
  string_of (rstrip_pads (urlsafe_b64encode (map code (cursor_document cursor)))).

(** [None] is [InvalidLogCursor]. *)
Definition decode_log_cursor `{UnicodeTables} (value : string) : option LogCursor :=
  let cs := str_chars value in
  decoded ← b64decode (cs ++ padding cs);
  payload ← json_loads decoded;
  match payload with
  | JArray [JString version; JInt attempt_number; JInt sequence; JString log_id] =>
      if negb ⌊ version = "v1" ⌋ || (attempt_number <? 1) || (sequence <? 0) ||
         negb (is_uuid log_id) then None
      else Some (mkLogCursor attempt_number sequence log_id)
  | _ => None
  end.

(** ** Selection of lines *)

Record JobLogFilters := mkJobLogFilters {
  lf_attempt_id : option string;
  lf_sequence_gte : option Z;
  lf_sequence_lte : option Z;
  lf_occurred_at_gte : option Z;
  lf_occurred_at_lte : option Z }.

Record JobLogRecord := mkJobLogRecord {
  rc_log : JobLog;
  rc_attempt_number : Z }.

(** [JobLogRecord.cursor] *)
Definition record_cursor (r : JobLogRecord) : LogCursor :=
  mkLogCursor (rc_attempt_number r) (lg_sequence (rc_log r)) (lg_id (rc_log r)).

(** A bound that is given holds. *)
Definition bounded {A} (p : A → bool) (bound : option A) : bool :=
  match bound with Some b => p b | None => true end.

(** [_filter_conditions] *)
Definition filter_conditions (job_id : string) (filters : JobLogFilters) (log : JobLog) : bool :=
  ⌊ lg_job_id log = job_id ⌋ &&
  bounded (λ id, ⌊ lg_attempt_id log = id ⌋) (lf_attempt_id filters) &&
  bounded (λ n, n <=? lg_sequence log) (lf_sequence_gte filters) &&
  bounded (λ n, lg_sequence log <=? n) (lf_sequence_lte filters) &&
  bounded (λ t, t <=? lg_occurred_at log) (lf_occurred_at_gte filters) &&
  bounded (λ t, lg_occurred_at log <=? t) (lf_occurred_at_lte filters).

(** [_after_condition] *)
Definition after_condition (cursor : LogCursor) (r : JobLogRecord) : bool :=
  (lc_attempt_number cursor <? rc_attempt_number r) ||
  ((rc_attempt_number r =? lc_attempt_number cursor) &&
   (lc_sequence cursor <? lg_sequence (rc_log r))) ||
  ((rc_attempt_number r =? lc_attempt_number cursor) &&
   (lg_sequence (rc_log r) =? lc_sequence cursor) &&
   negb (str_leb (lg_id (rc_log r)) (lc_log_id cursor))).

(** The join of the lines with their attempts. *)
Definition log_records (d : DB) : list JobLogRecord :=
  omap (λ log, attempt ← attempts d !! lg_attempt_id log;
               Some (mkJobLogRecord log (a_attempt_number attempt))) (rows (job_logs d)).

Definition matching_logs (job_id : string) (filters : JobLogFilters) (d : DB) : list JobLogRecord :=
  List.filter (λ r, filter_conditions job_id filters (rc_log r)) (log_records d).

(** [count_job_logs] *)
Definition count_job_logs (job_id : string) (filters : JobLogFilters) : M nat :=
  ask (λ d, length (matching_logs job_id filters d)).

(** [ORDER BY attempt_number, sequence, id] *)
Definition record_leb (a b : JobLogRecord) : bool :=
  lex_leb (rc_attempt_number a) (rc_attempt_number b)
    (lex_leb (lg_sequence (rc_log a)) (lg_sequence (rc_log b))
       (str_leb (lg_id (rc_log a)) (lg_id (rc_log b)))).

(** [fetch_job_logs]: the records of a page, and whether there are more. *)
Definition fetch_page (job_id : string) (filters : JobLogFilters) (after : option LogCursor)
    (limit : nat) (tail : bool) (d : DB) : list JobLogRecord * bool :=
  let found := List.filter (λ r, bounded (λ c, after_condition c r) after)
                 (matching_logs job_id filters d) in
  let sorted := order_by (λ a b, if tail then record_leb b a else record_leb a b) found in
  let fetched := take (S limit) sorted in
  let has_more := ⌊ (limit < length fetched)%nat ⌋ in
  let records := take limit fetched in
  (if tail then rev records else records, has_more).

Definition fetch_job_logs (job_id : string) (filters : JobLogFilters) (after : option LogCursor)
    (limit : nat) (tail : bool) : M (list JobLogRecord * bool) :=
  ask (fetch_page job_id filters after limit tail).

(** ** Answers *)

Record JobLogRead := mkJobLogRead {
  lr_id : string;
  lr_job_id : string;
  lr_attempt_id : string;
  lr_attempt_number : Z;
  lr_sequence : Z;
  lr_level : LogLevel;
  lr_message : string;
  lr_fields : json;
  lr_occurred_at : Z }.

Record JobLogList := mkJobLogList {
  ll_items : list JobLogRead;
  ll_total : nat;
  ll_limit : nat;
  ll_has_more : bool;
  ll_next_cursor : option string }.

(** [LogLevel(value)] *)
Definition LogLevel_of (value : string) : option LogLevel :=
  List.find (λ l, ⌊ LogLevel_value l = value ⌋) [DEBUG; INFO; WARNING; ERROR].

(** [job_log_to_read]; [None] is a [ValueError]. *)
Definition job_log_to_read `{LogTextRedactor} (r : JobLogRecord) : option JobLogRead :=
  let log := rc_log r in
  level ← LogLevel_of (lg_level log);
  match redact_log_fields (lg_fields_json log) with
  | JObject _ as fields =>
      Some (mkJobLogRead (lg_id log) (lg_job_id log) (lg_attempt_id log) (rc_attempt_number r)
              (lg_sequence log) level (redact_log_text (lg_message log)) fields
              (lg_occurred_at log))
  | _ => None
  end.

(** ** Handlers *)

(** A timestamp of a query: in UTC, or without a timezone. *)
Inductive query_time :=
  | Aware (t : Z)
  | Naive.

(** The query of [list_job_logs]. *)
Record LogQuery := mkLogQuery {
  lq_attempt_id : option string;
  lq_sequence_gte : option Z;
  lq_sequence_lte : option Z;
  lq_occurred_at_gte : option query_time;
  lq_occurred_at_lte : option query_time;
  lq_after : option string;
  lq_tail : bool;
  lq_limit : nat }.

Definition length_within (lo hi : Z) (s : string) : bool := (lo <=? py_len s) && (py_len s <=? hi).

Definition READ_LIMIT_MAX : Z := 500.

(** What FastAPI checks of the query of [list_job_logs]. *)
Definition LogQuery_valid (q : LogQuery) : bool :=
  bounded (length_within 1 128) (lq_attempt_id q) &&
  bounded (Z.leb 0) (lq_sequence_gte q) && bounded (Z.leb 0) (lq_sequence_lte q) &&
  bounded (length_within 1 512) (lq_after q) &&
  (1 <=? Z.of_nat (lq_limit q)) && (Z.of_nat (lq_limit q) <=? READ_LIMIT_MAX).

Section reads.
  Context `{UnicodeTables} `{LogTextRedactor} `{ContractParser} `{JwtLibrary} `{Platform}.
  Variable settings : Settings.

(** [require_job_owner_or_admin] of [services/authorization.py], whose text is that of
    [get_job] in [routers/experiments.py]. *)
Definition require_job_owner_or_admin (job_id : string) (user : User) : M Job :=
  owned_job job_id user.

(** [_decode_cursor_or_422] *)
Definition decode_cursor_or_422 (value : option string) : M (option LogCursor) :=
  match value with
  | None => mret None
  | Some text => match decode_log_cursor text with
                 | Some cursor => mret (Some cursor)
                 | None => http 422 "invalid log cursor"
                 end
  end.

(** [_aware_utc_or_422]; [None] is a timestamp without a timezone. *)
Definition aware_utc (value : option query_time) : option (option Z) :=
  match value with
  | None => Some None
  | Some (Aware t) => Some (Some t)
  | Some Naive => None
  end.
Definition aware_utc_or_422 (value : option query_time) (field : string) : M (option Z) :=
  match aware_utc value with
  | Some t => mret t
  | None => http 422 (field +:+ " must include a timezone")
  end.

(** Both bounds are given and the lower exceeds the upper. *)
Definition exceeds (lower upper : option Z) : bool :=
  match lower, upper with Some a, Some b => b <? a | _, _ => false end.

(** [_validate_log_ranges] *)
Definition validate_log_ranges (filters : JobLogFilters) : M () :=
  _ ← reject_if (exceeds (lf_sequence_gte filters) (lf_sequence_lte filters)) 422
        "sequence_gte must not exceed sequence_lte";
  reject_if (exceeds (lf_occurred_at_gte filters) (lf_occurred_at_lte filters)) 422
    "occurred_at_gte must not exceed occurred_at_lte".

Definition log_read_or_error (r : JobLogRecord) : M JobLogRead :=
  match job_log_to_read r with
  | Some read => mret read
  | None => raise (ValueError "LogLevel")
  end.

(** [list_job_logs] *)
Definition list_job_logs (job_id : string) (query : LogQuery) (user : User) : M JobLogList :=
  _ ← require_job_owner_or_admin job_id user;
  _ ← reject_if (lq_tail query && is_some (lq_after query)) 422 "tail and after cannot be combined";
  occurred_at_gte ← aware_utc_or_422 (lq_occurred_at_gte query) "occurred_at_gte";
  occurred_at_lte ← aware_utc_or_422 (lq_occurred_at_lte query) "occurred_at_lte";
  let filters := mkJobLogFilters (lq_attempt_id query) (lq_sequence_gte query)
                   (lq_sequence_lte query) occurred_at_gte occurred_at_lte in
  _ ← validate_log_ranges filters;
  cursor ← decode_cursor_or_422 (lq_after query);
  _ ← interleave;
  total ← count_job_logs job_id filters;
  _ ← interleave;
  '(records, has_more) ← fetch_job_logs job_id filters cursor (lq_limit query) (lq_tail query);
  let next_cursor := match last records with
                     | Some r => Some (encode_log_cursor (record_cursor r))
                     | None => lq_after query
                     end in
  items ← collect records log_read_or_error;
  mret (mkJobLogList items total (lq_limit query) has_more next_cursor).

(** ** Metrics *)

Record MetricRecord := mkMetricRecord {
  mr_metric : Metric;
  mr_attempt_number : Z }.

Record MetricList := mkMetricList {
  ml_items : list MetricRecord;
  ml_total : nat;
  ml_offset : nat;
  ml_limit : nat }.

Record MetricQuery := mkMetricQuery {
  mq_attempt_id : option string;
  mq_key : option string;
  mq_epoch : option Z;
  mq_step : option Z;
  mq_offset : nat;
  mq_tail : bool;
  mq_limit : nat }.

(** What FastAPI checks of the query of [list_job_metrics]. *)
Definition MetricQuery_valid (q : MetricQuery) : bool :=
  bounded (length_within 1 128) (mq_attempt_id q) &&
  bounded (λ key, length_within 1 128 key && all_chars is_name_char key) (mq_key q) &&
  bounded (Z.leb 0) (mq_epoch q) && bounded (Z.leb 0) (mq_step q) &&
  (1 <=? Z.of_nat (mq_limit q)) && (Z.of_nat (mq_limit q) <=? READ_LIMIT_MAX).

(** [_metric_conditions]; an absent epoch or step does not equal a number. *)
Definition metric_conditions (job_id : string) (query : MetricQuery) (m : Metric) : bool :=
  ⌊ m_job_id m = job_id ⌋ &&
  bounded (λ id, ⌊ m_attempt_id m = id ⌋) (mq_attempt_id query) &&
  bounded (λ key, ⌊ m_key m = key ⌋) (mq_key query) &&
  bounded (λ n, ⌊ m_epoch m = Some n ⌋) (mq_epoch query) &&
  bounded (λ n, ⌊ m_step m = Some n ⌋) (mq_step query).

Definition metric_records (d : DB) : list MetricRecord :=
  omap (λ m, attempt ← attempts d !! m_attempt_id m;
             Some (mkMetricRecord m (a_attempt_number attempt))) (rows (metrics d)).

Definition metric_leb (a b : MetricRecord) : bool :=
  lex_leb (mr_attempt_number a) (mr_attempt_number b)
    (lex_leb (m_sequence (mr_metric a)) (m_sequence (mr_metric b))
       (str_leb (m_id (mr_metric a)) (m_id (mr_metric b)))).

(** [list_job_metrics]; the total counts the metrics without the join. *)
Definition list_job_metrics (job_id : string) (query : MetricQuery) (user : User) : M MetricList :=
  _ ← require_job_owner_or_admin job_id user;
  _ ← reject_if (mq_tail query && negb ⌊ mq_offset query = 0%nat ⌋) 422
        "tail and offset cannot be combined";
  _ ← interleave;
  total ← ask (λ d, length (where_ (metric_conditions job_id query) (metrics d)));
  _ ← interleave;
  found ← ask (λ d, List.filter (λ r, metric_conditions job_id query (mr_metric r))
                      (metric_records d));
  let items :=
    if mq_tail query
    then rev (take (mq_limit query) (order_by (λ a b, metric_leb b a) found))
    else take (mq_limit query) (drop (mq_offset query) (order_by metric_leb found)) in
  let offset := if mq_tail query then (total - length items)%nat else mq_offset query in
  mret (mkMetricList items total offset (mq_limit query)).

(** ** The live stream *)

(** [_stream_access_is_active] *)
Definition stream_access_is_active (user_id token_jti job_id : string) : M bool :=
  revoked ← ask (λ d, is_some (revoked_tokens d !! token_jti));
  if revoked : bool then mret false else
  _ ← interleave;
  found ← ask (λ d, users d !! user_id);
  match found with
  | None => mret false
  | Some user =>
      if u_disabled user then mret false else
      _ ← interleave;
      catch (_ ← require_job_owner_or_admin job_id user; mret true)
        (λ e, match e with HTTPException _ _ => Some (mret false) | _ => None end)
  end.

(** One poll of the stream; [None] ends it. *)
Definition stream_poll (user_id token_jti job_id : string) (filters : JobLogFilters)
    (cursor : option LogCursor) (batch_limit : nat) : M (option (list JobLogRecord * bool)) :=
  active ← stream_access_is_active user_id token_jti job_id;
  if negb active then mret None else
  _ ← interleave;
  page ← fetch_job_logs job_id filters cursor batch_limit false;
  mret (Some page).

(** An event: the cursor of its line, and the line. *)
Record StreamEvent := mkStreamEvent {
  se_id : string;
  se_data : JobLogRead }.

(** The events of a batch, up to a line that cannot be rendered; the flag says that there
    was none. *)
Fixpoint batch_events (records : list JobLogRecord) : list StreamEvent * bool :=
  match records with
  | [] => ([], true)
  | r :: records =>
      match job_log_to_read r with
      | None => ([], false)
      | Some data =>
          let '(events, complete) := batch_events records in
          (mkStreamEvent (encode_log_cursor (record_cursor r)) data :: events, complete)
      end
  end.

(** The position after a batch. *)
Definition advance (cursor : option LogCursor) (records : list JobLogRecord) : option LogCursor :=
  match last records with Some r => Some (record_cursor r) | None => cursor end.

(** [event_source]: every poll runs in a session of its own; [None] is a client that has
    disconnected. *)
Fixpoint event_source (user_id token_jti job_id : string) (filters : JobLogFilters)
    (batch_limit : nat) (polls : list (option Session)) (cursor : option LogCursor)
    : list StreamEvent :=
  match polls with
  | [] | None :: _ => []
  | Some session :: polls =>
      match outcome (stream_poll user_id token_jti job_id filters cursor batch_limit) session with
      | Ok (Some (records, _)) =>
          let '(events, complete) := batch_events records in
          events ++ (if complete : bool
                     then event_source user_id token_jti job_id filters batch_limit polls
                            (advance cursor records)
                     else [])
      | _ => []
      end
  end.

(** What [stream_job_logs] does before the stream starts: its first cursor. *)
Definition start_stream (job_id : string) (after last_event_id : option string)
    (auth : UserAuthContext) : M (option LogCursor) :=
  _ ← require_job_owner_or_admin job_id (au_user auth);
  _ ← reject_if (is_some after && is_some last_event_id && negb ⌊ after = last_event_id ⌋) 422
        "after and Last-Event-ID must match";
  initial_cursor ← decode_cursor_or_422 (if truthy after then after else last_event_id);
  now ← utc_now;
  _ ← reject_if (tc_expires_at (au_claims auth) - now <=? 0) 401
        "access token expired for stream";
  mret initial_cursor.
End reads.
