(* ===== verification/ArtifactRoutes.v ===== *)
(** * Artifact uploads

    [routers/artifacts.py]: the initialisation of an upload, its local endpoint and the
    download of a verified artifact, with the transitions of an upload that its
    finalisation ([ArtifactFinalize.v]) shares.

    An ORM row is passed on with the columns the code sets on it by
    [set_committed_value]; a query that may run in a transaction of its own is preceded
    by [interleave].  Exceptions that no handler names are raised to the caller. *)

From S2P Require Import Prelude Json PyText JobConfig WorkerContract Settings ObjectKeys Ledger.
From S2P Require Import Evolution Session JobConfigLedger LeaseService WorkerRoutes TelemetryIngest.
From S2P Require Import JobApi LogReads Storage ArtifactService ArtifactCleanup.

(** What [urlsplit] asks of [ipaddress] ([_check_bracketed_netloc]) and of the Unicode
    tables: the normal form of a network location outside ASCII, and [str.lower]. *)
Class UrlHosts := {
  bracketed_netloc_ok : string → bool;
  netloc_normal : string → bool;
  lowercase : string → string }.

(** A statement of a transaction that has written nothing. *)
Definition query {A} (f : DB → A) : M A := _ ← interleave; ask f.

(** ** Origins of URLs *)

(** The part of a text before the first character of a kind. *)
Fixpoint before_char (stop : ascii → bool) (s : string) : string :=
  match s with
  | String c s' => if stop c then "" else String c (before_char stop s')
  | EmptyString => ""
  end.
Definition ascii_lowercase (s : string) : string :=
  String.string_of_list_ascii (map ascii_lower (str_chars s)).

(** The text after the last [sep], or the whole text. *)
Definition after_last (sep : ascii) (s : string) : string := List.last (split_on sep s) "".
Definition partition_on_string (sep : ascii) (s : string) : string * bool * string :=
  let '(a, m, b) := partition_on sep s in (a, negb ⌊ m = "" ⌋, b).

(** [_hostinfo] of [urllib.parse]: the host and the port of a network location. *)
Definition hostinfo (netloc : string) : string * string :=
  let info := after_last (chr 64) netloc in
  let '(_, bracket, bracketed) := partition_on_string (chr 91) info in
  if bracket : bool then
    let '(host, _, rest) := partition_on (chr 93) bracketed in
    let '(_, _, port) := partition_on (chr 58) rest in (host, port)
  else let '(host, _, port) := partition_on (chr 58) info in (host, port).

Section urls.
  Context `{UrlHosts}.

(** [_url_origin] *)
Definition url_origin (value : string) : option (string * string * Z) :=
  let text := String.string_of_list_ascii
    (List.filter (λ c, negb ⌊ code c ∈ [9; 10; 13] ⌋) (drop_controls (str_chars value))) in
  let scheme := url_scheme value in
  let rest := if ⌊ scheme = "" ⌋ then text else str_drop (S (String.length scheme)) text in
  let netloc := if startswith rest "//"
                then before_char (λ c, ⌊ code c ∈ [47; 63; 35] ⌋) (str_drop 2 rest) else "" in
  let opening := contains netloc "[" in
  let closing := contains netloc "]" in
  if negb (eqb opening closing) || opening && negb (bracketed_netloc_ok netloc) ||
     negb (all_chars is_ascii netloc || netloc_normal netloc) then None else
  let '(host, port) := hostinfo netloc in
  let number := if ⌊ port = "" ⌋ then Some None
                else if all_chars is_digit port
                then match py_int port with
                     | Some n => if n <=? 65535 then Some (Some n) else None
                     | None => None
                     end
                else None in
  match number with
  | None => None
  | Some number =>
      if negb ⌊ scheme ∈ ["http"; "https"] ⌋ || ⌊ host = "" ⌋ then None else
      Some (scheme, lowercase host,
            match number with
            | Some n => if n =? 0 then if ⌊ scheme = "https" ⌋ then 443 else 80 else n
            | None => if ⌊ scheme = "https" ⌋ then 443 else 80
            end)
  end.
End urls.

Section uploads.
  Context `{ContractParser} `{Platform} `{S3Client}.
  Variable settings : Settings.
  Variable storage : StorageAdapter.
  (** [str(request.base_url).rstrip("/")] *)
  Variable base_url : string.

Implicit Types (upload : ArtifactUploadSession).

(** ** Transitions of an upload *)

Definition upload_storage_matches upload : bool :=
  namespace_matches storage (au_storage_backend upload) (au_storage_namespace_sha256 upload).
Definition require_storage upload : M () :=
  reject_if (negb (upload_storage_matches upload)) 503 "upload storage namespace is unavailable".

(** [_retry_metadata] *)
Definition retry_metadata upload : bool * option Z :=
  let after := Some (artifact_retry_after_seconds settings) in
  if ⌊ au_status upload = "finalizing" ⌋ then (true, after)
  else if ⌊ au_status upload = "pending" ⌋ then
    (true, match au_failure_code upload with
           | Some code => if ⌊ code = "" ⌋ then None else after | None => None end)
  else if ⌊ au_status upload = "expired" ⌋ then (true, after)
  else (false, None).

(** [_public_api_base_url] *)
Definition public_base_url : string :=
  match public_api_base_url settings with
  | Some url => if ⌊ url = "" ⌋ then base_url else url
  | None => base_url
  end.

Definition upload_belongs_to_claim upload (job_id attempt_id lease_id worker_id : string) : bool :=
  ⌊ au_job_id upload = job_id ⌋ && ⌊ au_attempt_id upload = attempt_id ⌋ &&
  ⌊ au_lease_id upload = lease_id ⌋ && ⌊ au_worker_id upload = worker_id ⌋.

(** [session.refresh(upload)] *)
Definition refresh_upload (upload_id : string) : M ArtifactUploadSession :=
  row ← query (λ d, artifact_uploads d !! upload_id);
  match row with Some u => mret u | None => raise (RuntimeError "could not refresh instance") end.

(** [_recover_stale_finalizing], with the row it leaves. *)
Definition recover_stale_finalizing upload : M (bool * ArtifactUploadSession) :=
  if negb ⌊ au_status upload = "finalizing" ⌋ then mret (false, upload) else
  now ← utc_now;
  let cutoff := now - seconds (artifact_finalizing_stale_seconds settings) in
  if cutoff <? au_updated_at upload then mret (false, upload) else
  updated_at ← utc_now;
  let recover u := u <| au_status := "pending" |> <| au_upload_write_token := None |>
                     <| au_upload_heartbeat_at := None |> <| au_finalization_token := None |>
                     <| au_failure_code := Some "stale_finalizing_recovered" |> in
  recovered ← update_upload (au_id upload)
    (λ u, ⌊ au_status u = "finalizing" ⌋ && (au_updated_at u <=? cutoff))
    (λ u, recover u <| au_updated_at := updated_at |>);
  if negb recovered then
    _ ← rollback; u ← refresh_upload (au_id upload); mret (false, u)
  else _ ← commit; mret (true, recover upload).

Definition owns_finalization (finalization_token : string) upload : bool :=
  ⌊ au_status upload = "finalizing" ⌋ && ⌊ au_finalization_token upload = Some finalization_token ⌋.

(** The statuses a finalizer gives up with. *)
Inductive given_up := GivePending | GiveFailed | GiveExpired.
Definition given_up_value (s : given_up) : string :=
  match s with GivePending => "pending" | GiveFailed => "failed" | GiveExpired => "expired" end.

Definition relinquish (s : given_up) (failure_code : string) (finalized_at : Z) upload
    : ArtifactUploadSession :=
  let u := upload <| au_status := given_up_value s |> <| au_upload_write_token := None |>
                  <| au_upload_heartbeat_at := None |> <| au_finalization_token := None |>
                  <| au_failure_code := Some failure_code |> in
  match s with
  | GivePending => u
  | _ => u <| au_dedupe_key := None |> <| au_finalized_at := Some finalized_at |>
  end.

(** [_transition_owned_finalizing], with the row it leaves. *)
Definition transition_owned_finalizing upload (finalization_token : string) (target : given_up)
    (failure_code : string) : M (bool * ArtifactUploadSession) :=
  updated_at ← utc_now;
  finalized_at ← (match target with GivePending => mret 0 | _ => utc_now end);
  transitioned ← update_upload (au_id upload) (owns_finalization finalization_token)
    (λ u, relinquish target failure_code finalized_at u <| au_updated_at := updated_at |>);
  if negb transitioned then _ ← rollback; mret (false, upload)
  else _ ← commit; mret (true, relinquish target failure_code finalized_at upload).

Definition reset_finalizing_to_pending upload (finalization_token failure_code : string) : M bool :=
  done ← transition_owned_finalizing upload finalization_token GivePending failure_code;
  mret done.1.

(** [_touch_artifact_finalization] *)
Definition touch_artifact_finalization (upload_id finalization_token : string) : M bool :=
  heartbeat_at ← utc_now;
  update_and_commit upload_id (owns_finalization finalization_token)
    (λ u, u <| au_updated_at := heartbeat_at |>).

(** A writer's claim that is not sealed. *)
Definition owns_write (write_token : string) upload : bool :=
  ⌊ au_status upload = "pending" ⌋ && ⌊ au_upload_write_token upload = Some write_token ⌋ &&
  is_none (au_uploaded_at upload).

(** [_touch_artifact_upload_write] *)
Definition touch_artifact_upload_write (upload_id write_token : string) : M bool :=
  heartbeat_at ← utc_now;
  update_and_commit upload_id (λ u, owns_write write_token u && (heartbeat_at <? au_expires_at u))
    (λ u, u <| au_upload_heartbeat_at := Some heartbeat_at |> <| au_updated_at := heartbeat_at |>).

(** [_clear_artifact_upload_write] *)
Definition clear_artifact_upload_write (upload_id write_token : string) : M bool :=
  updated_at ← utc_now;
  update_and_commit upload_id (owns_write write_token)
    (λ u, u <| au_upload_write_token := None |> <| au_upload_heartbeat_at := None |>
            <| au_updated_at := updated_at |>).

(** [_expire_artifact_upload_write] *)
Definition expire_artifact_upload_write (upload_id write_token : string) : M bool :=
  finalized_at ← utc_now;
  updated_at ← utc_now;
  update_and_commit upload_id (owns_write write_token)
    (λ u, u <| au_status := "expired" |> <| au_upload_write_token := None |>
            <| au_upload_heartbeat_at := None |>
            <| au_failure_code := Some "upload_write_deadline_exceeded" |>
            <| au_dedupe_key := None |> <| au_finalized_at := Some finalized_at |>
            <| au_updated_at := updated_at |>).

(** [_cleanup_terminal_artifact_staging] *)
Definition cleanup_terminal_artifact_staging upload : M bool :=
  if negb (upload_terminal upload) then mret false else
  _ ← rollback;
  _ ← reconcile_artifact_upload_cleanup settings storage (Some [au_id upload]);
  refreshed ← query (λ d, artifact_uploads d !! au_id upload);
  match refreshed with
  | None => mret false
  | Some u => _ ← rollback; mret (is_some (au_staging_cleanup_completed_at u))
  end.

(** [_expire_upload], with the row it leaves. *)
Definition expire_upload upload : M (bool * ArtifactUploadSession) :=
  _ ← require_storage upload;
  now ← utc_now;
  finalized_at ← utc_now;
  updated_at ← utc_now;
  let expire finalized u :=
    u <| au_status := "expired" |> <| au_upload_heartbeat_at := None |>
      <| au_failure_code := Some "upload_expired" |> <| au_dedupe_key := None |>
      <| au_finalized_at := Some finalized |> in
  expired ← update_upload (au_id upload)
    (λ u, ⌊ au_status u = "pending" ⌋ && is_none (au_upload_write_token u) &&
          is_none (au_finalization_token u) && (au_expires_at u <=? now))
    (λ u, expire finalized_at u <| au_updated_at := updated_at |>);
  if negb expired then _ ← rollback; mret (false, upload) else
  _ ← commit;
  finalized ← utc_now;
  _ ← cleanup_terminal_artifact_staging (expire finalized upload);
  u ← refresh_upload (au_id upload);
  mret (true, u).

(** ** Responses *)

Definition on_storage_error {A} (h : M A) (e : exn) : option (M A) :=
  if is_storage_error e then Some h else None.

Definition local_upload_token (upload_id : string) (expires_at : Z) : string :=
  derive_local_upload_token settings upload_id (expires_at / 1000000).

Definition upload_target (upload_id temporary_object_key content_type : string) (size_bytes : Z)
    (sha256 : string) (expires_at : Z) (local_token : option string) : M UploadTarget :=
  create_upload_target storage upload_id temporary_object_key public_base_url content_type size_bytes
    sha256 expires_at local_token.

(** [_init_response] *)
Definition init_response upload : M ArtifactUploadInitResponse :=
  _ ← require_storage upload;
  artifact ← (match au_artifact_id upload with
              | Some id => query (λ d, artifact_rows d !! id) | None => mret None end);
  let '(retryable, retry_after_seconds) := retry_metadata upload in
  if negb ⌊ au_status upload = "pending" ⌋ then
    mret (mkArtifactUploadInitResponse (au_id upload) (au_status upload) None None []
            (au_expires_at upload) artifact (au_failure_code upload) retryable retry_after_seconds)
  else
    target ← upload_target (au_id upload) (au_temporary_object_key upload) (au_content_type upload)
      (au_expected_size_bytes upload) (au_expected_sha256 upload) (au_expires_at upload)
      (if ⌊ au_storage_backend upload = "local" ⌋
       then Some (local_upload_token (au_id upload) (au_expires_at upload)) else None);
    mret (mkArtifactUploadInitResponse (au_id upload) "pending" (Some "PUT") (Some (ut_url target))
            (ut_headers target) (au_expires_at upload) None (au_failure_code upload) retryable
            retry_after_seconds).

(** ** Initialisation *)

(** The uploads an attempt's quota counts: those whose files may still be there. *)
Definition quota_session (attempt_id : string) upload : bool :=
  ⌊ au_attempt_id upload = attempt_id ⌋ &&
  (⌊ au_status upload ∈ ["pending"; "finalizing"; "completed"] ⌋ ||
   upload_failed upload && (is_none (au_staging_cleanup_completed_at upload) ||
                            is_none (au_canonical_cleanup_completed_at upload))).
Definition quota_sessions (attempt_id : string) (d : DB) : list ArtifactUploadSession :=
  where_ (quota_session attempt_id) (artifact_uploads d).

(** [_enforce_attempt_artifact_quota] *)
Definition enforce_attempt_artifact_quota (attempt_id : string) (requested_size : Z) : M () :=
  _ ← lock_row (LockAttempt attempt_id) (λ d, attempts d !! attempt_id);
  session_count ← query (λ d, Zlength (quota_sessions attempt_id d));
  _ ← reject_if (artifact_attempt_max_sessions settings <=? session_count) 409
        "artifact session quota exceeded";
  active_bytes ← query (λ d, foldr Z.add 0 (map au_expected_size_bytes (quota_sessions attempt_id d)));
  reject_if (artifact_attempt_max_bytes settings <? active_bytes + requested_size) 409
    "artifact byte quota exceeded".

(** [_find_deduplicated_upload], [_find_existing_upload] *)
Definition find_deduplicated_upload (dedupe_key : string) : M (option ArtifactUploadSession) :=
  query (λ d, head (where_ (λ u, ⌊ au_dedupe_key u = Some dedupe_key ⌋) (artifact_uploads d))).
Definition find_existing_upload (attempt_id idempotency_key dedupe_key : string)
    : M (option ArtifactUploadSession) :=
  by_idempotency ← query (λ d, head (order_by (λ a b, au_generation b <=? au_generation a)
    (where_ (λ u, ⌊ au_attempt_id u = attempt_id ⌋ && ⌊ au_idempotency_key u = idempotency_key ⌋)
            (artifact_uploads d))));
  match by_idempotency with
  | Some u => mret (Some u)
  | None => find_deduplicated_upload dedupe_key
  end.

(** The lease of the request is the current claim of its Job. *)
Definition require_upload_claim (worker_id job_id lease_id attempt_id : string) : M () :=
  lease ← require_active_lease worker_id job_id lease_id false;
  _ ← reject_if (negb ⌊ l_attempt_id lease = attempt_id ⌋) 409 "upload attempt does not match lease";
  job ← ask (λ d, jobs d !! job_id);
  attempt ← ask (λ d, attempts d !! l_attempt_id lease);
  match job, attempt with
  | Some job, Some attempt =>
      reject_if (negb ⌊ j_current_attempt_id job = Some (a_id attempt) ⌋) 409
        "job attempt is no longer current"
  | _, _ => http 409 "job attempt is no longer current"
  end.

(** The expiry of a pending upload whose time has passed. *)
Definition expire_pending existing : M ArtifactUploadSession :=
  done ← (match au_upload_write_token existing with
          | Some write_token =>
              _ ← rollback;
              expired ← expire_artifact_upload_write (au_id existing) write_token;
              row ← query (λ d, artifact_uploads d !! au_id existing);
              match row with
              | None => http 409 "artifact upload disappeared"
              | Some u => mret (expired, u)
              end
          | None => expire_upload existing
          end);
  _ ← reject_if (negb done.1) 409 "artifact upload state changed";
  mret done.2.

(** An earlier upload with the same key or content: it answers the request, or the
    request starts a new generation. *)
Definition settle_existing (p : ArtifactUploadInitRequest) (fingerprint dedupe_key : string) existing
    : M (option ArtifactUploadSession * Z) :=
  _ ← reject_if (negb ⌊ au_request_fingerprint existing = fingerprint ⌋) 409
        "idempotency key or artifact checksum conflicts with prior payload";
  _ ← require_storage existing;
  recovered ← recover_stale_finalizing existing;
  let existing := recovered.2 in
  existing ← (if negb ⌊ au_status existing = "pending" ⌋ then mret existing else
              now ← utc_now;
              if au_expires_at existing <=? now then expire_pending existing else mret existing);
  if negb ⌊ au_status existing = "expired" ⌋ then mret (Some existing, 1) else
  let generation := if ⌊ au_idempotency_key existing = ui_idempotency_key p ⌋
                    then au_generation existing + 1 else 1 in
  active ← find_deduplicated_upload dedupe_key;
  _ ← reject_if (match active with
                 | Some u => negb ⌊ au_request_fingerprint u = fingerprint ⌋ | None => false end)
        409 "artifact checksum conflicts with an active upload payload";
  mret (active, generation).

(** An upload that appeared while the target was signed. *)
Definition settle_raced (p : ArtifactUploadInitRequest) (fingerprint dedupe_key : string)
    (generation : Z) (raced : option ArtifactUploadSession)
    : M (option ArtifactUploadSession * Z) :=
  match raced with
  | None => mret (None, generation)
  | Some u =>
      _ ← reject_if (negb ⌊ au_request_fingerprint u = fingerprint ⌋) 409
            "artifact upload session conflict";
      if negb ⌊ au_status u = "expired" ⌋ then mret (Some u, generation) else
      active ← find_deduplicated_upload dedupe_key;
      mret (active, if ⌊ au_idempotency_key u = ui_idempotency_key p ⌋
                    then Z.max generation (au_generation u + 1) else generation)
  end.

(** The unique columns of the table; [NULL] equals nothing. *)
Definition upload_taken upload (d : DB) : bool :=
  is_some (artifact_uploads d !! au_id upload) ||
  existsb (λ u,
      ⌊ au_attempt_id u = au_attempt_id upload ⌋ &&
      ⌊ au_idempotency_key u = au_idempotency_key upload ⌋ &&
      (au_generation u =? au_generation upload) ||
      is_some (au_dedupe_key upload) && ⌊ au_dedupe_key u = au_dedupe_key upload ⌋ ||
      ⌊ au_temporary_object_key u = au_temporary_object_key upload ⌋ ||
      ⌊ au_canonical_object_key u = au_canonical_object_key upload ⌋)
    (rows (artifact_uploads d)).
Definition put_upload upload (d : DB) : DB :=
  d <| artifact_uploads := <[au_id upload := upload]> (artifact_uploads d) |>.
Definition add_upload upload : M () := add_unique (upload_taken upload) (put_upload upload).

Definition new_upload (p : ArtifactUploadInitRequest) (job_id worker_id upload_id : string)
    (generation : Z) (fingerprint dedupe_key : string) (token_hash : option string)
    (expires_at now : Z) : ArtifactUploadSession :=
  let artifact_type := ArtifactType_value (ui_artifact_type p) in
  mkArtifactUploadSession upload_id job_id (ui_attempt_id p) (ui_lease_id p) worker_id None
    artifact_type (ui_filename p) (ui_content_type p) (ui_size_bytes p) (ui_sha256 p)
    (ui_metadata p) (ui_idempotency_key p) generation fingerprint (Some dedupe_key)
    (staging_object_key (ui_attempt_id p) upload_id)
    (canonical_object_key job_id (ui_attempt_id p) artifact_type upload_id)
    (backend storage) (namespace_fingerprint storage) "pending" None None None None None token_hash
    expires_at None None None None None None None now.

(** The reservation of an upload: its row is added after the claim has been checked again
    and the quota has been taken. *)
Definition reserve_upload (p : ArtifactUploadInitRequest) (job_id worker_id : string)
    (generation : Z) (fingerprint dedupe_key upload_id : string) (token_hash : option string)
    (expires_at : Z) (target : UploadTarget) : M ArtifactUploadInitResponse :=
  _ ← enforce_attempt_artifact_quota (ui_attempt_id p) (ui_size_bytes p);
  _ ← interleave;
  now ← utc_now;
  _ ← add_upload (new_upload p job_id worker_id upload_id generation fingerprint dedupe_key
                    token_hash expires_at now);
  flushed ← attempt flush;
  match flushed with
  | Raise (DatabaseError IntegrityError) =>
      _ ← rollback;
      raced ← find_existing_upload (ui_attempt_id p) (ui_idempotency_key p) dedupe_key;
      raced ← (match raced with
               | Some u => if ⌊ au_status u = "expired" ⌋
                           then find_deduplicated_upload dedupe_key else mret raced
               | None => mret None
               end);
      match raced with
      | Some u => if ⌊ au_request_fingerprint u = fingerprint ⌋ then init_response u
                  else http 409 "artifact upload session conflict"
      | None => http 409 "artifact upload session conflict"
      end
  | Raise e => raise e
  | Ok _ =>
      _ ← commit;
      mret (mkArtifactUploadInitResponse upload_id "pending" (Some "PUT") (Some (ut_url target))
              (ut_headers target) expires_at None None true None)
  end.

(** The target is signed outside the transaction. *)
Definition sign_and_reserve (p : ArtifactUploadInitRequest) (job_id worker_id : string)
    (generation : Z) (fingerprint dedupe_key : string) : M ArtifactUploadInitResponse :=
  now ← utc_now;
  upload_id ← new_id;
  let expires_at := now + seconds (effective_artifact_upload_ttl_seconds settings (ui_size_bytes p)) in
  let local_token := if ⌊ backend storage = "local" ⌋
                     then Some (local_upload_token upload_id expires_at) else None in
  _ ← rollback;
  target ← catch (upload_target upload_id (staging_object_key (ui_attempt_id p) upload_id)
                    (ui_content_type p) (ui_size_bytes p) (ui_sha256 p) expires_at local_token)
             (on_storage_error (http 503 "object upload signing failed"));
  _ ← require_upload_claim worker_id job_id (ui_lease_id p) (ui_attempt_id p);
  raced ← find_existing_upload (ui_attempt_id p) (ui_idempotency_key p) dedupe_key;
  settled ← settle_raced p fingerprint dedupe_key generation raced;
  match settled with
  | (Some u, _) => init_response u
  | (None, generation) =>
      reserve_upload p job_id worker_id generation fingerprint dedupe_key upload_id
        (upload_token_hash <$> local_token) expires_at target
  end.

(** [initialize_artifact_upload] *)
Definition initialize_artifact_upload (job_id : string) (p : ArtifactUploadInitRequest)
    (worker_id : string) : M ArtifactUploadInitResponse :=
  _ ← reject_if (artifact_max_bytes settings <? ui_size_bytes p) 413
        "artifact exceeds configured size limit";
  _ ← reject_if (match ui_artifact_type p with
                 | SAMPLE => sample_max_bytes settings <? ui_size_bytes p | _ => false end) 413
        "sample exceeds configured size limit";
  _ ← require_upload_claim worker_id job_id (ui_lease_id p) (ui_attempt_id p);
  some_or_raise (upload_request_fingerprint p) (ValueError "metadata must be valid bounded JSON")
    (λ fingerprint,
  let dedupe_key := upload_dedupe_key (ui_attempt_id p) (ArtifactType_value (ui_artifact_type p))
                      (ui_sha256 p) in
  existing ← find_existing_upload (ui_attempt_id p) (ui_idempotency_key p) dedupe_key;
  settled ← (match existing with
             | Some u => settle_existing p fingerprint dedupe_key u | None => mret (None, 1) end);
  match settled with
  | (Some u, _) => init_response u
  | (None, generation) => sign_and_reserve p job_id worker_id generation fingerprint dedupe_key
  end).

(** ** The local endpoint *)

(** [int(raw_length)], with Python's bound on the number of digits. *)
Definition content_length_of (raw : string) : option Z :=
  if 4300 <? Zlength (List.filter is_digit (str_chars raw)) then None else py_int raw.

(** The headers of the request fit the upload: its length, its type and its token. *)
Definition check_upload_headers upload (upload_token content_length content_type : option string)
    : M () :=
  _ ← reject_if (match upload_token with
                 | Some token => negb (verify_upload_token token (au_upload_token_hash upload))
                 | None => true end) 401 "invalid upload token";
  match content_length with
  | None => http 411 "Content-Length is required"
  | Some raw =>
      match content_length_of raw with
      | None => http 400 "invalid Content-Length"
      | Some n =>
          _ ← reject_if (negb (n =? au_expected_size_bytes upload)) 422
                "Content-Length does not match session";
          reject_if (negb ⌊ ascii_lowercase (default "" content_type) = au_content_type upload ⌋) 422
            "Content-Type does not match session"
      end
  end.

(** The writer's claim. *)
Definition claim_upload_write (upload_id write_token : string) : M () :=
  claimed_at ← utc_now;
  claimed ← update_upload upload_id
    (λ u, ⌊ au_status u = "pending" ⌋ && is_none (au_upload_write_token u) &&
          is_none (au_finalization_token u) && is_none (au_uploaded_at u) &&
          (claimed_at <? au_expires_at u))
    (λ u, u <| au_upload_write_token := Some write_token |>
            <| au_upload_heartbeat_at := Some claimed_at |> <| au_failure_code := None |>
            <| au_updated_at := claimed_at |>);
  if negb claimed then _ ← rollback; http 409 "upload session write conflict" else commit.

(** The body is stored under the writer's heartbeat; its errors end the claim. *)
Definition write_claimed_upload upload (write_token : string) (body : list string) : M () :=
  written ← attempt (run_with_heartbeat (touch_artifact_upload_write (au_id upload) write_token)
    (λ io, write_upload_stream storage io (au_temporary_object_key upload) body
             (au_expected_size_bytes upload)));
  let clear_and {A} (m : M A) : M A :=
    _ ← clear_artifact_upload_write (au_id upload) write_token; m in
  match written with
  | Ok _ => mret ()
  | Raise TimeoutError =>
      _ ← expire_artifact_upload_write (au_id upload) write_token;
      http 408 "artifact upload deadline exceeded"
  | Raise OwnershipLost =>
      expired ← expire_artifact_upload_write (au_id upload) write_token;
      _ ← (if expired : bool then mret true
           else clear_artifact_upload_write (au_id upload) write_token);
      http 409 "upload write ownership changed"
  | Raise ObjectTooLarge => clear_and (http 413 "uploaded object exceeds session size")
  | Raise ObjectSizeMismatch => clear_and (http 422 "uploaded object size mismatch")
  | Raise CancelledError => clear_and (raise CancelledError)
  | Raise e => if is_storage_error e then clear_and (http 503 "local object upload failed")
               else raise e
  end.

(** The content is sealed: no writer can claim it again. *)
Definition seal_upload (upload_id write_token : string) : M () :=
  sealed_at ← utc_now;
  sealed ← update_upload upload_id
    (λ u, owns_write write_token u && is_none (au_finalization_token u) &&
          (sealed_at <? au_expires_at u))
    (λ u, u <| au_uploaded_at := Some sealed_at |> <| au_upload_write_token := None |>
            <| au_upload_heartbeat_at := None |> <| au_failure_code := None |>
            <| au_updated_at := sealed_at |>);
  if negb sealed then
    _ ← rollback;
    _ ← expire_artifact_upload_write upload_id write_token;
    http 409 "upload write ownership changed"
  else commit.

(** The guard of an upload whose time has passed. *)
Definition reject_expired upload : M () :=
  now ← utc_now;
  when (au_expires_at upload <=? now)
    (expired ← (match au_upload_write_token upload with
                | Some write_token =>
                    _ ← rollback; expire_artifact_upload_write (au_id upload) write_token
                | None => done ← expire_upload upload; mret done.1
                end);
     _ ← reject_if (negb expired) 409 "artifact upload state changed";
     http 410 "upload session expired").

(** [local_presigned_upload]; the chunks of the body arrive in this order. *)
Definition local_presigned_upload (upload_id : string)
    (upload_token content_length content_type : option string) (body : list string) : M () :=
  match storage with
  | S3StorageAdapter _ _ _ _ _ => http 404 "upload endpoint not found"
  | LocalStorageAdapter _ =>
      row ← ask (λ d, artifact_uploads d !! upload_id);
      match row with
      | None => http 404 "upload session not found"
      | Some upload =>
          _ ← reject_if (negb ⌊ au_storage_backend upload = "local" ⌋) 404 "upload session not found";
          _ ← require_storage upload;
          _ ← reject_if (negb ⌊ au_status upload = "pending" ⌋) 409 "upload session is not writable";
          _ ← reject_expired upload;
          _ ← reject_if (is_some (au_uploaded_at upload)) 409 "upload session is already sealed";
          _ ← reject_if (is_some (au_upload_write_token upload)) 409 "upload session write is active";
          _ ← check_upload_headers upload upload_token content_length content_type;
          write_token ← new_id;
          _ ← claim_upload_write upload_id write_token;
          _ ← utc_now;
          _ ← write_claimed_upload upload write_token body;
          seal_upload upload_id write_token
      end
  end.

(** ** Download *)

Section download.
  Context `{UrlHosts}.

(** [except HTTPException] of the owner check *)
Definition artifact_not_found {A} (e : exn) : option (M A) :=
  match e with
  | HTTPException code _ => if code =? 404 then Some (http 404 "artifact not found") else None
  | _ => None
  end.

Definition stream_artifact (artifact : Artifact) upload (disposition : string) : Download :=
  StreamingResponse (au_canonical_object_key upload) (artifact_stream_chunk_bytes settings)
    (ar_size_bytes artifact)
    (match ar_mime_type artifact with
     | Some m => if ⌊ m = "" ⌋ then "application/octet-stream" else m
     | None => "application/octet-stream" end) disposition (ar_size_bytes artifact).

(** [download_artifact]: a redirect to another origin, or the bytes of the verified copy. *)
Definition download_artifact (artifact_id : string) (user : User) : M Download :=
  artifact ← ask (λ d, artifact_rows d !! artifact_id);
  match artifact with
  | None => http 404 "artifact not found"
  | Some artifact =>
      _ ← interleave;
      _ ← catch (require_job_owner_or_admin (ar_job_id artifact) user) artifact_not_found;
      upload ← query (λ d, head (where_ (λ u, ⌊ au_artifact_id u = Some (ar_id artifact) ⌋ &&
                                              ⌊ au_status u = "completed" ⌋) (artifact_uploads d)));
      match upload with
      | None => http 409 "artifact has not been server-verified"
      | Some upload =>
          _ ← reject_if (negb (upload_storage_matches upload)) 503
                "artifact storage namespace is unavailable";
          let disposition := attachment_content_disposition
                               (safe_download_filename (ar_filename artifact) (ar_id artifact)) in
          _ ← add_audit_event "user" (Some (u_id user)) "artifact.download_requested" "artifact"
                (Some (ar_id artifact)) [];
          _ ← commit;
          download_url ← create_download_url storage (au_canonical_object_key upload) disposition
                           (artifact_download_ttl_seconds settings);
          let origin := url ← download_url; url_origin url in
          mret (match download_url with
                | Some url =>
                    if is_some origin && negb ⌊ origin = url_origin public_base_url ⌋
                    then RedirectResponse url disposition
                    else stream_artifact artifact upload disposition
                | None => stream_artifact artifact upload disposition
                end)
      end
  end.
End download.
End uploads.
