(* ===== verification/ArtifactFinalize.v ===== *)
(** * Finalisation of an artifact upload

    [finalize_artifact_upload] of [routers/artifacts.py]: a finalizer claims a pending
    upload, verifies the staged object into a local spool, checks the claim of the Job
    again, publishes the verified copy under its canonical key, and registers the artifact
    in one transaction that completes the upload.  Whatever goes wrong after the claim
    puts the upload back or ends it, provided the finalizer still owns it. *)

From S2P Require Import Prelude Json JobConfig WorkerContract Settings ObjectKeys Ledger.
From S2P Require Import Evolution Session JobConfigLedger Mlflow LeaseService TelemetryIngest.
From S2P Require Import Storage ArtifactService ArtifactCleanup ArtifactRoutes.

Section finalize.
  Context `{ContractParser} `{Platform} `{S3Client}.
  Variable settings : Settings.
  Variable storage : StorageAdapter.

Implicit Types (upload : ArtifactUploadSession).

Definition ownership_changed : string := "upload finalization ownership changed".
Definition integrity_failed : string := "job configuration integrity check failed".

(** [_mark_verification_failure]: no verified copy was published. *)
Definition mark_verification_failure upload (finalization_token failure_code : string) : M bool :=
  _ ← require_storage storage upload;
  transitioned ← transition_owned_finalizing upload finalization_token GiveFailed failure_code;
  let '(transitioned, upload) := transitioned in
  if negb transitioned then mret false else
  canonical_not_required_at ← utc_now;
  _ ← update_upload (au_id upload)
        (λ u, ⌊ au_status u = "failed" ⌋ && is_none (au_canonical_cleanup_completed_at u))
        (λ u, u <| au_canonical_cleanup_completed_at := Some canonical_not_required_at |>
                <| au_updated_at := canonical_not_required_at |>);
  _ ← commit;
  _ ← cleanup_terminal_artifact_staging settings storage upload;
  mret true.

(** [_fail_owned_after_canonical_publish] *)
Definition fail_owned_after_canonical_publish upload (finalization_token failure_code : string)
    : M bool :=
  transitioned ← transition_owned_finalizing upload finalization_token GiveFailed failure_code;
  let '(transitioned, upload) := transitioned in
  if negb transitioned then mret false else
  _ ← cleanup_terminal_artifact_staging settings storage upload;
  mret true.

(** [_reload_artifact_upload_for_cleanup] *)
Definition reload_artifact_upload (upload_id : string) : M ArtifactUploadSession :=
  row ← query (λ d, artifact_uploads d !! upload_id);
  match row with Some u => mret u | None => http 409 ownership_changed end.

(** A failure is reported when it could be recorded. *)
Definition reported (transitioned : bool) : M () := reject_if (negb transitioned) 409 ownership_changed.

(** The failure of a finalizer that has published, on the row as it is now. *)
Definition fail_published (upload_id finalization_token failure_code : string) : M () :=
  upload ← reload_artifact_upload upload_id;
  transitioned ← fail_owned_after_canonical_publish upload finalization_token failure_code;
  reported transitioned.

(** *** Phase 1: the upload can be finalised, or was. *)
Definition finalizable (job_id upload_id : string) (p : ArtifactUploadFinalizeRequest)
    (worker_id : string) : M (ArtifactUploadSession + Artifact) :=
  _ ← require_active_lease worker_id job_id (uf_lease_id p) false;
  row ← query (λ d, artifact_uploads d !! upload_id);
  match row with
  | None => http 409 "upload session does not match lease"
  | Some upload =>
      _ ← reject_if (negb (upload_belongs_to_claim upload job_id (uf_attempt_id p) (uf_lease_id p)
                             worker_id)) 409 "upload session does not match lease";
      _ ← require_storage storage upload;
      registered ← (match au_artifact_id upload with
                    | Some id => if ⌊ au_status upload = "completed" ⌋
                                 then query (λ d, artifact_rows d !! id) else mret None
                    | None => mret None
                    end);
      match registered with
      | Some artifact =>
          _ ← sync_after_commit settings (Some (artifact_event_key (ar_id artifact)));
          mret (inr artifact)
      | None =>
          _ ← reject_if (upload_failed upload) 409
                ("upload session is " +:+ au_status upload);
          recovered ← (if ⌊ au_status upload = "finalizing" ⌋ then
                         recovered ← recover_stale_finalizing settings upload;
                         _ ← reject_if (negb recovered.1) 409 "upload session is already finalizing";
                         mret recovered.2
                       else mret upload);
          let upload := recovered in
          _ ← reject_if (is_some (au_upload_write_token upload)) 409 "upload session write is active";
          _ ← reject_if (⌊ au_storage_backend upload = "local" ⌋ && is_none (au_uploaded_at upload))
                409 "local upload is not sealed";
          now ← utc_now;
          _ ← when (au_expires_at upload <=? now)
                (expired ← expire_upload settings storage upload;
                 _ ← reject_if (negb expired.1) 409 "artifact upload state changed";
                 http 409 "upload session expired");
          mret (inl upload)
      end
  end.

(** *** Phase 2: the finalizer's claim. *)
Definition claim_finalization upload (finalization_token : string) : M ArtifactUploadSession :=
  updated_at ← utc_now;
  let claim u := u <| au_status := "finalizing" |>
                   <| au_finalization_token := Some finalization_token |>
                   <| au_failure_code := None |> in
  claimed ← update_upload (au_id upload)
    (λ u, ⌊ au_status u = "pending" ⌋ && is_none (au_upload_write_token u) &&
          is_none (au_finalization_token u) &&
          (negb ⌊ au_storage_backend u = "local" ⌋ || is_some (au_uploaded_at u)))
    (λ u, claim u <| au_updated_at := updated_at |>);
  if negb claimed then _ ← rollback; http 409 "upload session finalization conflict"
  else _ ← commit; mret (claim upload).

(** *** Phase 3: the staged object is verified into the spool. *)
Definition verify_upload upload (finalization_token : string) : M string :=
  verified ← attempt (run_with_heartbeat (touch_artifact_finalization (au_id upload) finalization_token)
    (λ io, verify_object_to_spool settings io (au_temporary_object_key upload)
             (au_expected_size_bytes upload) (au_expected_sha256 upload)));
  let reset_and {A} (failure_code : string) (m : M A) : M A :=
    transitioned ← reset_finalizing_to_pending upload finalization_token failure_code;
    _ ← reported transitioned; m in
  let mismatch failure_code : M string :=
    transitioned ← mark_verification_failure upload finalization_token failure_code;
    _ ← reported transitioned;
    http 422 "uploaded artifact failed size or SHA-256 verification" in
  match verified with
  | Ok spool => mret spool
  | Raise OwnershipLost => _ ← attempt remove_spool_file; http 409 ownership_changed
  | Raise ObjectNotFound =>
      reset_and "uploaded_object_not_found" (http 409 "uploaded object not found")
  | Raise (ArtifactSpoolError code) =>
      reset_and code (http 503 "artifact verification spool is temporarily unavailable")
  | Raise (ArtifactVerificationMismatch code) => mismatch code
  | Raise ObjectTooLarge => mismatch "size_mismatch"
  | Raise e =>
      if is_storage_error e
      then reset_and "verification_read_failed" (http 503 "artifact verification read failed")
      else raise e
  end.

(** The claim of the Job, which [for_update] locks. *)
Definition require_finalize_claim (job_id worker_id : string) (p : ArtifactUploadFinalizeRequest)
    (for_update : bool) : M () :=
  lease ← require_active_lease worker_id job_id (uf_lease_id p) for_update;
  reject_if (negb ⌊ l_attempt_id lease = uf_attempt_id p ⌋) 409
    "upload attempt does not match lease".

Definition claim_failure_code (detail : string) : string :=
  if ⌊ detail = integrity_failed ⌋ then "job_config_integrity_failed"
  else "claim_changed_after_verification".

(** *** Phase 4: the claim still holds; otherwise the upload fails unpublished. *)
Definition recheck_claim upload_id (finalization_token job_id worker_id : string)
    (p : ArtifactUploadFinalizeRequest) : M () :=
  checked ← attempt (_ ← interleave; require_finalize_claim job_id worker_id p false);
  match checked with
  | Ok _ => rollback
  | Raise (HTTPException code detail) =>
      _ ← rollback;
      upload ← reload_artifact_upload upload_id;
      removed ← attempt remove_spool_file;
      let spool_failure := match removed with Raise (ArtifactSpoolError c) => Some c | _ => None end in
      transitioned ← mark_verification_failure upload finalization_token
                       (default (claim_failure_code detail) spool_failure);
      _ ← reported transitioned;
      _ ← reject_if (is_some spool_failure) 503 "artifact verification spool cleanup failed";
      raise (HTTPException code detail)
  | Raise e => raise e
  end.

(** *** Phase 5: the verified bytes are published under the canonical key. *)
Definition publish_upload upload (finalization_token spool : string) : M () :=
  published ← attempt (run_with_heartbeat (touch_artifact_finalization (au_id upload) finalization_token)
    (λ io, store_verified_file io (au_canonical_object_key upload) spool));
  match published with
  | Ok _ => mret ()
  | Raise OwnershipLost => _ ← attempt remove_spool_file; http 409 ownership_changed
  | Raise e =>
      if is_storage_error e then
        _ ← attempt remove_spool_file;
        _ ← fail_published (au_id upload) finalization_token "storage_publish_failed";
        http 503 "verified artifact publish failed"
      else raise e
  end.

Definition remove_spool upload_id (finalization_token : string) : M () :=
  removed ← attempt remove_spool_file;
  match removed with
  | Raise (ArtifactSpoolError code) =>
      _ ← fail_published upload_id finalization_token code;
      http 503 "artifact verification spool cleanup failed"
  | Raise e => raise e
  | Ok _ => mret ()
  end.

(** *** Phase 6: the claim and the upload, locked for the registration. *)
Definition lock_finalization (upload_id finalization_token job_id worker_id : string)
    (p : ArtifactUploadFinalizeRequest) : M ArtifactUploadSession :=
  locked ← attempt (
    _ ← require_finalize_claim job_id worker_id p true;
    upload ← reload_artifact_upload upload_id;
    _ ← reject_if (negb (owns_finalization finalization_token upload)) 409 ownership_changed;
    mret upload);
  match locked with
  | Ok upload => mret upload
  | Raise (HTTPException code detail) =>
      _ ← rollback;
      _ ← fail_published upload_id finalization_token (claim_failure_code detail);
      raise (HTTPException code detail)
  | Raise e => raise e
  end.

(** [obj[key] = value] on a JSON object *)
Definition set_field (key : string) (value : json) (j : json) : json :=
  match j with
  | JObject fields =>
      JObject (if existsb (λ f, ⌊ f.1 = key ⌋) fields
               then map (λ f, if ⌊ f.1 = key ⌋ then (key, value) else f) fields
               else fields ++ [(key, value)])
  | _ => j
  end.

Definition new_artifact upload (artifact_id uri : string) : Artifact :=
  mkArtifact artifact_id (au_job_id upload) (au_attempt_id upload) (au_artifact_type upload)
    (au_filename upload) uri (au_expected_size_bytes upload) (au_expected_sha256 upload)
    (Some (au_content_type upload))
    (set_field "manager_verification"
       (JObject [("algorithm", JString "sha256"); ("bounded_stream", JBool true);
                 ("upload_session_id", JString (au_id upload));
                 ("storage_backend", JString (backend storage))]) (au_metadata_json upload)).

(** The columns of a completed upload. *)
Definition complete_upload (artifact_id : string) (uploaded_at now : Z) upload
    : ArtifactUploadSession :=
  upload <| au_artifact_id := Some artifact_id |> <| au_status := "completed" |>
         <| au_upload_write_token := None |> <| au_upload_heartbeat_at := None |>
         <| au_finalization_token := None |> <| au_failure_code := None |>
         <| au_uploaded_at := Some uploaded_at |> <| au_finalized_at := Some now |>
         <| au_updated_at := now |>.

(** *** Phase 7: the artifact is registered and the upload completed, in one transaction.
    Other transactions may commit until the artifact is written. *)
Definition register_artifact upload (finalization_token : string) (artifact : Artifact)
    : M (option string) :=
  _ ← interleave;
  _ ← add_artifact artifact;
  _ ← flush;
  job ← ask (λ d, jobs d !! ar_job_id artifact);
  match job with
  | None => http 409 "artifact job no longer exists"
  | Some job =>
      event_key ← enqueue_artifact settings job artifact;
      now ← utc_now;
      completed ← update_upload (au_id upload) (owns_finalization finalization_token)
        (complete_upload (ar_id artifact) (default now (au_uploaded_at upload)) now);
      if negb completed then _ ← rollback; raise OwnershipLost
      else _ ← commit; mret event_key
  end.

(** The registration, with the failures that are recorded. *)
Definition register_or_fail upload (finalization_token : string) (artifact : Artifact)
    : M (option string) :=
  registered ← attempt (register_artifact upload finalization_token artifact);
  let fail_and {A} (failure_code : string) (m : M A) : M A :=
    _ ← rollback; _ ← fail_published (au_id upload) finalization_token failure_code; m in
  match registered with
  | Ok event_key => mret event_key
  | Raise OwnershipLost => _ ← rollback; http 409 "upload finalization lost ownership"
  | Raise (InvalidJobConfigLedger _) =>
      fail_and "job_config_integrity_failed" (http 409 integrity_failed)
  | Raise (HTTPException code detail) =>
      fail_and "artifact_commit_conflict" (raise (HTTPException code detail))
  | Raise (DatabaseError IntegrityError) =>
      fail_and "artifact_commit_conflict" (http 409 "canonical artifact already exists")
  | Raise e => raise e
  end.

(** *** Phase 8: the staged object is cleaned up and the artifact answered. *)
Definition answer_artifact upload (artifact : Artifact) (event_key : option string) : M Artifact :=
  _ ← cleanup_terminal_artifact_staging settings storage (upload <| au_status := "completed" |>);
  refreshed ← query (λ d, artifact_rows d !! ar_id artifact);
  match refreshed with
  | None => raise (RuntimeError "could not refresh instance")
  | Some artifact => _ ← sync_after_commit settings event_key; mret artifact
  end.

Definition publish_and_register upload (finalization_token job_id worker_id : string)
    (p : ArtifactUploadFinalizeRequest) (spool : string) : M Artifact :=
  _ ← publish_upload upload finalization_token spool;
  _ ← remove_spool (au_id upload) finalization_token;
  upload ← lock_finalization (au_id upload) finalization_token job_id worker_id p;
  some_or_raise (storage_uri storage (au_canonical_object_key upload)) InvalidObjectKey (λ uri,
  artifact_id ← new_id;
  let artifact := new_artifact upload artifact_id uri in
  event_key ← register_or_fail upload finalization_token artifact;
  answer_artifact upload artifact event_key).

(** [finalize_artifact_upload] *)
Definition finalize_artifact_upload (job_id upload_id : string) (p : ArtifactUploadFinalizeRequest)
    (worker_id : string) : M Artifact :=
  ready ← finalizable job_id upload_id p worker_id;
  match ready with
  | inr artifact => mret artifact
  | inl upload =>
      finalization_token ← new_id;
      upload ← claim_finalization upload finalization_token;
      spool ← verify_upload upload finalization_token;
      _ ← recheck_claim (au_id upload) finalization_token job_id worker_id p;
      publish_and_register upload finalization_token job_id worker_id p spool
  end.
End finalize.
