(* ===== verification/LedgerInvariant.v ===== *)
(** * The assignment invariant of the ledger

    [LedgerInv]: the four tables of an assignment agree.  An active lease is the
    current one of its Job, its attempt is unfinished and has the Job's status, and
    its Worker is busy with the Job; conversely a busy Worker, a Job in a leased
    status and an unfinished attempt each have an active lease; an attempt has one
    lease.  The lemmas say which row changes preserve it: an update that keeps the
    assignment columns, a claim, a step of the pipeline, a release. *)

From S2P Require Import Prelude Json JobStatus Ledger Evolution Session Wp.
From S2P Require Import LeaseService.

(** The statuses in which a Job is held by a Worker. *)
Definition leased (status : string) : Prop := status ∈ recoverable_statuses.

Lemma leased_value s : leased (value s) ↔ is_terminal s = false ∧ s ≠ QUEUED ∧ s ≠ RETRYING.
Proof.
  unfold leased. rewrite list_elem_of_In. split.
  - intros Hin. by destruct s; simpl in Hin;
      repeat first [contradiction | destruct Hin as [Hin|Hin]; [try discriminate Hin|]].
  - intros (Ht & Hq & Hr). by destruct s; try done; simpl; repeat (first [by left|right]).
Qed.

Lemma leased_of status : leased status → ∃ s, status = value s ∧ is_terminal s = false.
Proof.
  unfold leased, recoverable_statuses. rewrite list_elem_of_In. intros Hin.
  apply in_map_iff in Hin as (s & <- & Hin). apply filter_In in Hin as [_ Hin]. exists s.
  split; [done|]. by destruct s.
Qed.

Record assigned (W : gmap string Worker) (J : gmap string Job) (A : gmap string JobAttempt)
    (l : JobLease) (job : Job) (attempt : JobAttempt) (worker : Worker) : Prop := mkAssigned {
  as_job : J !! l_job_id l = Some job;
  as_attempt : A !! l_attempt_id l = Some attempt;
  as_worker : W !! l_worker_id l = Some worker;
  as_released : l_released_at l = None;
  as_current : j_current_attempt_id job = Some (l_attempt_id l);
  as_job_worker : j_worker_id job = Some (l_worker_id l);
  as_leased : leased (j_status job);
  as_attempt_job : a_job_id attempt = l_job_id l;
  as_attempt_worker : a_worker_id attempt = l_worker_id l;
  as_unfinished : a_finished_at attempt = None;
  as_status : a_status attempt = j_status job;
  as_busy : w_current_job_id worker = Some (l_job_id l) }.

Record LedgerInv (W : gmap string Worker) (J : gmap string Job) (A : gmap string JobAttempt)
    (L : gmap string JobLease) : Prop := mkLedgerInv {
  worker_ids : ∀ k w, W !! k = Some w → w_id w = k;
  job_ids : ∀ k j, J !! k = Some j → j_id j = k;
  attempt_ids : ∀ k a, A !! k = Some a → a_id a = k;
  lease_ids : ∀ k l, L !! k = Some l → l_id l = k;
  lease_attempt : ∀ k l, L !! k = Some l → is_Some (A !! l_attempt_id l);
  lease_unique : ∀ k1 l1 k2 l2, L !! k1 = Some l1 → L !! k2 = Some l2 →
    l_attempt_id l1 = l_attempt_id l2 → k1 = k2;
  lease_assigned : ∀ k l, L !! k = Some l → l_active l = true →
    ∃ job attempt worker, assigned W J A l job attempt worker;
  lease_closed : ∀ k l, L !! k = Some l → l_active l = false → is_Some (l_released_at l);
  worker_busy : ∀ k w j, W !! k = Some w → w_current_job_id w = Some j →
    ∃ kl l, L !! kl = Some l ∧ l_active l = true ∧ l_worker_id l = k;
  job_leased : ∀ k j, J !! k = Some j → leased (j_status j) →
    ∃ kl l, L !! kl = Some l ∧ l_active l = true ∧ l_job_id l = k;
  attempt_open : ∀ k a, A !! k = Some a → a_finished_at a = None →
    ∃ kl l, L !! kl = Some l ∧ l_active l = true ∧ l_attempt_id l = k }.

(** A sealed attempt has no telemetry at or above its watermarks. *)
Definition SealInv (A : gmap string JobAttempt) (logs : gmap (string * Z) JobLog)
    (ms : gmap (string * Z) Metric) : Prop :=
  ∀ k a, A !! k = Some a →
    (∀ n seq, a_telemetry_log_count a = Some n → is_Some (logs !! (k, seq)) → seq < n) ∧
    (∀ n seq, a_telemetry_metric_count a = Some n → is_Some (ms !! (k, seq)) → seq < n).

(** A token hash belongs to one Worker, and the columns of a rotation are set
    together. *)
Definition CredInv (W : gmap string Worker) : Prop :=
  (∀ k1 w1 k2 w2, W !! k1 = Some w1 → W !! k2 = Some w2 →
     w_token_hash w1 = w_token_hash w2 → k1 = k2) ∧
  (∀ k w, W !! k = Some w → rotation_fields_together w = true).

Definition Inv (d : DB) : Prop :=
  LedgerInv (workers d) (jobs d) (attempts d) (leases d) ∧
  SealInv (attempts d) (job_logs d) (metrics d) ∧ CredInv (workers d).

Section ledger.
  #[local] Set Default Proof Using "All".
  Context (W : gmap string Worker) (J : gmap string Job) (A : gmap string JobAttempt)
    (L : gmap string JobLease).
  Hypothesis HI : LedgerInv W J A L.

(** ** At most one active lease per Job and per Worker *)

Lemma active_same_job k1 l1 k2 l2 :
  L !! k1 = Some l1 → L !! k2 = Some l2 → l_active l1 = true → l_active l2 = true →
  l_job_id l1 = l_job_id l2 → k1 = k2.
Proof.
  intros H1 H2 Ha1 Ha2 Hj.
  destruct (lease_assigned _ _ _ _ HI _ _ H1 Ha1) as (j1 & a1 & w1 & [] ).
  destruct (lease_assigned _ _ _ _ HI _ _ H2 Ha2) as (j2 & a2 & w2 & [] ).
  apply (lease_unique _ _ _ _ HI _ _ _ _ H1 H2). congruence.
Qed.

Lemma active_same_worker k1 l1 k2 l2 :
  L !! k1 = Some l1 → L !! k2 = Some l2 → l_active l1 = true → l_active l2 = true →
  l_worker_id l1 = l_worker_id l2 → k1 = k2.
Proof.
  intros H1 H2 Ha1 Ha2 Hw. apply (active_same_job _ _ _ _ H1 H2 Ha1 Ha2).
  destruct (lease_assigned _ _ _ _ HI _ _ H1 Ha1) as (j1 & a1 & w1 & [] ).
  destruct (lease_assigned _ _ _ _ HI _ _ H2 Ha2) as (j2 & a2 & w2 & [] ). congruence.
Qed.

(** The lease of a busy Worker is the one of its Job. *)
Lemma busy_lease k w j : W !! k = Some w → w_current_job_id w = Some j →
  ∃ kl l, L !! kl = Some l ∧ l_active l = true ∧ l_worker_id l = k ∧ l_job_id l = j.
Proof.
  intros Hw Hj. destruct (worker_busy _ _ _ _ HI _ _ _ Hw Hj) as (kl & l & Hl & Ha & Hk).
  exists kl, l. split_and!; [done..|].
  destruct (lease_assigned _ _ _ _ HI _ _ Hl Ha) as (? & ? & ? & []). congruence.
Qed.

(** ** Updates that keep the assignment columns *)

Lemma LedgerInv_worker k w w' :
  W !! k = Some w → w_id w' = k → w_current_job_id w' = w_current_job_id w →
  LedgerInv (<[k := w']> W) J A L.
Proof.
  intros Hw Hid Hcur. split; try apply HI.
  - intros k' v [[<- <-]|[? Hv]]%lookup_insert_Some; [done|]. by apply HI.
  - intros k' l Hl Ha.
    destruct (lease_assigned _ _ _ _ HI _ _ Hl Ha) as (j & a & v & Has). pose proof Has as [].
    exists j, a. destruct (decide (l_worker_id l = k)) as [<-|Hne].
    + exists w'. split; try done; [by rewrite lookup_insert_eq|]. congruence.
    + exists v. split; try done. by rewrite lookup_insert_ne.
  - intros k' v j [[<- <-]|[? Hv]]%lookup_insert_Some Hj.
    + rewrite Hcur in Hj. by eapply HI.
    + by eapply HI.
Qed.

Lemma LedgerInv_job k job job' :
  J !! k = Some job → j_id job' = k → j_current_attempt_id job' = j_current_attempt_id job →
  j_worker_id job' = j_worker_id job → j_status job' = j_status job →
  LedgerInv W (<[k := job']> J) A L.
Proof.
  intros Hjob Hid Hcur Hwk Hst. split; try apply HI.
  - intros k' v [[<- <-]|[? Hv]]%lookup_insert_Some; [done|]. by apply HI.
  - intros k' l Hl Ha.
    destruct (lease_assigned _ _ _ _ HI _ _ Hl Ha) as (j & a & v & Has). pose proof Has as [].
    destruct (decide (l_job_id l = k)) as [<-|Hne].
    + assert (job = j) as -> by congruence.
      exists job', a, v. split; try done; try congruence. by rewrite lookup_insert_eq.
    + exists j, a, v. split; try done. by rewrite lookup_insert_ne.
  - intros k' v [[<- <-]|[? Hv]]%lookup_insert_Some Hj.
    + rewrite Hst in Hj. by eapply HI.
    + by eapply HI.
Qed.

Lemma LedgerInv_lease k l l' :
  L !! k = Some l → l_id l' = k → l_job_id l' = l_job_id l → l_attempt_id l' = l_attempt_id l →
  l_worker_id l' = l_worker_id l → l_active l' = l_active l → l_released_at l' = l_released_at l →
  LedgerInv W J A (<[k := l']> L).
Proof.
  intros Hl Hid Hjob Hatt Hwk Hact Hrel. split; try apply HI.
  - intros k' v [[<- <-]|[? Hv]]%lookup_insert_Some; [done|]. by apply HI.
  - intros k' v [[<- <-]|[? Hv]]%lookup_insert_Some; [rewrite Hatt|]; by eapply HI.
  - intros k1 l1 k2 l2 [[<- <-]|[? H1]]%lookup_insert_Some [[<- <-]|[? H2]]%lookup_insert_Some He;
      [done|rewrite Hatt in He|rewrite Hatt in He|]; by eapply HI.
  - intros k' v [[<- <-]|[? Hv]]%lookup_insert_Some Ha; [|by eapply HI].
    rewrite Hact in Ha. destruct (lease_assigned _ _ _ _ HI _ _ Hl Ha) as (j & a & w & []).
    exists j, a, w. by split; try congruence.
  - intros k' v [[<- <-]|[? Hv]]%lookup_insert_Some Ha; [rewrite Hrel; rewrite Hact in Ha|];
      by eapply HI.
  - intros k' w j Hw Hj. destruct (worker_busy _ _ _ _ HI _ _ _ Hw Hj) as (kl & v & Hv & Ha & Hk).
    destruct (decide (kl = k)) as [->|]; [|exists kl, v; by rewrite lookup_insert_ne].
    exists k, l'. rewrite lookup_insert_eq. split_and!; congruence.
  - intros k' j Hj Hle. destruct (job_leased _ _ _ _ HI _ _ Hj Hle) as (kl & v & Hv & Ha & Hk).
    destruct (decide (kl = k)) as [->|]; [|exists kl, v; by rewrite lookup_insert_ne].
    exists k, l'. rewrite lookup_insert_eq. split_and!; congruence.
  - intros k' a Haa Hop. destruct (attempt_open _ _ _ _ HI _ _ Haa Hop) as (kl & v & Hv & Ha & Hk).
    destruct (decide (kl = k)) as [->|]; [|exists kl, v; by rewrite lookup_insert_ne].
    exists k, l'. rewrite lookup_insert_eq. split_and!; congruence.
Qed.

(** ** Rows outside any assignment *)

Lemma LedgerInv_free_worker k w' :
  (∀ w, W !! k = Some w → w_current_job_id w = None) →
  w_id w' = k → w_current_job_id w' = None → LedgerInv (<[k := w']> W) J A L.
Proof.
  intros Hfree Hid Hcur. split; try apply HI.
  - intros k' v [[<- <-]|[? Hv]]%lookup_insert_Some; [done|]. by apply HI.
  - intros k' l Hl Ha.
    destruct (lease_assigned _ _ _ _ HI _ _ Hl Ha) as (j & a & v & []).
    destruct (decide (l_worker_id l = k)) as [<-|Hne].
    + specialize (Hfree _ as_worker0). congruence.
    + exists j, a, v. split; try done. by rewrite lookup_insert_ne.
  - intros k' v j [[<- <-]|[? Hv]]%lookup_insert_Some Hj; [congruence|]. by eapply HI.
Qed.

Lemma LedgerInv_free_job k job' :
  (∀ job, J !! k = Some job → ¬ leased (j_status job)) →
  j_id job' = k → ¬ leased (j_status job') → LedgerInv W (<[k := job']> J) A L.
Proof.
  intros Hfree Hid Hst. split; try apply HI.
  - intros k' v [[<- <-]|[? Hv]]%lookup_insert_Some; [done|]. by apply HI.
  - intros k' l Hl Ha.
    destruct (lease_assigned _ _ _ _ HI _ _ Hl Ha) as (j & a & v & []).
    destruct (decide (l_job_id l = k)) as [<-|Hne].
    + by specialize (Hfree _ as_job0).
    + exists j, a, v. split; try done. by rewrite lookup_insert_ne.
  - intros k' v [[<- <-]|[? Hv]]%lookup_insert_Some Hj; [done|]. by eapply HI.
Qed.

(** ** A claim: a free Job and a free Worker get a new attempt and lease *)

Lemma LedgerInv_claim wid w' jid job' aid att lid l :
  (∃ w, W !! wid = Some w ∧ w_current_job_id w = None) →
  (∃ job, J !! jid = Some job ∧ ¬ leased (j_status job)) →
  A !! aid = None → L !! lid = None →
  w_id w' = wid → w_current_job_id w' = Some jid →
  j_id job' = jid → j_current_attempt_id job' = Some aid → j_worker_id job' = Some wid →
  leased (j_status job') →
  a_id att = aid → a_job_id att = jid → a_worker_id att = wid → a_finished_at att = None →
  a_status att = j_status job' →
  l_id l = lid → l_job_id l = jid → l_attempt_id l = aid → l_worker_id l = wid →
  l_active l = true → l_released_at l = None →
  LedgerInv (<[wid := w']> W) (<[jid := job']> J) (<[aid := att]> A) (<[lid := l]> L).
Proof.
  intros (w & Hw & Hwf) (job & Hj & Hjf) HA HL Hwid Hwcur Hjid Hjcur Hjw Hjst Haid Haj Haw Haf Has
    Hlid Hlj Hla Hlw Hlact Hlrel.
  assert (∀ k v, L !! k = Some v → l_active v = true →
            l_worker_id v ≠ wid ∧ l_job_id v ≠ jid ∧ l_attempt_id v ≠ aid) as Hother.
  { intros k v Hv Ha. destruct (lease_assigned _ _ _ _ HI _ _ Hv Ha) as (? & ? & ? & []).
    split_and!; intros He; rewrite He in *; simplify_eq. by apply Hjf. }
  assert (∀ k v, L !! k = Some v → k ≠ lid) as Hfresh by (intros k v Hv ->; congruence).
  split.
  - intros k v [[<- <-]|[? Hv]]%lookup_insert_Some; [done|]. by apply HI.
  - intros k v [[<- <-]|[? Hv]]%lookup_insert_Some; [done|]. by apply HI.
  - intros k v [[<- <-]|[? Hv]]%lookup_insert_Some; [done|]. by apply HI.
  - intros k v [[<- <-]|[? Hv]]%lookup_insert_Some; [done|]. by apply HI.
  - intros k v [[<- <-]|[? Hv]]%lookup_insert_Some.
    + rewrite Hla, lookup_insert_eq. eauto.
    + destruct (lease_attempt _ _ _ _ HI _ _ Hv) as [x Hx].
      rewrite lookup_insert_ne; [eauto|]. intros Heq. congruence.
  - intros k1 l1 k2 l2 [[<- <-]|[? H1]]%lookup_insert_Some [[<- <-]|[? H2]]%lookup_insert_Some He.
    + done.
    + destruct (lease_attempt _ _ _ _ HI _ _ H2) as [x Hx]. congruence.
    + destruct (lease_attempt _ _ _ _ HI _ _ H1) as [x Hx]. congruence.
    + by eapply HI.
  - intros k v [[<- <-]|[? Hv]]%lookup_insert_Some Ha.
    + exists job', att, w'.
      split; rewrite ?Hlj, ?Hla, ?Hlw, ?lookup_insert_eq; try done; congruence.
    + destruct (Hother _ _ Hv Ha) as (? & ? & ?).
      destruct (lease_assigned _ _ _ _ HI _ _ Hv Ha) as (j & a & u & []).
      exists j, a, u. split; try done; by rewrite lookup_insert_ne.
  - intros k v [[<- <-]|[? Hv]]%lookup_insert_Some Ha; [congruence|]. by eapply HI.
  - intros k v j [[<- <-]|[? Hv]]%lookup_insert_Some Hcur.
    + exists lid, l. by rewrite lookup_insert_eq.
    + destruct (worker_busy _ _ _ _ HI _ _ _ Hv Hcur) as (kl & u & Hu & ?).
      exists kl, u. rewrite lookup_insert_ne; [done|]. apply not_eq_sym. by eapply Hfresh.
  - intros k v [[<- <-]|[? Hv]]%lookup_insert_Some Hst.
    + exists lid, l. by rewrite lookup_insert_eq.
    + destruct (job_leased _ _ _ _ HI _ _ Hv Hst) as (kl & u & Hu & ?).
      exists kl, u. rewrite lookup_insert_ne; [done|]. apply not_eq_sym. by eapply Hfresh.
  - intros k v [[<- <-]|[? Hv]]%lookup_insert_Some Hop.
    + exists lid, l. by rewrite lookup_insert_eq.
    + destruct (attempt_open _ _ _ _ HI _ _ Hv Hop) as (kl & u & Hu & ?).
      exists kl, u. rewrite lookup_insert_ne; [done|]. apply not_eq_sym. by eapply Hfresh.
Qed.

(** ** Changes to one current assignment *)

Section assignment.
  Context (k : string) (l : JobLease) (job : Job) (attempt : JobAttempt) (worker : Worker).
  Hypothesis Hl : L !! k = Some l.
  Hypothesis Hact : l_active l = true.
  Hypothesis Has : assigned W J A l job attempt worker.

(** Another active lease shares none of its rows. *)
Lemma other_assignment k' v : L !! k' = Some v → l_active v = true → k' ≠ k →
  l_job_id v ≠ l_job_id l ∧ l_attempt_id v ≠ l_attempt_id l ∧ l_worker_id v ≠ l_worker_id l.
Proof.
  intros Hv Ha Hne. split_and!; intros He; apply Hne.
  - by eapply active_same_job.
  - by eapply HI.
  - by eapply active_same_worker.
Qed.

(** A step of the pipeline: the Job and its attempt move to the same leased status. *)
Lemma LedgerInv_progress job' attempt' :
  j_id job' = l_job_id l → a_id attempt' = l_attempt_id l →
  j_current_attempt_id job' = j_current_attempt_id job → j_worker_id job' = j_worker_id job →
  a_job_id attempt' = a_job_id attempt → a_worker_id attempt' = a_worker_id attempt →
  a_finished_at attempt' = None → a_status attempt' = j_status job' → leased (j_status job') →
  LedgerInv W (<[l_job_id l := job']> J) (<[l_attempt_id l := attempt']> A) L.
Proof.
  intros Hjid Haid Hcur Hw Haj Haw Hfin Hst Hleased. destruct Has.
  split; try apply HI.
  - intros k' v [[<- <-]|[? Hv]]%lookup_insert_Some; [done|]. by apply HI.
  - intros k' v [[<- <-]|[? Hv]]%lookup_insert_Some; [done|]. by apply HI.
  - intros k' v Hv. destruct (lease_attempt _ _ _ _ HI _ _ Hv) as [x Hx].
    rewrite lookup_insert_is_Some. destruct (decide (l_attempt_id l = l_attempt_id v)); eauto.
  - intros k' v Hv Ha. destruct (decide (k' = k)) as [->|Hne].
    + assert (v = l) as -> by congruence. exists job', attempt', worker.
      split; try done; try congruence; by rewrite lookup_insert_eq.
    + destruct (other_assignment _ _ Hv Ha Hne) as (? & ? & ?).
      destruct (lease_assigned _ _ _ _ HI _ _ Hv Ha) as (j & a & u & []).
      exists j, a, u. split; try done; by rewrite lookup_insert_ne.
  - intros k' v [[<- <-]|[? Hv]]%lookup_insert_Some Hs; [by exists k, l|]. by eapply HI.
  - intros k' v [[<- <-]|[? Hv]]%lookup_insert_Some Hs; [by exists k, l|]. by eapply HI.
Qed.

(** A release: the lease closes, the attempt ends, the Worker is free and the Job is
    no longer in a leased status. *)
Lemma LedgerInv_release l' job' attempt' worker' :
  l_id l' = k → l_attempt_id l' = l_attempt_id l → l_active l' = false →
  is_Some (l_released_at l') →
  j_id job' = l_job_id l → ¬ leased (j_status job') →
  a_id attempt' = l_attempt_id l → is_Some (a_finished_at attempt') →
  w_id worker' = l_worker_id l → w_current_job_id worker' = None →
  LedgerInv (<[l_worker_id l := worker']> W) (<[l_job_id l := job']> J)
    (<[l_attempt_id l := attempt']> A) (<[k := l']> L).
Proof.
  intros Hlid Hlatt Hl' Hrel Hjid Hjst Haid Hfin Hwid Hwcur.
  assert (∀ k' v, <[k := l']> L !! k' = Some v → l_active v = true →
    L !! k' = Some v ∧ k' ≠ k ∧
    l_job_id v ≠ l_job_id l ∧ l_attempt_id v ≠ l_attempt_id l ∧ l_worker_id v ≠ l_worker_id l)
    as Hother.
  { intros k' v [[<- <-]|[? Hv]]%lookup_insert_Some Ha; [congruence|].
    split_and!; try done; by eapply other_assignment. }
  assert (∀ (P : JobLease → Prop) kl v, L !! kl = Some v → l_active v = true → P v → ¬ P l →
    ∃ kl v, <[k := l']> L !! kl = Some v ∧ l_active v = true ∧ P v) as Hkeep.
  { intros P kl v Hv Ha HP HnP. exists kl, v. rewrite lookup_insert_ne; [done|].
    intros <-. congruence. }
  destruct Has. split.
  - intros k' v [[<- <-]|[? Hv]]%lookup_insert_Some; [done|]. by apply HI.
  - intros k' v [[<- <-]|[? Hv]]%lookup_insert_Some; [done|]. by apply HI.
  - intros k' v [[<- <-]|[? Hv]]%lookup_insert_Some; [done|]. by apply HI.
  - intros k' v [[<- <-]|[? Hv]]%lookup_insert_Some; [done|]. by apply HI.
  - intros k' v [[<- <-]|[? Hv]]%lookup_insert_Some.
    + rewrite Hlatt, lookup_insert_eq. eauto.
    + destruct (lease_attempt _ _ _ _ HI _ _ Hv) as [x Hx].
      rewrite lookup_insert_is_Some. destruct (decide (l_attempt_id l = l_attempt_id v)); eauto.
  - intros k1 l1 k2 l2 [[<- <-]|[? H1]]%lookup_insert_Some [[<- <-]|[? H2]]%lookup_insert_Some He;
      [done|rewrite Hlatt in He|rewrite Hlatt in He|]; by eapply HI.
  - intros k' v Hv Ha. destruct (Hother _ _ Hv Ha) as (Hv' & ? & ? & ? & ?).
    destruct (lease_assigned _ _ _ _ HI _ _ Hv' Ha) as (j & a & u & []).
    exists j, a, u. split; try done; by rewrite lookup_insert_ne.
  - intros k' v [[<- <-]|[? Hv]]%lookup_insert_Some Ha; [done|]. by eapply HI.
  - intros k' v j [[<- <-]|[Hne Hv]]%lookup_insert_Some Hcur; [congruence|].
    destruct (worker_busy _ _ _ _ HI _ _ _ Hv Hcur) as (kl & u & Hu & Ha & He).
    by apply (Hkeep (λ x, l_worker_id x = k') kl u).
  - intros k' v [[<- <-]|[Hne Hv]]%lookup_insert_Some Hs; [done|].
    destruct (job_leased _ _ _ _ HI _ _ Hv Hs) as (kl & u & Hu & Ha & He).
    by apply (Hkeep (λ x, l_job_id x = k') kl u).
  - intros k' v [[<- <-]|[Hne Hv]]%lookup_insert_Some Hs.
    + rewrite Hs in Hfin. by destruct Hfin.
    + destruct (attempt_open _ _ _ _ HI _ _ Hv Hs) as (kl & u & Hu & Ha & He).
      by apply (Hkeep (λ x, l_attempt_id x = k') kl u).
Qed.
End assignment.
End ledger.

(** ** Sealed telemetry *)

Lemma SealInv_attempt A logs ms k a a' :
  SealInv A logs ms → A !! k = Some a →
  a_telemetry_log_count a' = a_telemetry_log_count a →
  a_telemetry_metric_count a' = a_telemetry_metric_count a → SealInv (<[k := a']> A) logs ms.
Proof.
  intros HS Ha Hl Hm k' v [[<- <-]|[? Hv]]%lookup_insert_Some.
  - rewrite Hl, Hm. by apply HS.
  - by apply HS.
Qed.

Lemma SealInv_open A logs ms k a' :
  SealInv A logs ms → a_telemetry_log_count a' = None → a_telemetry_metric_count a' = None →
  SealInv (<[k := a']> A) logs ms.
Proof.
  intros HS Hl Hm k' v [[<- <-]|[? Hv]]%lookup_insert_Some; [|by apply HS].
  rewrite Hl, Hm. done.
Qed.

(** ** Credentials *)

Lemma CredInv_worker W k w w' :
  CredInv W → W !! k = Some w → w_token_hash w' = w_token_hash w →
  rotation_fields_together w' = rotation_fields_together w → CredInv (<[k := w']> W).
Proof.
  intros [Hu Hf] Hw Ht Hr. split.
  - intros k1 w1 k2 w2 [[<- <-]|[? H1]]%lookup_insert_Some [[<- <-]|[? H2]]%lookup_insert_Some He;
      [done|rewrite Ht in He|rewrite Ht in He|]; by eapply Hu.
  - intros k' v [[<- <-]|[? Hv]]%lookup_insert_Some; [rewrite Hr|]; by eapply Hf.
Qed.

Lemma worker_conflict_false w d k v :
  worker_conflict w d = false → workers d !! k = Some v → w_id v ≠ w_id w →
  w_name v ≠ w_name w ∧ w_token_hash v ≠ w_token_hash w.
Proof.
  unfold worker_conflict. intros Hc Hv Hne.
  assert (v ∈ rows (workers d)) as Hin.
  { unfold rows. apply list_elem_of_fmap. exists (k, v). by rewrite elem_of_map_to_list. }
  apply list_elem_of_In in Hin.
  destruct (negb ⌊ w_id v = w_id w ⌋ && (⌊ w_name v = w_name w ⌋ ||
    ⌊ w_token_hash v = w_token_hash w ⌋ || (is_some (w_pending_token_hash w) &&
    ⌊ w_pending_token_hash v = w_pending_token_hash w ⌋))) eqn:Hb.
  - assert (existsb (λ v, negb ⌊ w_id v = w_id w ⌋ && (⌊ w_name v = w_name w ⌋ ||
      ⌊ w_token_hash v = w_token_hash w ⌋ || (is_some (w_pending_token_hash w) &&
      ⌊ w_pending_token_hash v = w_pending_token_hash w ⌋))) (rows (workers d)) = true) as Ht.
    { apply existsb_exists. by exists v. }
    congruence.
  - rewrite bool_decide_eq_false_2 in Hb by done. simpl in Hb. by bools.
Qed.

(** The flush of changed credentials checks the constraints. *)
Lemma CredInv_save d w v :
  (∀ k u, workers d !! k = Some u → w_id u = k) → CredInv (workers d) →
  worker_conflict w
    (d <| workers := <[w_id w := w <| w_row_version := v |> ]> (workers d) |>) = false →
  rotation_fields_together w = true →
  CredInv (<[w_id w := w <| w_row_version := v |> ]> (workers d)).
Proof.
  intros Hids [Hu Hf] Hc Hr.
  assert (∀ k u, w_id w ≠ k → workers d !! k = Some u → w_token_hash u ≠ w_token_hash w) as Hother.
  { intros k u Hne Hu'. apply (worker_conflict_false _ _ k u Hc); simpl.
    - by rewrite lookup_insert_ne.
    - rewrite (Hids _ _ Hu'). congruence. }
  split.
  - intros k1 w1 k2 w2 [[<- <-]|[? H1]]%lookup_insert_Some [[<- <-]|[? H2]]%lookup_insert_Some He;
      simpl in *; [done| | |by eapply Hu].
    + by destruct (Hother k2 w2).
    + by destruct (Hother k1 w1).
  - intros k' u [[<- <-]|[? Hv]]%lookup_insert_Some; [done|by eapply Hf].
Qed.

Lemma Inv_empty : Inv empty_DB.
Proof. split; [split|split; [|split] ]; done. Qed.

(** Rows of other tables are irrelevant. *)
Lemma Inv_ext d d' :
  workers d' = workers d → jobs d' = jobs d → attempts d' = attempts d → leases d' = leases d →
  job_logs d' = job_logs d → metrics d' = metrics d → Inv d → Inv d'.
Proof. unfold Inv. by intros -> -> -> -> -> ->. Qed.

(** ** Invariants of committed states

    The invariants the handlers preserve: they imply the ledger invariant, and a
    transaction that evolves the ledger and restores it preserves them. *)
Class Stable (I : DB → Prop) : Prop := {
  stable_inv d : I d → Inv d;
  stable_closed c d : I c → evolves c d → Inv d → I d }.

#[export] Instance Stable_Inv : Stable Inv.
Proof. by split. Qed.

Lemma stable_step {I} `{!Stable I} c d : I c → evolves c d → Inv d → commits I c d.
Proof. intros. split; [by eapply stable_closed|done]. Qed.

(** A change followed by one that needs only the invariant. *)
Lemma commits_then {I : DB → Prop} c d e :
  commits I c d → (I d → commits I d e) → commits I c e.
Proof. intros [HI He] Hde. destruct (Hde HI) as [HI' He']. split; [done|by etrans]. Qed.

(** The committed database of a symbolic session satisfies the ledger invariant. *)
Ltac ledger_inv HI :=
  match goal with H : St _ _ _ _ _ _ _ _ _ |- _ =>
    pose proof (stable_inv _ (st_inv _ _ _ _ _ _ _ _ _ H)) as HI end.

(** A change of other tables needs the ledger invariant only. *)
Lemma stable_same I `{!Stable I} c d :
  I c → jobs d = jobs c → attempts d = attempts c → leases d = leases c →
  job_logs d = job_logs c → metrics d = metrics c → rest_of d = rest_of c → Inv d → commits I c d.
Proof. intros HI ? ? ? ? ? ? HD. apply stable_step; [done..| |done]. by apply (evolves_ext c c). Qed.

(** Reduces a commit that leaves the Job-side tables alone to the ledger invariant. *)
Ltac same_tables :=
  match goal with H : St ?I ?c _ _ _ _ _ _ _ |- commits ?I ?c ?d =>
    apply (stable_same I c d (st_inv _ _ _ _ _ _ _ _ _ H)); [reflexivity..|] end.

(** The states reached from [c0]. *)
Definition Inv_from (c0 d : DB) : Prop := Inv d ∧ evolves c0 d.

#[export] Instance Stable_from c0 : Stable (Inv_from c0).
Proof.
  split; [by intros d []|]. intros c d [_ H0] Hev HI. split; [done|]. by etrans.
Qed.

(** A leased Job may fail, be cancelled, or be requeued after a failure. *)
Lemma leased_path status t : leased status → t ∈ failure_or_cancel → status_path status (value t).
Proof.
  intros Hl Hin. destruct (leased_of _ Hl) as (s & -> & _).
  apply leased_value in Hl as (Ht & Hq & Hr). apply status_path_step. unfold status_step.
  apply list_elem_of_In in Hin as [<-|[<-|[]]]; apply list_elem_of_In; destruct s; try done;
    simpl; tauto.
Qed.

Lemma leased_path_CANCELLED status : leased status → status_path status (value CANCELLED).
Proof. intros Hl. apply leased_path; [done|]. apply list_elem_of_In. simpl. tauto. Qed.
Lemma leased_path_FAILED status : leased status → status_path status (value FAILED).
Proof. intros Hl. apply leased_path; [done|]. apply list_elem_of_In. simpl. tauto. Qed.

Lemma requeue_path : status_path (value FAILED) (value QUEUED).
Proof.
  etrans; [apply (status_path_step FAILED RETRYING)|apply (status_path_step RETRYING QUEUED)];
    unfold status_step; apply list_elem_of_In; simpl; tauto.
Qed.
