(* ===== verification/ArtifactLaws.v ===== *)
(** * Laws of artifact uploads

    What a row update, an insertion and a change of the object store do to the invariant of
    artifacts ([Evolution.v]), and a logic for the operations of the upload routes:
    [ends calm c m R] says that [m], started between two transactions on a committed
    database [c], ends between two transactions on a later one, where [R] holds of its
    result; when it raises, the session is between two transactions if [calm], and
    otherwise still safe. *)

From S2P Require Import Prelude Sha256 Settings ObjectKeys Ledger Evolution Session Storage.
From S2P Require Import ArtifactService ArtifactCleanup Wp Mlflow LedgerInvariant ArtifactRoutes.

(** Stable invariants under which the tables of artifacts are consistent. *)
Class StableArtifacts (I : DB → Prop) : Prop := {
  sa_stable :: Stable I;
  sa_artifacts d : I d → ArtifactsInv d }.

Definition with_uploads (d : DB) (k : string) (u : ArtifactUploadSession) : DB :=
  d <| artifact_uploads := <[k := u]> (artifact_uploads d) |>.
Definition with_objects (f : gmap string string → gmap string string) (d : DB) : DB :=
  d <| objects := f (objects d) |>.

(** ** Row updates *)

(** An update that keeps the life cycle of an upload and does not complete it. *)
Definition upload_move (p : ArtifactUploadSession → bool)
    (f : ArtifactUploadSession → ArtifactUploadSession) : Prop :=
  ∀ u, p u = true → upload_ok u = true →
    upload_evolves u (f u) ∧ upload_ok (f u) = true ∧
    (au_status (f u) = "completed" → au_status u = "completed").

(** An update of the columns of a claim. *)
Lemma upload_move_same p f :
  (∀ u, p u = true → upload_ok u = true →
     upload_frame (f u) = upload_frame u ∧ au_status (f u) = au_status u ∧
     au_artifact_id (f u) = au_artifact_id u ∧
     is_some (au_finalization_token (f u)) = is_some (au_finalization_token u) ∧
     is_none (au_upload_write_token (f u)) = is_none (au_upload_write_token u) ∧
     au_uploaded_at (f u) = au_uploaded_at u ∧ is_none (au_dedupe_key (f u)) = is_none (au_dedupe_key u) ∧
     is_some (au_finalized_at (f u)) = is_some (au_finalized_at u)) → upload_move p f.
Proof.
  intros Hf u Hp Hok. destruct (Hf u Hp Hok) as (Hframe & Hs & Ha & Ht & Hw & Hu & Hd & Hfin).
  split; [by split; [| |rewrite Hu]|].
  split; [|congruence]. unfold upload_ok, upload_terminal, upload_failed in *.
  by rewrite Hs, Ha, Ht, Hw, Hu, Hd, Hfin.
Qed.

Lemma upload_verified_frame d u u' :
  upload_frame u' = upload_frame u → au_artifact_id u' = au_artifact_id u →
  upload_verified d u → upload_verified d u'.
Proof.
  intros [=] Ha [(id & a & Hi & Hr & Hg) (content & Ho & Hs & Hx)]. split.
  - exists id, a. split; [congruence|]. split; [done|]. unfold registered in *. congruence.
  - exists content. split; [congruence|]. split; congruence.
Qed.

(** The new row of an upload, when it is verified if it is completed. *)
Lemma artifacts_step_upload d k u u' :
  artifact_uploads d !! k = Some u → upload_evolves u u' → upload_ok u' = true →
  (ArtifactsInv d → au_status u' = "completed" → upload_verified d u') →
  artifacts_step d (with_uploads d k u').
Proof.
  intros Hu He Hok Hv HI. pose proof HI as [K S O U V W].
  assert (∀ k' v, <[k := u']> (artifact_uploads d) !! k' = Some v →
    ∃ v0, artifact_uploads d !! k' = Some v0 ∧ upload_frame v = upload_frame v0) as Hframe.
  { intros k' v [[<- <-]|[_ Hv']]%lookup_insert_Some; [exists u|by exists v]. split; [done|apply He]. }
  split; simpl.
  - split; simpl.
    + intros k' v Hv'. destruct (Hframe _ _ Hv') as (v0 & Hv0 & [=]). specialize (K _ _ Hv0). congruence.
    + intros k' v [[<- <-]|[_ Hv']]%lookup_insert_Some; [done|by eapply S].
    + intros k' v Hv'. destruct (Hframe _ _ Hv') as (v0 & Hv0 & [=]).
      destruct (O _ _ Hv0). split; congruence.
    + intros k1 u1 k2 u2 H1 H2 Hc. destruct (Hframe _ _ H1) as (v1 & Hv1 & [=]).
      destruct (Hframe _ _ H2) as (v2 & Hv2 & [=]). apply (U _ _ _ _ Hv1 Hv2). congruence.
    + intros k' v [[<- <-]|[_ Hv']]%lookup_insert_Some Hc;
        [destruct (Hv HI Hc)|destruct (V _ _ Hv' Hc)]; by split.
    + done.
  - apply table_step_insert; [by apply table_step_refl, _|]. by rewrite Hu.
  - done.
  - intros k' v _ content. by left.
Qed.

Lemma artifacts_step_move d k u p f :
  artifact_uploads d !! k = Some u → p u = true → upload_move p f →
  artifacts_step d (with_uploads d k (f u)).
Proof.
  intros Hu Hp Hmove HI. pose proof HI as [_ S _ _ V _].
  destruct (Hmove u Hp (S _ _ Hu)) as (He & Hok & Hc).
  refine (artifacts_step_upload _ _ _ _ Hu He Hok _ HI). intros _ Hs. apply Hc in Hs as Hs'.
  apply (upload_verified_frame _ u); [apply He| |by apply (V k)].
  apply He. unfold upload_terminal. by rewrite bool_decide_eq_true_2.
Qed.

(** A new upload has keys of its own. *)
Lemma artifacts_step_new d u :
  upload_ok u = true → upload_terminal u = false →
  au_temporary_object_key u = staging_object_key (au_attempt_id u) (au_id u) →
  au_canonical_object_key u =
    canonical_object_key (au_job_id u) (au_attempt_id u) (au_artifact_type u) (au_id u) →
  upload_taken u d = false → artifacts_step d (put_upload u d).
Proof.
  intros Hok Ht Hstag Hcan Hfree [K S O U V W].
  unfold upload_taken in Hfree. apply orb_false_iff in Hfree as [Hnew Hfree].
  assert (artifact_uploads d !! au_id u = None) as Hnone by (by destruct (_ !! _)).
  assert (∀ k v, artifact_uploads d !! k = Some v →
            au_canonical_object_key v ≠ au_canonical_object_key u) as Hother.
  { intros k v Hv Heq. assert (v ∈ rows (artifact_uploads d)) as Hin%list_elem_of_In.
    { unfold rows. apply list_elem_of_fmap. exists (k, v). by rewrite elem_of_map_to_list. }
    apply not_true_iff_false in Hfree. apply Hfree, existsb_exists. exists v. split; [done|].
    rewrite (bool_decide_eq_true_2 _ Heq). apply orb_true_r. }
  split; simpl.
  - split; simpl.
    + intros k v [[<- <-]|[_ Hv]]%lookup_insert_Some; [done|by apply K].
    + intros k v [[<- <-]|[_ Hv]]%lookup_insert_Some; [done|by eapply S].
    + intros k v [[<- <-]|[_ Hv]]%lookup_insert_Some; [done|by eapply O].
    + intros k1 u1 k2 u2 [[<- <-]|[_ H1]]%lookup_insert_Some [[<- <-]|[_ H2]]%lookup_insert_Some Hc;
        [done|by destruct (Hother _ _ H2)|by destruct (Hother _ _ H1)|by apply (U _ _ _ _ H1 H2)].
    + intros k v [[<- <-]|[_ Hv]]%lookup_insert_Some Hc; [|destruct (V _ _ Hv Hc); by split].
      unfold upload_terminal in Ht. by rewrite bool_decide_eq_true_2 in Ht.
    + done.
  - apply table_step_insert; [by apply table_step_refl, _|]. by rewrite Hnone.
  - done.
  - intros k v _ content. by left.
Qed.

(** ** The object store *)

(** A change of the store keeps the copies of the uploads that have not failed. *)
Lemma artifacts_step_objects d f :
  (∀ k u content, artifact_uploads d !! k = Some u →
     objects d !! au_canonical_object_key u = Some content →
     f (objects d) !! au_canonical_object_key u = Some content ∨ upload_failed u = true) →
  artifacts_step d (with_objects f d).
Proof.
  intros Hf [K S O U V W]. split; simpl; [|apply table_step_refl, _|done|].
  - split; simpl; try done. intros k u Hu Hc. destruct (V _ _ Hu Hc) as [Ha (content & Ho & Hx)].
    split; [done|]. exists content. split; [|done].
    destruct (Hf _ _ _ Hu Ho) as [|Hfail]; [done|]. unfold upload_failed in Hfail.
    rewrite Hc in Hfail. discriminate.
  - intros k u Hu content Ho. destruct (Hf _ _ _ Hu Ho) as [|Hfail]; [by left|]. right. by exists u.
Qed.

(** A staged object may come and go. *)
Lemma artifacts_step_staged d f a i :
  (∀ k m, k ≠ staging_object_key a i → f m !! k = m !! k) → artifacts_step d (with_objects f d).
Proof.
  intros Hf HI. refine (artifacts_step_objects _ _ _ HI). intros k u content Hu Ho. left.
  rewrite Hf; [done|]. destruct HI as [_ _ O _ _ _]. destruct (O _ _ Hu) as [_ ->].
  intros Heq. by eapply staging_not_canonical.
Qed.

(** A verified copy is written where there is none. *)
Lemma artifacts_step_publish d key content :
  objects d !! key = None → artifacts_step d (with_objects (put_object key content) d).
Proof.
  intros Hnone. apply artifacts_step_objects. intros k u c _ Ho. left. unfold put_object.
  rewrite lookup_insert_ne; [done|congruence].
Qed.

(** The copy of a failed upload may be deleted. *)
Lemma artifacts_step_delete d k u :
  artifact_uploads d !! k = Some u → upload_failed u = true →
  artifacts_step d (with_objects (delete (au_canonical_object_key u)) d).
Proof.
  intros Hu Hf HI. refine (artifacts_step_objects _ _ _ HI). intros k' u' content Hu' Ho.
  destruct (decide (k' = k)) as [->|Hne]; [right; congruence|left].
  rewrite lookup_delete_ne; [done|]. intros Heq. apply Hne.
  destruct HI as [_ _ _ U _ _]. by apply (U _ _ _ _ Hu' Hu).
Qed.

(** ** Uploads read earlier *)

Section laws.
  Context (I : DB → Prop) `{!StableArtifacts I}.
  #[local] Set Default Proof Using "Type StableArtifacts0".

(** [u] was the row of its upload, or has the columns set when it was created. *)
Definition later (c : DB) (u : ArtifactUploadSession) : Prop :=
  ∃ row, artifact_uploads c !! au_id u = Some row ∧ upload_evolves u row.
Definition known (c : DB) (u : ArtifactUploadSession) : Prop :=
  ∃ row, artifact_uploads c !! au_id u = Some row ∧ upload_frame row = upload_frame u.

Lemma uploads_later c d k row : I c → evolves c d → artifact_uploads c !! k = Some row →
  ∃ row', artifact_uploads d !! k = Some row' ∧ upload_evolves row row'.
Proof.
  intros HI Hev Hr. destruct (ev_artifacts _ _ Hev (sa_artifacts _ HI)) as [_ HU _ _].
  by eapply table_step_lookup.
Qed.

Lemma later_evolves c d u : I c → evolves c d → later c u → later d u.
Proof.
  intros HI Hev (row & Hr & He). destruct (uploads_later _ _ _ _ HI Hev Hr) as (row' & Hr' & He').
  exists row'. split; [done|by etrans].
Qed.

Lemma known_evolves c d u : I c → evolves c d → known c u → known d u.
Proof.
  intros HI Hev (row & Hr & He). destruct (uploads_later _ _ _ _ HI Hev Hr) as (row' & Hr' & [Hf _ _]).
  exists row'. split; [done|congruence].
Qed.

Lemma later_row c k u : I c → artifact_uploads c !! k = Some u → later c u ∧ au_id u = k.
Proof.
  intros HI Hu. destruct (sa_artifacts _ HI) as [K _ _ _ _ _]. pose proof (K _ _ Hu) as Hk. split; [|done].
  exists u. split; [congruence|reflexivity].
Qed.

Lemma later_known c u : later c u → known c u.
Proof using Type. intros (row & Hr & [Hf _ _]). by exists row. Qed.

Lemma known_frame c u u' : upload_frame u' = upload_frame u → known c u → known c u'.
Proof using Type. intros Hf (row & Hr & He). pose proof Hf as [=]. exists row. split; congruence. Qed.

(** The store keeps a published object until its upload has failed. *)
Lemma published_evolves c d k u content :
  I c → evolves c d → artifact_uploads c !! k = Some u →
  objects c !! au_canonical_object_key u = Some content →
  objects d !! au_canonical_object_key u = Some content ∨
  ∃ u', artifact_uploads d !! k = Some u' ∧ upload_failed u' = true.
Proof.
  intros HI Hev Hu Ho. destruct (ev_artifacts _ _ Hev (sa_artifacts _ HI)) as [_ _ _ HO].
  by apply (HO _ _ Hu).
Qed.

(** ** Changes of the tables of artifacts *)

Lemma commits_artifacts c d :
  I c → jobs d = jobs c → attempts d = attempts c → leases d = leases c → job_logs d = job_logs c →
  metrics d = metrics c → workers d = workers c → accounts_of d = accounts_of c →
  artifacts_step c d → commits I c d.
Proof.
  intros HI E1 E2 E3 E4 E5 E6 E7 Hs. apply stable_step; [done| |].
  - apply evolves_rest; try done. split; [exact (accounts_step_same _ _ E7)|done].
  - apply (Inv_ext c); try done. exact (stable_inv _ HI).
Qed.

Lemma commits_move c k u p f :
  I c → artifact_uploads c !! k = Some u → p u = true → upload_move p f →
  commits I c (with_uploads c k (f u)).
Proof. intros. apply commits_artifacts; try done. by eapply artifacts_step_move. Qed.

Lemma commits_objects c f : I c → artifacts_step c (with_objects f c) → commits I c (with_objects f c).
Proof. intros. by apply commits_artifacts. Qed.

(** ** The logic *)

Implicit Types (c : DB).

Definition raised (calm : bool) c (s : Session) : Prop :=
  evolves c (s_committed s) ∧ safe I s ∧ (calm = true → clean_session I s).

Definition ends (calm : bool) c {A} (m : M A) (R : A → DB → Prop) : Prop :=
  ∀ (Q : result A → Session → Prop) L t i s,
    St I c c false None L t i s →
    (∀ a c' L' t' i' s', evolves c c' → R a c' → St I c' c' false None L' t' i' s' → Q (Ok a) s') →
    (∀ e s', raised calm c s' → Q (Raise e) s') →
    wp m Q s.

(** A result nothing is claimed of. *)
Definition any {A} : A → DB → Prop := λ _ _, True.

Lemma raised_St calm c c' L t i s : evolves c c' → St I c' c' false None L t i s → raised calm c s.
Proof using Type.
  intros Hev Hst. pose proof Hst as []. split; [by subst|]. split; [by eapply St_safe|]. intros _.
  split; [by eapply St_safe|]. split_and!; congruence.
Qed.

Lemma raised_open c c' d b dm L t i s : evolves c c' → St I c' d b dm L t i s → raised false c s.
Proof using Type.
  intros Hev Hst. pose proof Hst as []. split; [by subst|]. by split; [by eapply St_safe|].
Qed.

Lemma raised_later calm c c' s : evolves c c' → raised calm c' s → raised calm c s.
Proof using Type. intros Hev (He & Hs & Hc). split; [by etrans|done]. Qed.

Lemma raised_safe calm c s : raised calm c s → raised false c s.
Proof using Type. intros (He & Hs & _). by split_and!. Qed.

Lemma ends_mono calm c {A} (m : M A) R R' :
  ends calm c m R → (∀ a c', evolves c c' → I c' → R a c' → R' a c') → ends calm c m R'.
Proof using Type.
  intros Hm HR Q L t i s Hst HQ HX. eapply Hm; [done| |done]. intros a c' L' t' i' s' Hev Ha Hst'.
  eapply HQ; [done| |done]. apply HR; [done| |done]. by destruct Hst'.
Qed.

Lemma ends_any calm c {A} (m : M A) R : ends calm c m R → ends calm c m any.
Proof using Type. intros Hm. by eapply ends_mono. Qed.

Lemma ends_open calm c {A} (m : M A) R : ends calm c m R → ends false c m R.
Proof using Type.
  intros Hm Q L t i s Hst HQ HX. eapply Hm; [done|done|]. intros e s' He. by eapply HX, raised_safe.
Qed.

Lemma ends_bind calm c {A B} (m : M A) (k : A → M B) R R' :
  ends calm c m R → (∀ a c', evolves c c' → I c' → R a c' → ends calm c' (k a) R') →
  ends calm c (m ≫= k) R'.
Proof using Type.
  intros Hm Hk Q L t i s Hst HQ HX. apply wp_bind. eapply Hm; [done| |done].
  intros a c' L' t' i' s' Hev Ha Hst'. assert (I c') as HI' by (by destruct Hst').
  eapply (Hk a c' Hev HI' Ha); [done| |].
  - intros b c2 L2 t2 i2 s2 Hev2 Hb Hst2. eapply HQ; [by etrans|done|done].
  - intros e s2 Hr. by eapply HX, raised_later.
Qed.

Lemma ends_ret calm c {A} (a : A) (R : A → DB → Prop) : R a c → ends calm c (mret a) R.
Proof using Type. intros Ha Q L t i s Hst HQ _. by eapply HQ. Qed.

Lemma ends_raise calm c {A} e (R : A → DB → Prop) : ends calm c (raise e) R.
Proof using Type. intros Q L t i s Hst _ HX. by eapply HX, raised_St. Qed.

Lemma ends_http calm c {A} n text (R : A → DB → Prop) : ends calm c (http n text) R.
Proof using Type. apply ends_raise. Qed.

Lemma ends_ask calm c {A} (f : DB → A) (R : A → DB → Prop) : R (f c) c → ends calm c (ask f) R.
Proof using Type.
  intros Ha Q L t i s Hst HQ _. eapply wp_ask; [done|]. by eapply HQ.
Qed.

Lemma ends_interleave calm c (R : () → DB → Prop) :
  (∀ c', evolves c c' → I c' → R () c') → ends calm c interleave R.
Proof using Type.
  intros HR Q L t i s Hst HQ _. eapply wp_interleave; [done|]. intros c' s' [_ Hev] Hst'.
  eapply HQ; [done| |done]. apply HR; [done|]. by destruct Hst'.
Qed.

Lemma ends_query calm c {A} (f : DB → A) (R : A → DB → Prop) :
  (∀ c', evolves c c' → I c' → R (f c') c') → ends calm c (query f) R.
Proof using Type.
  intros HR. unfold query. eapply ends_bind; [by apply (ends_interleave _ _ (λ _, I))|].
  intros _ c' Hev HI _. by apply ends_ask, HR.
Qed.

Lemma ends_utc_now calm c (R : Z → DB → Prop) : (∀ t, R t c) → ends calm c utc_now R.
Proof using Type.
  intros HR Q L t i s Hst HQ _. eapply wp_utc_now; [done|]. intros t' s' _ Hst'. by eapply HQ.
Qed.

Lemma ends_new_id `{Platform} calm c (R : string → DB → Prop) : (∀ id, R id c) → ends calm c new_id R.
Proof using Type.
  intros HR Q L t i s Hst HQ _. eapply wp_new_id; [done|]. intros id s' Hst'. by eapply HQ.
Qed.

Lemma ends_next_io calm c (R : io_event → DB → Prop) : (∀ io, R io c) → ends calm c next_io R.
Proof using Type.
  intros HR Q L t i s Hst HQ _. unfold wp. eapply HQ; [done|done|]. destruct Hst. by constructor.
Qed.

Lemma ends_rollback calm c (R : () → DB → Prop) :
  (∀ c', evolves c c' → I c' → R () c') → ends calm c rollback R.
Proof using Type.
  intros HR Q L t i s Hst HQ _. eapply wp_rollback_agree; [done|]. intros c' s' [_ Hev] Hst'.
  eapply HQ; [done| |done]. apply HR; [done|]. by destruct Hst'.
Qed.

Lemma ends_lock_row calm c {A} k (read : DB → A) (R : A → DB → Prop) :
  (∀ c', evolves c c' → I c' → R (read c') c') → ends calm c (lock_row k read) R.
Proof using Type.
  intros HR Q L t i s Hst HQ _. eapply wp_lock_row; [done|]. intros c' s' [_ Hev] Hst'.
  eapply HQ; [done| |done]. apply HR; [done|]. by destruct Hst'.
Qed.

Lemma ends_when calm c b m (R : () → DB → Prop) :
  (b = true → ends calm c m R) → (b = false → R () c) → ends calm c (when b m) R.
Proof using Type. destruct b; intros H1 H2; [by apply H1|by apply ends_ret, H2]. Qed.

Lemma ends_reject_if calm c b n text (R : () → DB → Prop) :
  (b = false → R () c) → ends calm c (reject_if b n text) R.
Proof using Type. intros HR. apply ends_when; [intros _; apply ends_http|done]. Qed.

Lemma ends_catch calm c {A} (m : M A) h R :
  ends true c m R → (∀ e k c', h e = Some k → evolves c c' → I c' → ends calm c' k R) →
  ends calm c (catch m h) R.
Proof using Type.
  intros Hm Hh Q L t i s Hst HQ HX. apply wp_catch. eapply Hm; [done|done|].
  intros e s' (Hev & Hsafe & Hclean). specialize (Hclean eq_refl).
  destruct (h e) as [k|] eqn:Hk; [|by apply HX].
  apply clean_St in Hclean as Hst'. eapply (Hh _ _ _ Hk Hev); [by apply Hst'|exact Hst'| |].
  - intros a c2 L2 t2 i2 s2 Hev2 Ha Hst2. eapply HQ; [by etrans|done|done].
  - intros e2 s2 Hr. by eapply HX, raised_later.
Qed.

Lemma ends_attempt calm c {A} (m : M A) (R : result A → DB → Prop) :
  ends true c m (λ a, R (Ok a)) → (∀ e c', evolves c c' → I c' → R (Raise e) c') →
  ends calm c (attempt m) R.
Proof using Type.
  intros Hm HR Q L t i s Hst HQ HX.
  assert (wp m (λ r s', Q (Ok r) s') s) as Hwp.
  { eapply Hm; [done| |].
    - intros a c' L' t' i' s' Hev Ha Hst'. by eapply HQ.
    - intros e s' (Hev & _ & Hclean). specialize (Hclean eq_refl). apply clean_St in Hclean.
      eapply HQ; [done| |exact Hclean]. apply HR; [done|]. by destruct Hclean. }
  revert Hwp. unfold wp, attempt. by destruct (m s).
Qed.

Lemma ends_of_result calm c {A} (r : result A) (R : A → DB → Prop) :
  (∀ a, r = Ok a → R a c) → ends calm c (of_result r) R.
Proof using Type. intros HR. destruct r; [by apply ends_ret, HR|apply ends_raise]. Qed.

(** The committed database satisfies the invariant. *)
Lemma ends_inv calm c {A} (m : M A) R : (I c → ends calm c m R) → ends calm c m R.
Proof using Type. intros Hm Q L t i s Hst. exact (Hm (st_inv _ _ _ _ _ _ _ _ _ Hst) Q L t i s Hst). Qed.

Lemma ends_collect calm c {A B} (xs : list A) (f : A → M B) :
  (∀ x c', evolves c c' → I c' → ends calm c' (f x) any) → ends calm c (collect xs f) any.
Proof using Type.
  revert c. induction xs as [|x xs IH]; intros c Hf; simpl; [by apply ends_ret|].
  apply ends_inv. intros HI. eapply ends_bind; [by apply Hf|]. intros y c' Hev _ _.
  eapply ends_bind; [apply IH; intros z c2 Hev2; apply Hf; by etrans|].
  intros ys c2 _ _ _. by apply ends_ret.
Qed.

(** ** Conditional updates *)

(** The row it changes is the one other transactions have left. *)
Lemma wp_update_upload id p f (Q : result bool → Session → Prop) c L t i s :
  St I c c false None L t i s →
  (∀ c' u s', evolves c c' → artifact_uploads c' !! id = Some u → p u = true →
     St I c' (with_uploads c' id (f u)) true None L t i s' → Q (Ok true) s') →
  (∀ c' s', evolves c c' → St I c' c' false None L t i s' → Q (Ok false) s') →
  wp (update_upload id p f) Q s.
Proof using Type.
  intros Hst HT HF. unfold update_upload. apply wp_bind. eapply wp_interleave; [done|].
  intros c' s' [_ Hev] Hst'. apply wp_bind. eapply wp_ask; [done|].
  destruct (artifact_uploads c' !! id) as [u|] eqn:Hu; [|by eapply HF].
  destruct (p u) eqn:Hp; [|by eapply HF]. apply wp_bind. eapply wp_write; [done|].
  intros s2 Hst2. by eapply HT.
Qed.

(** The row an update of an owned upload has left. *)
Definition updated (id : string) (p : ArtifactUploadSession → bool)
    (f : ArtifactUploadSession → ArtifactUploadSession) (c : DB) : Prop :=
  ∃ u, p u = true ∧ au_id u = id ∧ artifact_uploads c !! id = Some (f u).

(** [update(...)], then one branch for no row and a commit in the other. *)
Lemma ends_update_commit {B} c id p f (k1 k2 : M B) R :
  upload_move p f →
  (∀ c', evolves c c' → I c' → ends false c' k1 R) →
  (∀ c', evolves c c' → I c' → updated id p f c' → ends false c' k2 R) →
  ends false c (changed ← update_upload id p f; if negb changed then k1 else _ ← commit; k2) R.
Proof.
  intros Hmove H1 H2 Q L t i s Hst HQ HX. apply wp_bind. eapply wp_update_upload; [done| |].
  - intros c' u s' Hev Hu Hp Hst'. simpl. apply wp_bind.
    pose proof (commits_move c' id u p f (st_inv _ _ _ _ _ _ _ _ _ Hst') Hu Hp Hmove) as Hcom.
    eapply wp_commit; [done| |done|].
    + intros e s2 Hst2. eapply HX, raised_open; [|done]. done.
    + intros s2 _ Hst2. destruct Hcom as [HI2 Hev2].
      eapply (H2 (with_uploads c' id (f u))); [by etrans|done| |done| |].
      * exists u. split; [done|]. split; [|simpl; by rewrite lookup_insert_eq].
        by apply (later_row c'); [destruct Hst'|].
      * intros a c2 L2 t2 i2 s3 Hev3. eapply HQ. etrans; [done|]. by etrans.
      * intros e s3 Hr. eapply HX, raised_later; [|done]. by etrans.
  - intros c' s' Hev Hst'. simpl. eapply (H1 c'); [done|by destruct Hst'|done| |].
    + intros a c2 L2 t2 i2 s3 Hev3. eapply HQ. by etrans.
    + intros e s3 Hr. by eapply HX, raised_later.
Qed.

(** The commit is the last operation. *)
Lemma ends_update_last c id p f (k1 : M ()) R :
  upload_move p f →
  (∀ c', evolves c c' → I c' → ends false c' k1 R) →
  (∀ c', evolves c c' → I c' → updated id p f c' → R () c') →
  ends false c (changed ← update_upload id p f; if negb changed then k1 else commit) R.
Proof.
  intros Hmove H1 H2.
  assert (ends false c (changed ← update_upload id p f;
            if negb changed then k1 else _ ← commit; mret ()) R) as Hends.
  { apply ends_update_commit; [done..|]. intros. by apply ends_ret, H2. }
  intros Q L t i s Hst HQ HX. specialize (Hends Q L t i s Hst HQ HX). revert Hends.
  unfold wp, mbind, M_bind, mret, M_ret. destruct (update_upload id p f s) as [[[|]|e] s']; try done.
  simpl. by destruct (commit s') as [[[]|e] s2].
Qed.

Lemma ends_commit_or_discard (Q : result () → Session → Prop) c d L t i s :
  St I c d true None L t i s → commits I c d →
  (∀ s', St I d d false None ∅ t i s' → Q (Ok ()) s') →
  (∀ e s', raised true c s' → Q (Raise e) s') → wp commit_or_discard Q s.
Proof using Type.
  intros Hst Hcom HQ HX. unfold commit_or_discard. apply wp_catch.
  eapply wp_commit; [done| |done|].
  - intros e s' Hst'. apply wp_bind. eapply wp_discard; [done|]. intros s2 Hst2.
    by eapply HX, raised_St.
  - intros s' _ Hst'. by apply HQ.
Qed.

(** The same in a session of its own. *)
Lemma ends_update_discard {B} calm c id p f (k1 k2 : M B) R :
  upload_move p f →
  (∀ c', evolves c c' → I c' → ends calm c' k1 R) →
  (∀ c', evolves c c' → I c' → ends calm c' k2 R) →
  ends calm c (changed ← update_upload id p f;
               if negb changed then k1 else _ ← commit_or_discard; k2) R.
Proof.
  intros Hmove H1 H2 Q L t i s Hst HQ HX. apply wp_bind. eapply wp_update_upload; [done| |].
  - intros c' u s' Hev Hu Hp Hst'. simpl. apply wp_bind.
    pose proof (commits_move c' id u p f (st_inv _ _ _ _ _ _ _ _ _ Hst') Hu Hp Hmove) as Hcom.
    eapply ends_commit_or_discard; [done|exact Hcom| |].
    + intros s2 Hst2. destruct Hcom as [HI2 Hev2].
      eapply (H2 (with_uploads c' id (f u))); [by etrans|done|done| |].
      * intros a c2 L2 t2 i2 s3 Hev3. eapply HQ. etrans; [done|]. by etrans.
      * intros e s3 Hr. eapply HX, raised_later; [|done]. by etrans.
    + intros e s2 Hr. eapply HX, raised_later; [done|]. by destruct calm, Hr as (? & ? & ?).
  - intros c' s' Hev Hst'. simpl. eapply (H1 c'); [done|by destruct Hst'|done| |].
    + intros a c2 L2 t2 i2 s3 Hev3. eapply HQ. by etrans.
    + intros e s3 Hr. by eapply HX, raised_later.
Qed.

(** A session of its own either commits the update or leaves nothing. *)
Lemma ends_update_and_commit calm c id p f :
  upload_move p f → ends calm c (update_and_commit id p f) any.
Proof.
  intros Hmove Q L t i s Hst HQ HX. unfold update_and_commit. apply wp_bind.
  eapply wp_update_upload; [done| |].
  - intros c' u s' Hev Hu Hp Hst'. apply wp_bind.
    pose proof (commits_move c' id u p f (st_inv _ _ _ _ _ _ _ _ _ Hst') Hu Hp Hmove) as Hcom.
    eapply ends_commit_or_discard; [done|exact Hcom| |].
    + intros s2 Hst2. eapply HQ; [|done|exact Hst2]. destruct Hcom. by etrans.
    + intros e s2 Hr. eapply HX, raised_later; [done|]. by destruct calm, Hr as (? & ? & ?).
  - intros c' s' Hev Hst'. apply wp_bind. unfold commit_or_discard. apply wp_catch.
    eapply wp_commit; [done| |intros _; by split; [destruct Hst'|]|].
    + intros e s2 Hst2. apply wp_bind. eapply wp_discard; [done|]. intros s3 Hst3.
      by eapply HX, raised_St.
    + intros s2 _ Hst2. by eapply HQ.
Qed.

(** A change of the store. *)
Lemma ends_change_objects calm c f (R : () → DB → Prop) :
  (I c → artifacts_step c (with_objects f c)) →
  (R () (with_objects f c)) → ends calm c (change_objects f) R.
Proof.
  intros Hs HR Q L t i s Hst HQ _. unfold wp, change_objects. simpl.
  pose proof Hst as [HIc Henv Hc Hw Hd Hdm HL Ht Hi _].
  destruct (commits_objects c f HIc (Hs HIc)) as [HI Hev].
  eapply (HQ tt (with_objects f c)); [done|done|].
  destruct Henv as [Henv Hlog]. constructor; simpl; try done.
  - split; [done|]. constructor; [by subst|done].
  - by subst.
  - by rewrite Hw.
Qed.

(** After an exception, a rollback starts over. *)
Lemma wp_rollback_safe (Q : result () → Session → Prop) c s :
  safe I s → s_committed s = c →
  (∀ c' L t i s', evolves c c' → St I c' c' false None L t i s' → Q (Ok ()) s') → wp rollback Q s.
Proof using Type.
  intros [HI Henv] <- HQ. unfold rollback. apply wp_bind. unfold wp at 1. simpl.
  eapply (wp_interleave I _ (s_committed s) ∅ (s_clock s) (s_info s)); [by constructor|].
  intros c' s' [_ Hev] Hst'. by eapply HQ.
Qed.

(** [try: m except ...], when every handler begins with a rollback. *)
Definition recovers c {A} (m : M A) (R : A → DB → Prop) : Prop :=
  ∀ (Q : result A → Session → Prop) s, safe I s → s_committed s = c →
    (∀ a c' L' t' i' s', evolves c c' → R a c' → St I c' c' false None L' t' i' s' → Q (Ok a) s') →
    (∀ e s', raised false c s' → Q (Raise e) s') → wp m Q s.

Lemma recovers_raise c {A} e (R : A → DB → Prop) : recovers c (raise e) R.
Proof using Type. intros Q s Hs Hc _ HX. apply HX. split_and!; [by subst|done|done]. Qed.

Lemma recovers_rollback c {A} (m : M A) R :
  (∀ c', evolves c c' → I c' → ends false c' m R) → recovers c (_ ← rollback; m) R.
Proof using Type.
  intros Hm Q s Hs Hc HQ HX. apply wp_bind. eapply wp_rollback_safe; [done|done|].
  intros c' L t i s' Hev Hst'. eapply (Hm c'); [done|by destruct Hst'|done| |].
  - intros a c2 L2 t2 i2 s2 Hev2. eapply HQ. by etrans.
  - intros e s2 Hr. by eapply HX, raised_later.
Qed.

Lemma ends_attempt_recover c {A B} (m : M A) (k : result A → M B) R R' :
  ends false c m R →
  (∀ a c', evolves c c' → I c' → R a c' → ends false c' (k (Ok a)) R') →
  (∀ e c', evolves c c' → recovers c' (k (Raise e)) R') →
  ends false c (r ← attempt m; k r) R'.
Proof using Type.
  intros Hm Hk He Q L t i s Hst HQ HX. apply wp_bind.
  assert (wp m (λ r s', wp (k r) Q s') s) as Hwp.
  { eapply Hm; [done| |].
    - intros a c' L' t' i' s' Hev Ha Hst'. eapply (Hk a c'); [done|by destruct Hst'|done|done| |].
      + intros b c2 L2 t2 i2 s2 Hev2. eapply HQ. by etrans.
      + intros e s2 Hr. by eapply HX, raised_later.
    - intros e s' (Hev & Hsafe & _). eapply (He e _ Hev); [done|done| |].
      + intros b c2 L2 t2 i2 s2 Hev2. eapply HQ. by etrans.
      + intros e2 s2 Hr. by eapply HX, raised_later. }
  revert Hwp. unfold wp, attempt. by destruct (m s).
Qed.

(** The flush of a row that was added: it commits, or the handlers start over. *)
Lemma wp_add_attempt {A} (taken : DB → bool) (put : DB → DB) (k : result () → M A) R
    (Q : result A → Session → Prop) c L t i s :
  St I c c false None L t i s →
  (∀ e, recovers c (k (Raise (DatabaseError e))) R) →
  (∀ s', taken c = false → St I c (put c) true None L t i s' → wp (k (Ok ())) Q s') →
  (∀ a c' L' t' i' s', evolves c c' → R a c' → St I c' c' false None L' t' i' s' → Q (Ok a) s') →
  (∀ e s', raised false c s' → Q (Raise e) s') →
  wp (_ ← add_unique taken put; r ← attempt flush; k r) Q s.
Proof using Type.
  intros Hst He Hk HQ HX. apply wp_bind. eapply wp_add_unique; [exact Hst|].
  intros dm s1 Hdm Hst1. apply wp_bind. unfold wp, attempt, flush. pose proof Hst1 as [HI Henv Hc _ _ Hd _ _ _ _].
  rewrite Hd. destruct dm as [e|].
  - simpl. eapply (He e); [split; [by rewrite Hc|done]|done|done|done].
  - simpl. apply Hk; [by apply Hdm|done].
Qed.

(** [update(...)], then a commit whatever it matched. *)
Lemma ends_update_then {B} c id p f (k : M B) R :
  upload_move p f → (∀ c', evolves c c' → I c' → ends false c' k R) →
  ends false c (_ ← update_upload id p f; _ ← commit; k) R.
Proof.
  intros Hmove Hk Q L t i s Hst HQ HX. apply wp_bind.
  assert (∀ c' d b s', evolves c c' → St I c' d b None L t i s' → commits I c' d →
    wp (commit ≫= λ _, k) Q s') as Hcommit.
  { intros c' d b s' Hev Hst' [HI2 Hev2]. apply wp_bind. eapply wp_commit; [exact Hst'| |by intros _|].
    - intros e s2 Hst2. eapply HX, raised_open; [|exact Hst2]. done.
    - intros s2 _ Hst2. eapply (Hk d); [by etrans|done|exact Hst2| |].
      + intros a c2 L2 t2 i2 s3 Hev3. eapply HQ. etrans; [done|]. by etrans.
      + intros e s3 Hr. eapply HX, raised_later; [|done]. by etrans. }
  eapply wp_update_upload; [exact Hst| |].
  - intros c' u s' Hev Hu Hp Hst'. eapply Hcommit; [done|exact Hst'|].
    exact (commits_move c' id u p f (st_inv _ _ _ _ _ _ _ _ _ Hst') Hu Hp Hmove).
  - intros c' s' Hev Hst'. eapply Hcommit; [done|exact Hst'|]. split; [by destruct Hst'|done].
Qed.

(** A transaction that has written sees its own rows. *)
Lemma wp_update_upload_dirty id p f (Q : result bool → Session → Prop) c d dm L t i s :
  St I c d true dm L t i s →
  (∀ u s', artifact_uploads d !! id = Some u → p u = true →
     St I c (with_uploads d id (f u)) true dm L t i s' → Q (Ok true) s') →
  Q (Ok false) s → wp (update_upload id p f) Q s.
Proof using Type.
  intros Hst HT HF. unfold update_upload. apply wp_bind. unfold wp at 1, interleave.
  pose proof (st_dirty _ _ _ _ _ _ _ _ _ Hst) as Hd. rewrite Hd. simpl.
  apply wp_bind. eapply wp_ask; [done|]. destruct (artifact_uploads d !! id) as [u|] eqn:Hu; [|done].
  destruct (p u) eqn:Hp; [|done]. apply wp_bind. eapply wp_write; [done|]. intros s2 Hst2. by eapply HT.
Qed.

(** A write that commits. *)
Lemma ends_write_commit {A} c f (k : M A) R :
  (I c → commits I c (f c)) → (∀ d, evolves c d → I d → ends false d k R) →
  ends false c (_ ← write f; _ ← commit; k) R.
Proof using Type.
  intros Hcom Hk Q L t i s Hst HQ HX. apply wp_bind. eapply wp_write; [exact Hst|].
  intros s1 Hst1. apply wp_bind. destruct (Hcom (st_inv _ _ _ _ _ _ _ _ _ Hst)) as [HI Hev].
  eapply wp_commit; [exact Hst1| |by intros _|].
  - intros e s2 Hst2. eapply HX, raised_open; [|exact Hst2]. done.
  - intros s2 _ Hst2. eapply (Hk _ Hev HI); [exact Hst2| |].
    + intros a c2 L2 t2 i2 s3 Hev3. eapply HQ. by etrans.
    + intros e s3 Hr. by eapply HX, raised_later.
Qed.

(** Handlers that end so preserve the invariant. *)
Lemma ends_preserves {A} (m : M A) R : (∀ c, I c → ends false c m R) → preserves I m.
Proof using Type.
  intros Hm s Hs. assert (I (s_committed s)) as HI by apply Hs. apply clean_St in Hs.
  eapply (Hm _ HI); [exact Hs| |].
  - intros a c' L' t' i' s' _ _ Hst'. by eapply St_safe.
  - intros e s' (_ & Hsafe & _). done.
Qed.
End laws.

(** ** Automation *)

#[export] Hint Extern 0 (any _ _) => exact Logic.I : core.

Section bind.
  Context (I : DB → Prop) {A B : Type} (calm : bool) (c : DB) (R : B → DB → Prop).
  Notation ends := (ends I).

Lemma ends_bind_ret (a : A) (k : A → M B) : ends calm c (k a) R → ends calm c (mret a ≫= k) R.
Proof.
  intros Hk. eapply ends_bind; [by apply (ends_ret _ _ _ _ (λ a' c', a' = a ∧ c' = c))|].
  by intros a' c' _ _ [-> ->].
Qed.

Lemma ends_bind_ask (f : DB → A) (k : A → M B) : ends calm c (k (f c)) R → ends calm c (ask f ≫= k) R.
Proof.
  intros Hk. eapply ends_bind; [by apply (ends_ask _ _ _ _ (λ a' c', a' = f c ∧ c' = c))|].
  by intros a' c' _ _ [-> ->].
Qed.

Lemma ends_bind_query (f : DB → A) (k : A → M B) :
  (∀ c', evolves c c' → I c' → ends calm c' (k (f c')) R) → ends calm c (query f ≫= k) R.
Proof.
  intros Hk. eapply ends_bind; [by apply (ends_query _ _ _ _ (λ a' c', a' = f c'))|].
  intros a' c' Hev HI ->. by apply Hk.
Qed.

Lemma ends_bind_lock_row l (f : DB → A) (k : A → M B) :
  (∀ c', evolves c c' → I c' → ends calm c' (k (f c')) R) → ends calm c (lock_row l f ≫= k) R.
Proof.
  intros Hk. eapply ends_bind; [by apply (ends_lock_row _ _ _ _ _ (λ a' c', a' = f c'))|].
  intros a' c' Hev HI ->. by apply Hk.
Qed.

Lemma ends_bind_read b l (f : DB → A) (k : A → M B) :
  (∀ c', evolves c c' → I c' → ends calm c' (k (f c')) R) →
  ends calm c (LeaseService.read_row b l f ≫= k) R.
Proof.
  intros Hk. destruct b; [by apply ends_bind_lock_row|]. apply ends_inv. intros HI.
  apply ends_bind_ask. by apply Hk.
Qed.
End bind.

Section bind_unit.
  Context (I : DB → Prop) {B : Type} (calm : bool) (c : DB) (R : B → DB → Prop).
  Notation ends := (ends I).

Lemma ends_bind_time (k : Z → M B) : (∀ t, ends calm c (k t) R) → ends calm c (utc_now ≫= k) R.
Proof.
  intros Hk. eapply ends_bind; [by apply (ends_utc_now _ _ _ (λ _ c', c' = c))|].
  intros t c' _ _ ->. apply Hk.
Qed.

Lemma ends_bind_id `{Platform} (k : string → M B) :
  (∀ id, ends calm c (k id) R) → ends calm c (new_id ≫= k) R.
Proof.
  intros Hk. eapply ends_bind; [by apply (ends_new_id _ _ _ (λ _ c', c' = c))|].
  intros t c' _ _ ->. apply Hk.
Qed.

Lemma ends_bind_io (k : io_event → M B) :
  (∀ io, ends calm c (k io) R) → ends calm c (next_io ≫= k) R.
Proof.
  intros Hk. eapply ends_bind; [by apply (ends_next_io _ _ _ (λ _ c', c' = c))|].
  intros t c' _ _ ->. apply Hk.
Qed.

Lemma ends_bind_rollback (k : () → M B) :
  (∀ c', evolves c c' → I c' → ends calm c' (k ()) R) → ends calm c (rollback ≫= k) R.
Proof.
  intros Hk. eapply ends_bind; [by apply (ends_rollback _ _ _ (λ _ c', True))|].
  intros [] c' Hev HI _. by apply Hk.
Qed.

Lemma ends_bind_interleave (k : () → M B) :
  (∀ c', evolves c c' → I c' → ends calm c' (k ()) R) → ends calm c (interleave ≫= k) R.
Proof.
  intros Hk. eapply ends_bind; [by apply (ends_interleave _ _ _ (λ _ c', True))|].
  intros [] c' Hev HI _. by apply Hk.
Qed.

Lemma ends_bind_reject b n text (k : () → M B) :
  (b = false → ends calm c (k ()) R) → ends calm c (reject_if b n text ≫= k) R.
Proof.
  intros Hk. eapply ends_bind; [by apply (ends_reject_if _ _ _ _ _ _ (λ _ c', b = false ∧ c' = c))|].
  intros [] c' _ _ [Hb ->]. by apply Hk.
Qed.
End bind_unit.

(** A chain of later databases. *)
Ltac chain :=
  first [assumption | reflexivity |
    match goal with H : evolves ?c ?x |- evolves ?c ?d =>
      transitivity x; [exact H|clear H; chain] end].

(** Runs the operation at the head of a handler. *)
Ltac ends_step :=
  cbv beta iota zeta;
  lazymatch goal with
  | |- ends _ _ _ (mret _ ≫= _) _ => apply ends_bind_ret
  | |- ends _ _ _ (ask _ ≫= _) _ => apply ends_bind_ask
  | |- ends _ _ _ (query _ ≫= _) _ => apply ends_bind_query; intros ? ? ?
  | |- ends _ _ _ (lock_row _ _ ≫= _) _ => apply ends_bind_lock_row; intros ? ? ?
  | |- ends _ _ _ (LeaseService.read_row _ _ _ ≫= _) _ => apply ends_bind_read; intros ? ? ?
  | |- ends _ _ _ (utc_now ≫= _) _ => apply ends_bind_time; intros ?
  | |- ends _ _ _ (new_id ≫= _) _ => apply ends_bind_id; intros ?
  | |- ends _ _ _ (next_io ≫= _) _ => apply ends_bind_io; intros ?
  | |- ends _ _ _ (rollback ≫= _) _ => apply ends_bind_rollback; intros ? ? ?
  | |- ends _ _ _ (interleave ≫= _) _ => apply ends_bind_interleave; intros ? ? ?
  | |- ends _ _ _ (reject_if _ _ _ ≫= _) _ => apply ends_bind_reject; intros ?
  | |- ends ?I _ _ (update_upload _ _ _ ≫= ?k) _ =>
      lazymatch k with
      | context [commit_or_discard] => apply (ends_update_discard I); [|intros ? ? ?|intros ? ? ?]
      | context [negb _] =>
          lazymatch k with
          | context [commit ≫= _] => apply (ends_update_commit I); [|intros ? ? ?|intros ? ? ? ?]
          | _ => apply (ends_update_last I); [|intros ? ? ?|intros ? ? ? ?]
          end
      | _ => apply (ends_update_then I); [|intros ? ? ?]
      end
  | |- ends _ _ _ (_ ≫= _) _ => eapply (ends_bind _ _ _ _ _ any); [|intros ? ? ? ? _]
  | |- ends _ _ _ (mret _) _ => apply ends_ret
  | |- ends _ _ _ (raise _) _ => apply ends_raise
  | |- ends _ _ _ (http _ _) _ => apply ends_http
  | |- ends _ _ _ (ask _) _ => apply ends_ask
  | |- ends _ _ _ (query _) _ => apply ends_query; intros ? ? ?
  | |- ends _ _ _ utc_now _ => apply ends_utc_now; intros ?
  | |- ends _ _ _ new_id _ => apply ends_new_id; intros ?
  | |- ends _ _ _ rollback _ => apply ends_rollback; intros ? ? ?
  | |- ends _ _ _ interleave _ => apply ends_interleave; intros ? ? ?
  | |- ends _ _ _ (when _ _) _ => apply ends_when; intros ?
  | |- ends _ _ _ (reject_if _ _ _) _ => apply ends_reject_if; intros ?
  | |- ends _ _ _ (some_or_raise _ _ _) _ => unfold some_or_raise
  | |- ends _ _ _ (of_result _) _ => apply ends_of_result; intros ? ?
  | |- ends _ _ _ (match negb true with _ => _ end) _ => change (negb true) with false
  | |- ends _ _ _ (match negb false with _ => _ end) _ => change (negb false) with true
  | |- ends _ _ _ (match ?o with _ => _ end) _ => destruct o eqn:?
  | |- any _ _ => exact Logic.I
  | |- True => exact Logic.I
  end;
  cbv beta iota zeta.
Ltac ends_steps := repeat ends_step.

(** The upload is still known. *)
Ltac carry HI Hk := eapply (known_evolves _); [exact HI|chain|exact Hk].

(** An update from one status to another. *)
Ltac solve_move :=
  let u := fresh "u" in
  intros u Hp Hok; destruct u;
  unfold upload_ok, upload_terminal, upload_failed, owns_finalization, owns_write, relinquish in *;
  simpl in *; bools; subst; simpl in *;
  split; [split; simpl; try done; by eauto|];
  repeat match goal with
  | H : context [is_some ?o] |- _ => is_var o; destruct o; simpl in *; try done
  | H : context [is_none ?o] |- _ => is_var o; destruct o; simpl in *; try done
  end.
