(* ===== verification/LeaseRecovery.v ===== *)
(** * Correctness of lease recovery

    [recover_expired_leases] preserves the ledger invariant, closes a lease only when it
    has expired and its Worker has been silent for the offline window, and requeues
    a Job only below the attempt limit. *)

From S2P Require Import Prelude Json JobStatus JobConfig WorkerContract Settings Ledger Session Wp.
From S2P Require Import Evolution JobConfigLedger TestSets LeaseService LedgerInvariant.

Section recovery.
  Context `{ContractParser} `{Platform}.
  Variable settings : Settings.

Lemma recovered_job_id job attempt' cancelled ok :
  j_id (recovered_job settings job attempt' cancelled ok) = j_id job.
Proof. unfold recovered_job. by destruct (auto_requeue _ _ _ _). Qed.

Lemma recovered_attempt_id attempt cancelled ok now :
  a_id (recovered_attempt attempt cancelled ok now) = a_id attempt.
Proof. by destruct cancelled, ok. Qed.

Lemma recovered_job_status job attempt' cancelled ok :
  j_status (recovered_job settings job attempt' cancelled ok) =
  value (if cancelled then CANCELLED
         else if auto_requeue settings job cancelled ok then QUEUED else FAILED).
Proof.
  unfold recovered_job. destruct cancelled; [done|]. by destruct (auto_requeue settings job false ok).
Qed.

Lemma released_worker_id worker j : w_id (released_worker worker j) = w_id worker.
Proof. unfold released_worker. by case_bool_decide. Qed.

(** What closing one abandoned attempt does to the assignment tables, [c] being the
    committed state. *)
Record closed_by (c d d' : DB) (lease : JobLease) (job : Job) (attempt : JobAttempt)
    (worker : Worker) (cancelled ok : bool) (at_ : Z) : Prop := mkClosedBy {
  cb_leases : leases d' = <[l_id lease := close_lease lease at_]> (leases d);
  cb_attempts : attempts d' =
    <[a_id attempt := recovered_attempt attempt cancelled ok at_]> (attempts d);
  cb_jobs : ∃ v,
    let job' := (recovered_job settings job (recovered_attempt attempt cancelled ok at_)
                   cancelled ok) <| j_row_version := v |> in
    jobs d' = <[j_id job := job']> (jobs d) ∧ saved_over (jobs c) (j_id job) job';
  cb_workers : ∃ v, workers d' =
    <[w_id worker := (released_worker worker (j_id job)) <| w_row_version := v |> ]> (workers d);
  cb_logs : job_logs d' = job_logs d;
  cb_metrics : metrics d' = metrics d;
  cb_rest : rest_of d' = rest_of d }.

Section inv.
  Variable I : DB → Prop.

Lemma wp_close_abandoned lease job attempt worker cancelled ok at_
    (Q : result () → Session → Prop) c d b dm L t i s :
  St I c d b dm L t i s →
  (∀ d' s', closed_by c d d' lease job attempt worker cancelled ok at_ →
     St I c d' true dm L t i s' → Q (Ok ()) s') →
  wp (close_abandoned settings lease job attempt worker cancelled ok at_) Q s.
Proof.
  intros Hst HQ. unfold close_abandoned. wp_steps.
  all: eapply HQ; [|done]; split; simpl; try done.
  all: rewrite ?recovered_job_id in Hversion.
  all: rewrite ?recovered_attempt_id, ?recovered_job_id, ?released_worker_id; eauto.
Qed.
End inv.

(** The assignment of a lease whose attempt is unfinished. *)
Lemma unfinished_assigned d lease attempt :
  Inv d → leases d !! l_id lease = Some lease →
  attempts d !! l_attempt_id lease = Some attempt → a_finished_at attempt = None →
  l_active lease = true ∧
  ∃ job worker, assigned (workers d) (jobs d) (attempts d) lease job attempt worker.
Proof.
  intros [HI _] Hl Ha Hfin.
  destruct (attempt_open _ _ _ _ HI _ _ Ha Hfin) as (k & l & Hk & Hact & Heq).
  assert (k = l_id lease) as -> by by eapply (lease_unique _ _ _ _ HI).
  assert (l = lease) as -> by congruence. split; [done|].
  destruct (lease_assigned _ _ _ _ HI _ _ Hl Hact) as (job & a & worker & Has).
  exists job, worker. destruct Has. assert (a = attempt) as -> by congruence. by split.
Qed.

Lemma not_leased_closed cancelled requeue :
  ¬ leased (value (if cancelled : bool then CANCELLED else if requeue : bool then QUEUED else FAILED)).
Proof. rewrite leased_value. destruct cancelled, requeue; naive_solver. Qed.

Lemma Inv_closed c d d' lease job attempt worker cancelled ok at_ :
  Inv d → leases d !! l_id lease = Some lease → l_active lease = true →
  assigned (workers d) (jobs d) (attempts d) lease job attempt worker →
  closed_by c d d' lease job attempt worker cancelled ok at_ → Inv d'.
Proof.
  intros (HI & HS & HC) Hl Hact Has [Hleases Hattempts (v & Hjobs & _) [u Hworkers] Hlogs Hmetrics].
  pose proof Has as [].
  pose proof (job_ids _ _ _ _ HI _ _ as_job) as Hjid.
  pose proof (attempt_ids _ _ _ _ HI _ _ as_attempt) as Haid.
  pose proof (worker_ids _ _ _ _ HI _ _ as_worker) as Hwid.
  unfold Inv. rewrite Hleases, Hattempts, Hjobs, Hworkers, Hlogs, Hmetrics. split_and!.
  - rewrite Hjid, Haid, Hwid.
    eapply LedgerInv_release; try done; simpl; rewrite ?recovered_job_id, ?recovered_attempt_id,
      ?released_worker_id, ?recovered_job_status; try done.
    + apply not_leased_closed.
    + by destruct cancelled, ok.
    + unfold released_worker. case_bool_decide; [done|congruence].
  - rewrite Haid. eapply SealInv_attempt; [done|done|by destruct cancelled, ok..].
  - rewrite Hwid. eapply CredInv_worker; [done|done|..].
    all: unfold released_worker; by case_bool_decide.
Qed.

Lemma recovered_job_soft job attempt' cancelled ok v :
  leased (j_status job) →
  job_soft job ((recovered_job settings job attempt' cancelled ok) <| j_row_version := v |>).
Proof.
  intros Hl. split; [|simpl; rewrite recovered_job_status|].
  - unfold recovered_job. by destruct (auto_requeue _ _ _ _).
  - destruct cancelled; [by apply leased_path_CANCELLED|].
    destruct (auto_requeue _ _ _ _); [|by apply leased_path_FAILED].
    etrans; [by apply leased_path_FAILED|apply requeue_path].
  - unfold recovered_job. by destruct (auto_requeue _ _ _ _).
Qed.

Lemma evolves_closed c d d' lease job attempt worker cancelled ok at_ :
  Inv d → evolves c d → leases d !! l_id lease = Some lease → l_active lease = true →
  assigned (workers d) (jobs d) (attempts d) lease job attempt worker →
  closed_by c d d' lease job attempt worker cancelled ok at_ → evolves c d'.
Proof.
  intros [HI _] Hev Hl Hact Has [Hleases Hattempts (v & Hjobs & Hv) _ Hlogs Hmetrics Haccounts].
  destruct Has. pose proof (job_ids _ _ _ _ HI _ _ as_job) as Hjid.
  pose proof (attempt_ids _ _ _ _ HI _ _ as_attempt) as Haid.
  destruct Hev as [EJ EA EL EG EM EX].
  split; rewrite ?Hleases, ?Hattempts, ?Hjobs, ?Hlogs, ?Hmetrics;
    [| | |done|done|by eapply rest_step_ext].
  - rewrite Hjid in *. eapply jobs_step_save; [done|done|by apply recovered_job_soft|done].
  - rewrite Haid. eapply attempts_step_update; [done|done|]. split.
    + by destruct cancelled, ok.
    + rewrite as_unfinished. by intros [].
  - eapply leases_step_update; [done|done|]. split; [done|done|congruence].
Qed.

(** The guards of the recovery loop: an abandoned assignment. *)
Record abandoned (d : DB) (lease : JobLease) (job : Job) (attempt : JobAttempt)
    (worker : Worker) (at_ : Z) : Prop := mkAbandoned {
  ab_active : l_active lease = true;
  ab_assigned : assigned (workers d) (jobs d) (attempts d) lease job attempt worker;
  ab_silent : ∀ heartbeat, w_last_heartbeat_at worker = Some heartbeat →
    heartbeat <= at_ - seconds (worker_offline_seconds settings) }.

Definition config_ok (job : Job) (attempt : JobAttempt) : bool :=
  match validated_job_config job (Some attempt) with inr _ => true | inl _ => false end.

(** ** What a recovery pass changes *)

(** Job [k] was held under an abandoned lease, which is now closed. *)
Definition job_recovered (c d : DB) (k : string) (job : Job) (at_ : Z) : Prop :=
  ∃ lease attempt worker v,
    leases c !! l_id lease = Some lease ∧ l_job_id lease = k ∧
    abandoned c lease job attempt worker at_ ∧ l_expires_at lease <= at_ ∧
    leases d !! l_id lease = Some (close_lease lease at_) ∧
    let cancelled := is_some (j_cancel_requested_at job) in
    let ok := config_ok job attempt in
    jobs d !! k =
      Some ((recovered_job settings job (recovered_attempt attempt cancelled ok at_) cancelled ok)
              <| j_row_version := v |>).

Record recovery_step (c d : DB) (at_ : Z) : Prop := mkRecoveryStep {
  rs_inv : Inv d;
  rs_evolves : evolves c d;
  rs_active : ∀ k l, leases d !! k = Some l → l_active l = true →
    leases c !! k = Some l ∧ jobs d !! l_job_id l = jobs c !! l_job_id l ∧
    attempts d !! l_attempt_id l = attempts c !! l_attempt_id l ∧
    workers d !! l_worker_id l = workers c !! l_worker_id l;
  rs_jobs : ∀ k job, jobs c !! k = Some job →
    jobs d !! k = Some job ∨ job_recovered c d k job at_ }.

Lemma recovery_step_refl c at_ : Inv c → recovery_step c c at_.
Proof. intros HI. split; [done|done| |]; naive_solver. Qed.

Lemma abandoned_initial c d lease job attempt worker at_ :
  recovery_step c d at_ → leases d !! l_id lease = Some lease →
  abandoned d lease job attempt worker at_ →
  leases c !! l_id lease = Some lease ∧ abandoned c lease job attempt worker at_.
Proof.
  intros [HI _ Hact _] Hl [Ha [] Hs].
  destruct (Hact _ _ Hl Ha) as (Hlc & Hj & Hat & Hw).
  split; [done|]. split; [done| |done]. split; congruence.
Qed.

Lemma recovery_step_trans c d d' lease job attempt worker at_ :
  recovery_step c d at_ → leases d !! l_id lease = Some lease → l_expires_at lease <= at_ →
  abandoned d lease job attempt worker at_ →
  closed_by c d d' lease job attempt worker (is_some (j_cancel_requested_at job))
    (config_ok job attempt) at_ →
  Inv d' → evolves c d' → recovery_step c d' at_.
Proof.
  intros Hstep Hl Hexp Hab Hcl HI' Hev'. pose proof (abandoned_initial _ _ _ _ _ _ _ Hstep Hl Hab) as [Hlc Habc].
  destruct Hstep as [HI _ Hact Hjobs]. destruct Hab as [Ha Has _]. pose proof Has as [].
  destruct Hcl as [Hleases Hattempts (v & Hj & _) [u Hw] _ _].
  destruct HI as [HI _].
  rewrite (attempt_ids _ _ _ _ HI _ _ as_attempt) in Hattempts.
  rewrite (job_ids _ _ _ _ HI _ _ as_job) in Hj.
  rewrite (worker_ids _ _ _ _ HI _ _ as_worker) in Hw.
  split; [done|done| |].
  - intros k l Hk Hka. rewrite Hleases in Hk.
    apply lookup_insert_Some in Hk as [[<- <-]|[Hne Hk]]; [done|].
    destruct (other_assignment _ _ _ _ HI _ _ _ _ _ Hl Ha Has _ _ Hk Hka) as (? & ? & ?); [done|].
    rewrite Hj, Hattempts, Hw, !lookup_insert_ne by done. by apply Hact.
  - intros k j Hk. destruct (decide (k = l_job_id lease)) as [->|Hne].
    + right. exists lease, attempt, worker, v.
      assert (j = job) as -> by (destruct Habc as [_ [] _]; congruence).
      rewrite Hleases, Hj, !lookup_insert_eq. by split_and!.
    + destruct (Hjobs k j Hk) as [Hu|(l2 & a2 & w2 & v2 & H1 & H2 & H3 & H4 & H5 & H6)].
      * left. by rewrite Hj, lookup_insert_ne.
      * right. exists l2, a2, w2, v2. rewrite Hj, lookup_insert_ne by done.
        split_and!; try done. rewrite Hleases, lookup_insert_ne; [done|]. congruence.
Qed.

Section handler.
  Context (I : DB → Prop) `{!Stable I}.
  #[local] Set Default Proof Using "Stable0".

Lemma wp_recover_lease lease at_ (Q : result bool → Session → Prop) c d b L t i s :
  St I c d b None L t i s → Inv d → evolves c d → leases d !! l_id lease = Some lease →
  Q (Ok false) s →
  (∀ job attempt worker d' s', abandoned d lease job attempt worker at_ →
     closed_by c d d' lease job attempt worker (is_some (j_cancel_requested_at job))
       (config_ok job attempt) at_ →
     Inv d' → evolves c d' → St I c d' true None L t i s' → Q (Ok true) s') →
  (∀ e, Q (Raise e) s) →
  wp (recover_lease settings lease at_) Q s.
Proof.
  intros Hst HI Hev Hl Hskip Hclose Herr.
  unfold recover_lease. wp_steps; try done; try by apply Herr.
  eapply wp_close_abandoned; [done|]. intros d' s' Hcl Hst'. wp_step.
  bools. match goal with H : attempts d !! _ = Some ?x |- _ => rename x into attempt, H into Hatt end.
  match goal with H : jobs d !! _ = Some ?x |- _ => rename x into job, H into Hjob end.
  match goal with H : workers d !! _ = Some ?x |- _ => rename x into worker, H into Hworker end.
  destruct (unfinished_assigned d lease attempt) as (Hact & job' & worker' & Has); [done..|].
  assert (job' = job ∧ worker' = worker) as [-> ->] by (destruct Has; split; congruence).
  eapply Hclose; [| exact Hcl | by eapply Inv_closed | by eapply evolves_closed | exact Hst'].
  split; [done..|]. intros h Hh. rewrite Hh in *. by bools.
Qed.

(** The loop over the candidates. *)
Lemma wp_recover_loop at_ found (Q : result (list bool) → Session → Prop) c d b L t i s :
  St I c d b None L t i s → recovery_step c d at_ → NoDup (l_id <$> found) →
  Forall (λ l, leases d !! l_id l = Some l ∧ l_expires_at l <= at_) found →
  (∀ d' b' rs s', recovery_step c d' at_ → (count_true rs = 0%nat → b' = b) →
     St I c d' b' None L t i s' → Q (Ok rs) s') →
  (∀ e s', s_committed s' = c → safe I s' → Q (Raise e) s') →
  wp (collect found (λ lease, recover_lease settings lease at_)) Q s.
Proof.
  revert Q d b s. induction found as [|l found IH]; intros Q d b s Hst Hstep Hnd Hall HQ Herr.
  { apply wp_ret. by eapply HQ. }
  rewrite fmap_cons in Hnd. apply NoDup_cons in Hnd as [Hni Hnd].
  apply Forall_cons in Hall as [[Hl Hexp] Hall]. simpl. wp_step.
  eapply wp_recover_lease; [done|by destruct Hstep|by destruct Hstep|done|..].
  - wp_step. eapply IH; [done..| |done]. intros d' b' rs s' ? Hc Hst'. wp_step. by eapply HQ.
  - intros job attempt worker d' s' Hab Hcl HI' Hev' Hst'. wp_step.
    eapply IH; [done|by eapply recovery_step_trans|done| | |done].
    + apply Forall_forall. intros x Hx. rewrite Forall_forall in Hall.
      destruct (Hall x Hx) as [Hxl Hxe]. split; [|done].
      destruct Hcl as [-> _ _ _ _ _]. rewrite lookup_insert_ne; [done|].
      intros Heq. apply Hni. rewrite Heq. by apply list_elem_of_fmap_2.
    + intros d2 b2 rs s2 ? Hc Hst2. wp_step. eapply HQ; [done| |done]. done.
  - intros e. apply Herr; [by destruct Hst|by eapply St_safe].
Qed.

Lemma recovery_candidates_spec d held at_ n l :
  l ∈ (recovery_candidates d held at_ n).1 → ∃ k, leases d !! k = Some l ∧ l_expires_at l <= at_.
Proof using Type.
  simpl. intros Hin. apply elem_of_take in Hin as (j & Hin%list_elem_of_lookup_2 & _).
  apply elem_of_where_order in Hin as (He & k & Hk). exists k. split; [done|].
  unfold recovery_row in He. destruct (List.find _ _); [|done]. simpl in He.
  destruct (attempts d !! _); [|done]. simpl in He. destruct (workers d !! _); [|done].
  simpl in He. destruct (l_expires_at l <=? at_) eqn:Hle; [|done]. by bools.
Qed.

Lemma recovery_candidates_NoDup d held at_ n :
  (∀ k l, leases d !! k = Some l → l_id l = k) →
  NoDup (l_id <$> (recovery_candidates d held at_ n).1).
Proof using Type.
  intros Hids. simpl. eapply sublist_NoDup; [|apply fmap_sublist, sublist_take].
  rewrite order_by_permutation. unfold where_, rows.
  assert (NoDup (l_id <$> (map_to_list (leases d)).*2)) as Hnd.
  { rewrite <-list_fmap_compose.
    replace ((l_id ∘ snd) <$> map_to_list (leases d)) with ((map_to_list (leases d)).*1).
    - apply NoDup_fst_map_to_list.
    - apply list_fmap_ext. intros i [k l] Hi%list_elem_of_lookup_2%elem_of_map_to_list.
      symmetry. by apply Hids. }
  eapply sublist_NoDup; [exact Hnd|]. apply fmap_sublist.
  generalize ((map_to_list (leases d)).*2). intros xs.
  induction xs as [|x xs IH]; simpl; [done|].
  destruct (match recovery_row d at_ x with Some _ => _ | None => _ end); by constructor.
Qed.

(** The whole pass: it commits a state related to the initial one, or nothing. *)
Lemma wp_recover n (Q : result nat → Session → Prop) c L t i s :
  St I c c false None L t i s →
  (∀ r c' L' t' s', t <= t' → recovery_step c c' t → St I c' c' false None L' t' i s' →
     Q (Ok r) s') →
  (∀ e s', s_committed s' = c → safe I s' → Q (Raise e) s') →
  wp (recover_expired_leases settings n) Q s.
Proof.
  intros Hst HQ Herr. pose proof (stable_inv _ (st_inv _ _ _ _ _ _ _ _ _ Hst)) as HI.
  unfold recover_expired_leases. do 7 wp_step. wp_step. wp_step.
  eapply wp_recover_loop; [done|by apply recovery_step_refl|..].
  - apply recovery_candidates_NoDup. apply HI.
  - apply Forall_forall. intros l (k & Hk & Hexp)%recovery_candidates_spec.
    split; [|done]. by rewrite (lease_ids _ _ _ _ (proj1 HI) _ _ Hk).
  - intros d' b' rs s3 Hstep Hc Hst3. wp_step.
    apply wp_when; intros Hpos.
    + eapply wp_commit; [done|..].
      * intros e s2 Hst2. apply Herr; [by destruct Hst2|by eapply St_safe].
      * intros _. destruct Hstep as [HI' Hev _ _]. eapply stable_step; [by destruct Hst3|done..].
      * intros s2 _ Hst2. wp_step. by eapply HQ.
    + wp_step. apply Nat.ltb_ge in Hpos. specialize (Hc ltac:(lia)) as ->.
      destruct (st_clean _ _ _ _ _ _ _ _ _ Hst3 eq_refl) as [-> _]. by eapply HQ.
  - done.
Qed.
End handler.
End recovery.
