(* ===== verification/LeaseClaim.v ===== *)
(** * Correctness of claims

    [claim_job] preserves the ledger invariant under any interference of other
    transactions, takes the first eligible candidate, and is exclusive. *)

From S2P Require Import Prelude Json JobStatus JobConfig WorkerContract Settings Ledger Session Wp.
From S2P Require Import Evolution JobConfigLedger TestSets LeaseService LedgerInvariant.
From S2P Require Import LeaseRecovery.

Section claim.
  Context `{ContractParser} `{Platform}.
  Variable settings : Settings.
  Variable storage : ClaimStoragePort.

Section reads.
  Variable I : DB → Prop.

(** ** The snapshot checks only read and lock *)

Lemma wp_transfer_items job_id uploads items
    (Q : result (option (list TestSetTransferItem)) → Session → Prop) s :
  (∀ r, Q (Ok r) s) → (∀ e, Q (Raise e) s) →
  wp (transfer_items storage job_id uploads items) Q s.
Proof.
  intros HQ HR. revert Q HQ HR. unfold transfer_items.
  induction items as [|item items IH]; intros Q HQ HR; wp_steps; auto.
  apply IH; [|done]. intros r. wp_steps. auto.
Qed.

Lemma wp_verified_test_set_transfer job config
    (Q : result (option TestSetTransfer) → Session → Prop) c d b dm L t i s :
  St I c d b dm L t i s → (∀ r, Q (Ok r) s) → (∀ e, Q (Raise e) s) →
  wp (verified_test_set_transfer settings storage job config) Q s.
Proof.
  intros Hst HQ HR. unfold verified_test_set_transfer. wp_steps; try done.
  apply wp_transfer_items; [|done]. intros r. wp_steps; done.
Qed.

Lemma wp_candidate_dataset job (Q : result (option (option DatasetTransfer)) → Session → Prop)
    c d b dm L t i s :
  St I c d b dm L t i s →
  (∀ r L' s', L ⊆ L' → St I c d b dm L' t i s' → Q (Ok r) s') →
  (∀ e s', s_committed s' = c → safe I s' → Q (Raise e) s') →
  wp (candidate_dataset settings storage job) Q s.
Proof.
  intros Hst HQ HR. unfold candidate_dataset, verified_dataset_transfer. wp_steps.
  all: first [by eapply HQ; [|done]; set_solver
             | by apply HR; [eapply st_committed|eapply St_safe]].
Qed.

Lemma wp_candidate_test_set job config
    (Q : result (option (option TestSetTransfer)) → Session → Prop) c d b dm L t i s :
  St I c d b dm L t i s → (∀ r, Q (Ok r) s) → (∀ e, Q (Raise e) s) →
  wp (candidate_test_set settings storage job config) Q s.
Proof.
  intros Hst HQ HR. unfold candidate_test_set. wp_steps; try done.
  eapply wp_verified_test_set_transfer; [done| |done]. intros r. wp_steps; done.
Qed.
End reads.

(** ** The compare-and-swap *)

(** A claim of [job] by [worker] took the database from [d] to [d']. *)
Record claimed_from (d d' : DB) (worker : Worker) (job : Job) (config : JobConfig)
    (capabilities : WorkerCapabilities) (now : Z) (r : JobClaim) : Prop := mkClaimedFrom {
  cf_row : ∃ v, jobs d !! j_id job = Some job ∧ j_status job = value QUEUED ∧
    jobs d' = <[j_id job := claimed_job job (w_id worker) (jc_attempt_id r) now job]> (jobs d) ∧
    workers d' = <[w_id worker :=
      (busy_worker worker (j_id job) capabilities now) <| w_row_version := v |> ]> (workers d);
  cf_attempt : attempts d !! jc_attempt_id r = None ∧ attempts d' =
    <[jc_attempt_id r := claim_attempt job (w_id worker) (jc_attempt_id r) (jc_config_sha256 r)
                           capabilities now]> (attempts d);
  cf_lease : leases d !! jc_lease_id r = None ∧ leases d' =
    <[jc_lease_id r := mkJobLease (jc_lease_id r) (j_id job) (jc_attempt_id r) (w_id worker)
                         (jc_lease_expires_at r) now None true]> (leases d);
  cf_logs : job_logs d' = job_logs d;
  cf_metrics : metrics d' = metrics d;
  cf_rest : rest_of d' = rest_of d;
  cf_response : jc_job_id r = j_id job ∧ jc_config r = config ∧
    jc_attempt_number r = j_attempt_count job + 1 ∧
    jc_lease_expires_at r = lease_expiry settings now ∧ JobClaim_valid r = true }.

Lemma leased_ASSIGNED : leased (value ASSIGNED).
Proof. by rewrite leased_value. Qed.
Lemma not_leased_QUEUED : ¬ leased (value QUEUED).
Proof. rewrite leased_value. naive_solver. Qed.
Lemma not_leased_FAILED : ¬ leased (value FAILED).
Proof. rewrite leased_value. naive_solver. Qed.

Lemma Inv_claimed d d' worker job config capabilities now r :
  Inv d → workers d !! w_id worker = Some worker → w_current_job_id worker = None →
  claimed_from d d' worker job config capabilities now r → Inv d'.
Proof.
  intros (HI & HS & HC) Hw Hfree [(v & Hrow & Hq & Hj & Hw') [Ha Ha'] [Hl Hl'] Hlg Hm _ _].
  unfold Inv. rewrite Hj, Hw', Ha', Hl', Hlg, Hm. split_and!.
  - eapply LedgerInv_claim; try done; eauto using leased_ASSIGNED.
    + exists job. rewrite Hq. eauto using not_leased_QUEUED.
  - by apply SealInv_open.
  - by eapply CredInv_worker.
Qed.

Lemma evolves_claimed d d' worker job config capabilities now r :
  claimed_from d d' worker job config capabilities now r → evolves d d'.
Proof.
  intros [(v & Hrow & Hq & Hj & _) [Ha Ha'] [Hl Hl'] Hlg Hm Hx _].
  split; rewrite ?Hj, ?Ha', ?Hl', ?Hlg, ?Hm; [| | |done|done|by apply rest_step_same].
  - eapply jobs_step_update; [apply evolves_PreOrder|done|]. right. split; [simpl; lia|].
    split; [done| |simpl; lia]. rewrite Hq. apply (status_path_step QUEUED ASSIGNED).
    apply list_elem_of_In. simpl. tauto.
  - apply attempts_step_new; [apply evolves_PreOrder|done].
  - apply leases_step_new; [apply evolves_PreOrder|done].
Qed.

Section handler.
  Context (I : DB → Prop) `{!Stable I}.
  #[local] Set Default Proof Using "Stable0".

Lemma claimed_stable c d d' worker job config capabilities now r :
  I c → Inv d → evolves c d → workers d !! w_id worker = Some worker →
  w_current_job_id worker = None →
  claimed_from d d' worker job config capabilities now r → commits I c d'.
Proof.
  intros HI HId Hev Hw Hfree Hcl. eapply stable_step; [done| |by eapply Inv_claimed].
  etrans; [done|by eapply evolves_claimed].
Qed.

Lemma wp_claim_candidate worker capabilities now job config sha dt tt
    (Q : result (option JobClaim) → Session → Prop) c d b L t i s :
  St I c d b None L t i s → Inv d → evolves c d → seen d job →
  workers d !! w_id worker = Some worker → w_current_job_id worker = None →
  (∀ s', St I c d b None L t i s' → Q (Ok None) s') →
  (∀ d' L' r s', claimed_from d d' worker job config capabilities now r →
     St I d' d' false None L' t i s' → Q (Ok (Some r)) s') →
  (∀ e s', safe I s' → Q (Raise e) s') →
  wp (claim_candidate settings worker capabilities now job config sha dt tt) Q s.
Proof.
  intros Hst HI Hev Hseen Hw Hfree Hlost Hwon Herr. unfold claim_candidate.
  do 5 wp_step. wp_step.
  2:{ wp_steps; by apply Hlost. }
  bools. match goal with Hrow : jobs d !! _ = Some ?row |- _ =>
    assert (row = job) as -> by by eapply seen_version end.
  unfold record_claim, add_attempt, add_lease. wp_steps.
  { eapply Herr, St_safe; done. }
  { by apply Herr. }
  2: eapply Hwon; [|done].
  1: eapply (claimed_stable c d _ worker job config capabilities now
      (mkJobClaim (j_id job) id (j_attempt_count job + 1) id0 (lease_expiry settings now) config
         sha dt tt)); [by eapply st_inv|done..|].
  all: repeat match goal with H : ?dm = None, H' : ?dm = None → _ |- _ =>
         destruct (H' H) as [? ?]; clear H' end.
  all: assert (attempts d !! id = None) as Haid by by apply is_some_false.
  all: assert (leases d !! id0 = None) as Hlid by by apply is_some_false.
  all: bools; clear -H1 H2 H3 Haid Hlid Heqb0; split; try (by split_and!).
  all: first [reflexivity | eexists; by split_and!].
Qed.

(** ** The loop over the candidates *)

Lemma Inv_quarantine d job row code msg v :
  Inv d → jobs d !! j_id job = Some row → j_status row = value QUEUED →
  Inv (d <| jobs := <[j_id job :=
         row <| j_status := value FAILED |> <| j_error_code := code |>
             <| j_error_message := msg |> <| j_row_version := v |> ]> (jobs d) |>).
Proof using Type.
  intros [HI HS] Hrow Hq. split; [|done]. apply LedgerInv_free_job; simpl; [done| | |].
  - intros j Hj. assert (j = row) as -> by congruence. rewrite Hq. apply not_leased_QUEUED.
  - exact (job_ids _ _ _ _ HI _ _ Hrow).
  - apply not_leased_FAILED.
Qed.

Lemma wp_quarantine job now (Q : result bool → Session → Prop) c d b L t i s :
  St I c d b None L t i s → Inv d →
  (∀ d' b' r s', Inv d' → evolves d d' → workers d' = workers d → (r = false → b' = b) →
     St I c d' b' None L t i s' → Q (Ok r) s') →
  (∀ e, Q (Raise e) s) →
  wp (quarantine_invalid_queued_job_config job now) Q s.
Proof.
  intros Hst HI HQ HR. unfold quarantine_invalid_queued_job_config. wp_steps; [done| |by eapply HQ].
  bools. eapply HQ; [| | | |exact Hst]; [| |done|done].
  - eapply Inv_ext; [..|by eapply (Inv_quarantine d job job0)]; reflexivity.
  - split; try done; [|apply evolves_PreOrder..|by apply rest_step_same]. simpl.
    eapply jobs_step_update; [apply evolves_PreOrder|done|]. right. split; [simpl; lia|].
    split; [done| |done]. match goal with Hq : j_status job0 = _ |- _ => rewrite Hq end.
    apply (status_path_step QUEUED FAILED). apply list_elem_of_In. simpl. tauto.
Qed.

(** The committed claim, relative to the state in which its Job was taken. *)
Definition claim_succeeds (worker : Worker) (capabilities : WorkerCapabilities) (now : Z)
    (r : JobClaim) (s' : Session) : Prop :=
  ∃ d job config, Inv d ∧ workers d !! w_id worker = Some worker ∧
    claimed_from d (s_committed s') worker job config capabilities now r ∧
    validated_job_config job None = inr config ∧ worker_can_run settings config capabilities = true.

Lemma seen_all c d candidates : evolves c d → Forall (seen c) candidates → Forall (seen d) candidates.
Proof using Type. intros Hev Hs. eapply Forall_impl; [exact Hs|]. intros job Hj. by eapply seen_evolves. Qed.

Lemma wp_claim_loop worker capabilities now candidates
    (Q : result (option JobClaim) → Session → Prop) c d b quarantined L t i s :
  St I c d b None L t i s → Inv d → evolves c d → Forall (seen d) candidates →
  LockWorker (w_id worker) ∈ L →
  workers d !! w_id worker = Some worker → w_current_job_id worker = None →
  (∀ s', safe I s' → Q (Ok None) s') →
  (∀ r s', safe I s' → claim_succeeds worker capabilities now r s' → Q (Ok (Some r)) s') →
  (∀ e s', safe I s' → Q (Raise e) s') →
  wp (claim_loop settings storage worker capabilities now quarantined candidates) Q s.
Proof.
  intros Hst HI Hev Hseen Hlock Hw Hfree HN HS HR.
  revert c d b quarantined L s Hst HI Hev Hseen Hlock Hw.
  induction candidates as [|job rest IH]; intros c d b quarantined L s Hst HI Hev Hseen Hlock Hw.
  { simpl. wp_step. destruct quarantined.
    - eapply wp_commit; [done|intros; by eapply HR, St_safe| |].
      + intros _. eapply stable_step; [by destruct Hst|done..].
      + intros. wp_step. by eapply HN, St_safe.
    - wp_steps. by eapply HN, St_safe. }
  apply Forall_cons in Hseen as [Hjob Hseen].
  simpl. destruct (validated_job_config job None) as [msg|config] eqn:Hconfig.
  { wp_step. eapply wp_quarantine; [done|done| |intros; by eapply HR, St_safe].
    intros d' b' r s' HI' Hev' Hw' _ Hst'. wp_simpl.
    eapply IH; [done|done|by etrans|by eapply seen_all|done|]. by rewrite Hw'. }
  wp_step; [|wp_step; eapply wp_quarantine; [done|done| |intros; by eapply HR, St_safe];
    intros d' b' r s' HI' Hev' Hw' _ Hst'; wp_simpl;
    eapply IH; [done|done|by etrans|by eapply seen_all|done|]; by rewrite Hw'].
  wp_step; [by eapply IH|]. bools. wp_step.
  eapply wp_candidate_dataset; [done| |intros; by apply HR].
  intros r L' s' HL Hst'. wp_step; [|by eapply IH; [done..|set_solver|done] ].
  wp_step. eapply wp_candidate_test_set; [done| |intros; by eapply HR, St_safe].
  intros tt. wp_step; [|by eapply IH; [done..|set_solver|done] ].
  wp_step. eapply wp_interleave_any; [done|]. intros c' d' s2 Hcase Hst2. wp_step.
  assert (Inv d' ∧ evolves c' d' ∧ evolves d d' ∧
    workers d' !! w_id worker = Some worker) as (HI' & Hev1 & Hev' & Hw').
  { destruct Hcase as [(-> & -> & ->)|(-> & -> & Hag)]; [done|].
    destruct (st_clean _ _ _ _ _ _ _ _ _ Hst eq_refl) as [-> _].
    split_and!; [by eapply stable_inv, st_inv|done|by destruct Hag|].
    rewrite <-Hw. apply (ag_rows _ _ _ Hag (LockWorker (w_id worker))). set_solver. }
  eapply wp_claim_candidate; [done|done|done|by eapply seen_evolves|done|done| | |done].
  - intros s3 Hst3. wp_simpl. eapply IH; [done|done|done|by eapply seen_all|set_solver|done].
  - intros d3 L3 r3 s3 Hcl Hst3. wp_step. apply HS; [by eapply St_safe|].
    exists d', job, config. destruct Hst3. by subst.
Qed.

Lemma candidates_seen d : Inv d → Forall (seen d) (claim_candidates d).
Proof using Type.
  intros [HI _]. apply Forall_forall. intros job Hin. unfold claim_candidates in Hin.
  apply elem_of_take in Hin as (j & Hin%list_elem_of_lookup_2 & _).
  apply elem_of_where_order in Hin as (_ & k & Hk).
  exists job. rewrite (job_ids _ _ _ _ HI _ _ Hk). auto.
Qed.

(** [claim_job] in any session: what it commits. *)
Lemma wp_claim_job worker_id capabilities
    (Q : result (option JobClaim) → Session → Prop) c L t i s :
  St I c c false None L t i s →
  (∀ s', safe I s' → Q (Ok None) s') →
  (∀ worker now r s', safe I s' → w_id worker = worker_id → w_is_active worker = true →
     w_current_job_id worker = None → w_pending_token_hash worker = None → t <= now →
     claim_succeeds worker capabilities now r s' → Q (Ok (Some r)) s') →
  (∀ e s', safe I s' → Q (Raise e) s') →
  wp (claim_job settings storage worker_id capabilities) Q s.
Proof.
  intros Hst HN HS HR. unfold claim_job. wp_step.
  eapply (wp_recover settings I); [done| |intros; by apply HR].
  intros n c' L' t' s' Ht Hstep Hst'. wp_steps; try by eapply HR, St_safe.
  - by eapply HN, St_safe.
  - bools. pose proof (stable_inv _ (st_inv _ _ _ _ _ _ _ _ _ Hst')) as HI.
    match goal with Hw : workers _ !! worker_id = Some ?w |- _ =>
      pose proof (worker_ids _ _ _ _ (proj1 HI) _ _ Hw) as Hid end.
    eapply wp_claim_loop; [done|done|done|by apply candidates_seen| | |done|done| |done].
    + rewrite Hid. set_solver.
    + by rewrite Hid.
    + intros r s2 ? ?. by eapply HS.
Qed.
End handler.
End claim.
