(* ===== verification/Fixtures.v ===== *)
(** * A concrete installation

    Settings, parsers, storage and a small database with one idle Worker and one
    queued Job, on which the properties of the other files are evaluated. *)

From S2P Require Import Prelude Sha256 Json JobStatus JobConfig WorkerContract DateTime Settings.
From S2P Require Import Ledger Session Wp JobConfigLedger TestSets Mlflow WorkerTokens.
From S2P Require Import LeaseService LedgerInvariant LeaseRecovery LeaseClaim.

Definition sample_preset : InferencePresetConfig :=
  mkInferencePresetConfig I_RMVPE 0 f_half 3 0 f_half f_half.

Definition sample_config : JobConfig :=
  mkJobConfig "1.0" "voice-a" "exp-1" "ds-1"
    (mkRVCBackendConfig "rvc_webui" "upstream" None None)
    (mkModelConfig V2 KHZ_40 true 0)
    (mkPretrainedConfig mode_auto None None false)
    (mkTrainingFeatureConfig "auto" "3_feature256" "3_feature768")
    (mkTrainingConfig 20 4 5 true false false [0])
    (mkF0ExtractionConfig (Some T_RMVPE) None)
    (mkIndexConfig true true true)
    (mkAutoInferenceSamplesConfig false None sample_preset)
    (mkArtifactCollectionConfig true true true true true true false)
    (mkResourceRequirements f_zero [] 5).

Definition sample_capabilities : WorkerCapabilities :=
  mkWorkerCapabilities RVC_WEBUI "0.1.0" "0123456789abcdef" [V2] [T_RMVPE] [I_RMVPE] false
    [mkGPUCapability 0 None "gpu" 8192 4096 None None] 1000000 [] true None None 1.

#[local] Instance sample_parser : ContractParser :=
  {| parse_JobConfig doc :=
       if decide (doc = dump_JobConfig sample_config) then Some sample_config else None |}.
#[local] Instance sample_capabilities_parser : CapabilitiesParser :=
  {| parse_WorkerCapabilities doc :=
       if decide (doc = dump_WorkerCapabilities sample_capabilities)
       then Some sample_capabilities else None |}.
#[local] Instance sample_platform : Platform :=
  {| uuid4 n := "id-" +:+ pretty (N.of_nat n);
     token_urlsafe n := "secret-of-at-least-thirty-two-letters-" +:+ pretty (N.of_nat n) |}.

Definition sample_settings : Settings :=
  mkSettings development (Some "bootstrap") "pepper" 600 120 180 3 false 1048576 60 [] 128
    1000000 (float_of 600 0) "local" false false 120 300 20 false
    "0123456789abcdef0123456789abcdef" "rvc-training-orchestrator" "rvc-manager-api" 900 5 None
    3600 60 (5 * 1024 ^ 3) (256 * 1024 ^ 2) 7200 60 300 32 7200 5 256 (100 * 1024 ^ 3).

Definition sample_storage : ClaimStoragePort :=
  mkClaimStoragePort "local" "ns" (λ key, Some ("file:///" +:+ key)) (λ _ _ _, None).

Definition sample_sha : string :=
  Eval vm_compute in default "" (job_config_sha256_of sample_config).

Definition sample_token_hash : string :=
  Eval vm_compute in hash_worker_token sample_settings "rvcw_initial".

Definition sample_worker : Worker :=
  mkWorker "w-1" 1 "worker-1" sample_token_hash 0 None None None None "idle"
    (dump_WorkerCapabilities sample_capabilities) "0.1.0" "0123456789abcdef" (Some 0) None true.

Definition sample_job : Job :=
  mkJob "j-1" 1 "exp-1" "ds-1" None "voice-a" (value QUEUED) (dump_JobConfig sample_config)
    (Some sample_sha) None None None None 5 None 20 0 None None None None None None 0.

Definition sample_dataset : Dataset :=
  mkDataset "ds-1" "ready" true (Some "file:///flat.zip") (Some 4096)
    (Some "00000000000000000000000000000000000000000000000000000000000000aa") (Some "u-1").

Definition sample_upload : DatasetUploadSession :=
  mkDatasetUploadSession "up-1" "ds-1" 1 "flat.zip" "local" "ns" "completed" (Some 0).

Definition sample_db : DB :=
  empty_DB <| workers := {["w-1" := sample_worker]} |> <| jobs := {["j-1" := sample_job]} |>
           <| datasets := {["ds-1" := sample_dataset]} |>
           <| dataset_uploads := {["up-1" := sample_upload]} |>.

(** Ten minutes, in microseconds. *)
Definition ten_minutes : Z := 600 * 1000000.

Definition sample_session : Session := new_session sample_db ten_minutes.

Lemma sample_db_Inv : Inv sample_db.
Proof.
  split_and!.
  - change (LedgerInv (<["w-1" := sample_worker]> ∅) (<["j-1" := sample_job]> ∅) ∅ ∅).
    apply LedgerInv_free_worker; [|done..].
    apply LedgerInv_free_job; [apply Inv_empty|done..|]. apply not_leased_QUEUED.
  - done.
  - change (CredInv {["w-1" := sample_worker]}). split.
    + intros k1 w1 k2 w2 [<- <-]%lookup_singleton_Some [<- <-]%lookup_singleton_Some. done.
    + by intros k w [<- <-]%lookup_singleton_Some.
Qed.

Lemma new_session_fresh {I : DB → Prop} d now : I d → fresh_session I (new_session d now).
Proof. intros HI. split; [|done]. split; [done|by split]. Qed.

(** Database errors do not depend on what the request does. *)
Lemma fresh_session_outcomes s outcomes :
  fresh_session Inv s → fresh_session Inv (s <| s_outcomes := outcomes |>).
Proof. unfold fresh_session, safe, env_ok. by destruct s. Qed.

(** The Worker's claim of the Job. *)
Definition sample_claim : M (option JobClaim) :=
  claim_job sample_settings sample_storage "w-1" sample_capabilities.

(** A computed optional value that is present. *)
Lemma present {A} (o : option A) : is_some o = true → ∃ a, o = Some a.
Proof. apply is_some_true. Qed.

Definition ok_value {A} (r : result A) : option A :=
  match r with Ok a => Some a | Raise _ => None end.

Lemma ok_present {A} (r : result A) : is_some (ok_value r) = true → ∃ a, r = Ok a.
Proof. destruct r as [a|]; [by exists a|done]. Qed.

(** The answer of a request and the database after it, computed once. *)
Definition run_result {A} (m : M A) (s : Session) : result A * DB :=
  match m s with (r, s') => (r, s_committed s') end.

Lemma run_result_spec {A} (m : M A) s : run_result m s = (outcome m s, after m s).
Proof. unfold run_result, outcome, after. by destruct (m s). Qed.

Lemma run_outcome {A} (m : M A) s x : run_result m s = x → outcome m s = x.1.
Proof. intros <-. by rewrite run_result_spec. Qed.

Lemma run_after {A} (m : M A) s x : run_result m s = x → after m s = x.2.
Proof. intros <-. by rewrite run_result_spec. Qed.

Definition claim_run : result (option JobClaim) * DB :=
  Eval vm_compute in run_result sample_claim sample_session.

Lemma claim_run_eq : run_result sample_claim sample_session = claim_run.
Proof. vm_compute. reflexivity. Qed.

Lemma sample_claim_ok : ∃ r, outcome sample_claim sample_session = Ok (Some r).
Proof. rewrite (run_outcome _ _ _ claim_run_eq). by eexists. Qed.

(** The database after it. *)
Definition busy_db : DB := claim_run.2.

Lemma busy_db_Inv : Inv busy_db.
Proof.
  unfold busy_db. rewrite <-(run_after _ _ _ claim_run_eq). unfold after. pose proof (new_session_fresh _ ten_minutes sample_db_Inv) as Hf.
  pose proof (wp_claim_job sample_settings sample_storage Inv "w-1" sample_capabilities
    (λ _ s', safe Inv s') _ _ _ _ _ (fresh_St _ _ Hf)) as Hwp.
  apply Hwp; auto.
Qed.

Lemma busy_job_present : ∃ job, jobs busy_db !! "j-1" = Some job.
Proof. apply present. vm_compute. reflexivity. Qed.

(** A session on it shortly after the claim. *)
Definition busy_session : Session := new_session busy_db (ten_minutes + 1000000).

Lemma busy_session_fresh : fresh_session Inv busy_session.
Proof. apply new_session_fresh, busy_db_Inv. Qed.

#[global] Opaque busy_db sample_sha sample_token_hash.
