(* ===== verification/LeaseProperties.v ===== *)
(** * Properties of claims and recovery *)

From S2P Require Import Prelude Sha256 Json JobStatus JobConfig WorkerContract DateTime Settings.
From S2P Require Import Ledger Session Wp JobConfigLedger TestSets LeaseService LedgerInvariant.
From S2P Require Import LeaseRecovery LeaseClaim Fixtures.

(** A property of [wp], read on the outcome and the session of a run. *)
Lemma wp_run {A} (m : M A) (Q : result A → Session → Prop) s r :
  wp m Q s → outcome m s = r → Q r (m s).2.
Proof. by intros ? <-. Qed.

Lemma preserves_after {A} (I : DB → Prop) (m : M A) s :
  preserves I m → fresh_session I s → I (after m s).
Proof. intros Hm Hs. by destruct (Hm s (fresh_clean _ _ Hs)). Qed.

Section properties.
  Context `{ContractParser} `{Platform}.
  Variable settings : Settings.
  Variable storage : ClaimStoragePort.

(** A successful claim, as the proof of [claim_job] describes it. *)
Lemma claim_outcome worker_id capabilities s r :
  fresh_session Inv s →
  outcome (claim_job settings storage worker_id capabilities) s = Ok (Some r) →
  let s' := (claim_job settings storage worker_id capabilities s).2 in
  Inv (s_committed s') ∧ ∃ worker now, w_id worker = worker_id ∧
    claim_succeeds settings worker capabilities now r s'.
Proof.
  intros Hfresh Hout.
  assert (wp (claim_job settings storage worker_id capabilities)
    (λ r s', match r with
             | Ok (Some r') => Inv (s_committed s') ∧ ∃ worker now, w_id worker = worker_id ∧
                 claim_succeeds settings worker capabilities now r' s'
             | _ => True end) s) as Hwp.
  { eapply (wp_claim_job _ _ Inv); [by apply fresh_St|done| |done].
    intros worker now r' s' [HI _] Hid _ _ _ _ Hc. split; [done|]. by exists worker, now. }
  exact (wp_run _ _ _ _ Hwp Hout).
Qed.

(** C2: a claim is exclusive. Whatever other transactions commit while it runs, a
    claim that returns a Job leaves that Job assigned to the calling Worker under
    the lease and attempt it reports, and no other active lease names the Job or
    the Worker. *)
Theorem claim_is_exclusive worker_id capabilities s r :
  fresh_session Inv s →
  outcome (claim_job settings storage worker_id capabilities) s = Ok (Some r) →
  let d := after (claim_job settings storage worker_id capabilities) s in
  ∃ lease job attempt worker,
    leases d !! jc_lease_id r = Some lease ∧ l_active lease = true ∧
    l_job_id lease = jc_job_id r ∧ l_attempt_id lease = jc_attempt_id r ∧
    l_worker_id lease = worker_id ∧ l_expires_at lease = jc_lease_expires_at r ∧
    assigned (workers d) (jobs d) (attempts d) lease job attempt worker ∧
    j_status job = value ASSIGNED ∧ a_attempt_number attempt = jc_attempt_number r ∧
    (∀ k l, leases d !! k = Some l → l_active l = true →
       l_job_id l = jc_job_id r ∨ l_worker_id l = worker_id → k = jc_lease_id r).
Proof.
  intros Hfresh Hout d.
  destruct (claim_outcome _ _ _ _ Hfresh Hout)
    as (HI & worker & now & Hid & d0 & job & config & HI0 & Hw & Hcl & _).
  fold (after (claim_job settings storage worker_id capabilities) s) in HI, Hcl. fold d in HI, Hcl.
  destruct Hcl as [_ [_ Ha] [_ Hl] _ _ _ (Hjid & _ & Hnum & _)].
  assert (leases d !! jc_lease_id r = Some (mkJobLease (jc_lease_id r) (j_id job) (jc_attempt_id r)
            (w_id worker) (jc_lease_expires_at r) now None true)) as Hlease
    by (rewrite Hl; apply lookup_insert_eq).
  destruct (lease_assigned _ _ _ _ (proj1 HI) _ _ Hlease eq_refl) as (j & a & w & Has).
  exists (mkJobLease (jc_lease_id r) (j_id job) (jc_attempt_id r) (w_id worker)
            (jc_lease_expires_at r) now None true), j, a, w.
  assert (a = claim_attempt job (w_id worker) (jc_attempt_id r) (jc_config_sha256 r)
                capabilities now) as ->.
  { destruct Has as [_ Hatt _ _ _ _ _ _ _ _ _ _]. simpl in Hatt. rewrite Ha, lookup_insert_eq in Hatt.
    congruence. }
  split_and!; try done.
  - destruct Has as [_ _ _ _ _ _ _ _ _ _ Hst _]. by rewrite <-Hst.
  - intros k l Hk Hact [Hj|Hw'].
    + eapply (active_same_job _ _ _ _ (proj1 HI)); [done|exact Hlease|done|done|]. simpl. congruence.
    + eapply (active_same_worker _ _ _ _ (proj1 HI)); [done|exact Hlease|done|done|].
      simpl. congruence.
Qed.

(** The state a recovery pass commits. *)
Lemma recovery_outcome n s :
  fresh_session Inv s →
  recovery_step settings (s_committed s) (after (recover_expired_leases settings n) s) (s_clock s).
Proof.
  intros Hfresh. pose proof (fresh_St _ _ Hfresh) as Hst.
  assert (wp (recover_expired_leases settings n)
    (λ _ s', recovery_step settings (s_committed s) (s_committed s') (s_clock s)) s) as Hwp.
  { eapply (wp_recover _ Inv); [done|..].
    - intros r c' L' t' s' _ Hstep Hst'. by rewrite (st_committed _ _ _ _ _ _ _ _ _ Hst').
    - intros e s' -> _. apply recovery_step_refl. by destruct Hst. }
  exact Hwp.
Qed.

(** C7: recovery is safe. A pass changes a Job only when the lease that held it had
    expired and its Worker had been silent for the whole offline window; the lease
    is then closed, and the Job is cancelled when a cancellation was requested,
    requeued without Worker or attempt when the attempt limit allows it, and failed
    otherwise. *)
Theorem recovery_only_closes_abandoned n s k job :
  fresh_session Inv s → jobs (s_committed s) !! k = Some job →
  let d := after (recover_expired_leases settings n) s in
  jobs d !! k = Some job ∨
  ∃ lease attempt worker job',
    leases (s_committed s) !! l_id lease = Some lease ∧
    assigned (workers (s_committed s)) (jobs (s_committed s)) (attempts (s_committed s))
      lease job attempt worker ∧
    l_expires_at lease <= s_clock s ∧
    (∀ heartbeat, w_last_heartbeat_at worker = Some heartbeat →
       heartbeat <= s_clock s - seconds (worker_offline_seconds settings)) ∧
    leases d !! l_id lease = Some (close_lease lease (s_clock s)) ∧
    jobs d !! k = Some job' ∧
    (j_status job' = value CANCELLED ∧ is_Some (j_cancel_requested_at job) ∨
     j_status job' = value FAILED ∧ j_cancel_requested_at job = None ∨
     j_status job' = value QUEUED ∧ j_cancel_requested_at job = None ∧
       j_worker_id job' = None ∧ j_current_attempt_id job' = None ∧
       j_attempt_count job < lease_recovery_max_attempts settings).
Proof.
  intros Hfresh Hjob d. destruct (recovery_outcome n s Hfresh) as [_ _ _ Hjobs].
  destruct (Hjobs k job Hjob) as [|(lease & attempt & worker & v & Hl & Hk & [_ Has Hsil] & Hexp
    & Hcl & Hj)]; [by left|right].
  eexists lease, attempt, worker, _. do 5 (split; [done|]). split; [exact Hj|].
  cbn [j_status j_worker_id j_current_attempt_id setter].
  rewrite recovered_job_status. unfold recovered_job.
  destruct (j_cancel_requested_at job) as [at_|]; [left; simpl; eauto|].
  change (is_some None) with false.
  destruct (auto_requeue settings job false (config_ok job attempt)) eqn:Hr; [|by right; left].
  right. right. unfold auto_requeue in Hr. by bools.
Qed.
End properties.

#[local] Existing Instances sample_parser sample_capabilities_parser sample_platform.

Lemma claim_is_exclusive_witness :
  ∃ r, outcome sample_claim sample_session = Ok (Some r) ∧
    ∀ k l, leases (after sample_claim sample_session) !! k = Some l → l_active l = true →
      l_job_id l = jc_job_id r ∨ l_worker_id l = "w-1" → k = jc_lease_id r.
Proof.
  destruct sample_claim_ok as [r Hout]. exists r. split; [exact Hout|].
  destruct (claim_is_exclusive sample_settings sample_storage "w-1" sample_capabilities
    sample_session r (new_session_fresh _ _ sample_db_Inv) Hout)
    as (lease & job & attempt & worker & _ & _ & _ & _ & _ & _ & _ & _ & _ & Hex).
  exact Hex.
Defined.

(** The claimed Job an hour later, its Worker silent since the claim. *)
Definition abandoned_session : Session := new_session busy_db (ten_minutes + 3600 * 1000000).

Lemma abandoned_session_fresh : fresh_session Inv abandoned_session.
Proof. apply new_session_fresh, busy_db_Inv. Qed.

Lemma abandoned_job_present : ∃ job, jobs (s_committed abandoned_session) !! "j-1" = Some job.
Proof. apply busy_job_present. Qed.

Lemma recovery_only_closes_abandoned_witness :
  ∃ job, jobs (s_committed abandoned_session) !! "j-1" = Some job ∧
    (jobs (after (recover_expired_leases sample_settings 100) abandoned_session) !! "j-1" = Some job ∨
     ∃ lease, leases (s_committed abandoned_session) !! l_id lease = Some lease ∧
       l_expires_at lease <= s_clock abandoned_session).
Proof.
  destruct abandoned_job_present as [job Hjob]. exists job. split; [exact Hjob|].
  destruct (recovery_only_closes_abandoned sample_settings 100 abandoned_session "j-1" job
    abandoned_session_fresh Hjob) as [Hsame|(lease & attempt & worker & job' & Hl & _ & Hexp & _)].
  - left. exact Hsame.
  - right. exists lease. split; [exact Hl|exact Hexp].
Defined.

Example abandoned_job_requeued :
  j_status <$> jobs (after (recover_expired_leases sample_settings 100) abandoned_session) !! "j-1"
  = Some "queued".
Proof. vm_compute. reflexivity. Qed.
