(* ===== verification/RecoveryProgress.v ===== *)
(** * Recovery makes progress

    An abandoned lease does not stay: the next recovery pass that reaches it closes it,
    releases its Job and frees its Worker.  Passes are started by every claim and every
    heartbeat. *)

From S2P Require Import Prelude Json JobStatus JobConfig WorkerContract Settings Ledger Session Wp.
From S2P Require Import Evolution JobConfigLedger TestSets LeaseService LedgerInvariant LeaseRecovery.
From S2P Require Import Fixtures LeaseProperties.

Section progress.
  Context `{ContractParser} `{Platform}.
  Variable settings : Settings.

(** ** A pass does not fail on its candidates *)

Lemma leased_closes status t :
  leased status → t ∈ failure_or_cancel → ∃ u, validate_job_transition status (value t) true = inr u.
Proof using Type.
  intros Hl Ht. apply list_elem_of_In in Ht. unfold leased in Hl. apply list_elem_of_In in Hl.
  simpl in Hl, Ht. destruct Ht as [<-|[<-|[]]];
    repeat (destruct Hl as [<-|Hl]; [eexists; reflexivity|]); done.
Qed.

Lemma leased_parses status : leased status → is_Some (JobStatus_of status).
Proof using Type.
  intros Hl. unfold leased in Hl. apply list_elem_of_In in Hl. simpl in Hl.
  repeat (destruct Hl as [<-|Hl]; [by eexists|]). done.
Qed.

(** The body of the loop closes an abandoned assignment, and never raises. *)
Lemma wp_recover_lease_total I lease at_ (Q : result bool → Session → Prop) c d b L t i s :
  St I c d b None L t i s → Inv d → evolves c d → leases d !! l_id lease = Some lease →
  ((∀ job attempt worker, ¬ abandoned settings d lease job attempt worker at_) → Q (Ok false) s) →
  (∀ job attempt worker d' s', abandoned settings d lease job attempt worker at_ →
     closed_by settings c d d' lease job attempt worker (is_some (j_cancel_requested_at job))
       (config_ok job attempt) at_ →
     Inv d' → evolves c d' → St I c d' true None L t i s' → Q (Ok true) s') →
  wp (recover_lease settings lease at_) Q s.
Proof using Type.
  intros Hst HI Hev Hl Hskip Hclose.
  unfold recover_lease. do 6 wp_step.
  destruct (workers d !! l_worker_id lease) as [worker|] eqn:Hworker;
    [|apply wp_ret, Hskip; intros ??? [_ [] _]; congruence].
  destruct (jobs d !! l_job_id lease) as [job|] eqn:Hjob;
    [|apply wp_ret, Hskip; intros ??? [_ [] _]; congruence].
  destruct (attempts d !! l_attempt_id lease) as [attempt|] eqn:Hatt;
    [|apply wp_ret, Hskip; intros ??? [_ [] _]; congruence].
  pose proof (attempt_ids _ _ _ _ (proj1 HI) _ _ Hatt) as Haid.
  destruct (negb _ || _) eqn:Hguard.
  { apply wp_ret, Hskip. intros j a w [_ [Hj Ha _ _ Hcur _ _ _ _ Hfin] _].
    assert (j = job ∧ a = attempt) as [-> ->] by (split; congruence).
    rewrite Hcur, Haid, Hfin, bool_decide_eq_true_2 in Hguard by done. done. }
  bools. destruct (unfinished_assigned d lease attempt) as (Hact & job' & worker' & Has); [done..|].
  assert (job' = job ∧ worker' = worker) as [-> ->] by (destruct Has; split; congruence).
  destruct (match w_last_heartbeat_at worker with Some _ => _ | None => _ end) eqn:Hsilent.
  { apply wp_ret, Hskip. intros j a w [_ [_ _ Hw] Hs].
    assert (w = worker) as -> by congruence.
    destruct (w_last_heartbeat_at worker) as [h|]; [|done]. bools. specialize (Hs _ eq_refl). lia. }
  assert (leased (j_status job)) as Hleased by by destruct Has.
  destruct (leased_parses _ Hleased) as [u Hu]. rewrite Hu. wp_step.
  assert (∃ x, validate_job_transition (j_status job) (value
    (if is_some (j_cancel_requested_at job) then CANCELLED else FAILED)) true = inr x) as [x Hx].
  { apply leased_closes; [done|]. apply list_elem_of_In. destruct (is_some _); simpl; tauto. }
  unfold check_transition. rewrite Hx. do 2 wp_step.
  eapply wp_close_abandoned; [done|]. intros d' s' Hcl Hst'. wp_step.
  eapply Hclose; [|exact Hcl|by eapply Inv_closed|by eapply evolves_closed|exact Hst'].
  split; [done..|]. intros h Hh. rewrite Hh in Hsilent. by bools.
Qed.

(** ** The loop closes every abandoned candidate *)

Lemma wp_recover_loop_total I `{!Stable I} at_ found (Q : result (list bool) → Session → Prop) c d b L t i s :
  St I c d b None L t i s → recovery_step settings c d at_ → NoDup (l_id <$> found) →
  Forall (λ l, leases d !! l_id l = Some l ∧ l_expires_at l <= at_) found →
  (∀ d' b' rs s', recovery_step settings c d' at_ →
     (∀ k l, leases d !! k = Some l → l_id l ∉ l_id <$> found → leases d' !! k = Some l) →
     (∀ l job attempt worker, l ∈ found → abandoned settings c l job attempt worker at_ →
        leases d' !! l_id l = Some (close_lease l at_) ∧ (0 < count_true rs)%nat) →
     (count_true rs = 0%nat → b' = b) →
     St I c d' b' None L t i s' → Q (Ok rs) s') →
  wp (collect found (λ lease, recover_lease settings lease at_)) Q s.
Proof using Type.
  revert Q d b s. induction found as [|l found IH]; intros Q d b s Hst Hstep Hnd Hall HQ.
  { apply wp_ret. eapply (HQ d b []); [done|done| |done|done]. intros ????. by rewrite elem_of_nil. }
  rewrite fmap_cons in Hnd. apply NoDup_cons in Hnd as [Hni Hnd].
  apply Forall_cons in Hall as [[Hl Hexp] Hall]. simpl. wp_step.
  eapply wp_recover_lease_total; [done|by destruct Hstep|by destruct Hstep|done|..].
  - intros Hnot. wp_step. eapply IH; [done..|]. intros d' b' rs s' Hstep' Hkeep Hclosed Hc Hst'. wp_step.
    eapply HQ; [done| | |done|done].
    + intros k x Hk Hx. apply Hkeep; [done|]. rewrite fmap_cons in Hx. set_solver.
    + intros x job attempt worker [->|Hx]%elem_of_cons Hab; [|by eapply Hclosed].
      exfalso. apply (Hnot job attempt worker). destruct Hab as [Hact [] Hs].
      destruct (rs_active _ _ _ _ Hstep _ _ Hl Hact) as (_ & Ej & Ea & Ew).
      split; [done| |done]. by split; rewrite ?Ej, ?Ea, ?Ew.
  - intros job attempt worker d1 s1 Hab Hcl HI' Hev' Hst1. wp_step.
    eapply IH; [done|by eapply recovery_step_trans|done| |].
    + apply Forall_forall. intros x Hx. rewrite Forall_forall in Hall.
      destruct (Hall x Hx) as [Hxl Hxe]. split; [|done].
      destruct Hcl as [-> _ _ _ _ _]. rewrite lookup_insert_ne; [done|].
      intros Heq. apply Hni. rewrite Heq. by apply list_elem_of_fmap_2.
    + intros d2 b2 rs s2 Hstep' Hkeep Hclosed Hc Hst2. wp_step. eapply HQ; [done| | |intros [=]|done].
      * intros k x Hk Hx. rewrite fmap_cons in Hx. apply Hkeep; [|set_solver].
        destruct Hcl as [-> _ _ _ _ _]. rewrite lookup_insert_ne; [done|]. intros <-.
        assert (x = l) as -> by congruence. set_solver.
      * intros x j a w [->|Hx]%elem_of_cons Habx; [|destruct (Hclosed x j a w Hx Habx); split; [done|]; apply Nat.lt_0_succ].
        split; [|apply Nat.lt_0_succ]. apply Hkeep; [|done]. destruct Hcl as [-> _ _ _ _ _]. apply lookup_insert_eq.
Qed.

(** ** A pass reaches an abandoned lease *)

(** The join of the query finds the assignment. *)
Lemma recovery_row_assigned d lease job attempt worker at_ :
  Inv d → leases d !! l_id lease = Some lease → abandoned settings d lease job attempt worker at_ →
  l_expires_at lease <= at_ → recovery_row d at_ lease = Some (job, attempt, worker).
Proof using Type.
  intros [HI _] Hl [Hact Has _] Hexp. pose proof Has as []. unfold recovery_row.
  destruct (List.find _ (rows (jobs d))) as [j|] eqn:Hfind.
  - apply find_some in Hfind as [Hin Hj]. bools.
    apply list_elem_of_In, list_elem_of_fmap in Hin as ([k j'] & -> & Hin). apply elem_of_map_to_list in Hin.
    simpl in *. destruct (job_leased _ _ _ _ HI _ _ Hin) as (k2 & l2 & Hl2 & Hact2 & Hj2); [done|].
    destruct (lease_assigned _ _ _ _ HI _ _ Hl2 Hact2) as (j2 & a2 & w2 & [Hjob2 _ _ _ Hcur2 _ _ _ _ _ _ _]).
    assert (j2 = j') as -> by congruence.
    assert (k2 = l_id lease) as -> by (eapply (lease_unique _ _ _ _ HI); [done|done|congruence]).
    assert (l2 = lease) as -> by congruence.
    assert (j' = job) as -> by congruence. simpl. rewrite as_attempt, as_worker. simpl.
    rewrite as_unfinished. by rewrite (proj2 (Z.leb_le _ _)).
  - eapply find_none in Hfind; [|apply list_elem_of_In, list_elem_of_fmap; exists (l_job_id lease, job);
      split; [reflexivity|by apply elem_of_map_to_list]].
    simpl in Hfind. rewrite !bool_decide_eq_true_2 in Hfind by done. done.
Qed.

Lemma filter_length_le {A} (p q : A → bool) xs :
  (∀ x, x ∈ xs → p x = true → q x = true) →
  (length (List.filter p xs) <= length (List.filter q xs))%nat.
Proof using Type.
  induction xs as [|x xs IH]; simpl; intros Hpq; [done|].
  assert (length (List.filter p xs) <= length (List.filter q xs))%nat as Hle
    by (apply IH; intros; apply Hpq; [by right|done]).
  specialize (Hpq x (list_elem_of_here _ _)). destruct (p x), (q x); simpl; lia || by specialize (Hpq eq_refl).
Qed.

(** Without locks of others and with room for every active lease, all expired ones are
    candidates. *)
Lemma recovery_candidates_all d n lease job attempt worker at_ :
  Inv d → (length (where_ l_active (leases d)) <= n)%nat →
  leases d !! l_id lease = Some lease → l_expires_at lease <= at_ →
  abandoned settings d lease job attempt worker at_ →
  lease ∈ (recovery_candidates d ∅ at_ n).1.
Proof using Type.
  intros HI Hn Hl Hexp Hab. simpl.
  match goal with |- _ ∈ take _ (order_by _ (where_ ?e _)) => set (eligible := e) end.
  rewrite take_ge.
  - apply elem_of_where_order. split; [|by eexists]. unfold eligible.
    rewrite (recovery_row_assigned d lease job attempt worker at_) by done.
    cbn [recovery_locks existsb]. by rewrite !bool_decide_eq_false_2 by apply not_elem_of_empty.
  - etrans; [|exact Hn]. rewrite order_by_permutation. unfold where_.
    apply filter_length_le. intros x Hx He. unfold rows in Hx.
    apply list_elem_of_fmap in Hx as ([k l] & -> & Hk). apply elem_of_map_to_list in Hk. simpl in *.
    unfold eligible, recovery_row in He. destruct (List.find _ _); [|done]. simpl in He.
    destruct (attempts d !! l_attempt_id l) as [a|] eqn:Ha; [|done]. simpl in He.
    destruct (workers d !! l_worker_id l); [|done]. simpl in He.
    destruct (_ && _) eqn:Hfin in He; [|done]. apply andb_true_iff in Hfin as [_ Hfin].
    apply is_none_true in Hfin.
    assert (leases d !! l_id l = Some l) as Hkl by by rewrite (lease_ids _ _ _ _ (proj1 HI) _ _ Hk).
    by destruct (unfinished_assigned d l a HI Hkl Ha Hfin).
Qed.

Lemma keeps_outcomes_recover at_ lease : keeps_field s_outcomes (recover_lease settings lease at_).
Proof using Type.
  unfold recover_lease, check_transition, close_abandoned, when.
  repeat first [apply keeps_field_bind | case_match | intros ?]; done.
Qed.

Lemma wp_held_exact (Q : result (gset lock) → Session → Prop) s :
  Q (Ok (s_held s)) s → wp held_by_others Q s.
Proof using Type. done. Qed.

(** The pass as a whole: it commits a state in which the lease is closed. *)
Lemma wp_recover_abandoned n lease job attempt worker s :
  fresh_session Inv s → s_outcomes s = [] → s_held s = ∅ →
  (length (where_ l_active (leases (s_committed s))) <= n)%nat →
  leases (s_committed s) !! l_id lease = Some lease → l_expires_at lease <= s_clock s →
  abandoned settings (s_committed s) lease job attempt worker (s_clock s) →
  wp (recover_expired_leases settings n) (λ r s',
    (∃ recovered, r = Ok recovered ∧ (0 < recovered)%nat) ∧
    recovery_step settings (s_committed s) (s_committed s') (s_clock s) ∧
    leases (s_committed s') !! l_id lease = Some (close_lease lease (s_clock s))) s.
Proof using Type.
  intros Hfresh Hcalm Hfree Hn Hl Hexp Hab.
  pose proof (fresh_St _ _ Hfresh) as Hst. pose proof (st_inv _ _ _ _ _ _ _ _ _ Hst) as HI.
  set (c := s_committed s) in *. set (at_ := s_clock s) in *.
  unfold recover_expired_leases. wp_step. apply (wp_keep_field s_held); [done|].
  apply (wp_keep_field s_outcomes); [done|]. eapply wp_utc_now; [done|].
  intros t1 s1 Ht1 Hst1 Ho1 Hh1. wp_simpl. wp_step.
  apply wp_held_exact. rewrite Hh1, Hfree. do 3 wp_step.
  apply (wp_keep_field s_outcomes); [done|]. eapply wp_lock_rows; [done|].
  intros s2 Hst2 Ho2. wp_simpl. wp_step. apply (wp_keep_field s_outcomes).
  { apply keeps_field_collect. intros x. apply keeps_outcomes_recover. }
  eapply (wp_recover_loop_total Inv); [exact Hst2|by apply recovery_step_refl|..].
  - apply recovery_candidates_NoDup. apply HI.
  - apply Forall_forall. intros l (k & Hk & Hx)%recovery_candidates_spec.
    split; [|done]. by rewrite (lease_ids _ _ _ _ (proj1 HI) _ _ Hk).
  - intros d' b' rs s3 Hstep _ Hclosed _ Hst3 Ho3.
    destruct (Hclosed lease job attempt worker) as [Hcl Hpos]; [|done|].
    { by eapply recovery_candidates_all. }
    wp_step. apply wp_when; intros Hwhen; [|apply Nat.ltb_ge in Hwhen; lia].
    eapply wp_commit_calm; [done|congruence|by split; apply Hstep|].
    intros s4 Hst4. wp_step. destruct Hst4. subst d'. eauto.
Qed.

(** After a pass that closed the lease, nothing is left of the assignment. *)
Lemma recovered_released c d lease job attempt worker at_ :
  Inv c → recovery_step settings c d at_ → leases c !! l_id lease = Some lease →
  abandoned settings c lease job attempt worker at_ →
  leases d !! l_id lease = Some (close_lease lease at_) →
  (∀ k l, leases d !! k = Some l → l_active l = true →
     l_job_id l ≠ l_job_id lease ∧ l_worker_id l ≠ l_worker_id lease) ∧
  (∀ w, workers d !! l_worker_id lease = Some w → w_current_job_id w = None) ∧
  ∃ job', jobs d !! l_job_id lease = Some job' ∧
    j_status job' = value (if is_some (j_cancel_requested_at job) then CANCELLED
                           else if auto_requeue settings job false (config_ok job attempt)
                                then QUEUED else FAILED).
Proof using Type.
  intros [HI _] Hstep Hl Hab Hclosed. pose proof Hab as [Hact Has _]. pose proof Has as [].
  assert (∀ k l, leases d !! k = Some l → l_active l = true →
     l_job_id l ≠ l_job_id lease ∧ l_worker_id l ≠ l_worker_id lease) as Hnone.
  { intros k l Hk Ha. destruct (rs_active _ _ _ _ Hstep _ _ Hk Ha) as [Hkc _].
    assert (k ≠ l_id lease) as Hne by (intros ->; rewrite Hclosed in Hk; by simplify_eq).
    split; intros Heq; apply Hne; [by eapply active_same_job|by eapply active_same_worker]. }
  pose proof (rs_inv _ _ _ _ Hstep) as [HId _].
  split; [done|]. split.
  - intros w Hw. destruct (w_current_job_id w) as [j|] eqn:Hj; [|done].
    destruct (worker_busy _ _ _ _ HId _ _ _ Hw Hj) as (k & l & Hk & Ha & Heq).
    destruct (Hnone k l Hk Ha); congruence.
  - destruct (rs_jobs _ _ _ _ Hstep _ _ as_job) as
      [Hsame|(l2 & a2 & w2 & v & Hl2 & Hj2 & [Hact2 [] _] & _ & _ & Hjob)].
    + destruct (job_leased _ _ _ _ HId _ _ Hsame as_leased) as (k & l & Hk & Ha & Heq).
      destruct (Hnone k l Hk Ha); congruence.
    + assert (l_id l2 = l_id lease) as Heq by exact (active_same_job _ _ _ _ HI _ _ _ _ Hl2 Hl Hact2 Hact Hj2).
      assert (l2 = lease) as -> by congruence. assert (a2 = attempt) as -> by congruence.
      eexists. split; [exact Hjob|]. simpl. rewrite recovered_job_status.
      by destruct (is_some _).
Qed.

(** C8: an abandoned lease is recovered. When an active lease has expired and its Worker has
    been silent for the offline window, the next recovery pass that is not disturbed - no
    other transaction holds the rows, the commit meets no error - and whose batch has room
    for the active leases is answered, having recovered a lease at least; afterwards the
    lease is released, no active lease names its Job or its Worker, the Worker is free, and
    the Job has left the statuses that need a Worker: it is cancelled when that was
    requested, queued for the next Worker while attempts remain and its configuration
    verifies, and failed otherwise. *)
Theorem abandoned_lease_is_recovered n s lease job attempt worker :
  fresh_session Inv s → s_outcomes s = [] → s_held s = ∅ →
  (length (where_ l_active (leases (s_committed s))) <= n)%nat →
  leases (s_committed s) !! l_id lease = Some lease → l_expires_at lease <= s_clock s →
  abandoned settings (s_committed s) lease job attempt worker (s_clock s) →
  let d := after (recover_expired_leases settings n) s in
  (∃ recovered, outcome (recover_expired_leases settings n) s = Ok recovered ∧ (0 < recovered)%nat) ∧
  leases d !! l_id lease = Some (close_lease lease (s_clock s)) ∧
  (∀ k l, leases d !! k = Some l → l_active l = true →
     l_job_id l ≠ l_job_id lease ∧ l_worker_id l ≠ l_worker_id lease) ∧
  (∀ w, workers d !! l_worker_id lease = Some w → w_current_job_id w = None) ∧
  ∃ job', jobs d !! l_job_id lease = Some job' ∧
    j_status job' = value (if is_some (j_cancel_requested_at job) then CANCELLED
                           else if auto_requeue settings job false (config_ok job attempt)
                                then QUEUED else FAILED).
Proof using Type.
  intros Hfresh Hcalm Hfree Hn Hl Hexp Hab. cbv zeta. unfold after, outcome.
  destruct (wp_recover_abandoned _ _ _ _ _ _ Hfresh Hcalm Hfree Hn Hl Hexp Hab) as (Hr & Hstep & Hclosed).
  split; [exact Hr|]. split; [exact Hclosed|].
  by eapply recovered_released; [apply (st_inv _ _ _ _ _ _ _ _ _ (fresh_St _ _ Hfresh))|..].
Qed.
End progress.

(** ** The premises hold: an hour after the claim *)

#[local] Existing Instances sample_parser sample_capabilities_parser sample_platform.

Definition stale_lease : JobLease :=
  mkJobLease "id-1" "j-1" "id-0" "w-1" 720000000 600000000 None true.

Lemma stale_lease_stored : leases busy_db !! "id-1" = Some stale_lease.
Proof. vm_compute. reflexivity. Qed.

Lemma stale_worker_silent :
  (λ w, w_last_heartbeat_at w) <$> workers busy_db !! "w-1" = Some (Some ten_minutes).
Proof. vm_compute. reflexivity. Qed.

Lemma one_active_lease : length (where_ l_active (leases busy_db)) = 1%nat.
Proof. vm_compute. reflexivity. Qed.

Lemma stale_lease_abandoned : ∃ job attempt worker,
  abandoned sample_settings busy_db stale_lease job attempt worker (s_clock abandoned_session).
Proof.
  destruct (lease_assigned _ _ _ _ (proj1 busy_db_Inv) _ _ stale_lease_stored eq_refl)
    as (job & attempt & worker & Has).
  exists job, attempt, worker. split; [done|done|]. intros h Hh.
  pose proof stale_worker_silent as Hw. destruct Has as [_ _ Hworker]. simpl in Hworker.
  rewrite Hworker in Hw. simpl in Hw. assert (h = ten_minutes) as -> by congruence.
  by apply Z.leb_le.
Qed.

Lemma abandoned_lease_is_recovered_witness :
  ∃ recovered,
    outcome (recover_expired_leases sample_settings 100) abandoned_session = Ok recovered ∧
    (0 < recovered)%nat.
Proof.
  destruct stale_lease_abandoned as (job & attempt & worker & Hab).
  assert (length (where_ l_active (leases (s_committed abandoned_session))) <= 100)%nat as Hn
    by (change (s_committed abandoned_session) with busy_db; rewrite one_active_lease; lia).
  assert (l_expires_at stale_lease <= s_clock abandoned_session) as Hexp by by apply Z.leb_le.
  destruct (abandoned_lease_is_recovered sample_settings 100 abandoned_session stale_lease job
    attempt worker abandoned_session_fresh eq_refl eq_refl Hn stale_lease_stored Hexp Hab)
    as [Hr _].
  exact Hr.
Defined.
