(* ===== verification/WorkerTokensCorrect.v ===== *)
(** * Correctness of Worker credentials

    Registration, rotation, re-enrollment and revocation preserve the ledger invariant
    under interference; a revoked or replaced token no longer authenticates; a
    revocation leaves no assignment behind and retries at most once. *)

From S2P Require Import Prelude Sha256 Json JobStatus JobConfig WorkerContract DateTime Settings.
From S2P Require Import Ledger Session Wp JobConfigLedger Mlflow WorkerTokens LeaseService.
From S2P Require Import Evolution LedgerInvariant Fixtures LeaseProperties.

Lemma stable_outbox I `{!Stable I} c c' : same_ledger c c' → I c → commits I c c'.
Proof.
  intros Hs HI. destruct (same_ledger_fields _ _ Hs) as (? & ? & ? & ? & ? & ? & _).
  pose proof (same_ledger_rest _ _ Hs).
  eapply stable_same; [done..|]. by eapply Inv_ext; [..|eapply stable_inv].
Qed.

Section tokens.
  Context `{ContractParser} `{CapabilitiesParser} `{Platform}.
  Variable settings : Settings.

(** ** Saving credentials *)

Lemma wp_save_credentials I w (Q : result () → Session → Prop) c d b dm L t i s :
  St I c d b dm L t i s →
  (∀ v dm' s', let d' := d <| workers := <[w_id w := w <| w_row_version := v |> ]> (workers d) |> in
     (dm' = None → dm = None ∧ worker_conflict w d' = false ∧ rotation_fields_together w = true) →
     St I c d' true dm' L t i s' → Q (Ok ()) s') →
  wp (save_credentials w) Q s.
Proof.
  intros Hst HQ. unfold save_credentials. wp_step. wp_step. wp_step. eapply HQ; [|done].
  intros Hdm. match goal with H : _ = None → _ |- _ => destruct (H Hdm) as [-> ?] end. by bools.
Qed.

(** Saving the credentials of an unassigned or unchanged Worker keeps the invariant. *)
Lemma Inv_credentials d w w' v d' :
  Inv d → workers d !! w_id w' = Some w → w_current_job_id w' = w_current_job_id w →
  worker_conflict w' (d <| workers := <[w_id w' := w' <| w_row_version := v |> ]> (workers d) |>)
    = false →
  rotation_fields_together w' = true →
  workers d' = <[w_id w' := w' <| w_row_version := v |> ]> (workers d) →
  jobs d' = jobs d → attempts d' = attempts d → leases d' = leases d →
  job_logs d' = job_logs d → metrics d' = metrics d → Inv d'.
Proof.
  intros (HI & HS & HC) Hw Hcur Hconf Hrot Ew Ej Ea El Elg Em. unfold Inv.
  rewrite Ew, Ej, Ea, El, Elg, Em. split_and!; [|done|].
  - by eapply LedgerInv_worker.
  - apply CredInv_save; [apply HI|done..].
Qed.

Lemma Inv_new_worker d w v :
  Inv d → workers d !! w_id w = None → w_current_job_id w = None →
  worker_conflict w (d <| workers := <[w_id w := w <| w_row_version := v |> ]> (workers d) |>)
    = false →
  rotation_fields_together w = true →
  Inv (d <| workers := <[w_id w := w <| w_row_version := v |> ]> (workers d) |>).
Proof.
  intros (HI & HS & HC) Hw Hcur Hconf Hrot. split_and!; simpl; [|done|].
  - apply LedgerInv_free_worker; [done| |done|done]. intros ? Hk. congruence.
  - apply CredInv_save; [apply HI|done..].
Qed.

(** ** The rotation boundary *)

Lemma wp_lock_boundary (I : DB → Prop) worker_id allow
    (Q : result (Worker * list JobLease) → Session → Prop) c L t i s :
  (∀ d, I d → Inv d) → St I c c false None L t i s →
  (∀ c' L' worker found s', workers c' !! worker_id = Some worker → w_id worker = worker_id →
     (allow = false → w_is_active worker = true) → LockWorker worker_id ∈ L' →
     St I c' c' false None L' t i s' → Q (Ok (worker, found)) s') →
  (∀ e s', e ≠ RecursionError → safe I s' → Q (Raise e) s') →
  wp (lock_worker_token_rotation_boundary worker_id allow) Q s.
Proof.
  intros HInv Hst HQ HR. unfold lock_worker_token_rotation_boundary. wp_steps.
  all: try by eapply HR; [|eapply St_safe].
  eapply HQ; [done| | | |done].
  - pose proof (HInv _ (st_inv _ _ _ _ _ _ _ _ _ Hst)) as [HI _]. by eapply HI.
  - intros ->. destruct (w_is_active _); naive_solver.
  - set_solver.
Qed.

Section handlers.
  Context (I : DB → Prop) `{!Stable I}.
  #[local] Set Default Proof Using "Stable0".

Lemma wp_lock_rotation worker_id allow
    (Q : result (Worker * list JobLease) → Session → Prop) c L t i s :
  St I c c false None L t i s →
  (∀ c' L' worker found s', workers c' !! worker_id = Some worker → w_id worker = worker_id →
     (allow = false → w_is_active worker = true) → LockWorker worker_id ∈ L' →
     St I c' c' false None L' t i s' → Q (Ok (worker, found)) s') →
  (∀ e s', e ≠ RecursionError → safe I s' → Q (Raise e) s') →
  wp (lock_worker_token_rotation_boundary worker_id allow) Q s.
Proof. apply wp_lock_boundary, stable_inv. Qed.

Lemma register_worker_preserves payload bootstrap :
  preserves I (register_worker settings payload bootstrap).
Proof.
  start_handler. unfold register_worker, issue_worker_token. wp_steps; try finish_safe.
  eapply wp_save_credentials; [done|]. cbv zeta. intros v dm' s2 Hdm Hst2. wp_simpl.
  wp_steps; try finish_safe.
  destruct (Hdm H5) as (_ & Hc & Hr). ledger_inv HI. bools.
  same_tables. by apply Inv_new_worker.
Qed.

(** After [save_credentials] of the locked Worker [w]: the audit events and the commit. *)
Ltac credentials_inv w Hid :=
  let HI := fresh "HI" in
  ledger_inv HI;
  match goal with H : ?dm = None, Hdm : ?dm = None → _ |- _ => destruct (Hdm H) as (_ & ? & ?) end;
  same_tables;
  (eapply (Inv_credentials _ w _ _ _ HI); [| |eassumption|eassumption|reflexivity..]);
  try destruct (is_some (w_pending_token_hash w)); simpl; rewrite ?Hid; done.

Ltac credentials_saved w Hid :=
  eapply wp_save_credentials; [eassumption|]; cbv zeta; intros ? ? ? ? ?; wp_simpl;
  unfold worker_audit; wp_steps; try finish_safe; credentials_inv w Hid.

Lemma prepare_token_rotation_preserves rotation_id worker :
  preserves I (prepare_token_rotation settings rotation_id worker).
Proof.
  start_handler. unfold prepare_token_rotation, require_rotation_idle, issue_worker_token. wp_step.
  eapply wp_lock_rotation; [done| |by intros].
  intros c' L' w found s' Hw Hid _ _ Hst'. wp_steps; try finish_safe.
  credentials_saved w Hid.
Qed.

Lemma abort_token_rotation_preserves rotation_id worker :
  preserves I (abort_token_rotation rotation_id worker).
Proof.
  start_handler. unfold abort_token_rotation. wp_step.
  eapply wp_lock_rotation; [done| |by intros].
  intros c' L' w found s' Hw Hid _ _ Hst'. wp_steps; try finish_safe.
  credentials_saved w Hid.
Qed.

(** An activation: the Worker row before and after it. *)
Record activated (d d' : DB) (worker_id rotation_id old new : string) (now : Z) (w : Worker)
    : Prop := mkActivated {
  ac_inv : Inv d;
  ac_row : workers d !! worker_id = Some w;
  ac_id : w_id w = worker_id;
  ac_active : w_is_active w = true;
  ac_idle : w_current_job_id w = None;
  ac_old : w_token_hash w = old;
  ac_pending : w_pending_token_hash w = Some new;
  ac_rotation : w_token_rotation_id w = Some rotation_id;
  ac_fresh : ∃ t, w_token_rotation_expires_at w = Some t ∧ now < t;
  ac_result : ∃ v, workers d' = <[worker_id :=
    clear_token_rotation (w <| w_token_hash := new |> <| w_token_issued_at := now |>)
      <| w_row_version := v |> ]> (workers d) }.

Lemma wp_activate rotation_id worker token (Q : result Z → Session → Prop) c L t i s :
  St I c c false None L t i s →
  (∀ tok d w now s', token = Some tok →
     activated d (s_committed s') (w_id worker) rotation_id (w_token_hash worker)
       (hash_worker_token settings tok) now w → safe I s' → Q (Ok now) s') →
  (∀ e s', e ≠ RecursionError → safe I s' → Q (Raise e) s') →
  wp (activate_token_rotation settings rotation_id worker token) Q s.
Proof.
  intros Hst HQ HR. unfold activate_token_rotation, require_rotation_idle.
  wp_step; [|wp_steps; by eapply HR; [|eapply St_safe]].
  wp_step. wp_step; [by eapply HR; [|eapply St_safe]|].
  wp_step. eapply wp_lock_rotation; [done| |done].
  intros c' L' w found s' Hw Hid Hact _ Hst'. wp_steps; try by eapply HR; [|eapply St_safe].
  pose proof (stable_inv _ (st_inv _ _ _ _ _ _ _ _ _ Hst')) as HI'.
  eapply wp_save_credentials; [done|]. cbv zeta. intros v dm' s2 Hdm Hst2. wp_simpl.
  unfold worker_audit. wp_steps; [by apply HR| |].
  - credentials_inv w Hid.
  - bools. eapply HQ; [done| |by eapply St_safe].
    match goal with H : St _ _ _ _ _ _ _ _ ?x |- activated _ (s_committed ?x) _ _ _ _ _ _ =>
      rewrite (st_committed _ _ _ _ _ _ _ _ _ H) end.
    split; [exact HI'|exact Hw|exact Hid|by apply Hact|assumption|assumption|assumption|assumption| |].
    + destruct (w_token_rotation_expires_at w) as [x|]; bools. by exists x.
    + exists v. rewrite <-Hid. reflexivity.
Qed.

Lemma activate_token_rotation_preserves rotation_id worker token :
  preserves I (activate_token_rotation settings rotation_id worker token).
Proof. start_handler. by eapply wp_activate. Qed.

Lemma re_enroll_worker_preserves payload bootstrap :
  preserves I (re_enroll_worker settings payload bootstrap).
Proof.
  start_handler. unfold re_enroll_worker, issue_worker_token. wp_steps; try finish_safe.
  eapply wp_lock_rotation; [done| |by intros].
  intros c' L' w found s' Hw Hid _ _ Hst'. wp_steps; try finish_safe.
  credentials_saved w Hid.
Qed.

(** ** Revocation *)

Lemma is_terminal_value_spec status : is_terminal_value status = true → ¬ leased status.
Proof using Type.
  unfold is_terminal_value. intros Hin. bools. apply list_elem_of_In in Hin. simpl in Hin.
  destruct Hin as [<-|[<-|[<-|[]]]]; [change (¬ leased (value COMPLETED))
    |change (¬ leased (value FAILED))|change (¬ leased (value CANCELLED))];
    rewrite leased_value; naive_solver.
Qed.

(** The rows returned by the revocation boundary are the rows of the database in
    which the Worker was locked. *)
Definition locked_rows (c : DB) (worker_id : string) (worker : Worker) (found : list JobLease)
    (found_jobs : gmap string Job) (found_attempts : gmap string JobAttempt) : Prop :=
  workers c !! worker_id = Some worker ∧
  Forall (λ l, leases c !! l_id l = Some l ∧ l_active l = true ∧ l_worker_id l = worker_id) found ∧
  (∀ k job, found_jobs !! k = Some job → jobs c !! k = Some job) ∧
  (∀ k a, found_attempts !! k = Some a → attempts c !! k = Some a).

Lemma active_leases_spec worker_id d l :
  Inv d → l ∈ active_leases worker_id d →
  leases d !! l_id l = Some l ∧ l_active l = true ∧ l_worker_id l = worker_id.
Proof using Type.
  intros [HI _] Hin. apply elem_of_where_order in Hin as (Hp & k & Hk). bools.
  by rewrite (lease_ids _ _ _ _ HI _ _ Hk).
Qed.

Lemma restrict_spec {A} ids (table : gmap string A) k a :
  restrict ids table !! k = Some a → k ∈ ids ∧ table !! k = Some a.
Proof using Type. unfold restrict. rewrite map_lookup_filter_Some. naive_solver. Qed.

Lemma wp_lock_revocation worker_id
    (Q : result (Worker * list JobLease * gmap string Job * gmap string JobAttempt) →
         Session → Prop) c L t i s :
  St I c c false None L t i s →
  (∀ c' L' worker found fj fa s', locked_rows c' worker_id worker found fj fa →
     St I c' c' false None L' t i s' → Q (Ok (worker, found, fj, fa)) s') →
  (∀ e s', e ≠ RecursionError → safe I s' → Q (Raise e) s') →
  wp (lock_worker_revocation_boundary worker_id) Q s.
Proof.
  intros Hst HQ HR. unfold lock_worker_revocation_boundary.
  wp_step. wp_step. rename c' into c1, H2 into Hag1. pose proof (stable_inv _ (st_inv _ _ _ _ _ _ _ _ _ Hst)) as HI1.
  wp_step. wp_step. rename c' into c2, H2 into Hag2.
  wp_step. wp_step. rename c' into c3, H2 into Hag3.
  wp_step. wp_step. rename c' into c4, H2 into Hag4.
  wp_steps; [|by eapply HR; [|eapply St_safe]]. eapply HQ; [|done]. split_and!; [done|..].
  - apply Forall_forall. intros l Hl. destruct (active_leases_spec _ _ _ HI1 Hl) as (? & ? & ?).
    split_and!; [|done..].
    assert (LockLease (l_id l) ∈@{gset lock} list_to_set (lease_locks (active_leases worker_id c1))).
    { apply elem_of_list_to_set, list_elem_of_fmap. eauto. }
    rewrite (ag_rows _ _ _ Hag4 (LockLease (l_id l)) ltac:(set_solver)),
      (ag_rows _ _ _ Hag3 (LockLease (l_id l)) ltac:(set_solver)), (ag_rows _ _ _ Hag2 (LockLease (l_id l)) ltac:(set_solver)).
    done.
  - intros k job [Hk Hj]%restrict_spec.
    assert (LockJob k ∈@{gset lock} list_to_set (map LockJob (map l_job_id (active_leases worker_id c1)))).
    { apply elem_of_list_to_set, list_elem_of_fmap. eauto. }
    by rewrite (ag_rows _ _ _ Hag4 (LockJob k) ltac:(set_solver)), (ag_rows _ _ _ Hag3 (LockJob k) ltac:(set_solver)).
  - intros k a [Hk Ha]%restrict_spec.
    assert (LockAttempt k ∈@{gset lock}
              list_to_set (map LockAttempt (map l_attempt_id (active_leases worker_id c1)))).
    { apply elem_of_list_to_set, list_elem_of_fmap. eauto. }
    by rewrite (ag_rows _ _ _ Hag4 (LockAttempt k) ltac:(set_solver)).
Qed.

(** The assignment tables after the loop of a revocation. *)
Record cancelled_by (d d' : DB) (found : list JobLease) (now : Z) : Prop := mkCancelledBy {
  ca_workers : workers d' = workers d;
  ca_logs : job_logs d' = job_logs d;
  ca_metrics : metrics d' = metrics d;
  ca_rest : rest_of d' = rest_of d;
  ca_none : found = [] → jobs d' = jobs d ∧ attempts d' = attempts d ∧ leases d' = leases d;
  ca_one : ∀ l, found = [l] → ∃ job attempt job' attempt',
    jobs d !! l_job_id l = Some job ∧ attempts d !! l_attempt_id l = Some attempt ∧
    jobs d' = <[j_id job := job']> (jobs d) ∧ j_id job' = j_id job ∧
    j_status job' = value CANCELLED ∧
    attempts d' = <[a_id attempt := attempt']> (attempts d) ∧ a_id attempt' = a_id attempt ∧
    a_finished_at attempt' = Some now ∧
    a_telemetry_log_count attempt' = a_telemetry_log_count attempt ∧
    a_telemetry_metric_count attempt' = a_telemetry_metric_count attempt ∧
    leases d' = <[l_id l := l <| l_active := false |> <| l_released_at := Some now |> ]> (leases d) ∧
    (job_frame job' = job_frame job ∧ j_attempt_count job' = j_attempt_count job ∧
     saved_over (jobs d) (j_id job) job' ∧ attempt_frame attempt' = attempt_frame attempt) }.

Lemma wp_cancel_loop worker found fj fa now worker_id
    (Q : result (list (option string)) → Session → Prop) c L t i s :
  St I c c false None L t i s → locked_rows c worker_id worker found fj fa →
  (length found <= 1)%nat →
  (∀ r d' b' dm' t' s', cancelled_by c d' found now → t <= t' →
     St I c d' b' dm' L t' i s' → Q (Ok r) s') →
  (∀ e s', e ≠ RecursionError → safe I s' → Q (Raise e) s') →
  wp (collect found (cancel_for_revocation settings worker fj fa now)) Q s.
Proof.
  intros Hst (Hw & Hf & Hj & Ha) Hlen HQ HR. destruct found as [|l [|]]; simpl in Hlen; [| |lia].
  { wp_steps. eapply HQ; [|reflexivity|done]. by split. }
  simpl. unfold cancel_for_revocation. wp_steps; try by eapply HR; [|eapply St_safe].
  eapply (wp_enqueue_for_job settings); [apply (stable_outbox I)|done| |intros; by apply HR].
  intros d' dm' t' r s2 Hsame Hdm Ht Hst2. wp_steps. eapply HQ; [|exact Ht|done].
  destruct (same_ledger_fields _ _ Hsame) as (Ew & Ej & Ea & El & Elg & Em & _).
  split; try done; [by apply (same_ledger_rest _ _ Hsame)|]. intros l' [= <-]. bools.
  do 4 eexists. rewrite Ej, Ea, El. split_and!; eauto.
Qed.

(** The guards leave at most one lease, and the Worker is busy exactly with it. *)
Definition revocation_guard (worker : Worker) (found : list JobLease) : Prop :=
  (length found <= 1)%nat ∧ (found = [] → w_current_job_id worker = None) ∧
  (∀ l, found = [l] → w_current_job_id worker = Some (l_job_id l)).

Lemma wp_check_revocation payload worker found (Q : result () → Session → Prop) s :
  (w_name worker = rv_expected_worker_name payload →
   (found ≠ [] → rv_force_cancel_active payload = true) →
   revocation_guard worker found → Q (Ok ()) s) →
  (∀ e, e ≠ RecursionError → Q (Raise e) s) → wp (check_revocation payload worker found) Q s.
Proof using Type.
  clear Stable0 I. intros HQ HR. unfold check_revocation. wp_steps; try by apply HR. bools.
  match goal with H : (1 <? _)%nat = false |- _ => apply Nat.ltb_ge in H end.
  match goal with H : w_name _ = _ |- _ => apply HQ; [exact H|..] end.
  - intros Hne. destruct (rv_force_cancel_active payload); [done|].
    match goal with H : (_ || _) && _ = false |- _ => rewrite andb_true_r in H end.
    bools. by destruct found.
  - destruct found as [|l [|]]; simpl in *; [| |lia]; split_and!; try done; try lia.
    + intros _. destruct (w_current_job_id worker) as [j|]; [|done]; bools; set_solver.
    + intros l' [= <-]. destruct (w_current_job_id worker) as [j|] eqn:Hj; bools; [|done].
      f_equal. set_solver.
Qed.

Lemma Inv_revoked c d d' worker_id worker found fj fa now w' v :
  Inv c → locked_rows c worker_id worker found fj fa → revocation_guard worker found →
  cancelled_by c d found now →
  w_id w' = worker_id → w_current_job_id w' = None → rotation_fields_together w' = true →
  workers d' = <[w_id w' := w' <| w_row_version := v |> ]> (workers d) →
  jobs d' = jobs d → attempts d' = attempts d → leases d' = leases d →
  job_logs d' = job_logs d → metrics d' = metrics d →
  worker_conflict w' (d <| workers := <[w_id w' := w' <| w_row_version := v |> ]> (workers d) |>)
    = false →
  Inv d'.
Proof using Type.
  intros (HI & HS & HC) (Hw & Hf & Hfj & Hfa) (Hlen & Hnone & Hone) [Ew0 Elg0 Em0 _ Cnone Cone]
    Hw'id Hw'cur Hw'rot Ew Ej Ea El Elg Em Hconf.
  pose proof (worker_ids _ _ _ _ HI _ _ Hw) as Hid.
  assert (CredInv (workers d')) as HC'.
  { rewrite Ew. apply CredInv_save; [rewrite Ew0; apply HI|by rewrite Ew0|done|done]. }
  unfold Inv. rewrite Ej, Ea, El, Elg, Em, Elg0, Em0. split_and!; [| |done];
    destruct found as [|l [|]]; simpl in Hlen; try lia.
  - destruct (Cnone eq_refl) as (-> & -> & ->). rewrite Ew, Ew0.
    rewrite Hw'id. by apply (LedgerInv_worker _ _ _ _ HI _ _ _ Hw); [|rewrite Hnone].
  - destruct (Cone l eq_refl) as (job & att & job' & att' & Hj & Ha & -> & Hjid & Hjst & -> & Haid
      & Hfin & _ & _ & -> & _). rewrite Ew, Ew0.
    apply Forall_cons in Hf as [(Hl & Hact & Hlw) _].
    destruct (lease_assigned _ _ _ _ HI _ _ Hl Hact) as (j & a & w & Has). pose proof Has as [].
    assert (j = job ∧ a = att ∧ w = worker) as (-> & -> & ->) by (split_and!; congruence).
    rewrite (job_ids _ _ _ _ HI _ _ Hj) in Hjid |- *.
    rewrite (attempt_ids _ _ _ _ HI _ _ Ha) in Haid |- *.
    replace (w_id w') with (l_worker_id l) by congruence.
    apply (LedgerInv_release _ _ _ _ HI _ _ _ _ _ Hl Hact Has); try done.
    + rewrite Hjst, leased_value. naive_solver.
    + simpl. congruence.
  - by destruct (Cnone eq_refl) as (_ & -> & _).
  - destruct (Cone l eq_refl) as (job & att & job' & att' & Hj & Ha & _ & _ & _ & -> & Haid
      & _ & Hlc & Hmc & _).
    rewrite (attempt_ids _ _ _ _ HI _ _ Ha). by eapply SealInv_attempt.
Qed.

Lemma evolves_revoked c d worker_id worker found fj fa now :
  Inv c → locked_rows c worker_id worker found fj fa → (length found <= 1)%nat →
  cancelled_by c d found now → evolves c d.
Proof using Type.
  intros (HI & _) (_ & Hf & _) Hlen [_ Elg Em Ex Cnone Cone].
  destruct found as [|l [|]]; simpl in Hlen; [| |lia].
  { destruct (Cnone eq_refl) as (Ej & Ea & El). by apply (evolves_ext c c). }
  apply Forall_cons in Hf as [(Hl & Hact & _) _].
  destruct (lease_assigned _ _ _ _ HI _ _ Hl Hact) as (j & a & w & []).
  destruct (Cone l eq_refl) as (job & att & job' & att' & Hj & Ha & Ej & Hjid & Hjst
    & Ea & _ & _ & _ & _ & El & Hfr & Hcount & Hv & Hafr).
  assert (j = job ∧ a = att) as [-> ->] by (split; congruence).
  rewrite (job_ids _ _ _ _ HI _ _ Hj) in *. rewrite (attempt_ids _ _ _ _ HI _ _ Ha) in Ea.
  split; rewrite ?Ej, ?Ea, ?El, ?Elg, ?Em; [| | |done|done|by apply rest_step_same].
  - eapply jobs_step_save; [apply evolves_PreOrder|done| |done]. split; [done| |lia].
    rewrite Hjst. by apply leased_path_CANCELLED.
  - eapply attempts_step_update; [apply evolves_PreOrder|done|]. split; [done|].
    rewrite as_unfinished. by intros [].
  - eapply leases_step_update; [apply evolves_PreOrder|done|]. split; [done|done|congruence].
Qed.

(** One attempt at a revocation, up to its commit. *)
Lemma wp_apply_revocation admin payload worker_id worker found fj fa now
    (Q : result (list (option string) * Worker) → Session → Prop) c L t i s :
  St I c c false None L t i s → locked_rows c worker_id worker found fj fa →
  revocation_guard worker found →
  (∀ keys tok v d' dm' t' s', let w' := revoked_worker settings worker tok now in
     (dm' = None → Inv d' ∧ evolves c d' ∧ workers d' !! worker_id = Some (w' <| w_row_version := v |>)) →
     t <= t' → St I c d' true dm' L t' i s' → Q (Ok (keys, w')) s') →
  (∀ e s', e ≠ RecursionError → safe I s' → Q (Raise e) s') →
  wp (apply_revocation settings admin payload worker found fj fa now) Q s.
Proof.
  intros Hst Hrows Hguard HQ HR. unfold apply_revocation, issue_worker_token. wp_step.
  eapply wp_cancel_loop; [done|done|by destruct Hguard| |done].
  intros keys d1 b1 dm1 t1 s1 Hcan Ht1 Hst1. wp_steps.
  eapply wp_save_credentials; [done|]. cbv zeta. intros v dm2 s2 Hdm Hst2. wp_steps.
  pose proof (stable_inv _ (st_inv _ _ _ _ _ _ _ _ _ Hst)) as HI.
  assert (w_id worker = worker_id) as Hid.
  { destruct Hrows as [Hw _]. by apply (worker_ids _ _ _ _ (proj1 HI)). }
  eapply HQ; [|done|done]. intros Hd. destruct (Hdm Hd) as (_ & Hconf & Hrot). split_and!.
  - refine (Inv_revoked _ _ _ _ _ _ _ _ _ (revoked_worker settings worker _ now) _
      HI Hrows Hguard Hcan Hid eq_refl Hrot _ _ _ _ _ _ Hconf); reflexivity.
  - destruct Hguard. eapply (evolves_ext c d1); [reflexivity..|]. by eapply evolves_revoked.
  - rewrite <-Hid. apply lookup_insert_eq.
Qed.

(** The Worker of a committed revocation. *)
Definition revoked_in (d : DB) (worker_id name : string) : Prop :=
  ∃ w, workers d !! worker_id = Some w ∧ w_name w = name ∧ w_is_active w = false ∧
    w_current_job_id w = None ∧ w_pending_token_hash w = None ∧
    ∃ tok, w_token_hash w = hash_worker_token settings tok.

Lemma wp_worker_to_read w (Q : result WorkerRead → Session → Prop) c d b dm L t i s :
  St I c d b dm L t i s →
  (∀ r s', s_committed s' = c → safe I s' → Q (Ok r) s') →
  (∀ e s', e ≠ RecursionError → s_committed s' = c → safe I s' → Q (Raise e) s') →
  wp (worker_to_read settings w) Q s.
Proof.
  intros Hst HQ HR. unfold worker_to_read. wp_steps.
  all: first [apply HQ | apply HR; [done|..]]; [by eapply st_committed|by eapply St_safe].
Qed.

(** A revocation ends in the revoked state or raises, and recurses at most once. *)
Lemma wp_revoke fuel worker_id payload admin
    (Q : result WorkerRead → Session → Prop) c L t i s :
  St I c c false None L t i s →
  0 <= default 0 (i !! "worker_token_revoke_retry") →
  (2 - Z.to_nat (default 0%Z (i !! "worker_token_revoke_retry")) <= fuel)%nat → (1 <= fuel)%nat →
  (∀ r s', safe I s' → revoked_in (s_committed s') worker_id (rv_expected_worker_name payload) →
     Q (Ok r) s') →
  (∀ e s', e ≠ RecursionError → safe I s' → Q (Raise e) s') →
  wp (revoke_worker_token settings fuel worker_id payload admin) Q s.
Proof.
  intros Hst Hretry Hfuel Hpos HQ HR. revert c L t i s Hst Hretry Hfuel Hpos.
  induction fuel as [|fuel IH]; intros c L t i s Hst Hretry Hfuel Hpos; [lia|].
  simpl. wp_step.
  eapply wp_lock_revocation; [done| |done].
  intros c1 L1 worker found fj fa s1 Hrows Hst1. wp_step.
  apply wp_check_revocation; [|intros; by eapply HR; [|eapply St_safe]].
  intros Hname _ Hguard. wp_step. wp_step. wp_step.
  eapply wp_apply_revocation; [done|done|done| |done].
  cbv zeta. intros keys tok v d' dm' t2 s2 Hdm Ht2 Hst2. wp_step. wp_step. wp_step.
  eapply wp_commit; [done|..];
    [|intros Hd; destruct (Hdm Hd) as (? & ? & _); eapply stable_step; [by eapply st_inv|done..]|].
  - intros e s3 Hst3. unfold on_db_error. wp_simpl.
    case_decide; [|by eapply HR; [|eapply St_safe]].
    wp_steps; [|by eapply HR; [|eapply St_safe]].
    bools. eapply IH; [done| | |]; rewrite ?lookup_insert_eq; simpl in *; lia.
  - intros s3 Hdm' Hst3. wp_step. wp_step.
    eapply (for_each_ok settings I (stable_outbox I));
      [apply sync_after_commit_ok, stable_outbox, _|done| |].
    + intros r c4 L4 t4 s4 Hsame _ Hst4. wp_simpl. eapply wp_worker_to_read; [done| |].
      * intros r' s5 Hc5 Hsafe. apply HQ; [done|]. rewrite Hc5.
        destruct (same_ledger_fields _ _ Hsame) as (Ew & _). destruct (Hdm Hdm') as (_ & _ & Hw).
        eexists. rewrite Ew. split; [exact Hw|]. split_and!; try done. by exists tok.
      * intros. by apply HR.
    + intros. by apply HR.
Qed.

End handlers.

(** ** Authentication *)

Lemma worker_by_token_hash_Some digest d w :
  worker_by_token_hash digest d = Some w →
  w_token_hash w = digest ∧ w_is_active w = true ∧ ∃ k, workers d !! k = Some w.
Proof.
  intros Hf. apply find_some in Hf as [Hin Hp]. bools. split_and!; [done..|].
  apply list_elem_of_In in Hin. unfold rows in Hin.
  apply list_elem_of_fmap in Hin as ([k v] & -> & Hin). exists k. by apply elem_of_map_to_list.
Qed.

Lemma worker_by_token_hash_unique digest d k w :
  CredInv (workers d) → workers d !! k = Some w → w_token_hash w = digest →
  w_is_active w = true → worker_by_token_hash digest d = Some w.
Proof.
  intros [Huniq _] Hw Hh Ha. destruct (worker_by_token_hash digest d) as [v|] eqn:Hf.
  - apply worker_by_token_hash_Some in Hf as (Hv & _ & k' & Hk'). f_equal.
    assert (k' = k) by (eapply Huniq; [done|done|congruence]). congruence.
  - exfalso. unfold worker_by_token_hash in Hf.
    assert (In w (rows (workers d))) as Hin.
    { apply list_elem_of_In, list_elem_of_fmap. exists (k, w). by rewrite elem_of_map_to_list. }
    pose proof (find_none _ _ Hf _ Hin) as Hn. cbv beta in Hn.
    by rewrite Ha, bool_decide_eq_true_2 in Hn.
Qed.

(** The response to a request with this bearer token on the database [d]. *)
Definition authenticate (d : DB) (credentials : string) : result Worker :=
  outcome (require_worker settings (Some ("bearer", credentials))) (new_session d 0).

Lemma authenticate_eq d credentials :
  authenticate d credentials =
  match worker_by_token_hash (hash_worker_token settings credentials) d with
  | Some w => Ok w
  | None => Raise (HTTPException 401 "invalid worker token")
  end.
Proof.
  unfold authenticate, outcome, require_worker. rewrite bool_decide_eq_true_2 by done.
  unfold mbind, M_bind, ask. simpl. by destruct (worker_by_token_hash _ _).
Qed.

(** C13: an activated rotation replaces the credential atomically. The new token
    authenticates as the same Worker, which is idle and has no rotation pending, and
    a token with the replaced hash is answered with 401. *)
Theorem activation_replaces_token rotation_id worker token s issued :
  fresh_session Inv s →
  outcome (activate_token_rotation settings rotation_id worker token) s = Ok issued →
  let d := after (activate_token_rotation settings rotation_id worker token) s in
  ∃ new w, token = Some new ∧ authenticate d new = Ok w ∧ w_id w = w_id worker ∧
    w_token_issued_at w = issued ∧ w_pending_token_hash w = None ∧ w_current_job_id w = None ∧
    ∀ old, hash_worker_token settings old = w_token_hash worker →
      hash_worker_token settings old ≠ hash_worker_token settings new →
      authenticate d old = Raise (HTTPException 401 "invalid worker token").
Proof.
  intros Hfresh Hout d.
  assert (∃ new d0 w, token = Some new ∧ activated d0 d (w_id worker) rotation_id
    (w_token_hash worker) (hash_worker_token settings new) issued w ∧ Inv d)
    as (new & d0 & w & Htok & Hac & HI).
  { eassert (wp (activate_token_rotation settings rotation_id worker token)
      (λ r s', match r with Ok issued => ∃ new d0 w, token = Some new ∧
         activated d0 (s_committed s') (w_id worker) rotation_id (w_token_hash worker)
           (hash_worker_token settings new) issued w ∧ Inv (s_committed s')
       | _ => True end) s) as Hwp.
    { eapply (wp_activate Inv); [by apply fresh_St| |done]. intros tok d0 w now s' ? Hac [? _].
      by exists tok, d0, w. }
    exact (wp_run _ _ _ _ Hwp Hout). }
  destruct Hac as [HI0 Hrow Hid Hactive Hidle Hold _ _ _ [v Hres] ].
  eexists new, _. rewrite authenticate_eq. erewrite worker_by_token_hash_unique;
    [|apply HI|rewrite Hres; apply lookup_insert_eq|done|done].
  do 6 (split; [done|]). intros old Hh Hne. rewrite authenticate_eq.
  destruct (worker_by_token_hash _ d) as [u|] eqn:Hf; [exfalso|done].
  apply worker_by_token_hash_Some in Hf as (Hu & _ & k & Hk). rewrite Hres in Hk.
  apply lookup_insert_Some in Hk as [[<- <-]|[Hne' Hk] ].
  - simpl in Hu. congruence.
  - destruct HI0 as (_ & _ & Huniq & _). apply Hne'.
    eapply (Huniq _ _ _ _ Hrow Hk). congruence.
Qed.

(** What a revocation that returned has committed. *)
Lemma revoke_outcome fuel worker_id payload admin s :
  fresh_session Inv s → s_info s = ∅ → (2 <= fuel)%nat →
  let m := revoke_worker_token settings fuel worker_id payload admin in
  outcome m s ≠ Raise RecursionError ∧
  (∀ r, outcome m s = Ok r → Inv (after m s) ∧
     revoked_in (after m s) worker_id (rv_expected_worker_name payload)).
Proof.
  intros Hfresh Hinfo Hfuel m.
  assert (wp m (λ r s', r ≠ Raise RecursionError ∧ ∀ v, r = Ok v → Inv (s_committed s') ∧
     revoked_in (s_committed s') worker_id (rv_expected_worker_name payload)) s) as Hwp.
  { eapply (wp_revoke Inv); [by apply fresh_St|..]; rewrite ?Hinfo, ?lookup_empty; simpl; try lia.
    - intros r s' [? _] Hr. split; [done|]. by intros ? _.
    - intros e s' He _. split; [congruence|done]. }
  exact Hwp.
Qed.

(** C12: a revocation that succeeds leaves nothing of the Worker behind: it is
    inactive, holds no active lease and no Job, and no bearer token authenticates
    as it. *)
Theorem revocation_releases_worker fuel worker_id payload admin s r :
  fresh_session Inv s → s_info s = ∅ → (2 <= fuel)%nat →
  outcome (revoke_worker_token settings fuel worker_id payload admin) s = Ok r →
  let d := after (revoke_worker_token settings fuel worker_id payload admin) s in
  (∃ w, workers d !! worker_id = Some w ∧ w_name w = rv_expected_worker_name payload ∧
     w_is_active w = false ∧ w_current_job_id w = None) ∧
  (∀ k l, leases d !! k = Some l → l_active l = true → l_worker_id l ≠ worker_id) ∧
  (∀ k j, jobs d !! k = Some j → leased (j_status j) → j_worker_id j ≠ Some worker_id) ∧
  (∀ credentials w, authenticate d credentials = Ok w → w_id w ≠ worker_id).
Proof.
  intros Hfresh Hinfo Hfuel Hout d.
  destruct (revoke_outcome fuel worker_id payload admin s Hfresh Hinfo Hfuel) as [_ Hok].
  destruct (Hok r Hout) as [HI (w & Hw & Hname & Hact & Hcur & _)].
  fold d in HI, Hw. destruct HI as (HI & _).
  assert (∀ k l, leases d !! k = Some l → l_active l = true → l_worker_id l ≠ worker_id) as Hno.
  { intros k l Hl Ha <-. destruct (lease_assigned _ _ _ _ HI _ _ Hl Ha) as (? & ? & ? & []).
    congruence. }
  split_and!; [by exists w|done|..].
  - intros k j Hj Hst Hjw. destruct (job_leased _ _ _ _ HI _ _ Hj Hst) as (kl & l & Hl & Ha & <-).
    apply (Hno _ _ Hl Ha).
    destruct (lease_assigned _ _ _ _ HI _ _ Hl Ha) as (? & ? & ? & []). congruence.
  - intros credentials u. rewrite authenticate_eq.
    destruct (worker_by_token_hash _ d) as [v|] eqn:Hf; [|done]. intros [= <-] Hv.
    apply worker_by_token_hash_Some in Hf as (_ & Hva & k & Hk).
    pose proof (worker_ids _ _ _ _ HI _ _ Hk). congruence.
Qed.

(** C36: a revocation restarts at most once. Whatever errors its commits raise, it
    ends within two runs of the handler. *)
Theorem revocation_terminates fuel worker_id payload admin s :
  fresh_session Inv s → s_info s = ∅ → (2 <= fuel)%nat →
  outcome (revoke_worker_token settings fuel worker_id payload admin) s ≠ Raise RecursionError.
Proof. intros. by apply revoke_outcome. Qed.
End tokens.

(** ** Witnesses *)

#[local] Existing Instances sample_parser sample_capabilities_parser sample_platform.

(** A rotation prepared by the idle Worker of [Fixtures.v]. *)
Definition prepared_db : DB :=
  after (prepare_token_rotation sample_settings "rot-1" sample_worker) sample_session.

Definition prepared_session : Session := new_session prepared_db (ten_minutes + 1000000).

Lemma prepared_session_fresh : fresh_session Inv prepared_session.
Proof.
  apply new_session_fresh.
  apply (prepare_token_rotation_preserves sample_settings Inv "rot-1" sample_worker).
  apply fresh_clean, new_session_fresh, sample_db_Inv.
Qed.

Definition sample_activation : M Z :=
  activate_token_rotation sample_settings "rot-1" sample_worker (Some "rvcw_secret-of-at-least-thirty-two-letters-0").

Lemma sample_activation_ok : ∃ issued, outcome sample_activation prepared_session = Ok issued.
Proof. apply ok_present. vm_compute. reflexivity. Qed.

Lemma initial_token_hash :
  hash_worker_token sample_settings "rvcw_initial" = w_token_hash sample_worker.
Proof. vm_compute. reflexivity. Qed.

Lemma different_token_hashes :
  hash_worker_token sample_settings "rvcw_initial" ≠
  hash_worker_token sample_settings "rvcw_secret-of-at-least-thirty-two-letters-0".
Proof.
  apply (bool_decide_eq_false_1 (_ = _)). vm_compute. reflexivity.
Qed.

Lemma activation_replaces_token_witness :
  (∃ w, authenticate sample_settings (after sample_activation prepared_session) "rvcw_secret-of-at-least-thirty-two-letters-0"
          = Ok w ∧ w_id w = "w-1") ∧
  authenticate sample_settings (after sample_activation prepared_session) "rvcw_initial"
    = Raise (HTTPException 401 "invalid worker token").
Proof.
  destruct sample_activation_ok as [issued Hout].
  destruct (activation_replaces_token sample_settings "rot-1" sample_worker (Some "rvcw_secret-of-at-least-thirty-two-letters-0")
    prepared_session issued prepared_session_fresh Hout)
    as (new & w & Htok & Hnew & Hid & _ & _ & _ & Hold).
  injection Htok as <-. split.
  - exists w. split; [exact Hnew|exact Hid].
  - exact (Hold "rvcw_initial" initial_token_hash different_token_hashes).
Defined.

(** The emergency revocation of the busy Worker. *)
Definition sample_revocation : M WorkerRead :=
  revoke_worker_token sample_settings 2 "w-1"
    (mkWorkerTokenRevokeRequest "worker-1" "confirmed_compromise" true) "admin-1".

Lemma sample_revocation_ok : ∃ r, outcome sample_revocation busy_session = Ok r.
Proof. apply ok_present. vm_compute. reflexivity. Qed.

Lemma revocation_releases_worker_witness :
  ∃ r, outcome sample_revocation busy_session = Ok r ∧
  ∀ k l, leases (after sample_revocation busy_session) !! k = Some l →
    l_active l = true → l_worker_id l ≠ "w-1".
Proof.
  destruct sample_revocation_ok as [r Hout]. exists r. split; [exact Hout|].
  destruct (revocation_releases_worker sample_settings 2 "w-1"
    (mkWorkerTokenRevokeRequest "worker-1" "confirmed_compromise" true) "admin-1" busy_session r
    busy_session_fresh eq_refl (le_n 2) Hout) as (_ & Hno & _).
  exact Hno.
Defined.

(** Both commits of a revocation find a stale row. *)
Definition contended_revocation : Session :=
  busy_session <| s_outcomes := [Some StaleDataError; Some StaleDataError] |>.

Lemma contended_revocation_fresh : fresh_session Inv contended_revocation.
Proof. apply fresh_session_outcomes, busy_session_fresh. Qed.

Lemma revocation_terminates_witness :
  outcome sample_revocation contended_revocation ≠ Raise RecursionError.
Proof.
  exact (revocation_terminates sample_settings 2 "w-1"
    (mkWorkerTokenRevokeRequest "worker-1" "confirmed_compromise" true) "admin-1" contended_revocation
    contended_revocation_fresh eq_refl (le_n 2)).
Defined.
