(* ===== verification/RotationRoutes.v ===== *)
(** * The Manager's side of a token rotation

    What the routes of a rotation do to the credential columns of the Worker that calls
    them, for an invariant that only speaks of these columns and that other transactions
    keep: [credentials_kept]. *)

From S2P Require Import Prelude Sha256 Json JobStatus JobConfig WorkerContract DateTime Settings.
From S2P Require Import Ledger Session Wp JobConfigLedger WorkerTokens WorkerRotation LeaseService.
From S2P Require Import Evolution LedgerInvariant Fixtures LeaseProperties WorkerTokensCorrect.

(** The columns a rotation is about. *)
Record View := mkView {
  v_name : string;
  v_active : bool;
  v_hash : string;
  v_pending : option string }.
#[export] Instance eta_View : Eta View := λ v,
  mkView (v_name v) (v_active v) (v_hash v) (v_pending v).

Definition view_of (w : Worker) : View :=
  mkView (w_name w) (w_is_active w) (w_token_hash w) (w_pending_token_hash w).

(** ** Secrets are drawn once *)

Definition monotone {A} (m : M A) : Prop := ∀ s, (s_fresh s <= s_fresh (m s).2)%nat.

Lemma monotone_keeps {A} (m : M A) : keeps_field s_fresh m → monotone m.
Proof. intros Hm s. by rewrite Hm. Qed.

Lemma monotone_bind {A B} (m : M A) (k : A → M B) :
  monotone m → (∀ a, monotone (k a)) → monotone (m ≫= k).
Proof.
  intros Hm Hk s. specialize (Hm s). unfold mbind, M_bind.
  destruct (m s) as [[a|e] s']; simpl in *; [|done]. etrans; [done|apply Hk].
Qed.

Lemma monotone_catch {A} (m : M A) h :
  monotone m → (∀ e k, h e = Some k → monotone k) → monotone (catch m h).
Proof.
  intros Hm Hh s. specialize (Hm s). unfold catch. destruct (m s) as [[a|e] s']; simpl in *; [done|].
  destruct (h e) as [k|] eqn:Hk; simpl; [|done]. etrans; [done|by eapply Hh].
Qed.

Lemma keeps_fresh_lock_row {A} k (read : DB → A) : keeps_field s_fresh (lock_row k read).
Proof.
  intros s. unfold lock_row, mbind, M_bind, interleave. by destruct (s_dirty s), (s_env s).
Qed.

Lemma keeps_fresh_lock_query {A} (read : DB → A) keys : keeps_field s_fresh (lock_query read keys).
Proof.
  intros s. unfold lock_query, mbind, M_bind, interleave. by destruct (s_dirty s), (s_env s).
Qed.

Lemma keeps_fresh_commit : keeps_field s_fresh commit.
Proof.
  intros s. unfold commit, pop_outcome, publish, mbind, M_bind.
  destruct (s_outcomes s) as [|[e|] rest]; simpl; try done; by destruct (s_doomed s).
Qed.

Lemma keeps_fresh_rollback : keeps_field s_fresh rollback.
Proof. intros s. unfold rollback, mbind, M_bind, interleave. simpl. by destruct (s_env s). Qed.

Lemma keeps_fresh_save w : keeps_field s_fresh (save_credentials w).
Proof.
  intros s. unfold save_credentials, save_worker, doom_if, when, mbind, M_bind. simpl.
  by destruct (worker_conflict _ _ || _).
Qed.

(** Proves that a route never takes back a secret. *)
Ltac monotone_step :=
  lazymatch goal with
  | |- monotone (_ ≫= _) => apply monotone_bind; [|intros ?]
  | |- monotone (catch _ _) =>
      apply monotone_catch; [|unfold on_db_error; intros [] ? ?; try done; case_decide; simplify_eq]
  | |- monotone (lock_row _ _) => apply monotone_keeps, keeps_fresh_lock_row
  | |- monotone (lock_query _ _) => apply monotone_keeps, keeps_fresh_lock_query
  | |- monotone commit => apply monotone_keeps, keeps_fresh_commit
  | |- monotone rollback => apply monotone_keeps, keeps_fresh_rollback
  | |- monotone (save_credentials _) => apply monotone_keeps, keeps_fresh_save
  | |- monotone fresh => intros ?; simpl; lia
  | |- monotone (reject_if ?b _ _) => unfold reject_if
  | |- monotone (when ?b _) => destruct b; simpl
  | |- monotone (let '(_, _) := ?x in _) => destruct x
  | |- monotone (match ?x with _ => _ end) => destruct x
  | |- monotone (if ?b then _ else _) => destruct b
  | |- monotone _ => intros ?; simpl; done
  end.

Lemma monotone_lock worker_id allow : monotone (lock_worker_token_rotation_boundary worker_id allow).
Proof. unfold lock_worker_token_rotation_boundary. repeat monotone_step. Qed.

Lemma wp_fresh_exact (I : DB → Prop) (Q : result nat → Session → Prop) c d b dm L t i s :
  St I c d b dm L t i s → (∀ s', St I c d b dm L t i s' → Q (Ok (s_fresh s)) s') → wp fresh Q s.
Proof. intros [] HQ. apply HQ. by constructor. Qed.

Section routes.
  Context `{ContractParser} `{Platform}.
  Variable settings : Settings.
  Notation digest := (hash_worker_token settings).

Lemma monotone_prepare rotation_id worker :
  monotone (prepare_token_rotation settings rotation_id worker).
Proof.
  unfold prepare_token_rotation, issue_worker_token, worker_audit, require_rotation_idle.
  repeat first [apply monotone_lock | monotone_step].
Qed.

Lemma monotone_abort rotation_id worker : monotone (abort_token_rotation rotation_id worker).
Proof.
  unfold abort_token_rotation, worker_audit. repeat first [apply monotone_lock | monotone_step].
Qed.

Lemma monotone_activate rotation_id worker token :
  monotone (activate_token_rotation settings rotation_id worker token).
Proof.
  unfold activate_token_rotation, worker_audit, require_rotation_idle.
  repeat first [apply monotone_lock | monotone_step].
Qed.

Lemma monotone_authenticated {A} token (route : Worker → M A) :
  (∀ w, monotone (route w)) → monotone (authenticated settings token route).
Proof.
  intros Hr. unfold authenticated, require_worker. repeat first [apply Hr | monotone_step].
Qed.

Lemma monotone_perform token r : monotone (perform settings token r).
Proof.
  destruct r; cbn [perform]; (apply monotone_bind; [apply monotone_authenticated; intros w|intros ? ?; done]).
  - apply monotone_prepare.
  - apply monotone_activate.
  - apply monotone_abort.
Qed.

Lemma monotone_session worker : monotone (worker_session worker).
Proof. unfold worker_session. repeat monotone_step. Qed.

(** ** The credential columns of one Worker *)

(** No other Worker has a token with this hash. *)
Definition exclusive (wid digest : string) (d : DB) : Prop :=
  ∀ k w, workers d !! k = Some w → w_token_hash w = digest → k = wid.

Record credentials_kept (wid : string) (K : View → Prop) (X : string → Prop) (d : DB) : Prop :=
  mkCredentialsKept {
  ck_inv : Inv d;
  ck_view : ∃ w, workers d !! wid = Some w ∧ K (view_of w);
  ck_exclusive : ∀ x, X x → exclusive wid x d }.

Section columns.
  Context (wid : string) (K : View → Prop) (X : string → Prop).
  Notation I := (credentials_kept wid K X).

Lemma kept_id d w : I d → workers d !! wid = Some w → w_id w = wid.
Proof using Type. intros [[HI _] _ _] Hw. by eapply HI. Qed.

Lemma kept_view d w : I d → workers d !! wid = Some w → K (view_of w).
Proof using Type. intros [_ (v & Hv & HK) _] Hw. by simplify_eq. Qed.

(** A commit that changes the credentials of the Worker only. *)
Lemma commits_credentials c d w w' v :
  I c → workers c !! wid = Some w → w_id w' = wid → w_current_job_id w' = w_current_job_id w →
  worker_conflict w' (c <| workers := <[w_id w' := w' <| w_row_version := v |> ]> (workers c) |>)
    = false →
  rotation_fields_together w' = true → K (view_of w') →
  workers d = <[w_id w' := w' <| w_row_version := v |> ]> (workers c) →
  jobs d = jobs c → attempts d = attempts c → leases d = leases c →
  job_logs d = job_logs c → metrics d = metrics c → rest_of d = rest_of c → commits I c d.
Proof using Type.
  intros [HI _ HX] Hw Hid Hcur Hconf Hrot HK Ew Ej Ea El Elg Em Er.
  split; [|by apply (evolves_ext c c)]. split.
  - eapply (Inv_credentials _ w w' v d HI); [by rewrite Hid|done..].
  - exists (w' <| w_row_version := v |>). rewrite Ew, Hid, lookup_insert_eq. split; [done|exact HK].
  - intros x Hx k u. rewrite Ew, Hid.
    intros [[<- _]|[_ Hu]]%lookup_insert_Some; [done|by apply (HX x Hx)].
Qed.

Lemma wp_authenticated {A} token (route : Worker → M A) (Q : result A → Session → Prop) c L t i s :
  St I c c false None L t i s → X (digest token) →
  (∀ w, workers c !! wid = Some w → w_id w = wid → w_token_hash w = digest token →
     w_is_active w = true → wp (route w) Q s) →
  Q (Raise (HTTPException 401 "invalid worker token")) s →
  wp (authenticated settings token route) Q s.
Proof.
  intros Hst HX HQ HR. unfold authenticated, require_worker. apply wp_bind.
  rewrite bool_decide_eq_true_2 by done. simpl. wp_steps; [|done].
  pose proof (st_inv _ _ _ _ _ _ _ _ _ Hst) as HI.
  match goal with H : worker_by_token_hash _ _ = Some ?w |- _ =>
    apply worker_by_token_hash_Some in H as (Hh & Ha & k & Hk);
    assert (k = wid) as -> by (by eapply (ck_exclusive _ _ _ _ HI _ HX)); apply HQ; try done;
    by eapply kept_id end.
Qed.

(** What [issue_worker_token] makes of a drawn secret. *)
Definition issued_token (n : nat) : string := "rvcw_" +:+ token_urlsafe n.

Lemma keeps_fresh_lock worker_id allow :
  keeps_field s_fresh (lock_worker_token_rotation_boundary worker_id allow).
Proof using Type.
  unfold lock_worker_token_rotation_boundary.
  apply keeps_field_bind; [apply keeps_fresh_lock_query|intros found].
  apply keeps_field_bind; [apply keeps_fresh_lock_row|intros [w|]; [|done] ].
  apply keeps_field_bind; [|done]. intros s. unfold reject_if. by destruct (_ && _).
Qed.

(** Ends the branches that follow the flush of a changed row: the commit of it, and what is
    known when the commit has succeeded. *)
Ltac credentials_committed w Hw HK :=
  match goal with
  | H : ?dm = None, Hdm : ?dm = None → _, Hst : St _ _ _ _ _ _ _ _ _ |- commits _ ?c _ =>
      destruct (Hdm H) as (_ & ? & ?);
      eapply (commits_credentials c _ w _ _ (st_inv _ _ _ _ _ _ _ _ _ Hst) Hw);
      [| |eassumption|eassumption|exact HK|reflexivity..]; simpl; congruence
  end.

Ltac saved_row Hid :=
  match goal with Hst : St _ _ _ _ _ _ _ _ ?s |- workers (s_committed ?s) !! _ = _ =>
    rewrite (st_committed _ _ _ _ _ _ _ _ _ Hst); simpl; rewrite Hid; apply lookup_insert_eq end.

Lemma wp_prepare rotation_id worker (Q : result WorkerTokenRotationPrepareResponse → Session → Prop)
    c L t i s :
  St I c c false None L t i s → w_id worker = wid →
  (∀ v, K v → v_hash v = w_token_hash worker →
     K (v <| v_pending := Some (digest (issued_token (s_fresh s))) |>)) →
  (∀ p w s', pr_worker_token p = issued_token (s_fresh s) → pr_worker_id p = wid →
     workers (s_committed s') !! wid = Some w → w_token_hash w = w_token_hash worker →
     w_pending_token_hash w = Some (digest (pr_worker_token p)) → safe I s' → Q (Ok p) s') →
  (∀ e s', safe I s' → Q (Raise e) s') →
  wp (prepare_token_rotation settings rotation_id worker) Q s.
Proof using Type.
  intros Hst Hwid HK HQ HR.
  unfold prepare_token_rotation, require_rotation_idle, issue_worker_token. apply wp_bind.
  apply (wp_keep_field s_fresh); [apply keeps_fresh_lock|].
  eapply (wp_lock_boundary I); [by intros d []|done| |intros e s1 _ Hs1 _; by apply HR].
  intros c' L' w found s1 Hw Hid _ _ Hst1 Hf1. rewrite Hwid in Hw, Hid.
  pose proof (St_safe _ _ _ _ _ _ _ _ _ Hst1) as Hs1.
  do 2 (apply wp_bind, wp_reject_if; [by intros _; apply HR|intros ?]). apply wp_bind.
  apply (wp_keep_field s_fresh); [done|]. wp_step. intros Hf2. wp_step.
  wp_step; [by eapply HR; eapply St_safe|]. wp_step. wp_step.
  eapply wp_fresh_exact; [exact Hst1|]. intros s2 Hst2. rewrite Hf2, Hf1. wp_step.
  change ("rvcw_" +:+ token_urlsafe (s_fresh s)) with (issued_token (s_fresh s)).
  pose proof (kept_view _ _ (st_inv _ _ _ _ _ _ _ _ _ Hst2) Hw) as HKw. bools.
  apply HK in HKw; [|done]. set (w0 := if is_some (w_pending_token_hash w) then _ else w).
  assert (w_id w0 = wid ∧ w_token_hash w0 = w_token_hash worker ∧
    w_current_job_id w0 = w_current_job_id w) as (Hid0 & Hh0 & Hj0).
  { unfold w0. by destruct (is_some _). }
  assert (∀ x, K ((view_of w) <| v_pending := x |>) → K ((view_of w0) <| v_pending := x |>)) as HK0.
  { intros x. unfold w0. by destruct (is_some _). }
  apply HK0 in HKw. clearbody w0.
  apply wp_bind. eapply wp_save_credentials; [exact Hst2|]. cbv zeta. intros v dm s3 Hdm Hst3.
  wp_simpl. unfold worker_audit.
  wp_steps; try by (apply HR; (eassumption || eapply St_safe; eassumption)).
  all: try credentials_committed w Hw HKw.
  all: (eapply HQ; [done|done|saved_row Hid0|done|done|by eapply St_safe]).
Qed.

Lemma wp_activate_kept rotation_id worker token (Q : result Z → Session → Prop) c L t i s :
  St I c c false None L t i s → w_id worker = wid →
  (∀ v, K v → v_hash v = w_token_hash worker → v_pending v = Some (digest token) →
     K (v <| v_hash := digest token |> <| v_pending := None |>)) →
  (∀ now w s', workers (s_committed s') !! wid = Some w → w_token_hash w = digest token →
     w_pending_token_hash w = None → safe I s' → Q (Ok now) s') →
  (∀ e s', safe I s' → Q (Raise e) s') →
  wp (activate_token_rotation settings rotation_id worker (Some token)) Q s.
Proof using Type.
  intros Hst Hwid HK HQ HR. unfold activate_token_rotation, require_rotation_idle.
  wp_step. wp_step; [apply HR; by eapply St_safe|]. wp_step.
  eapply (wp_lock_boundary I); [by intros d []|done| |intros e s1 _ Hs1; by apply HR].
  intros c' L' w found s1 Hw Hid _ _ Hst1. rewrite Hwid in Hw, Hid.
  wp_steps; try by (apply HR; eapply St_safe; eassumption).
  pose proof (kept_view _ _ (st_inv _ _ _ _ _ _ _ _ _ Hst1) Hw) as HKw. bools.
  apply HK in HKw; [|done..].
  eapply wp_save_credentials; [exact Hst1|]. cbv zeta. intros v dm s3 Hdm Hst3.
  wp_simpl. unfold worker_audit.
  wp_steps; try by (apply HR; (eassumption || eapply St_safe; eassumption)).
  - credentials_committed w Hw HKw.
  - eapply HQ; [saved_row Hid|done|done|by eapply St_safe].
Qed.

Lemma wp_abort_kept rotation_id worker (Q : result WorkerTokenRotationStatus → Session → Prop)
    c L t i s :
  St I c c false None L t i s → w_id worker = wid →
  (∀ v, K v → v_hash v = w_token_hash worker → K (v <| v_pending := None |>)) →
  (∀ r w s', workers (s_committed s') !! wid = Some w → w_token_hash w = w_token_hash worker →
     w_pending_token_hash w = None → safe I s' → Q (Ok r) s') →
  (∀ e s', safe I s' → Q (Raise e) s') →
  wp (abort_token_rotation rotation_id worker) Q s.
Proof using Type.
  intros Hst Hwid HK HQ HR. unfold abort_token_rotation. apply wp_bind.
  eapply (wp_lock_boundary I); [by intros d []|done| |intros e s1 _ Hs1; by apply HR].
  intros c' L' w found s1 Hw Hid _ _ Hst1. rewrite Hwid in Hw, Hid.
  wp_steps; try by (apply HR; eapply St_safe; eassumption).
  { bools. eapply HQ; [by erewrite st_committed|done| |by eapply St_safe].
    by destruct (w_pending_token_hash w). }
  pose proof (kept_view _ _ (st_inv _ _ _ _ _ _ _ _ _ Hst1) Hw) as HKw. bools.
  apply HK in HKw; [|done..].
  eapply wp_save_credentials; [exact Hst1|]. cbv zeta. intros v dm s3 Hdm Hst3.
  wp_simpl. unfold worker_audit.
  wp_steps; try by (apply HR; (eassumption || eapply St_safe; eassumption)).
  - credentials_committed w Hw HKw.
  - eapply HQ; [saved_row Hid|done|done|by eapply St_safe].
Qed.
End columns.
End routes.
