(* ===== verification/RotationSafety.v ===== *)
(** * A Worker keeps a token that works

    A token rotation, run by the Worker of [WorkerRotation.v] against the routes of
    [WorkerTokens.v]: whatever the network and the disk do, wherever the process ends, and
    however late a request arrives, a token in the credential file authenticates the Worker.

    [good] is the invariant of a situation.  The Worker's row has the hash of the token in the
    file, or of the pending token in the file; in the second case, and when the Worker has
    learnt which of the two holds ([vo_settled]), no request that still travels can change
    it. *)

From S2P Require Import Prelude Sha256 Json JobStatus JobConfig WorkerContract DateTime Settings.
From S2P Require Import Ledger Session Wp JobConfigLedger WorkerTokens WorkerRotation LeaseService.
From S2P Require Import Evolution LedgerInvariant Fixtures LeaseProperties WorkerTokensCorrect.
From S2P Require Import RotationRoutes.

#[local] Opaque hash_worker_token.

Section safety.
  Context `{ContractParser} `{Platform}.
  Variable settings : Settings.
  Variable url wid name : string.
  Variable bound : nat.
  Notation digest := (hash_worker_token settings).

  (** The platform does not repeat a secret, nor do their hashes collide. *)
  Hypothesis distinct_secrets : ∀ i j, (i < bound)%nat → (j < bound)%nat →
    digest (issued_token i) = digest (issued_token j) → i = j.

  #[local] Set Default Proof Using "distinct_secrets".
  Implicit Types (file : WorkerCredential) (flight : list (string * rotation_request)).

(** ** The invariant *)

Definition issued (n : nat) (token : string) : Prop := ∃ i, (i < n)%nat ∧ token = issued_token i.
Definition issued_hash (n : nat) (x : string) : Prop := ∃ token, issued n token ∧ x = digest token.

(** No travelling request activates the pending token [x]. *)
Definition quiet flight (x : option string) : Prop :=
  ∀ token id P, (token, ActivateRotation id P) ∈ flight → x ≠ Some (digest P).

(** The tokens with which requests are sent. *)
Definition bearers file flight : list string := wc_worker_token file :: map fst flight.

(** The row of the Worker; the secrets of its token are below [n], of its pending one below
    [p]. *)
Record view_ok file flight (n p : nat) (settled : option string) (v : View) : Prop := mkViewOk {
  vo_active : v_active v = true;
  vo_name : v_name v = name;
  vo_hash : issued_hash n (v_hash v);
  vo_pending : ∀ x, v_pending v = Some x → issued_hash p x;
  vo_apart : v_pending v ≠ Some (v_hash v);
  vo_known : v_hash v = digest (wc_worker_token file) ∨
    ∃ P, wc_pending_worker_token file = Some P ∧ v_hash v = digest P ∧ quiet flight (v_pending v);
  vo_flight : ∀ token id P, (token, ActivateRotation id P) ∈ flight →
    v_pending v = Some (digest P) → wc_pending_worker_token file = Some P;
  vo_settled : ∀ x, settled = Some x → v_hash v = x ∧ quiet flight (v_pending v) }.

Record file_ok file flight (n : nat) : Prop := mkFileOk {
  fo_id : wc_worker_id file = wid;
  fo_name : wc_worker_name file = name;
  fo_token : issued n (wc_worker_token file);
  fo_pending : ∀ P, wc_pending_worker_token file = Some P →
    issued n P ∧ digest P ≠ digest (wc_worker_token file);
  fo_loads : load url name file = Some file;
  fo_bearers : ∀ token r, (token, r) ∈ flight → issued n token;
  fo_flight : ∀ token id P, (token, ActivateRotation id P) ∈ flight → issued n P }.

Definition sent_hash file flight (x : string) : Prop :=
  ∃ token, token ∈ bearers file flight ∧ x = digest token.

Record good (settled : option string) (e : Situation) : Prop := mkGood {
  go_file : file_ok (es_file e) (es_flight e) (es_drawn e);
  go_kept : credentials_kept wid
    (view_ok (es_file e) (es_flight e) (es_drawn e) (es_drawn e) settled)
    (sent_hash (es_file e) (es_flight e)) (es_db e) }.

(** As long as the secrets do not run out. *)
Definition fine (settled : option string) (e : Situation) : Prop :=
  (es_drawn e <= bound)%nat → good settled e.

(** ** Monotonicity *)

Lemma issued_mono n m token : (n <= m)%nat → issued n token → issued m token.
Proof using Type. intros Hnm (i & Hi & ->). exists i. split; [lia|done]. Qed.

Lemma issued_hash_mono n m x : (n <= m)%nat → issued_hash n x → issued_hash m x.
Proof using Type. intros Hnm (token & Ht & ->). exists token. split; [by eapply issued_mono|done]. Qed.

Lemma view_ok_mono file flight n p n' p' settled v :
  (n <= n')%nat → (p <= p')%nat → view_ok file flight n p settled v →
  view_ok file flight n' p' settled v.
Proof using Type.
  intros Hn Hp []. split; try done; [by eapply issued_hash_mono|].
  intros x Hx. eapply issued_hash_mono; [exact Hp|auto].
Qed.

Lemma file_ok_mono file flight n n' : (n <= n')%nat → file_ok file flight n → file_ok file flight n'.
Proof using Type.
  intros Hn [Hi Hm Ht Hp Hg Hb Hf]. split; try done; [by eapply issued_mono| | |].
  - intros P HP. destruct (Hp _ HP). split; [by eapply issued_mono|done].
  - intros token r Hin. eapply issued_mono; [exact Hn|by eapply Hb].
  - intros token id P Hin. eapply issued_mono; [exact Hn|by eapply Hf].
Qed.

Lemma kept_mono (K K' : View → Prop) (X X' : string → Prop) d :
  (∀ v, K v → K' v) → (∀ x, X' x → X x) → credentials_kept wid K X d →
  credentials_kept wid K' X' d.
Proof using Type.
  intros HK HX [HI (w & Hw & HKw) He]. split; [done| |auto]. exists w. auto.
Qed.

(** A new secret is none of those that are around. *)
Lemma fresh_hash n token : (n < bound)%nat → issued n token → digest (issued_token n) ≠ digest token.
Proof. intros Hn (i & Hi & ->) Heq. apply distinct_secrets in Heq; lia. Qed.

(** ** What the routes do to the row *)

Lemma view_prepared file flight n p settled v :
  file_ok file flight n → (n < p)%nat → (n < bound)%nat → view_ok file flight n p settled v →
  view_ok file flight n p settled (v <| v_pending := Some (digest (issued_token n)) |>).
Proof.
  intros HF Hp Hn [Ha Hm Hh Hx Hap Hk Hf Hs].
  assert (quiet flight (Some (digest (issued_token n)))) as Hq.
  { intros token id P Hin Heq%(inj Some). revert Heq.
    apply fresh_hash; [exact Hn|by eapply fo_flight]. }
  split; simpl; try assumption.
  - intros x <-%(inj Some). exists (issued_token n). split; [by exists n|reflexivity].
  - destruct Hh as (token & Ht & ->). intros Heq%(inj Some). revert Heq. by apply fresh_hash.
  - destruct Hk as [|(P & HP & HvP & _)]; [by left|]. right. by exists P.
  - intros token id P Hin Heq. by destruct (Hq _ _ _ Hin).
  - intros x Hx0. by destruct (Hs _ Hx0).
Qed.

Lemma view_aborted file flight n p settled v :
  view_ok file flight n p settled v → view_ok file flight n p settled (v <| v_pending := None |>).
Proof using Type.
  intros [Ha Hm Hh Hx Hap Hk Hf Hs]. split; try done; simpl.
  - destruct Hk as [|(P & HP & HvP & _)]; [by left|]. right. by exists P.
  - intros x Hx0. by destruct (Hs _ Hx0).
Qed.

(** Only the pending token of the file can be activated, and only when it is not settled
    which token holds. *)
Lemma view_activated file flight n p settled v P :
  file_ok file flight n → (∃ token id, (token, ActivateRotation id P) ∈ flight) ∨
    settled = None ∧ wc_pending_worker_token file = Some P →
  view_ok file flight n p settled v → v_pending v = Some (digest P) →
  view_ok file flight n p settled (v <| v_hash := digest P |> <| v_pending := None |>).
Proof using Type.
  intros HF Hcase [Ha Hm Hh Hx Hap Hk Hf Hs] Hv.
  assert (wc_pending_worker_token file = Some P ∧ settled = None) as [HP ->].
  { destruct Hcase as [(token & id & Hin)|[-> ?]]; [|done]. split; [by eapply Hf|].
    destruct settled as [x|]; [|done]. destruct (Hs _ eq_refl) as [_ Hq]. by destruct (Hq _ _ _ Hin). }
  split; try done; simpl.
  - exists P. split; [by apply (fo_pending _ _ _ HF)|done].
  - right. by exists P.
Qed.

(** ** The Manager handles a request *)

(** A transaction of others: it may not touch the credentials of the Worker, nor give a
    secret that has been drawn to another Worker. *)
Definition leaves_alone (n : nat) (f : DB → DB) : Prop := ∀ d, Inv d →
  Inv (f d) ∧ evolves d (f d) ∧
  view_of <$> workers (f d) !! wid = view_of <$> workers d !! wid ∧
  ∀ i, (i < n)%nat → exclusive wid (digest (issued_token i)) d →
    exclusive wid (digest (issued_token i)) (f d).

Definition opening_ok (opens : opening) : Prop := ∀ d n,
  s_committed (opens d n) = d ∧ s_working (opens d n) = d ∧ s_dirty (opens d n) = false ∧
  s_doomed (opens d n) = None ∧ s_log (opens d n) = [] ∧ s_fresh (opens d n) = n ∧
  Forall (λ f, respects_locks f ∧ ∀ locks, leaves_alone n (f locks)) (s_env (opens d n)).

Lemma leaves_alone_kept n f K X d :
  leaves_alone n f → (∀ x, X x → issued_hash n x) → credentials_kept wid K X d →
  commits (credentials_kept wid K X) d (f d).
Proof using Type.
  intros Hf HX [HI (w & Hw & HK) He]. destruct (Hf d HI) as (HI' & Hev & Hv & Hx). split; [|done].
  split; [done| |].
  - rewrite Hw in Hv. simpl in Hv. destruct (workers (f d) !! wid) as [w'|] eqn:Hw'; [|done].
    exists w'. apply (inj Some) in Hv. split; [done|]. by rewrite Hv.
  - intros x Hin. destruct (HX _ Hin) as (token & (i & Hi & ->) & ->). apply Hx; [done|].
    by apply He.
Qed.

Lemma opening_St opens d n K X :
  opening_ok opens → (∀ x, X x → issued_hash n x) → credentials_kept wid K X d →
  let s := opens d n in
  St (credentials_kept wid K X) d d false None (s_locks s) (s_clock s) (s_info s) s ∧ s_fresh s = n.
Proof using Type.
  intros Ho HX HI. destruct (Ho d n) as (Hc & Hw & Hd & Hdm & Hl & Hf & He). split; [|done].
  constructor; try done. split; [|by rewrite Hl].
  eapply Forall_impl; [exact He|]. intros f [Hr Hx]. split; [done|]. intros L d' HI'.
  by eapply leaves_alone_kept.
Qed.

Lemma sent_issued e settled x :
  good settled e → sent_hash (es_file e) (es_flight e) x → issued_hash (es_drawn e) x.
Proof using Type.
  intros [HF _] (token & Hin & ->). exists token. split; [|done].
  apply elem_of_cons in Hin as [->|Hin]; [apply HF|].
  apply list_elem_of_fmap in Hin as ([tk r] & -> & Hin). by eapply fo_bearers.
Qed.

(** A request that is handled: [m] is run from a good situation on the invariant [I] of its
    credentials, for as many secrets as it takes. *)
Lemma serve_good {A} settled opens (m : M A) e (Q : result A → Session → Prop) :
  opening_ok opens → monotone m → good settled e → (es_drawn (serve opens m e).2 <= bound)%nat →
  let e' := (serve opens m e).2 in
  let I := credentials_kept wid
    (view_ok (es_file e) (es_flight e) (es_drawn e) (es_drawn e') settled)
    (sent_hash (es_file e) (es_flight e)) in
  (∀ c L t i s, St I c c false None L t i s → s_fresh s = es_drawn e →
     (es_drawn e < es_drawn e')%nat → (es_drawn e < bound)%nat →
     wp m (λ r s', safe I s' ∧ Q r s') s) →
  good settled e' ∧ ∃ s', es_db e' = s_committed s' ∧ Q (serve opens m e).1 s'.
Proof using Type.
  intros Ho Hm HG. unfold serve.
  assert (s_fresh (opens (es_db e) (es_drawn e)) = es_drawn e) as Hn.
  { by destruct (Ho (es_db e) (es_drawn e)) as (_ & _ & _ & _ & _ & -> & _). }
  pose proof (Hm (opens (es_db e) (es_drawn e))) as Hmono. rewrite Hn in Hmono.
  destruct (m (opens (es_db e) (es_drawn e))) as [r s] eqn:Hrun. simpl in *.
  intros Hb Hwp. pose proof HG as [HF HK].
  assert (credentials_kept wid (view_ok (es_file e) (es_flight e) (es_drawn e) (S (s_fresh s)) settled)
    (sent_hash (es_file e) (es_flight e)) (es_db e)) as HK'.
  { eapply kept_mono; [|done|exact HK]. intros v. apply view_ok_mono; lia. }
  destruct (opening_St opens _ (es_drawn e) _ _ Ho (λ x, sent_issued _ _ x HG) HK') as [Hst _].
  specialize (Hwp _ _ _ _ _ Hst Hn). unfold wp in Hwp. rewrite Hrun in Hwp. simpl in Hwp.
  destruct Hwp as [[HI _] HQ]; [lia..|]. split; [|by exists s].
  split; simpl; [eapply file_ok_mono; [|exact HF]; lia|].
  eapply kept_mono; [|done|exact HI]. intros v. apply view_ok_mono; lia.
Qed.

(** ** Single requests *)

Lemma good_settle settled e w x :
  good settled e → workers (es_db e) !! wid = Some w → w_token_hash w = x →
  quiet (es_flight e) (w_pending_token_hash w) → good (Some x) e.
Proof using Type.
  intros [HF [HI (v & Hv & HK) He]] Hw Hx Hq. split; [done|]. split; [done| |done].
  exists v. split; [done|]. rewrite Hw in Hv. apply (inj Some) in Hv as <-.
  destruct HK as [Ha Hm Hh Hp Hap Hk Hf _]. split; try done. by intros ? <-%(inj Some).
Qed.

Lemma good_unsettle settled e : good settled e → good None e.
Proof using Type.
  intros [HF HK]. split; [done|]. eapply kept_mono; [|done|exact HK]. intros v []. by split.
Qed.

Lemma good_row settled e : good settled e → ∃ w, workers (es_db e) !! wid = Some w ∧
  view_ok (es_file e) (es_flight e) (es_drawn e) (es_drawn e) settled (view_of w).
Proof using Type. by intros [_ [_ Hv _] ]. Qed.

Lemma quiet_none flight : quiet flight None.
Proof using Type. by intros ? ? ? _. Qed.

(** The three requests, sent with a token that no other Worker has. *)
Lemma serve_prepare settled opens token id e :
  opening_ok opens → good settled e → token ∈ bearers (es_file e) (es_flight e) →
  let m := authenticated settings token (prepare_token_rotation settings id) in
  (es_drawn (serve opens m e).2 <= bound)%nat →
  good settled (serve opens m e).2 ∧
  ∀ p, (serve opens m e).1 = Ok p → pr_worker_token p = issued_token (es_drawn e).
Proof.
  intros Ho HG Htok m Hb. edestruct (serve_good settled opens m e
    (λ r s', ∀ p, r = Ok p → pr_worker_token p = issued_token (es_drawn e))) as [HG' (s' & _ & HQ)];
    [exact Ho| |exact HG|exact Hb| |by split].
  { apply monotone_authenticated, monotone_prepare. }
  intros c L t i s Hst Hn Hlt Hlb. eapply wp_authenticated; [exact Hst|by exists token| |].
  - intros w Hw Hid Hh _. eapply wp_prepare; [exact Hst|exact Hid| | |].
    + intros v Hv _. rewrite Hn. apply view_prepared; [apply HG|done..].
    + intros p w' s' Hp _ _ _ _ Hs. split; [done|]. intros p' [= <-]. by rewrite Hp, Hn.
    + intros e' s' Hs. split; [done|]. by intros p [=].
  - split; [by eapply St_safe|]. by intros p [=].
Qed.

Lemma serve_activate settled opens token id P e :
  opening_ok opens → good settled e → token ∈ bearers (es_file e) (es_flight e) →
  (∃ token id, (token, ActivateRotation id P) ∈ es_flight e) ∨
    settled = None ∧ wc_pending_worker_token (es_file e) = Some P →
  let m := authenticated settings token
             (λ worker, activate_token_rotation settings id worker (Some P)) in
  (es_drawn (serve opens m e).2 <= bound)%nat →
  good settled (serve opens m e).2 ∧
  ∀ now, (serve opens m e).1 = Ok now → good (Some (digest P)) (serve opens m e).2.
Proof using Type.
  intros Ho HG Htok Hcase m Hb. edestruct (serve_good settled opens m e
    (λ r s', ∀ now, r = Ok now → ∃ w, workers (s_committed s') !! wid = Some w ∧
       w_token_hash w = digest P ∧ w_pending_token_hash w = None)) as [HG' (s' & Hdb & HQ)];
    [exact Ho| |exact HG|exact Hb| |].
  { apply monotone_authenticated. intros w. apply monotone_activate. }
  { intros c L t i s Hst Hn Hlt Hlb. eapply wp_authenticated; [exact Hst|by exists token| |].
    - intros w Hw Hid Hh _. eapply wp_activate_kept; [exact Hst|exact Hid| | |].
      + intros v Hv _ Hp. eapply view_activated; [apply HG|exact Hcase|exact Hv|exact Hp].
      + intros now w' s' Hw' Hh' Hp' Hs. split; [done|]. intros _ _. by exists w'.
      + intros e' s' Hs. split; [done|]. by intros now [=].
    - split; [by eapply St_safe|]. by intros now [=]. }
  split; [done|]. intros now Hr. destruct (HQ _ Hr) as (w & Hw & Hh & Hp). rewrite <-Hdb in Hw.
  eapply good_settle; [exact HG'|exact Hw|exact Hh|]. rewrite Hp. apply quiet_none.
Qed.

Lemma serve_abort settled opens token id e :
  opening_ok opens → good settled e → token ∈ bearers (es_file e) (es_flight e) →
  let m := authenticated settings token (abort_token_rotation id) in
  (es_drawn (serve opens m e).2 <= bound)%nat →
  good settled (serve opens m e).2 ∧
  ∀ r, (serve opens m e).1 = Ok r → good (Some (digest token)) (serve opens m e).2.
Proof using Type.
  intros Ho HG Htok m Hb. edestruct (serve_good settled opens m e
    (λ r s', ∀ a, r = Ok a → ∃ w, workers (s_committed s') !! wid = Some w ∧
       w_token_hash w = digest token ∧ w_pending_token_hash w = None)) as [HG' (s' & Hdb & HQ)];
    [exact Ho| |exact HG|exact Hb| |].
  { apply monotone_authenticated. intros w. apply monotone_abort. }
  { intros c L t i s Hst Hn Hlt Hlb. eapply wp_authenticated; [exact Hst|by exists token| |].
    - intros w Hw Hid Hh _. eapply wp_abort_kept; [exact Hst|exact Hid| | |].
      + intros v Hv _. by apply view_aborted.
      + intros r w' s' Hw' Hh' Hp' Hs. split; [done|]. intros _ _. exists w'. by rewrite Hh', Hh.
      + intros e' s' Hs. split; [done|]. by intros a [=].
    - split; [by eapply St_safe|]. by intros a [=]. }
  split; [done|]. intros r Hr. destruct (HQ _ Hr) as (w & Hw & Hh & Hp). rewrite <-Hdb in Hw.
  eapply good_settle; [exact HG'|exact Hw|exact Hh|]. rewrite Hp. apply quiet_none.
Qed.

(** ** The passing of time *)

Definition happening_ok (x : happening) : Prop :=
  match x with
  | Others _ f => ∀ n, leaves_alone n (f n)
  | Arrival _ opens => opening_ok opens
  end.
Definition exchange_ok (x : exchange) : Prop :=
  Forall happening_ok (ex_before x) ∧ opening_ok (ex_opens x).

Lemma serve_drawn {A} opens (m : M A) e :
  opening_ok opens → monotone m → (es_drawn e < es_drawn (serve opens m e).2)%nat.
Proof using Type.
  intros Ho Hm. unfold serve. specialize (Hm (opens (es_db e) (es_drawn e))).
  destruct (Ho (es_db e) (es_drawn e)) as (_ & _ & _ & _ & _ & Hn & _). rewrite Hn in Hm.
  destruct (m _) as [r s]. simpl in *. lia.
Qed.

Lemma serve_same {A} opens (m : M A) e :
  es_file (serve opens m e).2 = es_file e ∧ es_flight (serve opens m e).2 = es_flight e.
Proof using Type. unfold serve. by destruct (m _). Qed.

Lemma serve_ignore {A} opens (m : M A) e :
  (serve opens (_ ← m; mret ()) e).2 = (serve opens m e).2.
Proof using Type. unfold serve, mbind, M_bind. by destruct (m _) as [ [] s]. Qed.

Lemma serve_perform settled opens token r e :
  opening_ok opens → good settled e → (token, r) ∈ es_flight e →
  (es_drawn (serve opens (perform settings token r) e).2 <= bound)%nat →
  good settled (serve opens (perform settings token r) e).2.
Proof.
  intros Ho HG Hin. assert (token ∈ bearers (es_file e) (es_flight e)) as Htok.
  { right. apply list_elem_of_fmap. by exists (token, r). }
  destruct r as [id|id P|id]; cbn [perform]; rewrite serve_ignore; intros Hb.
  - by apply serve_prepare.
  - apply serve_activate; try done. left. by exists token, id.
  - by apply serve_abort.
Qed.

Lemma good_flight settled e flight :
  (∀ x, x ∈ flight → x ∈ es_flight e) → good settled e → good settled (e <| es_flight := flight |>).
Proof using Type.
  intros Hsub [HF HK]. destruct HF as [Hi Hm Ht Hp Hg Hb Hf]. split; simpl.
  - split; try done.
    + intros token r Hin. by eapply Hb, Hsub.
    + intros token id P Hin. by eapply Hf, Hsub.
  - eapply kept_mono; [| |exact HK].
    + intros v [Ha Hm' Hh Hx Hap Hk Hfl Hs].
      assert (∀ x, quiet (es_flight e) x → quiet flight x) as Hq.
      { intros x Hx' token id P Hin. by eapply Hx', Hsub. }
      split; try done.
      * destruct Hk as [|(P & HP & HvP & Hq')]; [by left|]. right. exists P. by auto.
      * intros token id P Hin. by eapply Hfl, Hsub.
      * intros x Hx'. destruct (Hs _ Hx'). by auto.
    + intros x (token & Hin & ->). exists token. split; [|done].
      apply elem_of_cons in Hin as [->|Hin]; [left|right].
      apply list_elem_of_fmap in Hin as (y & -> & Hin). apply list_elem_of_fmap. exists y. auto.
Qed.

Lemma good_others settled e draws f :
  leaves_alone (es_drawn e) f → good settled e →
  good settled (e <| es_db := f (es_db e) |> <| es_drawn := (es_drawn e + draws)%nat |>).
Proof using Type.
  intros Hf HG. pose proof HG as [HF HK]. split; simpl; [eapply file_ok_mono; [|exact HF]; lia|].
  eapply kept_mono; [| |apply (leaves_alone_kept _ _ _ _ _ Hf (λ x, sent_issued _ _ x HG) HK)].
  - intros v. apply view_ok_mono; lia.
  - done.
Qed.

Lemma happen_fine settled e x :
  happening_ok x → fine settled e →
  fine settled (happen settings e x) ∧ es_file (happen settings e x) = es_file e.
Proof.
  intros Hx HG. destruct x as [draws f|i opens]; simpl in *.
  - split; [|done]. intros Hb. simpl in Hb. apply good_others; [apply Hx|apply HG; lia].
  - destruct (es_flight e !! i) as [ [token r]|] eqn:Hi; [|done]. split.
    + intros Hb. simpl in Hb. apply good_flight.
      { intros y Hy%list_elem_of_delete_inv. by rewrite (proj2 (serve_same _ _ _)). }
      pose proof (serve_drawn opens (perform settings token r) e Hx (monotone_perform _ _ _)).
      apply serve_perform; [done|apply HG; lia|by eapply list_elem_of_lookup_2|done].
    + simpl. apply serve_same.
Qed.

(** ** The Worker *)

Definition cwp {A} (m : C A) (Q : client_error + A → World → Prop) (w : World) : Prop :=
  Q (m w).1 (m w).2.

Lemma cwp_mono {A} (m : C A) (Q R : client_error + A → World → Prop) w :
  cwp m Q w → (∀ r w', Q r w' → R r w') → cwp m R w.
Proof using Type. unfold cwp. auto. Qed.

Lemma cwp_bind {A B} (m : C A) (k : A → C B) (Q : client_error + B → World → Prop) w :
  cwp m (λ r w', match r with inr a => cwp (k a) Q w' | inl e => Q (inl e) w' end) w →
  cwp (m ≫= k) Q w.
Proof using Type. unfold cwp, mbind, C_bind. by destruct (m w) as [ [e|a] w']. Qed.

Lemma cwp_except_manager {A} (m : C A) h (Q : client_error + A → World → Prop) w :
  cwp m (λ r w', match r with
                 | inl (ManagerClientError code) => cwp (h code) Q w' | _ => Q r w' end) w →
  cwp (except_manager m h) Q w.
Proof using Type. unfold cwp, except_manager. by destruct (m w) as [ [ [code|text]|a] w']. Qed.

Lemma cwp_except_credential {A} (m : C A) h (Q : client_error + A → World → Prop) w :
  cwp m (λ r w', match r with
                 | inl (CredentialError text) => cwp (h text) Q w' | _ => Q r w' end) w →
  cwp (except_credential m h) Q w.
Proof using Type. unfold cwp, except_credential. by destruct (m w) as [ [ [code|text]|a] w']. Qed.

Lemma cwp_credential_error_if b text (Q : client_error + () → World → Prop) w :
  (b = true → Q (inl (CredentialError text)) w) → (b = false → Q (inr ()) w) →
  cwp (credential_error_if b text) Q w.
Proof using Type. intros HT HF. destruct b; [by apply HT|by apply HF]. Qed.

(** Every situation the Worker has been in is fine. *)
Definition safe_past (w : World) : Prop := Forall (fine None) (wd_seen w).

Record running (settled : option string) (token : string) file (w : World) : Prop := mkRunning {
  rn_token : wd_token w = token;
  rn_file : es_file (wd_situation w) = file;
  rn_fine : fine settled (wd_situation w);
  rn_past : safe_past w;
  rn_network : Forall exchange_ok (wd_exchanges w) }.

Lemma fine_unsettle settled e : fine settled e → fine None e.
Proof using Type. intros Hf Hb. by eapply good_unsettle, Hf. Qed.

Lemma running_unsettle settled token file w : running settled token file w → running None token file w.
Proof using Type. intros []. split; try done. by eapply fine_unsettle. Qed.

Lemma running_move settled settled' token file e w :
  running settled token file w → fine settled' e → running settled' token (es_file e) (move e w).
Proof using Type.
  intros [] Hf. split; try done. constructor; [by eapply fine_unsettle|done].
Qed.

Lemma running_elapse settled token file xs w :
  Forall happening_ok xs → running settled token file w →
  running settled token file (elapse settings xs w).
Proof.
  unfold elapse. revert w. induction xs as [|x xs IH]; intros w Hxs Hw; [done|]. simpl.
  apply Forall_cons in Hxs as [Hx Hxs]. apply IH; [done|].
  destruct (happen_fine settled (wd_situation w) x Hx (rn_fine _ _ _ _ Hw)) as [Hf He].
  rewrite <-(rn_file _ _ _ _ Hw), <-He. by eapply running_move.
Qed.

(** What precedes the fate of a call. *)
Lemma running_next settled token file w :
  running settled token file w →
  (wd_exchanges w = [] ∨ ∃ x, head (wd_exchanges w) = Some x ∧ opening_ok (ex_opens x)) ∧
  running settled token file (elapse settings
    (ex_before (hd (mkExchange [] Lost (λ d _, new_session d 0)) (wd_exchanges w)))
    (w <| wd_exchanges := tl (wd_exchanges w) |>)).
Proof.
  intros Hw. pose proof Hw as [Ht He Hf Hp Hn]. destruct (wd_exchanges w) as [|x xs] eqn:Hxs; simpl.
  - split; [by left|]. split; simpl; try done. 
  - apply Forall_cons in Hn as [ [Hb Ho] Hn]. split; [right; by exists x|].
    apply running_elapse; [done|]. by split.
Qed.

(** Reads change nothing; their answer is about the Worker with the token. *)
Lemma serve_read {A} opens token (route : Worker → M A) e :
  opening_ok opens → (∀ w s, (route w s).2 = s) →
  (serve opens (authenticated settings token route) e).2 = e <| es_drawn := S (es_drawn e) |> ∧
  ∀ a, (serve opens (authenticated settings token route) e).1 = Ok a →
    ∃ k row s, workers (es_db e) !! k = Some row ∧ w_token_hash row = digest token ∧
               (route row s).1 = Ok a.
Proof using Type.
  intros Ho Hr. destruct (Ho (es_db e) (es_drawn e)) as (Hc & Hw & _ & _ & _ & Hn & _).
  unfold serve, authenticated, require_worker. rewrite bool_decide_eq_true_2 by done. simpl.
  unfold mbind, M_bind, ask. rewrite Hw.
  destruct (worker_by_token_hash _ _) as [row|] eqn:Hf; simpl.
  - specialize (Hr row (opens (es_db e) (es_drawn e))).
    destruct (route row _) as [r s] eqn:Hrun. simpl in Hr. subst s. simpl. rewrite Hc, Hn.
    split; [by destruct e|]. intros a ->. apply worker_by_token_hash_Some in Hf as (Hh & _ & k & Hk).
    exists k, row, (opens (es_db e) (es_drawn e)). by rewrite Hrun.
  - rewrite Hc, Hn. split; [by destruct e|done].
Qed.

Lemma fine_drawn settled e n :
  (es_drawn e <= n)%nat → fine settled e → fine settled (e <| es_drawn := n |>).
Proof using Type.
  intros Hn Hf Hb. simpl in Hb. destruct Hf as [HF HK]; [lia|].
  split; simpl; [by eapply file_ok_mono|].
  eapply kept_mono; [|done|exact HK]. intros v. by apply view_ok_mono.
Qed.

Lemma running_drawn settled token file n w :
  (es_drawn (wd_situation w) <= n)%nat → running settled token file w →
  running settled token file (move ((wd_situation w) <| es_drawn := n |>) w).
Proof using Type.
  intros Hn Hw. rewrite <-(rn_file _ _ _ _ Hw).
  change (es_file (wd_situation w)) with (es_file ((wd_situation w) <| es_drawn := n |>)).
  eapply running_move; [exact Hw|]. apply fine_drawn; [done|apply Hw].
Qed.

Lemma running_idle settled token file w :
  running settled token file w →
  running settled token file (move ((wd_situation w) <| es_flight := es_flight (wd_situation w) ++ [] |>) w).
Proof using Type.
  intros Hw. rewrite app_nil_r, <-(rn_file _ _ _ _ Hw).
  replace ((wd_situation w) <| es_flight := _ |>) with (wd_situation w) by by destruct (wd_situation w).
  eapply running_move; [exact Hw|apply Hw].
Qed.

(** The exchange of a call, after what preceded it. *)
Lemma cwp_call {A} settled token file r (route : Worker → M A) valid
    (Q : client_error + A → World → Prop) w :
  running settled token file w →
  (∀ w', running settled token file w' → Q (inl (ManagerClientError None)) w') →
  (∀ w', running settled token file w' → Q (inl (ManagerClientError None))
     (move ((wd_situation w') <| es_flight := es_flight (wd_situation w') ++
        match r with Some r => [(token, r)] | None => [] end |>) w')) →
  (∀ w' opens, running settled token file w' → opening_ok opens →
     let served := serve opens (authenticated settings token route) (wd_situation w') in
     (∀ code, Q (inl (ManagerClientError code)) (move served.2 w')) ∧
     (∀ a, served.1 = Ok a → Q (inr a) (move served.2 w'))) →
  cwp (call settings r route valid) Q w.
Proof.
  intros Hw HL HF HQ. apply running_next in Hw as [Hx Hw]. unfold cwp, call.
  set (x := hd _ _) in *. set (w1 := elapse _ _ _) in *.
  assert (ex_fate x = Lost ∨ opening_ok (ex_opens x)) as Ho.
  { subst x. destruct Hx as [->|(y & Hy & Ho)]; [by left|]. right.
    by destruct (wd_exchanges w); simplify_eq/=. }
  clearbody x w1. rewrite (rn_token _ _ _ _ Hw). 
  destruct (ex_fate x) eqn:Hfate; [by apply HL|by apply HF| |];
    (destruct Ho as [?|Ho]; [done|]); destruct (HQ w1 (ex_opens x) Hw Ho) as [HE HA]; simpl;
    [by apply HE|].
  destruct (serve _ _ _).1 as [a|[] ]; try by apply HE.
  destruct (valid a); [by apply HA|by apply HE].
Qed.

Lemma cwp_read {A} settled token file (route : Worker → M A) valid
    (Q : client_error + A → World → Prop) w :
  (∀ w s, (route w s).2 = s) → running settled token file w →
  (∀ a w' k row s, running settled token file w' → workers (es_db (wd_situation w')) !! k = Some row →
     w_token_hash row = digest token → (route row s).1 = Ok a → Q (inr a) w') →
  (∀ code w', running settled token file w' → Q (inl (ManagerClientError code)) w') →
  cwp (call settings None route valid) Q w.
Proof.
  intros Hr Hw HQ HR. eapply cwp_call; [exact Hw|auto| |].
  - intros w' Hw'. apply HR. by apply running_idle.
  - intros w' opens Hw' Ho.
    destruct (serve_read opens token route (wd_situation w') Ho Hr) as [He Ha]. cbv zeta. rewrite He.
    assert (running settled token file (move ((wd_situation w') <| es_drawn := S (es_drawn (wd_situation w')) |>) w'))
      as Hdone by (apply running_drawn; [lia|done]).
    split; [by intros code; apply HR|]. intros a Hok.
    destruct (Ha a Hok) as (k & row & s & Hk & Hh & Hrow). by eapply HQ.
Qed.

(** ** Requests of the Worker *)

(** What the Worker may send: its own token, and its own pending token to be activated while
    it is open which of them holds. *)
Definition sendable (settled : option string) file (r : rotation_request) : Prop :=
  match r with
  | ActivateRotation _ P => settled = None ∧ wc_pending_worker_token file = Some P
  | _ => True
  end.

Lemma good_sent settled e r :
  sendable settled (es_file e) r → good settled e →
  good settled (e <| es_flight := es_flight e ++ [(wc_worker_token (es_file e), r)] |>).
Proof using Type.
  intros Hr [HF HK]. split; simpl.
  - pose proof HF as [Hi Hm Ht Hp Hg Hb Hf]. split; try done.
    + intros token r' [Hin|[= -> ->]%list_elem_of_singleton]%elem_of_app; [by eapply Hb|done].
    + intros token id P [Hin|[= -> Hr']%list_elem_of_singleton]%elem_of_app; [by eapply Hf|].
      subst r. by apply Hp, Hr.
  - eapply kept_mono; [| |exact HK].
    + intros v [Ha Hm Hh Hx Hap Hk Hfl Hs]. split; try done.
      * destruct Hk as [|(P & HP & HvP & Hq)]; [by left|]. right. exists P. split_and!; [done..|].
        intros token id P' [Hin|[= -> Hr']%list_elem_of_singleton]%elem_of_app; [by eapply Hq|].
        subst r. destruct Hr as [_ HP']. assert (P' = P) as -> by congruence. by rewrite <-HvP.
      * intros token id P [Hin|[= -> Hr']%list_elem_of_singleton]%elem_of_app; [by eapply Hfl|].
        subst r. intros _. apply Hr.
      * intros x Hx'. destruct (Hs _ Hx') as [Hvx Hq]. split; [done|].
        intros token id P [Hin|[= -> Hr']%list_elem_of_singleton]%elem_of_app; [by eapply Hq|].
        subst r. destruct Hr as [-> _]. done.
    + intros x (token & Hin & ->). exists token. split; [|done].
      unfold bearers in *. rewrite fmap_app in Hin. simpl in Hin.
      apply elem_of_cons in Hin as [->|[Hin|Hin%list_elem_of_singleton]%elem_of_app].
      * by left.
      * by right.
      * subst. by left.
Qed.

(** What a request that is handled leaves, answered or not. *)
Lemma running_served {A} settled settled' token file opens (m : M A) w :
  opening_ok opens → monotone m → running settled token file w →
  let served := serve opens m (wd_situation w) in
  (good settled (wd_situation w) → (es_drawn served.2 <= bound)%nat → good settled' served.2) →
  running settled' token file (move served.2 w).
Proof using Type.
  intros Ho Hm Hw served Hg. pose proof (serve_drawn opens m (wd_situation w) Ho Hm) as Hlt.
  destruct (serve_same opens m (wd_situation w)) as [He _].
  rewrite <-(rn_file _ _ _ _ Hw), <-He. eapply running_move; [exact Hw|].
  intros Hb. apply Hg; [|done]. apply Hw. subst served. lia.
Qed.

Lemma cwp_request {A} r (route : Worker → M A) valid (P : nat → A → Prop) settled' file
    (Q : client_error + A → World → Prop) w :
  (∀ worker, monotone (route worker)) →
  (∀ opens e, opening_ok opens → good None e → es_file e = file →
     let served := serve opens (authenticated settings (wc_worker_token file) route) e in
     (es_drawn served.2 <= bound)%nat → good None served.2 ∧
     ∀ a, served.1 = Ok a → good settled' served.2 ∧ P (es_drawn e) a) →
  sendable None file r → running None (wc_worker_token file) file w →
  (∀ a w', running settled' (wc_worker_token file) file w' →
     ((es_drawn (wd_situation w') <= bound)%nat → ∃ n e, (n < es_drawn (wd_situation w'))%nat ∧
        good None e ∧ es_file e = file ∧ es_drawn e = n ∧ P n a) → Q (inr a) w') →
  (∀ code w', running None (wc_worker_token file) file w' → Q (inl (ManagerClientError code)) w') →
  cwp (call settings (Some r) route valid) Q w.
Proof.
  intros Hm Hserve Hr Hw HQ HR. eapply cwp_call; [exact Hw|auto| |].
  - intros w' Hw'. apply HR. rewrite <-(rn_file _ _ _ _ Hw') at 2.
    change (es_file (wd_situation w')) with (es_file ((wd_situation w') <| es_flight :=
      es_flight (wd_situation w') ++ [(wc_worker_token file, r)] |>)).
    eapply running_move; [exact Hw'|]. intros Hb. pose proof (rn_fine _ _ _ _ Hw' Hb) as HG.
    rewrite <-(rn_file _ _ _ _ Hw'). apply good_sent; [|done]. by rewrite (rn_file _ _ _ _ Hw').
  - intros w' opens Hw' Ho served.
    assert (monotone (authenticated settings (wc_worker_token file) route)) as Hm'
      by by apply monotone_authenticated.
    pose proof (serve_drawn opens _ (wd_situation w') Ho Hm') as Hlt.
    pose proof (λ HG, Hserve opens (wd_situation w') Ho HG (rn_file _ _ _ _ Hw')) as Hs.
    cbv zeta in Hs. fold served in Hs, Hlt. split.
    + intros code. apply HR. apply running_served with (settled := None); [done..|].
      intros HG Hb. by apply Hs.
    + intros a Ha. apply HQ.
      * apply running_served with (settled := None); [done..|]. intros HG Hb.
        by eapply (proj2 (Hs HG Hb)).
      * simpl. intros Hb. assert (good None (wd_situation w')) as HG by (apply Hw'; lia).
        exists (es_drawn (wd_situation w')), (wd_situation w'). split_and!; try done.
        -- apply (rn_file _ _ _ _ Hw').
        -- by eapply (proj2 (Hs HG Hb)).
Qed.

Lemma own_token e : wc_worker_token (es_file e) ∈ bearers (es_file e) (es_flight e).
Proof using Type. by left. Qed.

(** A token that the Manager has just issued to the Worker. *)
Definition new_token file (n : nat) (P : string) : Prop :=
  issued n P ∧ digest P ≠ digest (wc_worker_token file).

Lemma cwp_prepare id file (Q : client_error + WorkerTokenRotationPrepareResponse → World → Prop) w :
  running None (wc_worker_token file) file w →
  (∀ p w', running None (wc_worker_token file) file w' →
     ((es_drawn (wd_situation w') <= bound)%nat →
      new_token file (es_drawn (wd_situation w')) (pr_worker_token p)) → Q (inr p) w') →
  (∀ code w', running None (wc_worker_token file) file w' → Q (inl (ManagerClientError code)) w') →
  cwp (client_prepare settings id) Q w.
Proof.
  intros Hw HQ HR. eapply (cwp_request _ _ _ (λ n p, pr_worker_token p = issued_token n) None);
    [intros ?; apply monotone_prepare| |done|exact Hw| |exact HR].
  - intros opens e Ho HG He served Hb.
    edestruct (serve_prepare None opens (wc_worker_token file) id e) as [HG' Hp];
      [done..|rewrite <-He; apply own_token|exact Hb|]. split; [done|]. intros p Ha. by split; [|apply Hp].
  - intros p w' Hw' Hp. apply HQ; [done|]. intros Hb.
    destruct (Hp Hb) as (n & e & Hn & HG & He & Hen & ->). subst n. split; [by eexists|].
    apply fresh_hash; [lia|]. rewrite <-He. apply HG.
Qed.

Lemma cwp_activate id file P (Q : client_error + Z → World → Prop) w :
  wc_pending_worker_token file = Some P → running None (wc_worker_token file) file w →
  (∀ now w', running (Some (digest P)) (wc_worker_token file) file w' → Q (inr now) w') →
  (∀ code w', running None (wc_worker_token file) file w' → Q (inl (ManagerClientError code)) w') →
  cwp (client_activate settings id P) Q w.
Proof.
  intros HP Hw HQ HR. eapply (cwp_request _ _ _ (λ _ _, True) (Some (digest P)) file);
    [intros ?; apply monotone_activate| |done|exact Hw| |exact HR].
  - intros opens e Ho HG He served Hb.
    edestruct (serve_activate None opens (wc_worker_token file) id P e) as [HG' Hp];
      [done..|rewrite <-He; apply own_token|right; by rewrite He|exact Hb|].
    split; [done|]. intros now Ha. split; [by eapply Hp|done].
  - intros now w' Hw' _. by eapply HQ.
Qed.

Lemma cwp_abort id file (Q : client_error + WorkerTokenRotationStatus → World → Prop) w :
  running None (wc_worker_token file) file w →
  (∀ r w', running (Some (digest (wc_worker_token file))) (wc_worker_token file) file w' →
     Q (inr r) w') →
  (∀ code w', running None (wc_worker_token file) file w' → Q (inl (ManagerClientError code)) w') →
  cwp (client_abort settings id) Q w.
Proof.
  intros Hw HQ HR.
  eapply (cwp_request _ _ _ (λ _ _, True) (Some (digest (wc_worker_token file))) file);
    [intros ?; apply monotone_abort| |done|exact Hw| |exact HR].
  - intros opens e Ho HG He served Hb.
    edestruct (serve_abort None opens (wc_worker_token file) id e) as [HG' Hp];
      [done..|rewrite <-He; apply own_token|exact Hb|].
    split; [done|]. intros r Ha. split; [by eapply Hp|done].
  - intros r w' Hw' _. by eapply HQ.
Qed.

(** What an answer about the row with the token's hash settles. *)
Lemma running_settle token file k row w :
  running None token file w → workers (es_db (wd_situation w)) !! k = Some row →
  w_token_hash row = digest token → w_id row = wc_worker_id file →
  (token = wc_worker_token file ∧ w_pending_token_hash row = None ∨
   wc_pending_worker_token file = Some token) →
  running (Some (digest token)) token file w.
Proof using Type.
  intros Hw Hrow Hh Hid Hcase. pose proof Hw as [Ht He Hf Hp Hn]. split; try done.
  intros Hb. pose proof (Hf Hb) as HG.
  assert (k = wid) as ->.
  { destruct HG as [HF [ [HI _] _ _] ]. rewrite He in HF.
    by rewrite <-(fo_id _ _ _ HF), <-Hid, (worker_ids _ _ _ _ HI _ _ Hrow). }
  eapply good_settle; [exact HG|exact Hrow|done|].
  destruct Hcase as [ [_ ->]|HP]; [apply quiet_none|].
  destruct (good_row _ _ HG) as (v & Hv & HK). rewrite Hrow in Hv. apply (inj Some) in Hv as <-.
  destruct HG as [HF _]. rewrite He in *. destruct (fo_pending _ _ _ HF _ HP) as [_ Hne].
  destruct (vo_known _ _ _ _ _ _ HK) as [Heq|(P & _ & _ & Hq)]; [|exact Hq].
  destruct Hne. by rewrite <-Hh.
Qed.

Lemma cwp_session token file (Q : client_error + WorkerSessionResponse → World → Prop) w :
  running None token file w →
  (∀ session w', running None token file w' →
     (wc_pending_worker_token file = Some token → ws_worker_id session = wc_worker_id file →
      running (Some (digest token)) token file w') → Q (inr session) w') →
  (∀ code w', running None token file w' → Q (inl (ManagerClientError code)) w') →
  cwp (get_session settings) Q w.
Proof.
  intros Hw HQ HR. eapply cwp_read; [|exact Hw| |exact HR].
  { intros row s. unfold worker_session. by destruct (WorkerStatus_of _). }
  intros session w' k row s Hw' Hrow Hh. unfold worker_session.
  destruct (WorkerStatus_of _) as [status|]; [|done]. intros [= <-]. apply HQ; [done|].
  intros HP Hid. eapply running_settle; [done..|by right].
Qed.

Lemma cwp_status file (Q : client_error + WorkerTokenRotationStatus → World → Prop) w :
  running None (wc_worker_token file) file w →
  (∀ status w', running None (wc_worker_token file) file w' →
     (trs_worker_id status = wc_worker_id file → trs_pending status = false →
      running (Some (digest (wc_worker_token file))) (wc_worker_token file) file w') →
     Q (inr status) w') →
  (∀ code w', running None (wc_worker_token file) file w' → Q (inl (ManagerClientError code)) w') →
  cwp (get_token_rotation_status settings) Q w.
Proof.
  intros Hw HQ HR. eapply cwp_read; [done|exact Hw| |exact HR].
  intros status w' k row s Hw' Hrow Hh [= <-]. apply HQ; [done|]. simpl. intros Hid Hp.
  eapply running_settle; [done..|]. left. split; [done|]. by destruct (w_pending_token_hash row).
Qed.

Lemma cwp_set settled token token' file (Q : client_error + () → World → Prop) w :
  running settled token file w → (∀ w', running settled token' file w' → Q (inr ()) w') →
  cwp (set_worker_token token') Q w.
Proof using Type. intros [] HQ. apply HQ. by split. Qed.

Lemma cwp_now settled token file (Q : client_error + Z → World → Prop) w :
  running settled token file w → (∀ now w', running settled token file w' → Q (inr now) w') →
  cwp client_now Q w.
Proof using Type. intros [] HQ. apply HQ. by split. Qed.

Lemma cwp_uuid4 settled token file (Q : client_error + string → World → Prop) w :
  running settled token file w → (∀ id w', running settled token file w' → Q (inr id) w') →
  cwp client_uuid4 Q w.
Proof using Type. intros [] HQ. apply HQ. by split. Qed.

(** ** The file *)

(** Saving [file'] over [file]. *)
Lemma cwp_save settled settled' token file file' (Q : client_error + () → World → Prop) w :
  running settled token file w →
  (pending_rotation_valid file' = true → (es_drawn (wd_situation w) <= bound)%nat →
   good settled (wd_situation w) → good settled' ((wd_situation w) <| es_file := file' |>)) →
  (∀ w', pending_rotation_valid file' = true → running settled' token file' w' → Q (inr ()) w') →
  (∀ text w', running None token file w' ∨ running None token file' w' →
     Q (inl (CredentialError text)) w') →
  cwp (save file') Q w.
Proof using Type.
  intros Hw Hg HQ HR. unfold cwp, save. destruct (pending_rotation_valid file') eqn:Hv; simpl.
  2: { apply HR. left. by eapply running_unsettle. }
  assert (running settled' token file' (move ((wd_situation w) <| es_file := file' |>)
    (w <| wd_saves := tl (wd_saves w) |>))) as Hsaved.
  { change file' with (es_file ((wd_situation w) <| es_file := file' |>)) at 1.
    apply running_move with settled file; [destruct Hw; by split|]. intros Hb. apply Hg; [done..|].
    by apply Hw. }
  destruct (hd Saved (wd_saves w)); simpl.
  - by apply HQ.
  - apply HR. left. apply running_unsettle with settled. destruct Hw; by split.
  - apply HR. right. by eapply running_unsettle.
Qed.

Lemma load_changed file file' :
  load url name file = Some file → pending_rotation_valid file' = true →
  wc_manager_url file' = wc_manager_url file → wc_worker_id file' = wc_worker_id file →
  wc_worker_name file' = wc_worker_name file → load url name file' = Some file'.
Proof using Type.
  unfold load. intros Hl Hv Hu Hi Hn. rewrite Hu, Hi, Hn, Hv.
  assert (wc_worker_token file' ≠ "") as Ht.
  { intros Ht. unfold pending_rotation_valid in Hv. by rewrite Ht in Hv. }
  rewrite (bool_decide_eq_false_2 _ Ht). revert Hl.
  destruct (negb ⌊ wc_worker_id file = "" ⌋), (⌊ wc_manager_url file = url ⌋),
    (⌊ wc_worker_name file = name ⌋); simpl; rewrite ?andb_false_r; done.
Qed.

(** A file that is replaced while [v_hash v] is known. *)
Lemma view_replaced file file' flight n settled v :
  view_ok file flight n n settled v →
  v_hash v = digest (wc_worker_token file') →
  (∀ token id P, (token, ActivateRotation id P) ∈ flight → v_pending v = Some (digest P) →
     wc_pending_worker_token file' = Some P) →
  view_ok file' flight n n settled v.
Proof using Type.
  intros [Ha Hm Hh Hx Hap Hk Hf Hs] Hk' Hf'. split; try done. by left.
Qed.

Lemma good_clear e :
  let file := es_file e in let file' := clear_pending file in
  pending_rotation_valid file' = true → good (Some (digest (wc_worker_token file))) e →
  good (Some (digest (wc_worker_token file))) (e <| es_file := file' |>).
Proof using Type.
  intros file file' Hv [HF HK]. split; simpl.
  - destruct HF as [Hi Hm Ht Hp Hg Hb Hf]. split; try done. by eapply load_changed.
  - eapply kept_mono; [|done|exact HK]. intros v Hview.
    destruct (vo_settled _ _ _ _ _ _ Hview _ eq_refl) as [Hh Hq].
    apply view_replaced with file; [done|done|].
    intros token id P Hin HP. by destruct (Hq _ _ _ Hin).
Qed.

Lemma good_stage id P t e :
  let file := es_file e in let file' := stage_rotation id P t file in
  pending_rotation_valid file' = true → wc_pending_worker_token file = None →
  new_token file (es_drawn e) P → good None e → good None (e <| es_file := file' |>).
Proof using Type.
  intros file file' Hv Hnone [HPi HPd] [HF HK]. split; simpl.
  - destruct HF as [Hi Hm Ht Hp Hg Hb Hf]. split; try done.
    + by intros P' [= <-].
    + by eapply load_changed.
  - eapply kept_mono; [|done|exact HK]. intros v Hview.
    apply view_replaced with file; [done| |].
    + destruct (vo_known _ _ _ _ _ _ Hview) as [|(P' & HP' & _)]; [done|].
      unfold file in Hnone. by rewrite HP' in Hnone.
    + intros token id' P' Hin HP'. pose proof (vo_flight _ _ _ _ _ _ Hview _ _ _ Hin HP') as Hsome.
      unfold file in Hnone. by rewrite Hsome in Hnone.
Qed.

Lemma good_activated P file' e :
  wc_pending_worker_token (es_file e) = Some P → activate_pending (es_file e) = Some file' →
  pending_rotation_valid file' = true → good (Some (digest P)) e →
  good (Some (digest P)) (e <| es_file := file' |>).
Proof using Type.
  intros HP Hact Hv [HF HK]. unfold activate_pending in Hact. rewrite HP in Hact.
  apply (inj Some) in Hact as <-. split; simpl.
  - destruct HF as [Hi Hm Ht Hp Hg Hb Hf]. split; try done; [by apply Hp|by eapply load_changed].
  - destruct HK as [HI (w & Hw & Hview) Hx].
    destruct (vo_settled _ _ _ _ _ _ Hview _ eq_refl) as [Hh Hq]. split; [done| |].
    + exists w. split; [done|]. eapply view_replaced; [exact Hview|done|].
      intros token id P' Hin HP'. by destruct (Hq _ _ _ Hin).
    + intros x (token & Hin & ->). apply elem_of_cons in Hin as [->|Hin]; simpl.
      * intros k u Hu Huh. destruct HI as (_ & _ & [Huniq _]). apply (Huniq _ _ _ _ Hu Hw). by rewrite Huh.
      * apply Hx. exists token. split; [by right|done].
Qed.

(** ** The programs *)

Definition alive (w : World) : Prop := ∃ token file, running None token file w.

(** The file holds [c], which has no pending token, and its token is in use. *)
Definition rested (c : WorkerCredential) (w : World) : Prop :=
  pending_rotation_valid c = true ∧ wc_pending_worker_token c = None ∧
  running None (wc_worker_token c) c w.

Definition rests (r : client_error + WorkerCredential) (w : World) : Prop :=
  match r with inr c => rested c w | inl _ => alive w end.

Lemma running_alive settled token file w : running settled token file w → alive w.
Proof using Type. intros Hw. exists token, file. by eapply running_unsettle. Qed.

Lemma saving_alive token file file' w :
  running None token file w ∨ running None token file' w → alive w.
Proof using Type. intros [Hw|Hw]; by eapply running_alive. Qed.

Lemma cwp_ret {A} (a : A) (Q : client_error + A → World → Prop) w : Q (inr a) w → cwp (mret a) Q w.
Proof using Type. done. Qed.

Lemma cwp_fail {A} e (Q : client_error + A → World → Prop) w : Q (inl e) w → cwp (fail e) Q w.
Proof using Type. done. Qed.

Lemma cwp_validate_session session c (Q : client_error + () → World → Prop) w :
  (ws_worker_id session = wc_worker_id c → Q (inr ()) w) →
  (∀ text, Q (inl (CredentialError text)) w) → cwp (validate_session_owner session c) Q w.
Proof using Type.
  intros HQ HR. apply cwp_credential_error_if; [intros _; apply HR|]. intros Hb. apply HQ. by bools.
Qed.

Lemma cwp_validate_status status c (Q : client_error + () → World → Prop) w :
  (trs_worker_id status = wc_worker_id c → Q (inr ()) w) →
  (∀ text, Q (inl (CredentialError text)) w) → cwp (validate_status_owner status c) Q w.
Proof using Type.
  intros HQ HR. apply cwp_credential_error_if; [intros _; apply HR|]. intros Hb. apply HQ. by bools.
Qed.

Lemma cwp_persist_activated P token c w :
  wc_pending_worker_token c = Some P → running (Some (digest P)) token c w →
  cwp (persist_activated c) rests w.
Proof using Type.
  intros HP Hw. unfold persist_activated. destruct (activate_pending c) as [c'|] eqn:Hact.
  2: { apply cwp_fail. by eapply running_alive. }
  assert (wc_pending_worker_token c' = None) as Hnone.
  { unfold activate_pending in Hact. rewrite HP in Hact. by apply (inj Some) in Hact as <-. }
  apply cwp_bind. eapply cwp_save; [exact Hw| | |].
  - intros Hv _ HG. pose proof (rn_file _ _ _ _ Hw) as He. rewrite <-He in HP, Hact.
    eapply good_activated; done.
  - intros w1 Hv Hw1. apply cwp_bind. eapply cwp_set; [exact Hw1|]. intros w2 Hw2. apply cwp_ret.
    split_and!; [done..|]. by eapply running_unsettle.
  - intros text w1. apply saving_alive.
Qed.

Lemma cwp_give_back b text c w :
  running (Some (digest (wc_worker_token c))) (wc_worker_token c) c w →
  cwp (give_back c b text) rests w.
Proof using Type.
  intros Hw. unfold give_back. apply cwp_bind. eapply cwp_save; [exact Hw| | |].
  - intros Hv _ HG. pose proof (rn_file _ _ _ _ Hw) as He. revert Hv HG. rewrite <-He. apply good_clear.
  - intros w1 Hv Hw1. apply cwp_bind, cwp_credential_error_if; intros _.
    + by eapply running_alive.
    + apply cwp_ret. split_and!; [done..|]. by eapply running_unsettle.
  - intros text' w1. apply saving_alive.
Qed.

Lemma cwp_session_for_token token t c (Q : client_error + option WorkerSessionResponse → World → Prop) w :
  running None t c w →
  (∀ found w', running None token c w' →
     (∀ session, found = Some session → wc_pending_worker_token c = Some token →
        ws_worker_id session = wc_worker_id c → running (Some (digest token)) token c w') →
     Q (inr found) w') →
  (∀ e w', running None token c w' → Q (inl e) w') →
  cwp (session_for_token settings token) Q w.
Proof.
  intros Hw HQ HR. unfold session_for_token. apply cwp_bind. eapply cwp_set; [exact Hw|].
  intros w1 Hw1. apply cwp_except_manager, cwp_bind. eapply cwp_session; [exact Hw1| |].
  - intros session w2 Hw2 Hs. apply cwp_ret, HQ; [done|]. by intros ? [= <-].
  - intros code w2 Hw2. case_decide; [by apply cwp_ret, HQ|by apply cwp_fail, HR].
Qed.

Lemma cwp_recover id P b t c w :
  wc_pending_worker_token c = Some P → running None t c w →
  cwp (recover_activation settings c id P b) (λ r w', match r with
    | inr (Some c') => rested c' w'
    | inr None => running (Some (digest P)) (wc_worker_token c) c w'
    | inl _ => alive w'
    end) w.
Proof.
  intros HP Hw. unfold recover_activation. apply cwp_bind.
  eapply cwp_session_for_token; [exact Hw| |intros e w1; apply running_alive].
  intros [session|] w1 Hw1 Hs.
  - apply cwp_bind, cwp_validate_session; [|intros text; by eapply running_alive].
    intros Hid. apply cwp_bind. eapply cwp_mono; [eapply cwp_persist_activated; [exact HP|]; eauto|].
    intros [e|c'] w2 Hr; [done|]. by apply cwp_ret.
  - apply cwp_bind. eapply cwp_set; [exact Hw1|]. intros w2 Hw2. apply cwp_bind.
    eapply cwp_status; [exact Hw2| |intros code w3; apply running_alive].
    intros status w3 Hw3 Hst.
    apply cwp_bind, cwp_validate_status; [|intros text; by eapply running_alive]. intros Hid.
    assert (∀ text w', running (Some (digest (wc_worker_token c))) (wc_worker_token c) c w' →
      cwp (cleared ← give_back c b text; mret (Some cleared)) (λ r w', match r with
        | inr (Some c') => rested c' w'
        | inr None => running (Some (digest P)) (wc_worker_token c) c w'
        | inl _ => alive w'
        end) w') as Hgive.
    { intros text w' Hw'. apply cwp_bind. eapply cwp_mono; [by apply cwp_give_back|].
      intros [e|c'] w4 Hr; [done|]. by apply cwp_ret. }
    destruct (trs_pending status) eqn:Hp; simpl; [|by apply Hgive, Hst].
    apply cwp_bind, cwp_credential_error_if; intros _; [by eapply running_alive|].
    apply cwp_bind. eapply cwp_now; [exact Hw3|]. intros now w4 Hw4.
    destruct (match trs_expires_at status with Some _ => _ | None => _ end); apply cwp_bind.
    + eapply cwp_abort; [exact Hw4| |intros code w5; apply running_alive].
      intros r w5 Hw5. by apply Hgive.
    + eapply cwp_activate; [exact HP|exact Hw4| |intros code w5; apply running_alive].
      intros now' w5 Hw5. by apply cwp_ret.
Qed.

Lemma cwp_complete b t c w :
  running None t c w → cwp (complete_pending_rotation settings c b) rests w.
Proof.
  intros Hw. unfold complete_pending_rotation.
  destruct (wc_pending_rotation_id c) as [id|]; [|apply cwp_fail; by eapply running_alive].
  destruct (wc_pending_worker_token c) as [P|] eqn:HP; [|apply cwp_fail; by eapply running_alive].
  destruct (wc_pending_rotation_expires_at c); [|apply cwp_fail; by eapply running_alive].
  apply cwp_bind. eapply cwp_set; [exact Hw|]. intros w1 Hw1. apply cwp_bind.
  assert (∀ w', running (Some (digest P)) (wc_worker_token c) c w' →
    cwp (_ ← set_worker_token P; session ← get_session settings;
         _ ← validate_session_owner session c; persist_activated c) rests w') as Hlast.
  { intros w2 Hw2. apply cwp_bind. eapply cwp_set; [exact Hw2|]. intros w3 Hw3. apply cwp_bind.
    eapply cwp_session; [by eapply running_unsettle| |intros code w4; apply running_alive].
    intros session w4 Hw4 Hs.
    apply cwp_bind, cwp_validate_session; [|intros text; by eapply running_alive].
    intros Hid. by eapply cwp_persist_activated; [exact HP|apply Hs]. }
  apply cwp_except_manager, cwp_bind. eapply cwp_activate; [exact HP|exact Hw1| |].
  - intros now w2 Hw2. by apply cwp_ret, Hlast.
  - intros code w2 Hw2. eapply cwp_mono; [by eapply cwp_recover|].
    intros [e|[c'|] ] w3 Hr; [done| |by apply Hlast]. by apply cwp_ret.
Qed.

Lemma cwp_reconcile t c w :
  pending_rotation_valid c = true → running None t c w →
  cwp (reconcile_worker_token_rotation settings c) rests w.
Proof.
  intros Hv Hw. unfold reconcile_worker_token_rotation. apply cwp_bind. eapply cwp_set; [exact Hw|].
  intros w1 Hw1. destruct (wc_pending_rotation_id c) as [id|] eqn:Hid; simpl.
  { by eapply cwp_complete. }
  assert (wc_pending_worker_token c = None) as Hnone.
  { unfold pending_rotation_valid in Hv. rewrite Hid, andb_true_iff in Hv.
    by destruct Hv as [_ Hv], (wc_pending_worker_token c). }
  apply cwp_bind. eapply cwp_status; [exact Hw1| |intros code w2; apply running_alive].
  intros status w2 Hw2 _.
  apply cwp_bind, cwp_validate_status; [|intros text; by eapply running_alive]. intros _.
  apply cwp_bind. destruct (trs_pending status); [|by apply cwp_ret].
  destruct (trs_rotation_id status) as [id|]; [|apply cwp_fail; by eapply running_alive].
  apply cwp_bind. eapply cwp_abort; [exact Hw2| |intros code w3; apply running_alive].
  intros r w3 Hw3. apply cwp_ret, cwp_ret. split_and!; [done..|]. by eapply running_unsettle.
Qed.

Lemma cwp_try_abort id c w :
  running None (wc_worker_token c) c w →
  cwp (try_abort settings id) (λ r w', r = inr () ∧ running None (wc_worker_token c) c w') w.
Proof.
  intros Hw. unfold try_abort. apply cwp_except_manager, cwp_bind. eapply cwp_abort; [exact Hw| |].
  - intros r w1 Hw1. apply cwp_ret. split; [done|]. by eapply running_unsettle.
  - intros code w1 Hw1. by apply cwp_ret.
Qed.

Lemma cwp_request_rotation id c w :
  pending_rotation_valid c = true → running None (wc_worker_token c) c w →
  cwp (request_rotation settings c id) (λ r w', match r with
    | inr p => running None (wc_worker_token c) c w' ∧ ((es_drawn (wd_situation w') <= bound)%nat →
        new_token c (es_drawn (wd_situation w')) (pr_worker_token p))
    | inl _ => alive w'
    end) w.
Proof.
  intros Hv Hw. unfold request_rotation. apply cwp_bind, cwp_except_manager.
  eapply cwp_prepare; [exact Hw| |].
  - intros p w1 Hw1 Hnew. destruct (_ || _); [|by apply cwp_ret].
    apply cwp_bind. eapply cwp_mono; [by apply cwp_try_abort|]. intros r w2 [-> Hw2].
    apply cwp_fail. by eapply running_alive.
  - intros code w1 Hw1. apply cwp_bind. eapply cwp_mono; [by eapply cwp_reconcile|].
    intros [e|c'] w2 Hr; [done|]. apply cwp_fail. destruct Hr as (_ & _ & Hw2).
    by eapply running_alive.
Qed.

Lemma cwp_rotate t c w :
  pending_rotation_valid c = true → running None t c w →
  cwp (rotate_worker_token settings c) rests w.
Proof.
  intros Hv Hw. unfold rotate_worker_token. apply cwp_bind.
  eapply cwp_mono; [by eapply cwp_reconcile|]. intros [e|c1] w1 Hr; [done|].
  destruct Hr as (Hv1 & Hnone & Hw1). apply cwp_bind. eapply cwp_set; [exact Hw1|]. intros w2 Hw2.
  apply cwp_bind. eapply cwp_session; [exact Hw2| |intros code w3; apply running_alive].
  intros session w3 Hw3 _.
  apply cwp_bind, cwp_validate_session; [|intros text; by eapply running_alive]. intros _.
  apply cwp_bind, cwp_credential_error_if; intros _; [by eapply running_alive|].
  apply cwp_bind. eapply cwp_uuid4; [exact Hw3|]. intros id w4 Hw4. apply cwp_bind.
  eapply cwp_mono; [by apply cwp_request_rotation|]. intros [e|p] w5 Hp; [done|].
  destruct Hp as [Hw5 Hnew]. cbv zeta. set (staged := stage_rotation _ _ _ _).
  apply cwp_bind, cwp_except_credential. eapply cwp_save; [exact Hw5| | |].
  - intros Hvs Hb HG. pose proof (rn_file _ _ _ _ Hw5) as He. specialize (Hnew Hb). subst staged.
    rewrite <-He in Hnew, Hvs, Hnone |- *. by apply good_stage.
  - intros w6 _ Hw6. by eapply cwp_complete.
  - intros text w6 Hw6. apply cwp_bind.
    assert (∃ c2, running None (wc_worker_token c2) c2 w6) as [c2 Hw6']
      by (destruct Hw6; [by exists c1|by exists staged]).
    eapply cwp_mono; [by apply cwp_try_abort|]. intros r w7 [-> Hw7]. apply cwp_fail.
    by eapply running_alive.
Qed.

(** ** The life of a Worker *)

(** After registration. *)
Record registered (e : Situation) : Prop := mkRegistered {
  rg_inv : Inv (es_db e);
  rg_flight : es_flight e = [];
  rg_loads : load url name (es_file e) = Some (es_file e);
  rg_id : wc_worker_id (es_file e) = wid;
  rg_none : wc_pending_worker_token (es_file e) = None;
  rg_token : issued (es_drawn e) (wc_worker_token (es_file e));
  rg_row : view_of <$> workers (es_db e) !! wid =
    Some (mkView name true (digest (wc_worker_token (es_file e))) None) }.

(** What the agent does when it starts, and what the command that rotates does. *)
Definition programs : list (WorkerCredential → C WorkerCredential) :=
  [reconcile_worker_token_rotation settings; rotate_worker_token settings].

(** Others act, or a program is started on the file and stops in any of the situations it
    passes through. *)
Inductive lives (e : Situation) : Situation → Prop :=
  | lives_refl : lives e e
  | lives_happens e' x : lives e e' → happening_ok x → lives e (happen settings e' x)
  | lives_runs w c program e' :
      lives e (wd_situation w) → wd_seen w = [] → Forall exchange_ok (wd_exchanges w) →
      load url name (es_file (wd_situation w)) = Some c → program ∈ programs →
      e' ∈ wd_seen (program c w).2 → lives e e'.

(** The Manager accepts the token as the Worker's. *)
Definition authenticates (e : Situation) (token : string) : Prop :=
  ∃ row, w_id row = wid ∧ ∀ s, s_working s = es_db e →
    require_worker settings (Some ("bearer", token)) s = (Ok row, s).

Lemma load_Some u n file c :
  load u n file = Some c → c = file ∧ pending_rotation_valid file = true.
Proof using Type.
  unfold load. destruct (pending_rotation_valid file) eqn:Hv.
  - rewrite andb_true_r. by destruct (_ && _); intros; simplify_eq.
  - by rewrite andb_false_r.
Qed.

Lemma registered_good e : registered e → good None e.
Proof using Type.
  intros [HI Hfl Hl Hi Hn Ht Hrow].
  destruct (workers (es_db e) !! wid) as [w|] eqn:Hw; [|done]. apply (inj Some) in Hrow.
  assert (w_token_hash w = digest (wc_worker_token (es_file e))) as Hh
    by exact (f_equal v_hash Hrow).
  rewrite <-Hh in Hrow. split.
  - rewrite Hfl. split; try done.
    + unfold load in Hl. destruct (⌊ wc_worker_name (es_file e) = name ⌋) eqn:Hb; [by bools|].
      by rewrite andb_false_r in Hl.
    + by rewrite Hn.
    + by intros ? ? ?%elem_of_nil.
    + by intros ? ? ? ?%elem_of_nil.
  - rewrite Hfl. split; [done| |].
    + exists w. split; [done|]. rewrite Hrow. split; simpl; try done.
      * exists (wc_worker_token (es_file e)). by split.
      * by left.
    + intros x (token & Hin & ->) k u Hu Huh. unfold bearers in Hin. simpl in Hin.
      apply list_elem_of_singleton in Hin as ->.
      destruct HI as (_ & _ & [Huniq _]). apply (Huniq _ _ _ _ Hu Hw). by rewrite Huh.
Qed.

Lemma alive_past w e : alive w → e ∈ wd_seen w → fine None e.
Proof using Type.
  intros (token & file & Hw) Hin. pose proof (rn_past _ _ _ _ Hw) as Hp. unfold safe_past in Hp.
  rewrite Forall_forall in Hp. by apply Hp.
Qed.

Lemma rests_alive r w : rests r w → alive w.
Proof using Type. destruct r; [done|]. intros (_ & _ & Hw). by eapply running_alive. Qed.

Lemma program_rests program c w :
  program ∈ programs → fine None (wd_situation w) → wd_seen w = [] →
  Forall exchange_ok (wd_exchanges w) → load url name (es_file (wd_situation w)) = Some c →
  rests (program c w).1 (program c w).2.
Proof.
  intros Hp Hf Hseen Hn [-> Hv]%load_Some.
  assert (running None (wd_token w) (es_file (wd_situation w)) w) as Hw.
  { split; try done. unfold safe_past. by rewrite Hseen. }
  unfold programs in Hp. apply elem_of_cons in Hp as [->|Hp%list_elem_of_singleton].
  - by eapply (cwp_reconcile (wd_token w)).
  - subst program. by eapply (cwp_rotate (wd_token w)).
Qed.

Lemma lives_fine e e' : registered e → lives e e' → fine None e'.
Proof.
  intros He. induction 1 as [|e' x Hl IH Hx|w c program e' Hl IH Hs Hn Hld Hp Hin].
  - intros _. by apply registered_good.
  - by apply happen_fine.
  - eapply alive_past; [|exact Hin]. eapply rests_alive. by apply program_rests.
Qed.

Lemma view_authenticates e row token :
  Inv (es_db e) → workers (es_db e) !! wid = Some row → w_is_active row = true →
  w_token_hash row = digest token → authenticates e token.
Proof using Type.
  intros HI Hrow Ha Hh. exists row. split.
  { destruct HI as [HI _]. by eapply (worker_ids _ _ _ _ HI). }
  intros s Hs. unfold require_worker. rewrite bool_decide_eq_true_2 by done. simpl.
  unfold mbind, M_bind, ask. rewrite Hs.
  rewrite (worker_by_token_hash_unique (digest token) (es_db e) wid row); try done. apply HI.
Qed.
End safety.
