(* ===== verification/RotationProperties.v ===== *)
(** * The life of a rotating Worker

    The two promises of a token rotation that [RotationSafety.v] proves the invariant of, and
    a life in which the Worker gives up an activation that arrives later. *)

From S2P Require Import Prelude Sha256 Json JobStatus JobConfig WorkerContract DateTime Settings.
From S2P Require Import Ledger Session Wp JobConfigLedger WorkerTokens WorkerRotation LeaseService.
From S2P Require Import Evolution LedgerInvariant LeaseRecovery LeaseClaim Fixtures WorkerTokensCorrect.
From S2P Require Import RotationRoutes RotationSafety.

#[local] Opaque hash_worker_token.

Section properties.
  Context `{Platform}.
  Variable settings : Settings.
  Variable url wid name : string.
  Variable bound : nat.
  Notation digest := (hash_worker_token settings).

  Hypothesis distinct_secrets : ∀ i j, (i < bound)%nat → (j < bound)%nat →
    digest (issued_token i) = digest (issued_token j) → i = j.

(** C14: Wherever a registered Worker stops in the middle of a token rotation or its recovery,
    whatever requests, answers and saves are lost and however late requests arrive, as long as
    nobody else changes the Worker's credentials (a re-enrolment and an administrator's
    revocation do), its credential file can be loaded and holds a token that the Manager
    accepts as the Worker's: the current one or the pending one. *)
Theorem worker_keeps_a_working_token e e' :
  registered settings url wid name e → lives settings url wid name e e' →
  (es_drawn e' <= bound)%nat →
  load url name (es_file e') = Some (es_file e') ∧
  (authenticates settings wid e' (wc_worker_token (es_file e')) ∨
   ∃ P, wc_pending_worker_token (es_file e') = Some P ∧ authenticates settings wid e' P).
Proof using distinct_secrets.
  intros He Hl Hb. destruct (lives_fine settings url wid name bound distinct_secrets _ _ He Hl Hb)
    as [HF [HI (row & Hrow & HK) _] ]. split; [apply HF|].
  destruct (vo_known _ _ _ _ _ _ _ _ HK) as [Hh|(P & HP & Hh & _)]; [left|right; exists P; split; [done|] ];
    (eapply view_authenticates; [done|exact Hrow|apply HK|exact Hh]).
Qed.

(** C15: A rotation or a recovery that a Worker finishes leaves the credential it returns in
    the file, with no pending token, and the Manager accepts its token, which the client
    sends from then on. *)
Theorem finished_rotation_token_works e w c program c' :
  registered settings url wid name e → lives settings url wid name e (wd_situation w) →
  wd_seen w = [] → Forall (exchange_ok settings wid) (wd_exchanges w) →
  load url name (es_file (wd_situation w)) = Some c → program ∈ programs settings →
  (program c w).1 = inr c' →
  let w' := (program c w).2 in
  (es_drawn (wd_situation w') <= bound)%nat →
  es_file (wd_situation w') = c' ∧ wc_pending_worker_token c' = None ∧
  wd_token w' = wc_worker_token c' ∧
  authenticates settings wid (wd_situation w') (wc_worker_token c').
Proof using distinct_secrets.
  intros He Hl Hs Hn Hld Hp Hc' w' Hb.
  pose proof (program_rests settings url wid name bound distinct_secrets program c w Hp
    (lives_fine settings url wid name bound distinct_secrets _ _ He Hl) Hs Hn Hld) as Hr.
  fold w' in Hr. rewrite Hc' in Hr. destruct Hr as (_ & Hnone & Hw). split_and!; [apply Hw|done|apply Hw|].
  destruct (rn_fine _ _ _ _ _ _ _ _ _ Hw Hb) as [HF [HI (row & Hrow & HK) _] ].
  rewrite (rn_file _ _ _ _ _ _ _ _ _ Hw) in *.
  eapply view_authenticates; [done|exact Hrow|apply HK|].
  destruct (vo_known _ _ _ _ _ _ _ _ HK) as [Hh|(P & HP & _)]; [done|by rewrite Hnone in HP].
Qed.
End properties.

(** ** A life *)

(** Twelve digits. *)
Definition twelve_digits (n : nat) : string :=
  let s := pretty (N.of_nat n) in String.substring 0 (12 - String.length s) "000000000000" +:+ s.

#[local] Instance rotation_platform : Platform :=
  {| uuid4 n := "00000000-0000-4000-8000-" +:+ twelve_digits n;
     token_urlsafe n := "abcdefghijklmnopqrstuvwxyzABCDEFGHI" +:+ twelve_digits n |}.

Definition first_credential : WorkerCredential :=
  mkWorkerCredential "https://manager" "w-1" "worker-1" (issued_token 0) None None None.

Definition first_hash : string :=
  Eval vm_compute in hash_worker_token sample_settings (issued_token 0).

Definition first_situation : Situation :=
  mkSituation (sample_db <| workers := {["w-1" := sample_worker <| w_token_hash := first_hash |> ]} |>)
    first_credential [] 1.

(** A session on the ledger, ten minutes after the epoch. *)
Definition opens_at_ten : opening := λ d n, (new_session d ten_minutes) <| s_fresh := n |>.

Definition first_world : World :=
  mkWorld first_situation "" [ten_minutes] 0
    (map (λ f, mkExchange [] f opens_at_ten)
       [Answered; Answered; Answered; Late; Answered; Answered; Lost]) [] [].

Definition crashed_run : (client_error + WorkerCredential) * World :=
  Eval vm_compute in rotate_worker_token sample_settings first_credential first_world.

Lemma crashed_run_eq :
  rotate_worker_token sample_settings first_credential first_world = crashed_run.
Proof. vm_compute. reflexivity. Qed.

(** The activation arrives when the Worker has stopped. *)
Definition activated_situation : Situation :=
  Eval vm_compute in
    happen sample_settings (wd_situation crashed_run.2) (Arrival 0 opens_at_ten).

Lemma activated_situation_eq :
  happen sample_settings (wd_situation crashed_run.2) (Arrival 0 opens_at_ten) = activated_situation.
Proof. vm_compute. reflexivity. Qed.

(** It is started again. *)
Definition restarted_world : World :=
  mkWorld activated_situation "" [] 1 (map (λ f, mkExchange [] f opens_at_ten) [Answered; Answered])
    [] [].

Definition recovered_run : (client_error + WorkerCredential) * World :=
  Eval vm_compute in
    reconcile_worker_token_rotation sample_settings (es_file activated_situation) restarted_world.

Lemma recovered_run_eq :
  reconcile_worker_token_rotation sample_settings (es_file activated_situation) restarted_world
    = recovered_run.
Proof. vm_compute. reflexivity. Qed.

Definition first_hashes : list string :=
  Eval vm_compute in map (λ i, hash_worker_token sample_settings (issued_token i)) (seq 0 16).

Lemma first_hashes_eq :
  map (λ i, hash_worker_token sample_settings (issued_token i)) (seq 0 16) = first_hashes.
Proof. vm_compute. reflexivity. Qed.

Lemma sample_secrets i j : (i < 16)%nat → (j < 16)%nat →
  hash_worker_token sample_settings (issued_token i) =
  hash_worker_token sample_settings (issued_token j) → i = j.
Proof.
  assert (∀ k, (k < 16)%nat → first_hashes !! k = Some (hash_worker_token sample_settings (issued_token k)))
    as Hk.
  { intros k Hk. rewrite <-first_hashes_eq, list_lookup_fmap, lookup_seq_lt by done. done. }
  intros Hi Hj Heq. eapply NoDup_lookup; [|by apply Hk|rewrite Heq; by apply Hk].
  apply (bool_decide_unpack _). vm_compute. exact I.
Qed.

Lemma opens_at_ten_ok : opening_ok sample_settings "w-1" opens_at_ten.
Proof. intros d n. by split_and!. Qed.

Lemma at_ten_ok fates :
  Forall (exchange_ok sample_settings "w-1") (map (λ f, mkExchange [] f opens_at_ten) fates).
Proof. apply Forall_fmap, Forall_forall. intros f _. split; [done|apply opens_at_ten_ok]. Qed.

Lemma first_registered :
  registered sample_settings "https://manager" "w-1" "worker-1" first_situation.
Proof.
  split; try (vm_compute; reflexivity).
  - split_and!.
    + change (LedgerInv (<["w-1" := sample_worker <| w_token_hash := first_hash |> ]> ∅)
        (<["j-1" := sample_job]> ∅) ∅ ∅).
      apply LedgerInv_free_worker; [|done..].
      apply LedgerInv_free_job; [apply Inv_empty|done..|]. apply not_leased_QUEUED.
    + done.
    + change (CredInv {["w-1" := sample_worker <| w_token_hash := first_hash |> ]}). split.
      * intros k1 w1 k2 w2 [<- <-]%lookup_singleton_Some [<- <-]%lookup_singleton_Some. done.
      * by intros k w [<- <-]%lookup_singleton_Some.
  - exists 0%nat. split; [simpl; lia|done].
Qed.

Lemma crashed_lives :
  lives sample_settings "https://manager" "w-1" "worker-1" first_situation
    (wd_situation crashed_run.2).
Proof.
  eapply (lives_runs _ _ _ _ _ first_world first_credential (rotate_worker_token sample_settings));
    [apply lives_refl|done|apply at_ten_ok|vm_compute; reflexivity|right; left|].
  rewrite crashed_run_eq. left.
Qed.

Lemma activated_lives :
  lives sample_settings "https://manager" "w-1" "worker-1" first_situation activated_situation.
Proof.
  rewrite <-activated_situation_eq. apply lives_happens; [apply crashed_lives|apply opens_at_ten_ok].
Qed.

(** The late activation has replaced the token; the file still has both. *)
Lemma worker_keeps_a_working_token_witness :
  es_flight (wd_situation crashed_run.2) ≠ [] ∧
  authenticates sample_settings "w-1" activated_situation (issued_token 3).
Proof.
  split; [done|].
  destruct (worker_keeps_a_working_token sample_settings "https://manager" "w-1" "worker-1" 16
    sample_secrets first_situation activated_situation first_registered activated_lives
    ltac:(vm_compute; lia)) as [_ [ (row & _ & Hrow)|(P & HP & HA)] ].
  - exfalso. specialize (Hrow (new_session (es_db activated_situation) 0) eq_refl).
    apply (f_equal (λ r, is_some (ok_value r.1))) in Hrow. vm_compute in Hrow. discriminate Hrow.
  - apply (inj Some) in HP. by rewrite <-HP in HA.
Defined.

Lemma finished_rotation_token_works_witness :
  authenticates sample_settings "w-1" (wd_situation recovered_run.2) (issued_token 3).
Proof.
  pose proof (finished_rotation_token_works sample_settings "https://manager" "w-1" "worker-1" 16
    sample_secrets first_situation restarted_world (es_file activated_situation)
    (reconcile_worker_token_rotation sample_settings) (es_file (wd_situation recovered_run.2))
    first_registered activated_lives eq_refl (at_ten_ok [Answered; Answered])) as HT.
  rewrite recovered_run_eq in HT.
  destruct HT as (_ & _ & _ & HA); [vm_compute; reflexivity|left|done|vm_compute; lia|exact HA].
Defined.
