(* ===== verification/WorkerRoutesCorrect.v ===== *)
(** * Correctness of heartbeats, renewals and downloads *)

From S2P Require Import Prelude Sha256 Json JobStatus JobConfig WorkerContract DateTime Settings.
From S2P Require Import Ledger Session Wp JobConfigLedger TestSets Mlflow WorkerTokens.
From S2P Require Import Evolution LeaseService WorkerRoutes LedgerInvariant LeaseRecovery LeaseClaim.
From S2P Require Import Fixtures LeaseProperties WorkerTokensCorrect.

Section routes.
  Context `{ContractParser} `{CapabilitiesParser} `{Platform}.
  Variable settings : Settings.

(** ** The lease guard *)

Section guard.
  Context (I : DB → Prop) `{!Stable I}.
  #[local] Set Default Proof Using "Stable0".

Lemma wp_read_row {A} fu k (read : DB → A) (Q : result A → Session → Prop) c L t i s :
  St I c c false None L t i s →
  (∀ c' L' s', L ⊆ L' → (fu = true → k ∈ L') → agree L c c' → (fu = false → c' = c) →
     St I c' c' false None L' t i s' → Q (Ok (read c')) s') →
  wp (read_row fu k read) Q s.
Proof.
  intros Hst HQ. unfold read_row. destruct fu; wp_step.
  - eapply HQ; [| |done|done|done]; set_solver.
  - by eapply HQ; [| |apply agree_refl| |].
Qed.

(** What [require_active_lease] has checked when it returns. *)
Record lease_current (c : DB) (worker_id job_id lease_id : string) (lease : JobLease) (now : Z)
    : Prop := mkLeaseCurrent {
  lc_row : leases c !! lease_id = Some lease;
  lc_active : l_active lease = true;
  lc_job : l_job_id lease = job_id;
  lc_worker : l_worker_id lease = worker_id;
  lc_unexpired : now < l_expires_at lease }.

Lemma active_lease_row_Some worker_id job_id lease_id d lease :
  active_lease_row worker_id job_id lease_id d = Some lease →
  leases d !! lease_id = Some lease ∧ l_active lease = true ∧ l_job_id lease = job_id ∧
  l_worker_id lease = worker_id.
Proof using Type.
  unfold active_lease_row. destruct (leases d !! lease_id) as [l|]; [|done]. simpl.
  destruct (_ && _) eqn:Hb; [|done]. intros [= ->]. by bools.
Qed.

Lemma wp_require_active_lease worker_id job_id lease_id fu
    (Q : result JobLease → Session → Prop) c L t i s :
  St I c c false None L t i s →
  (∀ c' L' lease t' s', lease_current c' worker_id job_id lease_id lease t → t <= t' →
     (fu = true → LockLease lease_id ∈ L') →
     St I c' c' false None L' t' i s' → Q (Ok lease) s') →
  (∀ e s', e ≠ RecursionError → safe I s' → Q (Raise e) s') →
  wp (require_active_lease worker_id job_id lease_id fu) Q s.
Proof.
  intros Hst HQ HR. unfold require_active_lease. wp_step.
  eapply wp_read_row; [done|]. intros c1 L1 s1 HL1 Hk1 _ Heq1 Hst1.
  wp_step; [|wp_step; by eapply HR; [|eapply St_safe]].
  rename Heqo into Hrow, j into lease. apply active_lease_row_Some in Hrow as (Hl & Ha & Hj & Hw).
  wp_step. wp_step. wp_step; [wp_steps; by eapply HR; [|eapply St_safe]|].
  apply Z.leb_gt in Heqb. wp_step.
  eapply wp_read_row; [done|]. intros c2 L2 s2 HL2 _ Hag2 Heq2 Hst2. wp_step.
  eapply wp_read_row; [done|]. intros c3 L3 s3 HL3 _ Hag3 Heq3 Hst3.
  wp_steps; try by eapply HR; [|eapply St_safe].
  eapply HQ; [|done| |done]; [split; try done|].
  - destruct fu; [|by rewrite Heq3, Heq2].
    rewrite (ag_rows _ _ _ Hag3 (LockLease lease_id)), (ag_rows _ _ _ Hag2 (LockLease lease_id)); set_solver.
  - intros ->. set_solver.
Qed.

End guard.

(** ** Renewal *)

Lemma Inv_lease d d' l l' :
  Inv d → leases d !! l_id l' = Some l → l_job_id l' = l_job_id l →
  l_attempt_id l' = l_attempt_id l → l_worker_id l' = l_worker_id l → l_active l' = l_active l →
  l_released_at l' = l_released_at l → leases d' = <[l_id l' := l']> (leases d) →
  workers d' = workers d → jobs d' = jobs d → attempts d' = attempts d →
  job_logs d' = job_logs d → metrics d' = metrics d → Inv d'.
Proof.
  intros (HI & HS & HC) Hl Hj Ha Hw Hact Hrel El Ew Ej Ea Elg Em. unfold Inv.
  rewrite El, Ew, Ej, Ea, Elg, Em. split_and!; [|done..]. by eapply LedgerInv_lease.
Qed.

Lemma evolves_renewed d d' lease now :
  leases d !! l_id lease = Some lease → l_active lease = true →
  leases d' = <[l_id lease := renewed_lease settings lease now]> (leases d) →
  jobs d' = jobs d → attempts d' = attempts d → job_logs d' = job_logs d →
  metrics d' = metrics d → rest_of d' = rest_of d → evolves d d'.
Proof.
  intros Hl Ha El Ej Ea Elg Em Ex.
  split; rewrite ?El, ?Ej, ?Ea, ?Elg, ?Em;
    [apply evolves_PreOrder..| |done|done|by apply rest_step_same].
  eapply leases_step_update; [apply evolves_PreOrder|done|]. split; [done|simpl; lia|congruence].
Qed.

Section renewal.
  Context (I : DB → Prop) `{!Stable I}.
  #[local] Set Default Proof Using "Stable0".

Lemma wp_renew_lease job_id lease_id worker (Q : result LeaseRenewResponse → Session → Prop)
    c L t i s :
  St I c c false None L t i s →
  (∀ d lease now s', Inv d → lease_current d (w_id worker) job_id lease_id lease t → t <= now →
     safe I s' → (d, s_committed s') ∈ s_log s' → s_committed s' =
       d <| leases := <[l_id lease := renewed_lease settings lease now]> (leases d) |> →
     Q (Ok (mkLeaseRenewResponse (l_id lease) (l_expires_at (renewed_lease settings lease now)))) s') →
  (∀ e s', e ≠ RecursionError → safe I s' → Q (Raise e) s') →
  wp (renew_lease settings job_id lease_id worker) Q s.
Proof.
  intros Hst HQ HR. unfold renew_lease. wp_step.
  eapply (wp_require_active_lease I); [done| |done]. intros c' L' lease t' s' Hc Ht _ Hst'. wp_step.
  wp_step. wp_step. wp_step. ledger_inv HI. wp_step. eapply wp_commit_logged; [done|..].
  - intros e s2 Hst2. by eapply HR; [|eapply St_safe].
  - intros _. destruct Hc. pose proof (lease_ids _ _ _ _ (proj1 HI) _ _ lc_row0) as <-.
    eapply stable_step; [by eapply st_inv|by eapply evolves_renewed|].
    by eapply (Inv_lease _ _ lease (renewed_lease settings lease t')); [exact HI|..].
  - intros s2 _ Hlog Hst2. wp_step. pose proof (st_committed _ _ _ _ _ _ _ _ _ Hst2) as Hd.
    eapply (HQ _ lease t'); [exact HI|done|done|by eapply St_safe|by rewrite Hd|done].
Qed.

Lemma renew_lease_preserves job_id lease_id worker :
  preserves I (renew_lease settings job_id lease_id worker).
Proof. start_handler. by eapply wp_renew_lease. Qed.
End renewal.

Lemma renewal_commits_once job_id lease_id worker :
  commits_within 1 (renew_lease settings job_id lease_id worker).
Proof. unfold renew_lease, require_active_lease, read_row. repeat within_step. Qed.

(** C24: a renewal answers only for the current lease of the calling Worker, and only
    extends it. The request has committed one transaction, from a database [d] to the state
    it ends in: in [d] the lease is active, unexpired and the Worker's, no earlier expiry is
    stored than the one [d] has, the new one is a full lease period away, and nothing but
    this lease changes. *)
Theorem renewal_extends_current_lease job_id lease_id worker s r :
  fresh_session Inv s →
  outcome (renew_lease settings job_id lease_id worker) s = Ok r →
  let d' := after (renew_lease settings job_id lease_id worker) s in
  ∃ d lease lease', committed_only (renew_lease settings job_id lease_id worker) s d d' ∧
    Inv d ∧ leases d !! lease_id = Some lease ∧ l_active lease = true ∧
    l_worker_id lease = w_id worker ∧ l_job_id lease = job_id ∧ s_clock s < l_expires_at lease ∧
    d' = d <| leases := <[lease_id := lease']> (leases d) |> ∧ l_active lease' = true ∧
    l_expires_at lease' = lr_lease_expires_at r ∧ l_expires_at lease <= l_expires_at lease' ∧
    s_clock s + seconds (lease_seconds settings) <= l_expires_at lease' ∧
    l_last_renewed_at lease <= l_last_renewed_at lease'.
Proof.
  intros Hfresh Hout d'.
  eassert (wp (renew_lease settings job_id lease_id worker) (λ r s', match r with
    | Ok r => ∃ d lease now, (d, s_committed s') ∈ s_log s' ∧ Inv d ∧
        lease_current d (w_id worker) job_id lease_id lease (s_clock s) ∧ s_clock s <= now ∧
        s_committed s' =
          d <| leases := <[l_id lease := renewed_lease settings lease now]> (leases d) |> ∧
        r = mkLeaseRenewResponse (l_id lease) (l_expires_at (renewed_lease settings lease now))
    | _ => True end) s) as Hwp.
  { eapply (wp_renew_lease Inv); [by apply fresh_St| |done].
    intros d lease now s' HI Hc Hn _ Hlog Hd. by exists d, lease, now. }
  destruct (wp_run _ _ _ _ Hwp Hout) as (d & lease & now & Hlog & HI & Hc & Hn & Hd & ->).
  destruct Hc. pose proof (lease_ids _ _ _ _ (proj1 HI) _ _ lc_row0) as Hid.
  exists d, lease, (renewed_lease settings lease now). rewrite Hid in Hd.
  split; [by apply within_only; [apply renewal_commits_once|apply Hfresh|]|].
  split_and!; try done; simpl; unfold lease_expiry; lia.
Qed.

(** ** Heartbeat *)

(** The rows a heartbeat found, and what it made of them. *)
Record heartbeat_row (d d' : DB) (payload : WorkerHeartbeatRequest) (worker_id : string) (now : Z)
    (w : Worker) (renewed : option Z) : Prop := mkHeartbeatRow {
  hr_worker : workers d !! worker_id = Some w;
  hr_others : workers d' = workers d ∧ jobs d' = jobs d ∧ attempts d' = attempts d ∧
    job_logs d' = job_logs d ∧ metrics d' = metrics d ∧ rest_of d' = rest_of d;
  hr_idle : truthy (hb_current_job_id payload) = false →
    leases d' = leases d ∧ renewed = None ∧ truthy (w_current_job_id w) = false;
  hr_busy : truthy (hb_current_job_id payload) = true → ∃ lease job attempt,
    leases d !! l_id lease = Some lease ∧
    jobs d !! or_empty (hb_current_job_id payload) = Some job ∧
    attempts d !! l_attempt_id lease = Some attempt ∧
    heartbeat_current worker_id (or_empty (hb_current_job_id payload)) now lease job attempt w
      = true ∧
    leases d' = <[l_id lease := renewed_lease settings lease now]> (leases d) ∧
    renewed = Some (l_expires_at (renewed_lease settings lease now)) }.

Section heartbeat_rows.
  Context (I : DB → Prop) `{!Stable I}.
  #[local] Set Default Proof Using "Stable0".

Lemma wp_heartbeat_rows payload worker_id now
    (Q : result (Worker * option Z) → Session → Prop) c L t i s :
  St I c c false None L t i s →
  (∀ d d' b L' w renewed s', heartbeat_row d d' payload worker_id now w renewed →
     St I d d' b None L' t i s' → Q (Ok (w, renewed)) s') →
  (∀ e s', e ≠ RecursionError → safe I s' → Q (Raise e) s') →
  wp (if truthy (hb_current_job_id payload)
      then heartbeat_busy settings worker_id (or_empty (hb_current_job_id payload))
             (hb_current_lease_id payload) now
      else heartbeat_idle worker_id) Q s.
Proof.
  intros Hst HQ HR. destruct (truthy (hb_current_job_id payload)) eqn:Hbusy.
  - unfold heartbeat_busy. set (lid := or_empty (hb_current_lease_id payload)).
    set (jid := or_empty (hb_current_job_id payload)).
    wp_steps; try by eapply HR; [|eapply St_safe].
    settle_rows. bools. pose proof (stable_inv _ (st_inv _ _ _ _ _ _ _ _ _ Hst)) as [HI _].
    match goal with Hl : leases _ !! lid = Some ?l |- _ =>
      pose proof (lease_ids _ _ _ _ HI _ _ Hl) as Hid end.
    eapply HQ; [|done]. split; [done|done|congruence|].
    intros _. do 3 eexists. rewrite Hid. split_and!; [done|done|done|done| |done].
    simpl. by rewrite Hid.
  - unfold heartbeat_idle. wp_steps; try by eapply HR; [|eapply St_safe].
    eapply HQ; [|done]. split; [done|done|done|congruence].
Qed.

End heartbeat_rows.

Lemma Inv_worker d d' w w' :
  Inv d → workers d !! w_id w' = Some w → w_current_job_id w' = w_current_job_id w →
  w_token_hash w' = w_token_hash w → rotation_fields_together w' = rotation_fields_together w →
  workers d' = <[w_id w' := w']> (workers d) → jobs d' = jobs d → attempts d' = attempts d →
  leases d' = leases d → job_logs d' = job_logs d → metrics d' = metrics d → Inv d'.
Proof.
  intros (HI & HS & HC) Hw Hcur Ht Hr Ew Ej Ea El Elg Em. unfold Inv.
  rewrite Ew, Ej, Ea, El, Elg, Em. split_and!; [by eapply LedgerInv_worker|done|].
  by eapply CredInv_worker.
Qed.

Lemma Inv_heartbeat_row d d' payload worker_id now w renewed :
  Inv d → heartbeat_row d d' payload worker_id now w renewed → Inv d'.
Proof.
  intros HI [Hw (Ew & Ej & Ea & Elg & Em & _) Hidle Hbusy].
  destruct (truthy (hb_current_job_id payload)).
  - destruct (Hbusy eq_refl) as (lease & job & attempt & Hl & _ & _ & _ & El & _).
    by eapply (Inv_lease d d' lease (renewed_lease settings lease now)).
  - destruct (Hidle eq_refl) as (El & _). by apply (Inv_ext d d').
Qed.

(** The state a heartbeat commits. *)
Record heartbeat_done (d d' : DB) (payload : WorkerHeartbeatRequest) (worker_id : string)
    (r : WorkerHeartbeatResponse) : Prop := mkHeartbeatDone {
  hd_rows : ∃ d1 w v, heartbeat_row d d1 payload worker_id (hr_server_time r) w
      (hr_lease_expires_at r) ∧ w_id w = worker_id ∧
    d' = d1 <| workers := <[worker_id :=
      (reported_worker w payload (hr_server_time r)) <| w_row_version := v |> ]> (workers d1) |>;
  hd_cancel : hr_cancel_job_ids r = cancelled_jobs_of worker_id d' }.

Section heartbeats.
  Context (I : DB → Prop) `{!Stable I}.
  #[local] Set Default Proof Using "Stable0".

Lemma evolves_heartbeat_row d d' payload worker_id now w renewed :
  heartbeat_row d d' payload worker_id now w renewed → evolves d d'.
Proof using Type.
  intros [_ (_ & Ej & Ea & Elg & Em & Ex) Hidle Hbusy].
  destruct (truthy (hb_current_job_id payload)).
  - destruct (Hbusy eq_refl) as (lease & job & attempt & Hl & _ & _ & Hcur & El & _).
    eapply evolves_renewed; [done| |done..]. unfold heartbeat_current in Hcur. by bools.
  - destruct (Hidle eq_refl) as (El & _). by apply (evolves_ext d d).
Qed.

Lemma wp_heartbeat payload worker (Q : result WorkerHeartbeatResponse → Session → Prop) c L t i s :
  St I c c false None L t i s →
  (∀ d r s', Inv d → safe I s' → t <= hr_server_time r →
     heartbeat_done d (s_committed s') payload (w_id worker) r → Q (Ok r) s') →
  (∀ e s', safe I s' → Q (Raise e) s') →
  wp (heartbeat settings payload worker) Q s.
Proof.
  intros Hst HQ HR. unfold heartbeat. wp_step.
  eapply (wp_recover settings I); [done| |intros; by apply HR].
  intros n c1 L1 t1 s1 Ht1 _ Hst1. wp_step. wp_step. wp_step.
  eapply (wp_heartbeat_rows I); [done| |intros; by apply HR].
  intros d d1 b L2 w renewed s2 Hrow Hst2. wp_step. wp_step. wp_step. wp_step. wp_step.
  pose proof (stable_inv _ (st_inv _ _ _ _ _ _ _ _ _ Hst2)) as HI.
  pose proof (Inv_heartbeat_row _ _ _ _ _ _ _ HI Hrow) as HI1.
  pose proof Hrow as [Hw (Ew & _) _ _].
  pose proof (worker_ids _ _ _ _ (proj1 HI) _ _ Hw) as Hid.
  wp_step.
  - by apply HR.
  - eapply stable_step; [by eapply st_inv| |].
    { etrans; [by eapply evolves_heartbeat_row|]. by apply (evolves_ext d1 d1). }
    eapply (Inv_worker d1 _ w ((reported_worker w payload t1) <| w_row_version := v |>));
      [exact HI1|simpl; rewrite Ew, Hid; exact Hw|reflexivity..].
  - wp_step. eapply (HQ d); [exact HI|by eapply St_safe|done|].
    match goal with H : St _ _ _ _ _ _ _ _ ?x |- heartbeat_done _ (s_committed ?x) _ _ _ =>
      rewrite (st_committed _ _ _ _ _ _ _ _ _ H) end.
    split; [|simpl; by rewrite Hid].
    exists d1, w, v. split; [exact Hrow|]. split; [done|]. rewrite <-Hid. reflexivity.
Qed.

Lemma heartbeat_preserves payload worker : preserves I (heartbeat settings payload worker).
Proof. start_handler. by eapply wp_heartbeat. Qed.
End heartbeats.

Lemma cancelled_jobs_of_spec worker_id d k job :
  Inv d → jobs d !! k = Some job →
  k ∈ cancelled_jobs_of worker_id d ↔
  j_worker_id job = Some worker_id ∧ is_Some (j_cancel_requested_at job) ∧
  is_terminal_value (j_status job) = false.
Proof.
  intros [HI _] Hjob. unfold cancelled_jobs_of. rewrite list_elem_of_fmap. split.
  - intros (j & -> & Hj). apply elem_of_where in Hj as (Hp & k' & Hk').
    rewrite (job_ids _ _ _ _ HI _ _ Hk') in Hjob. assert (j = job) as -> by congruence.
    by bools.
  - intros (Hw & [x Hx] & Ht). exists job. split; [symmetry; by apply (job_ids _ _ _ _ HI)|].
    apply elem_of_where. split; [|by exists k].
    rewrite Hw, Hx, Ht, bool_decide_eq_true_2 by done. done.
Qed.

(** C23: a heartbeat is answered with success only for the Worker's real assignment.
    When it names a Job, the Worker holds that Job under an active lease, the lease
    is renewed for a full period, and the answer lists the Job for cancellation
    exactly when its cancellation was requested. *)
Theorem heartbeat_confirms_assignment payload worker job_id s r :
  fresh_session Inv s → hb_current_job_id payload = Some job_id → job_id ≠ "" →
  outcome (heartbeat settings payload worker) s = Ok r →
  let d := after (heartbeat settings payload worker) s in
  ∃ lease job attempt w,
    leases d !! l_id lease = Some lease ∧ l_active lease = true ∧ l_job_id lease = job_id ∧
    assigned (workers d) (jobs d) (attempts d) lease job attempt w ∧
    w_id w = w_id worker ∧ w_last_heartbeat_at w = Some (hr_server_time r) ∧
    hr_lease_expires_at r = Some (l_expires_at lease) ∧
    hr_server_time r + seconds (lease_seconds settings) <= l_expires_at lease ∧
    (job_id ∈ hr_cancel_job_ids r ↔ is_Some (j_cancel_requested_at job)).
Proof.
  intros Hfresh Hcur Hne Hout d.
  eassert (wp (heartbeat settings payload worker) (λ r s', match r with
    | Ok r => ∃ d0, Inv (s_committed s') ∧
        heartbeat_done d0 (s_committed s') payload (w_id worker) r
    | _ => True end) s) as Hwp.
  { eapply (wp_heartbeat Inv); [by apply fresh_St| |done].
    intros d0 r' s' _ [HI _] _ Hd. by exists d0. }
  destruct (wp_run _ _ _ _ Hwp Hout) as (d0 & HI & [(d1 & w & v & Hrow & Hwid & Hd) Hcan]).
  change (s_committed _) with d in HI, Hd, Hcan. destruct Hrow as [Hw (Ew & _) _ Hbusy].
  rewrite Hcur in Hbusy. destruct Hbusy as (lease & job0 & attempt0 & Hl & _ & _ & Hhb & El & Hexp).
  { by destruct job_id. }
  unfold heartbeat_current, or_empty in Hhb. simpl in Hhb. bools.
  assert (leases d !! l_id lease = Some (renewed_lease settings lease (hr_server_time r))) as Hlease
    by (rewrite Hd; simpl; rewrite El; apply lookup_insert_eq).
  destruct (lease_assigned _ _ _ _ (proj1 HI) _ _ Hlease) as (job & attempt & w' & Has); [done|].
  assert (w' = (reported_worker w payload (hr_server_time r)) <| w_row_version := v |>) as ->.
  { pose proof Has as [_ _ Hw' _ _ _ _ _ _ _ _ _]. rewrite Hd in Hw'. simpl in Hw'.
    match goal with H : l_worker_id lease = _ |- _ => rewrite H in Hw' end.
    rewrite lookup_insert_eq in Hw'. congruence. }
  exists (renewed_lease settings lease (hr_server_time r)), job, attempt. eexists.
  split; [exact Hlease|]. split; [done|]. split; [done|].
  split; [exact Has|]. split; [done|]. split; [done|]. split; [done|].
  split; [simpl; unfold lease_expiry; lia|].
  pose proof Has as [Hj _ _ _ _ Hjw Hle _ _ _ _ _]. simpl in Hj, Hjw.
  match goal with H : l_job_id lease = job_id |- _ => rewrite H in Hj end.
  rewrite Hcan, (cancelled_jobs_of_spec _ _ _ _ HI Hj). split; [by intros (_ & ? & _)|].
  intros Hreq. split_and!; [congruence|done|].
  destruct (is_terminal_value (j_status job)) eqn:Ht; [|done].
  by apply is_terminal_value_spec in Ht.
Qed.

(** ** Claims and downloads *)

Section storage.
  Variable storage : ClaimStoragePort.
  Variable create_download_url : string → string → Z → option (option string).

Section claims.
  Context (I : DB → Prop) `{!Stable I}.
  #[local] Set Default Proof Using "Stable0".

Lemma claim_job_preserves worker_id capabilities :
  preserves I (claim_job settings storage worker_id capabilities).
Proof. start_handler. by eapply (wp_claim_job settings storage I). Qed.

Lemma claim_preserves payload worker : preserves I (claim settings storage payload worker).
Proof.
  start_handler. unfold claim, stored_capabilities. wp_steps; try finish_safe.
  all: by eapply (wp_claim_job settings storage I).
Qed.

Lemma next_job_preserves worker : preserves I (next_job settings storage worker).
Proof.
  start_handler. unfold next_job, stored_capabilities. wp_steps; try finish_safe.
  by eapply (wp_claim_job settings storage I).
Qed.

End claims.

(** The object a download response gives access to. *)
Definition serves (r : Download) (object_key : string) (size : Z) : Prop :=
  match r with
  | RedirectResponse url disposition =>
      create_download_url object_key disposition (dataset_download_ttl_seconds settings)
        = Some (Some url)
  | StreamingResponse key _ max_bytes _ _ content_length =>
      key = object_key ∧ max_bytes = size ∧ content_length = size
  end.

Lemma wp_download_response key media disposition text size
    (Q : result Download → Session → Prop) s :
  (∀ r, serves r key size → Q (Ok r) s) → (∀ e, e ≠ RecursionError → Q (Raise e) s) →
  wp (download_response settings create_download_url key media disposition text size) Q s.
Proof.
  intros HQ HR. unfold download_response. wp_steps; [apply HQ|apply HQ|by apply HR]; done.
Qed.

(** The rows that authorise the download of a Dataset. *)
Record dataset_authorised (d : DB) (worker_id job_id lease_id attempt_id : string) (now : Z)
    (r : Download) : Prop := mkDatasetAuthorised {
  da_lease : ∃ lease, lease_current d worker_id job_id lease_id lease now ∧
    l_attempt_id lease = attempt_id;
  da_object : ∃ job dataset upload size, jobs d !! job_id = Some job ∧
    j_worker_id job = Some worker_id ∧ j_current_attempt_id job = Some attempt_id ∧
    datasets d !! j_dataset_id job = Some dataset ∧ transferable dataset = Some size ∧
    latest_dataset_upload d (d_id dataset) = Some upload ∧
    storage_namespace_matches storage (du_storage_backend upload)
      (du_storage_namespace_sha256 upload) = true ∧
    st_storage_uri storage (du_prepared_flat_object_key upload) = d_flat_storage_uri dataset ∧
    serves r (du_prepared_flat_object_key upload) size }.

Section downloads.
  Context (I : DB → Prop) `{!Stable I}.
  #[local] Set Default Proof Using "Stable0".

Lemma wp_download_job_dataset job_id worker lease_id attempt_id
    (Q : result Download → Session → Prop) c L t i s :
  St I c c false None L t i s →
  (∀ r s', safe I s' →
     dataset_authorised (s_committed s') (w_id worker) job_id lease_id attempt_id t r → Q (Ok r) s') →
  (∀ e s', e ≠ RecursionError → safe I s' → Q (Raise e) s') →
  wp (download_job_dataset settings storage create_download_url job_id worker lease_id attempt_id)
    Q s.
Proof.
  intros Hst HQ HR. unfold download_job_dataset, worker_audit_of. wp_step.
  eapply (wp_require_active_lease I); [done| |done]. intros c' L' lease t' s' Hc Ht _ Hst'.
  ledger_inv HI. wp_steps; try by eapply HR; [|eapply St_safe].
  eapply wp_commit; [done|intros; by eapply HR; [|eapply St_safe]|intros _|].
  { same_tables. eapply Inv_ext; [..|exact HI]; reflexivity. }
  intros s2 _ Hst2. wp_simpl. apply wp_download_response.
  - intros r Hr. bools. eapply HQ; [by eapply St_safe|].
    rewrite (st_committed _ _ _ _ _ _ _ _ _ Hst2). simplify_option_eq.
    split; [exists lease; split; [by destruct Hc|done]|].
    eexists _, _, _, _. split_and!; simpl; eauto. congruence.
  - intros. by eapply HR; [|eapply St_safe].
Qed.

Lemma download_job_dataset_preserves job_id worker lease_id attempt_id :
  preserves I (download_job_dataset settings storage create_download_url job_id worker lease_id
    attempt_id).
Proof. start_handler. by eapply wp_download_job_dataset. Qed.

Lemma download_job_test_set_item_preserves job_id item_id worker lease_id attempt_id :
  preserves I (download_job_test_set_item settings storage create_download_url job_id item_id
    worker lease_id attempt_id).
Proof.
  start_handler. unfold download_job_test_set_item, worker_audit_of. wp_step.
  eapply (wp_require_active_lease I); [done| |done]. intros c' L' lease t' s' Hc Ht _ Hst'.
  ledger_inv HI. wp_steps; try finish_safe.
  eapply wp_verified_test_set_transfer; [done| |intros; by eapply St_safe]. intros r.
  wp_steps; try finish_safe.
  eapply wp_commit; [done|intros; by eapply St_safe|intros _|].
  { same_tables. eapply Inv_ext; [..|exact HI]; reflexivity. }
  intros s2 _ Hst2. wp_simpl. apply wp_download_response; intros; by eapply St_safe.
Qed.
End downloads.

End storage.
End routes.

(** ** Witnesses *)

#[local] Existing Instances sample_parser sample_capabilities_parser sample_platform.

Definition sample_heartbeat_request : WorkerHeartbeatRequest :=
  mkWorkerHeartbeatRequest BUSY sample_capabilities (Some "j-1") (Some "id-1").

Lemma sample_heartbeat_ok :
  ∃ r, outcome (heartbeat sample_settings sample_heartbeat_request sample_worker) busy_session = Ok r.
Proof. apply ok_present. vm_compute. reflexivity. Qed.

Lemma heartbeat_confirms_assignment_witness :
  ∃ r lease, outcome (heartbeat sample_settings sample_heartbeat_request sample_worker) busy_session
      = Ok r ∧ l_job_id lease = "j-1" ∧ hr_lease_expires_at r = Some (l_expires_at lease).
Proof.
  destruct sample_heartbeat_ok as [r Hout].
  destruct (heartbeat_confirms_assignment sample_settings sample_heartbeat_request sample_worker
    "j-1" busy_session r busy_session_fresh eq_refl ltac:(discriminate) Hout)
    as (lease & job & attempt & w & _ & _ & Hjob & _ & _ & _ & Hexp & _).
  exists r, lease. split; [exact Hout|]. split; [exact Hjob|exact Hexp].
Defined.

Lemma sample_renewal_ok :
  ∃ r, outcome (renew_lease sample_settings "j-1" "id-1" sample_worker) busy_session = Ok r.
Proof. apply ok_present. vm_compute. reflexivity. Qed.

Lemma renewal_extends_current_lease_witness :
  ∃ r, outcome (renew_lease sample_settings "j-1" "id-1" sample_worker) busy_session = Ok r ∧
    s_clock busy_session + seconds (lease_seconds sample_settings) <= lr_lease_expires_at r.
Proof.
  destruct sample_renewal_ok as [r Hout]. exists r. split; [exact Hout|].
  destruct (renewal_extends_current_lease sample_settings "j-1" "id-1" sample_worker busy_session r
    busy_session_fresh Hout)
    as (d & lease & lease' & _ & _ & _ & _ & _ & _ & _ & _ & _ & Hexp & _ & Hfull & _).
  rewrite <-Hexp. exact Hfull.
Defined.



