(* ===== verification/StatusUpdateCorrect.v ===== *)
(** * Correctness of status updates

    An update commits only for the current, unexpired claim of its Worker and along an
    allowed transition; a requested cancellation supersedes every other target; a
    terminal update releases the assignment and seals the telemetry of the attempt;
    the handler runs at most three times. *)

From S2P Require Import Prelude Sha256 Json JobStatus JobConfig WorkerContract DateTime Settings.
From S2P Require Import Ledger Session Wp JobConfigLedger TestSets Mlflow WorkerTokens.
From S2P Require Import Evolution LeaseService WorkerRoutes StatusUpdate LedgerInvariant LeaseRecovery.
From S2P Require Import LeaseClaim Fixtures LeaseProperties WorkerTokensCorrect.
From S2P Require Import WorkerRoutesCorrect.

(** ** Watermarks *)

Lemma max_sequence_spec {A} (attempt_id : string) (table : gmap (string * Z) A) (seq : Z) :
  is_Some (table !! (attempt_id, seq)) →
  ∃ m, max_sequence attempt_id table = Some m ∧ seq <= m.
Proof.
  intros [x Hx]. apply elem_of_map_to_list in Hx.
  assert ((attempt_id, seq) ∈ (map_to_list table).*1) as Hin
    by (apply list_elem_of_fmap; by exists ((attempt_id, seq), x)).
  unfold max_sequence. induction ((map_to_list table).*1) as [|k ks IH]; [set_solver|].
  simpl. apply elem_of_cons in Hin as [<-|Hin].
  - rewrite bool_decide_eq_true_2 by done. destruct (foldr _ _ _) as [m|]; simpl; eexists;
      (split; [done|lia]).
  - destruct (IH Hin) as (m & -> & Hm). case_bool_decide; eexists; (split; [done|lia]).
Qed.

(** Sequences of the attempt are below both counts. *)
Definition counts_above (d : DB) (attempt_id : string) (log_count metric_count : option Z) : Prop :=
  (∀ n seq, log_count = Some n → is_Some (job_logs d !! (attempt_id, seq)) → seq < n) ∧
  (∀ n seq, metric_count = Some n → is_Some (metrics d !! (attempt_id, seq)) → seq < n).

Section status.
  Context `{ContractParser} `{Platform}.
  Variable settings : Settings.

Section claims.
  Context (I : DB → Prop) `{!Stable I}.
  #[local] Set Default Proof Using "Stable0".

Lemma wp_watermarks attempt_id log_count metric_count (Q : result () → Session → Prop)
    c d b dm L t i s :
  St I c d b dm L t i s →
  Bool.eqb (is_none log_count) (is_none metric_count) = true →
  (counts_above d attempt_id log_count metric_count → Q (Ok ()) s) →
  (∀ n text, Q (Raise (HTTPException n text)) s) →
  wp (validate_terminal_telemetry_watermarks attempt_id log_count metric_count) Q s.
Proof.
  intros Hst Hboth HQ HR. unfold validate_terminal_telemetry_watermarks.
  destruct log_count as [n|], metric_count as [m|]; try done; [|by wp_step; apply HQ].
  wp_steps; try apply HR. apply HQ. split; intros k seq [= <-] Hin.
  - destruct (max_sequence_spec _ _ _ Hin) as (x & Hx & Hle).
    match goal with Hf : match max_sequence _ (job_logs _) with _ => _ end = false |- _ =>
      rewrite Hx in Hf; apply Z.leb_gt in Hf end. lia.
  - destruct (max_sequence_spec _ _ _ Hin) as (x & Hx & Hle).
    match goal with Hf : match max_sequence _ (metrics _) with _ => _ end = false |- _ =>
      rewrite Hx in Hf; apply Z.leb_gt in Hf end. lia.
Qed.

(** ** The claim of an update *)

Record status_claim (d : DB) (job_id attempt_id lease_id worker_id status : string) (now : Z)
    (claim : JobLease * Job * JobAttempt * Worker) : Prop := mkStatusClaim {
  sc_lease : leases d !! lease_id = Some claim.1.1.1;
  sc_job : jobs d !! job_id = Some claim.1.1.2;
  sc_attempt : attempts d !! attempt_id = Some claim.1.2;
  sc_worker : workers d !! worker_id = Some claim.2;
  sc_current : status_claim_current job_id attempt_id worker_id status now
    claim.1.1.1 claim.1.1.2 claim.1.2 claim.2 = true }.

(** The claim is an assignment of the ledger. *)
Lemma status_claim_assigned d job_id attempt_id lease_id worker_id status now lease job attempt w :
  Inv d → status_claim d job_id attempt_id lease_id worker_id status now (lease, job, attempt, w) →
  l_active lease = true ∧ now < l_expires_at lease ∧ j_status job = status ∧
  assigned (workers d) (jobs d) (attempts d) lease job attempt w ∧ l_id lease = lease_id ∧
  l_job_id lease = job_id ∧ l_attempt_id lease = attempt_id ∧ l_worker_id lease = worker_id.
Proof using Type.
  intros [HI _] [Hl Hj Ha Hw Hc]. simpl in *. unfold status_claim_current in Hc. bools.
  destruct (lease_assigned _ _ _ _ HI _ _ Hl) as (j & a & v & Has); [done|].
  assert (j = job ∧ a = attempt ∧ v = w) as (-> & -> & ->)
    by (destruct Has; split_and!; congruence).
  split_and!; try done. by apply (lease_ids _ _ _ _ HI).
Qed.

Lemma wp_lock_status_claim job_id attempt_id lease_id worker_id status
    (Q : result (JobLease * Job * JobAttempt * Worker) → Session → Prop) c L t i s :
  St I c c false None L t i s →
  (∀ claim c' L' t' s', status_claim c' job_id attempt_id lease_id worker_id status t claim →
     t <= t' → {[LockLease lease_id; LockJob job_id; LockAttempt attempt_id;
                 LockWorker worker_id]} ⊆ L' →
     St I c' c' false None L' t' i s' → Q (Ok claim) s') →
  (∀ e s', e ≠ RecursionError → safe I s' → Q (Raise e) s') →
  wp (lock_current_status_claim job_id attempt_id lease_id worker_id status) Q s.
Proof.
  intros Hst HQ HR. unfold lock_current_status_claim.
  wp_steps; try by eapply HR; [|eapply St_safe].
  settle_rows. bools. eapply HQ; [|done| |done]; [|set_solver]. by split.
Qed.

(** The same on rows already locked and fenced. *)
Lemma wp_lock_status_claim_fenced job_id attempt_id lease_id worker_id status
    (Q : result (JobLease * Job * JobAttempt * Worker) → Session → Prop) c L t i s :
  St I c c true None L t i s →
  (∀ claim L' t' s', status_claim c job_id attempt_id lease_id worker_id status t claim →
     t <= t' → St I c c true None L' t' i s' → Q (Ok claim) s') →
  (∀ e s', (∃ n text, e = HTTPException n text) → safe I s' → Q (Raise e) s') →
  wp (lock_current_status_claim job_id attempt_id lease_id worker_id status) Q s.
Proof.
  intros Hst HQ HR. unfold lock_current_status_claim.
  wp_steps; try by eapply HR; [eauto|eapply St_safe].
  bools. eapply HQ; [|done|done]. by split.
Qed.

(** ** The checks *)

(** The transition an update may take. *)
Record admitted (job : Job) (payload : JobStatusUpdate) : Prop := mkAdmitted {
  ad_transition : ∃ cur, j_status job = value cur ∧
    can_transition cur (su_status payload) true = true;
  ad_cancel : is_Some (j_cancel_requested_at job) → su_status payload = CANCELLED }.

Lemma wp_checked_target job payload (Q : result JobStatus → Session → Prop) s :
  (admitted job payload → Q (Ok (su_status payload)) s) →
  (∀ n text, Q (Raise (HTTPException n text)) s) →
  wp (checked_target job payload) Q s.
Proof using Type.
  intros HQ HR. unfold checked_target. wp_steps; try apply HR.
  match goal with Hv : validate_job_transition _ _ _ = inr _ |- _ => rename Hv into Hval end.
  unfold validate_job_transition in Hval. rewrite JobStatus_of_value in Hval.
  destruct (JobStatus_of (j_status job)) as [cur|] eqn:Hcur; [|done].
  destruct (can_transition cur (su_status payload) true) eqn:Htr; [|done].
  injection Hval as <-. apply HQ. split.
  - exists cur. split; [|done]. by apply JobStatus_of_Some in Hcur.
  - intros [x Hx]. rewrite Hx in *. simpl in *. by bools.
Qed.

Lemma wp_validate_epoch job epoch (Q : result () → Session → Prop) s :
  ((∀ n m, epoch = Some n → j_current_epoch job = Some m → m <= n) →
   (∀ n, epoch = Some n → n <= j_total_epoch job) → Q (Ok ()) s) →
  (∀ n text, Q (Raise (HTTPException n text)) s) →
  wp (validate_current_epoch job epoch) Q s.
Proof using Type.
  intros HQ HR. unfold validate_current_epoch. wp_steps; try apply HR; [|by apply HQ].
  apply HQ.
  - intros n m [= <-] Hm. rewrite Hm in *. bools. lia.
  - intros n [= <-]. bools. lia.
Qed.

(** ** The write fence *)

Lemma job_fence c id job : jobs c !! id = Some job → c <| jobs := <[id := job]> (jobs c) |> = c.
Proof using Type. intros Hj. destruct c; simpl in *. unfold setter; simpl. by rewrite insert_id. Qed.

Lemma wp_status_fence job_id attempt_id lease_id worker_id status
    (Q : result (JobLease * Job * JobAttempt * Worker) → Session → Prop) c L t i s :
  St I c c false None L t i s →
  (∀ claim L' t' s', status_claim c job_id attempt_id lease_id worker_id status t claim →
     t <= t' → St I c c true None L' t' i s' → Q (Ok claim) s') →
  (∀ e s', St I c c false None L t i s' → Q (Raise (DatabaseError e)) s') →
  (∀ e s', (∃ n text, e = HTTPException n text) → safe I s' → Q (Raise e) s') →
  wp (acquire_status_write_fence job_id attempt_id lease_id worker_id status) Q s.
Proof.
  intros Hst HQ HD HR. unfold acquire_status_write_fence. wp_step. wp_step; [by apply HD|].
  wp_step. wp_step.
  - match goal with Hj : jobs _ !! job_id = Some _ |- _ => rewrite (job_fence _ _ _ Hj) in Hst end.
    wp_step. wp_step; [done|]. by eapply wp_lock_status_claim_fenced.
  - wp_steps; [|done]. by eapply HR; [eauto|eapply St_safe].
Qed.

Lemma wp_fenced_claim claim job_id attempt_id lease_id worker_id status payload
    (Q : result (option (JobLease * Job * JobAttempt * Worker)) → Session → Prop) c L t i s now :
  St I c c false None L t i s → now <= t →
  status_claim c job_id attempt_id lease_id worker_id status now claim →
  a_id claim.1.2 = attempt_id → admitted claim.1.1.2 payload →
  (∀ claim b L' t' now' s', status_claim c job_id attempt_id lease_id worker_id status now' claim →
     admitted claim.1.1.2 payload → now <= now' <= t' →
     (is_terminal (su_status payload) = true → b = true) →
     St I c c b None L' t' i s' → Q (Ok (Some claim)) s') →
  (∀ c' s', St I c' c' false None ∅ t i s' → Q (Ok None) s') →
  (∀ e s', e ≠ RecursionError → safe I s' → Q (Raise e) s') →
  wp (fenced_claim claim job_id lease_id worker_id status payload (su_status payload)) Q s.
Proof.
  intros Hst Hnow Hclaim Hid Had HQ HN HR. unfold fenced_claim. destruct claim as [[[l j] a] w].
  simpl in Hid. subst attempt_id. wp_step.
  { wp_step. eapply HQ; [exact Hclaim|exact Had| | |exact Hst]; [lia|intros Ht; by rewrite Ht in *]. }
  wp_step. wp_step. apply wp_fmap. eapply wp_status_fence; [done|..].
  - intros [[[l' j'] a'] w'] L' t' s' Hc' Ht Hst'. wp_simpl. wp_step.
    apply wp_checked_target; [|intros; by eapply HR; [|eapply St_safe]]. intros Had'. wp_step.
    apply wp_validate_epoch; [|intros; by eapply HR; [|eapply St_safe]]. intros _ _. wp_step.
    by eapply HQ; [exact Hc'|exact Had'| |done|exact Hst'].
  - intros e s' Hst'. unfold on_db_error. wp_simpl.
    case_decide; [|by eapply HR; [|eapply St_safe]]. wp_steps. by eapply HN.
  - intros e s' (n & text & ->) Hsafe. wp_simpl. by apply HR.
Qed.

(** ** The writes *)

Record status_written (d d' : DB) (lease : JobLease) (job : Job) (attempt : JobAttempt) (w : Worker)
    (payload : JobStatusUpdate) (now : Z) : Prop := mkStatusWritten {
  sw_jobs : ∃ v, let job' := (updated_job job payload (su_status payload) now)
                               <| j_row_version := v |> in
    saved_over (jobs d) (j_id job) job' ∧ jobs d' = <[j_id job := job']> (jobs d);
  sw_attempts : attempts d' = <[a_id attempt :=
    updated_attempt attempt payload (j_status job) (su_status payload) now]> (attempts d);
  sw_logs : job_logs d' = job_logs d;
  sw_metrics : metrics d' = metrics d;
  sw_rest : rest_of d' = rest_of d;
  sw_closed : is_terminal (su_status payload) = true →
    leases d' = <[l_id lease := close_lease lease now]> (leases d) ∧
    ∃ v, workers d' = <[w_id w :=
      (w <| w_current_job_id := None |> <| w_status := "idle" |>) <| w_row_version := v |> ]>
        (workers d);
  sw_open : is_terminal (su_status payload) = false →
    leases d' = leases d ∧ workers d' = workers d }.

Lemma updated_job_id job payload target now : j_id (updated_job job payload target now) = j_id job.
Proof using Type. unfold updated_job. by destruct (su_current_epoch _); repeat case_bool_decide. Qed.

Lemma updated_job_status job payload target now :
  j_status (updated_job job payload target now) = value target.
Proof using Type. unfold updated_job. destruct (su_current_epoch _); simpl; repeat case_bool_decide; done. Qed.

Lemma updated_job_assignment job payload target now :
  j_current_attempt_id (updated_job job payload target now) = j_current_attempt_id job ∧
  j_worker_id (updated_job job payload target now) = j_worker_id job.
Proof using Type. unfold updated_job. by destruct (su_current_epoch _); repeat case_bool_decide. Qed.

Lemma updated_attempt_ids attempt payload previous target now :
  let a := updated_attempt attempt payload previous target now in
  a_id a = a_id attempt ∧ a_job_id a = a_job_id attempt ∧ a_worker_id a = a_worker_id attempt.
Proof using Type. unfold updated_attempt. by case_bool_decide; destruct (is_terminal _). Qed.

Lemma updated_attempt_status attempt payload previous target now :
  a_status attempt = previous →
  a_status (updated_attempt attempt payload previous target now) = value target.
Proof using Type.
  intros Hp. unfold updated_attempt. case_bool_decide; destruct (is_terminal _); simpl; congruence.
Qed.

Lemma updated_attempt_seal attempt payload previous target now :
  let a := updated_attempt attempt payload previous target now in
  if is_terminal target then
    a_finished_at a = Some now ∧ a_telemetry_log_count a = su_telemetry_log_count payload ∧
    a_telemetry_metric_count a = su_telemetry_metric_count payload
  else a_finished_at a = a_finished_at attempt ∧
    a_telemetry_log_count a = a_telemetry_log_count attempt ∧
    a_telemetry_metric_count a = a_telemetry_metric_count attempt.
Proof using Type. unfold updated_attempt. by destruct (is_terminal _); case_bool_decide. Qed.

Lemma wp_apply_status lease job attempt w payload now
    (Q : result (option string * JobLease) → Session → Prop) c b L t i s :
  St I c c b None L t i s →
  (∀ key lease' d' dm' L' t' s', status_written c d' lease job attempt w payload now → t <= t' →
     St I c d' true dm' L' t' i s' → Q (Ok (key, lease')) s') →
  (∀ e s', e ≠ RecursionError → safe I s' → Q (Raise e) s') →
  wp (apply_status_update settings lease job attempt w payload (su_status payload) now) Q s.
Proof.
  intros Hst HQ HR. unfold apply_status_update.
  destruct (is_terminal (su_status payload)) eqn:Hterm.
  - wp_steps.
    all: eapply (wp_enqueue_for_job settings); [apply (stable_outbox I)|done| |intros; by apply HR].
    all: intros d' dm' t' r s2 Hsame Hdm Ht Hst2; wp_step; eapply HQ; [|done|done].
    all: destruct (same_ledger_fields _ _ Hsame) as (Ew & Ej & Ea & El & Elg & Em & _).
    all: split; rewrite ?Ew, ?Ej, ?Ea, ?El; [eexists|simpl|done|done|by apply (same_ledger_rest _ _ Hsame)|intros _|congruence].
    all: simpl; rewrite ?updated_job_id in *; try (split; [exact Hversion|reflexivity]).
    all: try (destruct (updated_attempt_ids attempt payload (j_status job) (su_status payload) now)
      as (-> & _); reflexivity).
    all: split; [reflexivity|eexists; reflexivity].
  - wp_steps.
    all: eapply HQ; [|reflexivity|done].
    all: split; [eexists|simpl|done|done|done|congruence|done].
    all: simpl; rewrite ?updated_job_id in *; try (split; [exact Hversion|reflexivity]).
    all: destruct (updated_attempt_ids attempt payload (j_status job) (su_status payload) now)
      as (-> & _); reflexivity.
Qed.

End claims.

(** From a leased status, an allowed target is leased or terminal. *)
Lemma leased_target cur target :
  leased (value cur) → can_transition cur target true = true → is_terminal target = false →
  leased (value target).
Proof.
  rewrite !leased_value. intros (Hc & Hq & Hr) Htr Ht. split; [done|].
  by destruct cur; try done; destruct target; vm_compute in Htr; try done.
Qed.

Lemma terminal_not_leased target : is_terminal target = true → ¬ leased (value target).
Proof. rewrite leased_value. intros ->. naive_solver. Qed.

Lemma Inv_status d d' job_id attempt_id lease_id worker_id status now0 lease job attempt w payload
    now :
  Inv d → status_claim d job_id attempt_id lease_id worker_id status now0 (lease, job, attempt, w) →
  admitted job payload →
  (is_terminal (su_status payload) = true →
     counts_above d attempt_id (su_telemetry_log_count payload) (su_telemetry_metric_count payload)) →
  status_written d d' lease job attempt w payload now → Inv d'.
Proof.
  intros HInv Hclaim [(cur & Hcur & Htr) _] Hcounts [(v & _ & Hj) Ha Hlg Hm _ Hclosed Hopen].
  destruct (status_claim_assigned _ _ _ _ _ _ _ _ _ _ _ HInv Hclaim)
    as (Hact & _ & _ & Has & Hlid & Hjid & Haid & Hwid).
  pose proof Has as [Hjob Hatt Hwk Hrel Hca Hjw Hle Haj Haw Hfin Hst Hbusy].
  destruct Hclaim as [Hl _ _ _ _]. simpl in Hl. rewrite <-Hlid in Hl.
  destruct HInv as (HI & HS & HC). unfold Inv. rewrite Hj, Ha, Hlg, Hm.
  rewrite (job_ids _ _ _ _ HI _ _ Hjob), (attempt_ids _ _ _ _ HI _ _ Hatt).
  destruct (updated_job_assignment job payload (su_status payload) now) as [Ecur Ewk].
  destruct (updated_attempt_ids attempt payload (j_status job) (su_status payload) now)
    as (Eaid & Eaj & Eaw).
  pose proof (updated_attempt_seal attempt payload (j_status job) (su_status payload) now) as Hseal.
  cbv zeta in Hseal.
  destruct (is_terminal (su_status payload)) eqn:Hterm.
  - destruct (Hclosed eq_refl) as (-> & u & ->). destruct Hseal as (Efin & Elc & Emc).
    rewrite (worker_ids _ _ _ _ HI _ _ Hwk). split_and!.
    + apply (LedgerInv_release _ _ _ _ HI _ _ _ _ _ Hl Hact Has); try done.
      all: simpl; rewrite ?updated_job_id, ?updated_job_status, ?Eaid, ?Efin.
      all: first [done | by apply (job_ids _ _ _ _ HI) | by apply (attempt_ids _ _ _ _ HI)
        | by apply (worker_ids _ _ _ _ HI) | by apply terminal_not_leased].
    + intros k x [[<- <-]|[? Hx]]%lookup_insert_Some; [|by apply HS].
      rewrite Elc, Emc, Haid. by apply Hcounts.
    + by eapply CredInv_worker.
  - destruct (Hopen eq_refl) as (-> & ->). destruct Hseal as (Efin & Elc & Emc). split_and!.
    + apply (LedgerInv_progress _ _ _ _ HI _ _ _ _ _ Hl Hact Has); try done.
      all: simpl; rewrite ?updated_attempt_status, ?updated_job_id, ?updated_job_status, ?Eaid by done.
      all: first [congruence | by apply (job_ids _ _ _ _ HI) | by apply (attempt_ids _ _ _ _ HI)
        | eapply leased_target; [|done|done]; congruence].
    + by eapply SealInv_attempt.
    + done.
Qed.

Lemma updated_frames job attempt payload target now v :
  job_frame ((updated_job job payload target now) <| j_row_version := v |>) = job_frame job ∧
  j_attempt_count (updated_job job payload target now) = j_attempt_count job ∧
  attempt_frame (updated_attempt attempt payload (j_status job) target now) = attempt_frame attempt.
Proof.
  unfold updated_job, updated_attempt.
  by destruct (su_current_epoch _), (is_terminal _); repeat case_bool_decide.
Qed.

Lemma evolves_status d d' job_id attempt_id lease_id worker_id status now0 lease job attempt w payload
    now :
  Inv d → status_claim d job_id attempt_id lease_id worker_id status now0 (lease, job, attempt, w) →
  admitted job payload → status_written d d' lease job attempt w payload now → evolves d d'.
Proof.
  intros HInv Hclaim [(cur & Hcur & Htr) _] [(v & Hv & Hj) Ha Hlg Hm Hx Hclosed Hopen].
  destruct (status_claim_assigned _ _ _ _ _ _ _ _ _ _ _ HInv Hclaim)
    as (Hact & _ & _ & [] & Hlid & _).
  destruct Hclaim as [Hl _ _ _ _]. simpl in Hl. rewrite <-Hlid in Hl. destruct HInv as (HI & _).
  rewrite (job_ids _ _ _ _ HI _ _ as_job) in *.
  rewrite (attempt_ids _ _ _ _ HI _ _ as_attempt) in *.
  destruct (updated_frames job attempt payload (su_status payload) now v) as (Hfr & Hcount & Hafr).
  split; rewrite ?Hj, ?Ha, ?Hlg, ?Hm; [| | |done|done|by apply rest_step_same].
  - eapply jobs_step_save; [apply evolves_PreOrder|done| |done]. split; [done| |simpl; lia].
    simpl. rewrite updated_job_status, Hcur. by apply status_path_transition.
  - eapply attempts_step_update; [apply evolves_PreOrder|done|]. split; [done|].
    rewrite as_unfinished. by intros [].
  - destruct (is_terminal (su_status payload)) eqn:Hterm.
    + destruct (Hclosed eq_refl) as [-> _].
      eapply leases_step_update; [apply evolves_PreOrder|done|]. split; [done|done|congruence].
    + destruct (Hopen eq_refl) as [-> _]. apply evolves_PreOrder.
Qed.

(** ** The handler *)

Section handler.
  Variable samples_verified : Job → JobConfig → string → string → DB → option bool.

Section updates.
  Context (I : DB → Prop) `{!Stable I}.
  #[local] Set Default Proof Using "Stable0".

Lemma wp_check_completion job lease_id worker_id (Q : result () → Session → Prop) c d b dm L t i s :
  St I c d b dm L t i s → Q (Ok ()) s → (∀ n text, Q (Raise (HTTPException n text)) s) →
  wp (check_completion settings samples_verified job lease_id worker_id) Q s.
Proof. intros Hst HQ HR. unfold check_completion. wp_steps; auto. Qed.

(** The update took effect on the ledger [d], which became [d1], and then [d'] with the
    outbox. *)
Record status_done (d d1 d' : DB) (job_id worker_id : string) (payload : JobStatusUpdate) (t0 : Z)
    (attempt_id : string) (lease : JobLease) (job : Job) (attempt : JobAttempt) (w : Worker)
    (now : Z) : Prop := mkStatusDone {
  sd_inv : Inv d;
  sd_claim : ∃ now0, t0 <= now0 ∧ status_claim d job_id attempt_id (su_lease_id payload) worker_id
    (j_status job) now0 (lease, job, attempt, w);
  sd_admitted : admitted job payload;
  sd_artifacts : su_status payload = COMPLETED → required_artifacts_exist settings job d = true;
  sd_counts : is_terminal (su_status payload) = true →
    counts_above d attempt_id (su_telemetry_log_count payload) (su_telemetry_metric_count payload);
  sd_written : status_written d d1 lease job attempt w payload now;
  sd_outbox : same_ledger d1 d' }.

(** The runs left to a request with this [session.info]. *)
Definition runs_left (i : gmap string Z) : nat :=
  1 + (1 - Z.to_nat (default 0%Z (i !! "job_status_fence_retry"))) +
  (1 - Z.to_nat (default 0%Z (i !! "job_status_stale_retry"))).

Definition retries_ok (i : gmap string Z) : Prop :=
  0 <= default 0 (i !! "job_status_fence_retry") ∧ 0 <= default 0 (i !! "job_status_stale_retry").

Lemma wp_retry_once key (again : M StatusAck) (Q : result StatusAck → Session → Prop) c L t i s fuel :
  St I c c false None L t i s → retries_ok i → (runs_left i <= S fuel)%nat →
  key = "job_status_fence_retry" ∨ key = "job_status_stale_retry" →
  (∀ i' s', retries_ok i' → (runs_left i' <= fuel)%nat → (1 <= fuel)%nat →
     St I c c false None L t i' s' → wp again Q s') →
  (∀ e s', e ≠ RecursionError → safe I s' → Q (Raise e) s') →
  wp (retry_once key again) Q s.
Proof.
  intros Hst [Hf Hs] Hruns Hkey Hagain HR. unfold retry_once.
  wp_steps; [|by eapply HR; [|eapply St_safe]]. bools.
  unfold runs_left, retries_ok in *.
  destruct Hkey as [-> | ->]; eapply Hagain; try exact Hst;
    rewrite ?lookup_insert_eq, ?lookup_insert_ne by done; simpl in *; lia.
Qed.

Definition status_ok (Q : result StatusAck → Session → Prop) (job_id worker_id : string)
    (payload : JobStatusUpdate) (t : Z) : Prop :=
  ∀ d d1 attempt_id lease job attempt w now ack s', safe I s' → (d, d1) ∈ s_log s' →
    status_done d d1 (s_committed s') job_id worker_id payload t attempt_id lease job attempt w now →
    sa_status ack = su_status payload → Q (Ok ack) s'.

Lemma status_ok_later Q job_id worker_id payload t t' :
  t <= t' → status_ok Q job_id worker_id payload t → status_ok Q job_id worker_id payload t'.
Proof using Type.
  intros Ht HQ d d1 attempt_id lease job attempt w now ack s' Hsafe Hlog [? (n0 & ? & ?) ? ? ? ? ?].
  eapply HQ; [done|exact Hlog|]. split; try done. exists n0. split; [lia|done].
Qed.

Lemma wp_commit_status again job_id attempt_id worker_id payload lease job attempt w
    (Q : result StatusAck → Session → Prop) c b L t i s now0 t0 :
  St I c c b None L t i s → JobStatusUpdate_valid payload = true →
  (is_terminal (su_status payload) = true → b = true) → t0 <= now0 →
  status_claim c job_id attempt_id (su_lease_id payload) worker_id (j_status job) now0
    (lease, job, attempt, w) →
  a_id attempt = attempt_id → admitted job payload →
  status_ok Q job_id worker_id payload t0 →
  (∀ c' t' s', t <= t' → St I c' c' false None ∅ t' i s' →
     wp (retry_once "job_status_stale_retry" again) Q s') →
  (∀ e s', e ≠ RecursionError → safe I s' → Q (Raise e) s') →
  wp (commit_status_update settings again (lease, job, attempt, w) payload (su_status payload)) Q s.
Proof.
  intros Hst Hvalid Hb Ht0 Hclaim Haid Had HQ Hretry HR. unfold commit_status_update.
  wp_step. wp_step. wp_step. wp_step; [by eapply HR; [|eapply St_safe]|].
  match goal with Hf : _ && negb (required_artifacts_exist _ _ _) = false |- _ =>
    rename Hf into Hart end.
  assert (Bool.eqb (is_none (su_telemetry_log_count payload))
            (is_none (su_telemetry_metric_count payload)) = true) as Hboth
    by (unfold JobStatusUpdate_valid in Hvalid; by bools).
  ledger_inv HI. wp_step.
  assert ((is_terminal (su_status payload) = true → counts_above c attempt_id
     (su_telemetry_log_count payload) (su_telemetry_metric_count payload)) →
   wp (now ← utc_now; applied ← apply_status_update settings lease job attempt w payload
         (su_status payload) now; let '(event_key, lease') := applied in
       committed ← catch (_ ← commit; mret true)
         (on_db_error [StaleDataError] (_ ← rollback; mret false));
       if committed : bool then
         _ ← sync_after_commit settings event_key;
         mret (mkStatusAck (j_id job) (su_status payload)
           (if l_active lease' then Some (l_expires_at lease') else None))
       else retry_once "job_status_stale_retry" again) Q s) as Hrest.
  { intros Hcounts. wp_step. wp_step. wp_step.
    eapply (wp_apply_status I); [done| |done].
    intros key lease' d' dm' L2 t2 s2 Hwr Ht2 Hst2. wp_step. wp_step. wp_step.
    eapply wp_commit_logged; [done|..].
    - intros e s3 Hst3. unfold on_db_error. wp_simpl.
      destruct (decide (e ∈ [StaleDataError])); [|by eapply HR; [|eapply St_safe]].
      wp_step. wp_step. wp_step. eapply Hretry; [|done]. lia.
    - intros _. eapply stable_step; [by eapply st_inv|by eapply evolves_status|by eapply Inv_status].
    - intros s3 _ Hlog Hst3. wp_step. wp_step.
      eapply (wp_sync_logged settings I (stable_outbox I)); [done|exact Hlog| |intros; by apply HR].
      intros c4 L4 t4 s4 Hsame Hlog4 Hst4. wp_step. eapply HQ; [by eapply St_safe|exact Hlog4| |done].
      rewrite (st_committed _ _ _ _ _ _ _ _ _ Hst4).
      split; [exact HI|by exists now0|exact Had| |exact Hcounts|exact Hwr|exact Hsame].
      intros Hc. rewrite Hc, bool_decide_eq_true_2 in Hart by done. simpl in Hart. by bools. }
  wp_step.
  - eapply (wp_watermarks I); [done|done|intros Hc; apply Hrest; by rewrite <-Haid|].
    intros. by eapply HR; [|eapply St_safe].
  - apply Hrest. congruence.
Qed.
Lemma wp_update_status fuel job_id payload worker_id
    (Q : result StatusAck → Session → Prop) c L t i s :
  St I c c false None L t i s → JobStatusUpdate_valid payload = true →
  retries_ok i → (runs_left i <= fuel)%nat → status_ok Q job_id worker_id payload t →
  (∀ e s', e ≠ RecursionError → safe I s' → Q (Raise e) s') →
  wp (update_job_status settings samples_verified fuel job_id payload worker_id) Q s.
Proof.
  intros Hst Hvalid Hret Hruns HQ HR. revert c L t i s Hst Hret Hruns HQ.
  induction fuel as [|fuel IH]; intros c L t i s Hst Hret Hruns HQ.
  { unfold runs_left in Hruns. lia. }
  simpl. wp_step. eapply (wp_require_active_lease I); [done| |done].
  intros c1 L1 lease1 t1 s1 Hlc Ht1 _ Hst1. ledger_inv HI1. wp_step. wp_step. wp_step. wp_step.
  wp_step; [|wp_steps; by eapply HR; [|eapply St_safe]]. rename j into job1.
  wp_step; [|wp_steps; by eapply HR; [|eapply St_safe]]. rename j into attempt1.
  wp_step. wp_step; [by eapply HR; [|eapply St_safe]|]. wp_step.
  apply wp_validate_epoch; [|intros; by eapply HR; [|eapply St_safe]]. intros _ _. wp_step.
  apply wp_checked_target; [|intros; by eapply HR; [|eapply St_safe]]. intros _. wp_step.
  match goal with |- wp _ ?K s1 => assert (K (Ok ()) s1) as Hrest end.
  2: { wp_step; [|done]. eapply wp_check_completion; [done|done|].
       intros. by eapply HR; [|eapply St_safe]. }
  wp_step. eapply (wp_lock_status_claim I); [done| |done].
  intros [[[lease2 job2] attempt2] w2] c2 L2 t2 s2 Hc2 Ht2 _ Hst2. wp_step.
  apply wp_checked_target; [|intros; by eapply HR; [|eapply St_safe]]. intros Had2. wp_step.
  apply wp_validate_epoch; [|intros; by eapply HR; [|eapply St_safe]]. intros _ _. wp_step.
  assert (a_id attempt2 = a_id attempt1) as Haid.
  { destruct Hc2. by apply (attempt_ids _ _ _ _ (proj1 (stable_inv _ (st_inv _ _ _ _ _ _ _ _ _ Hst2)))). }
  eapply (wp_fenced_claim I); [done| |done|done|done| |..|done]; [done| |].
  - intros [[[lease3 job3] attempt3] w3] b L3 t3 now3 s3 Hc3 Had3 Hnow3 Hb3 Hst3. wp_simpl.
    assert (a_id attempt3 = a_id attempt1) as Haid3.
    { destruct Hc3. by apply (attempt_ids _ _ _ _ (proj1 (stable_inv _ (st_inv _ _ _ _ _ _ _ _ _ Hst3)))). }
    pose proof (status_claim_assigned _ _ _ _ _ _ _ _ _ _ _
      (stable_inv _ (st_inv _ _ _ _ _ _ _ _ _ Hst3)) Hc3) as (_ & _ & Hjst & _).
    eapply (wp_commit_status _ job_id (a_id attempt1)); [done|done|done| | |done|done| | |done].
    + instantiate (1 := now3). instantiate (1 := t1). lia.
    + by rewrite Hjst.
    + by eapply status_ok_later.
    + intros c4 t4 s4 Ht4 Hst4.
      eapply wp_retry_once; [done|done|done|by right| |done]. intros i' s5 Hr' Hruns' _ Hst5.
      eapply IH; [done|done|done|]. eapply status_ok_later; [|done]. lia.
  - intros c3 s3 Hst3. wp_simpl.
    eapply wp_retry_once; [done|done|done|by left| |done]. intros i' s5 Hr' Hruns' _ Hst5.
    eapply IH; [done|done|done|]. eapply status_ok_later; [|done]. lia.
Qed.
End updates.

(** What a status update with enough fuel does. *)
Lemma update_status_outcome fuel job_id payload worker_id s :
  fresh_session Inv s → s_info s = ∅ → (3 <= fuel)%nat → JobStatusUpdate_valid payload = true →
  let m := update_job_status settings samples_verified fuel job_id payload worker_id in
  outcome m s ≠ Raise RecursionError ∧ Inv (after m s) ∧
  (∀ ack, outcome m s = Ok ack → sa_status ack = su_status payload ∧
     ∃ d d1 attempt_id lease job attempt w now, committed m s d d1 ∧
       status_done d d1 (after m s) job_id worker_id payload (s_clock s) attempt_id lease job attempt
         w now).
Proof.
  intros Hfresh Hinfo Hfuel Hvalid m.
  assert (wp m (λ r s', r ≠ Raise RecursionError ∧ Inv (s_committed s') ∧
     ∀ ack, r = Ok ack → sa_status ack = su_status payload ∧
       ∃ d d1 attempt_id lease job attempt w now, (d, d1) ∈ s_log s' ∧
         status_done d d1 (s_committed s') job_id worker_id payload (s_clock s) attempt_id lease job
           attempt w now) s) as Hwp.
  { eapply (wp_update_status Inv); [by apply fresh_St|done| | | |].
    - rewrite Hinfo. done.
    - rewrite Hinfo. unfold runs_left. rewrite !lookup_empty. simpl. lia.
    - intros d d1 attempt_id lease job attempt w now ack s' [? _] Hlog Hd Hs. split; [done|].
      split; [done|]. intros ? [= <-]. split; [done|].
      by exists d, d1, attempt_id, lease, job, attempt, w, now.
    - intros e s' He [? _]. split; [congruence|]. done. }
  exact Hwp.
Qed.

(** C4: a status update is accepted only from the holder of the Job. In the database that the
    update is committed on, the lease it names is active and unexpired and assigns the Job
    to the calling Worker, the transition from the Job's status is allowed, a Job whose
    cancellation was requested only moves to CANCELLED, COMPLETED has its required
    artifacts; and the Job then has the requested status. *)
Theorem status_update_requires_current_claim fuel job_id payload worker_id s ack :
  fresh_session Inv s → s_info s = ∅ → (3 <= fuel)%nat → JobStatusUpdate_valid payload = true →
  let m := update_job_status settings samples_verified fuel job_id payload worker_id in
  outcome m s = Ok ack →
  ∃ d d1 lease job attempt w cur,
    committed m s d d1 ∧ same_ledger d1 (after m s) ∧
    assigned (workers d) (jobs d) (attempts d) lease job attempt w ∧
    leases d !! su_lease_id payload = Some lease ∧ l_active lease = true ∧
    s_clock s < l_expires_at lease ∧ l_job_id lease = job_id ∧ l_worker_id lease = worker_id ∧
    j_status job = value cur ∧ can_transition cur (su_status payload) true = true ∧
    (is_Some (j_cancel_requested_at job) → su_status payload = CANCELLED) ∧
    (su_status payload = COMPLETED → required_artifacts_exist settings job d = true) ∧
    j_status <$> jobs (after m s) !! job_id = Some (value (sa_status ack)) ∧
    sa_status ack = su_status payload.
Proof.
  intros Hfresh Hinfo Hfuel Hvalid m Hout.
  destruct (update_status_outcome fuel job_id payload worker_id s Hfresh Hinfo Hfuel Hvalid)
    as (_ & _ & Hok).
  destruct (Hok ack Hout) as (Hack & d & d1 & aid & lease & job & attempt & w & now & Hlog & Hd).
  fold m in Hd, Hlog. destruct Hd as [HI (n0 & Hn0 & Hc) [(cur & Hcur & Htr) Hcan] Hart _ Hw Hsame].
  destruct (status_claim_assigned _ _ _ _ _ _ _ _ _ _ _ HI Hc)
    as (Hact & Hexp & _ & Has & _ & Hjid & _ & Hwid).
  exists d, d1, lease, job, attempt, w, cur. split_and!; try done; [by destruct Hc|lia|].
  destruct (same_ledger_fields _ _ Hsame) as (_ & Ej & _). destruct Hw as [(v & _ & Hj) _ _ _ _ _ _].
  destruct Has as [Hjob _ _ _ _ _ _ _ _ _ _ _]. rewrite Ej, Hj.
  rewrite (job_ids _ _ _ _ (proj1 HI) _ _ Hjob), Hjid, lookup_insert_eq. simpl.
  by rewrite updated_job_status, Hack.
Qed.

(** C5: a terminal status update releases the assignment and seals the telemetry.
    Afterwards the Job is in the final status, the Worker is idle without a Job, no active
    lease names the Job or the Worker, the attempt is finished with the reported counts,
    and every log line and metric stored for it is below them. *)
Theorem terminal_update_releases_and_seals fuel job_id payload worker_id s ack :
  fresh_session Inv s → s_info s = ∅ → (3 <= fuel)%nat → JobStatusUpdate_valid payload = true →
  is_terminal (su_status payload) = true →
  outcome (update_job_status settings samples_verified fuel job_id payload worker_id) s = Ok ack →
  let d' := after (update_job_status settings samples_verified fuel job_id payload worker_id) s in
  j_status <$> jobs d' !! job_id = Some (value (su_status payload)) ∧
  (∃ worker, workers d' !! worker_id = Some worker ∧ w_current_job_id worker = None ∧
     w_status worker = "idle") ∧
  (∀ k l, leases d' !! k = Some l → l_active l = true →
     l_job_id l ≠ job_id ∧ l_worker_id l ≠ worker_id) ∧
  ∃ attempt_id attempt, attempts d' !! attempt_id = Some attempt ∧
    a_job_id attempt = job_id ∧ is_Some (a_finished_at attempt) ∧
    a_status attempt = value (su_status payload) ∧
    a_telemetry_log_count attempt = su_telemetry_log_count payload ∧
    a_telemetry_metric_count attempt = su_telemetry_metric_count payload ∧
    counts_above d' attempt_id (su_telemetry_log_count payload) (su_telemetry_metric_count payload).
Proof.
  intros Hfresh Hinfo Hfuel Hvalid Hterm Hout d'.
  destruct (update_status_outcome fuel job_id payload worker_id s Hfresh Hinfo Hfuel Hvalid)
    as (_ & HI' & Hok).
  destruct (Hok ack Hout) as (_ & d & d1 & aid & lease & job & attempt & w & now & _ & Hd).
  fold d' in Hd, HI'. destruct Hd as [HI (n0 & _ & Hc) _ _ _ Hw Hsame].
  destruct (status_claim_assigned _ _ _ _ _ _ _ _ _ _ _ HI Hc)
    as (Hact & _ & _ & Has & _ & Hjid & Haid & Hwid).
  destruct (same_ledger_fields _ _ Hsame) as (Ew & Ej & Ea & _).
  destruct Hw as [(v & _ & Hj) Ha _ _ _ Hclosed _]. destruct (Hclosed Hterm) as (_ & u & Hwk).
  pose proof Has as [Hjob Hatt Hwrow _ _ _ _ Haj _ _ Hst _].
  assert (j_id job = job_id) as Ejid by by rewrite (job_ids _ _ _ _ (proj1 HI) _ _ Hjob).
  assert (w_id w = worker_id) as Ewid by by rewrite (worker_ids _ _ _ _ (proj1 HI) _ _ Hwrow).
  pose proof (attempt_ids _ _ _ _ (proj1 HI) _ _ Hatt) as Eaid.
  assert (∃ row, jobs d' !! job_id = Some row ∧ j_status row = value (su_status payload))
    as (row & Hrow & Hstatus).
  { eexists. rewrite Ej, Hj, Ejid, lookup_insert_eq. split; [done|]. simpl. apply updated_job_status. }
  assert (∃ row, workers d' !! worker_id = Some row ∧ w_current_job_id row = None ∧
    w_status row = "idle") as (wrow & Hwr & Hfree & Hidle).
  { eexists. by rewrite Ew, Hwk, Ewid, lookup_insert_eq. }
  split; [rewrite Hrow; simpl; by rewrite Hstatus|]. split; [by exists wrow|]. split.
  - intros k l Hl Hal. destruct (lease_assigned _ _ _ _ (proj1 HI') _ _ Hl Hal) as (j & a & x & Hasl).
    destruct Hasl as [Hjl _ Hwl _ _ _ Hle _ _ _ _ Hb]. split; intros Heq.
    + rewrite Heq, Hrow in Hjl. injection Hjl as <-. rewrite Hstatus in Hle.
      by apply (terminal_not_leased _ Hterm).
    + rewrite Heq, Hwr in Hwl. injection Hwl as <-. by rewrite Hfree in Hb.
  - pose proof (updated_attempt_seal attempt payload (j_status job) (su_status payload) now) as Hs.
    cbv zeta in Hs. rewrite Hterm in Hs. destruct Hs as (Efin & Elc & Emc).
    destruct (updated_attempt_ids attempt payload (j_status job) (su_status payload) now)
      as (_ & Eaj & _).
    eexists aid, _. rewrite Ea, Ha, Eaid, Haid, lookup_insert_eq. split; [done|].
    split; [congruence|]. split; [by rewrite Efin|]. split; [by apply updated_attempt_status|].
    split; [done|]. split; [done|].
    destruct HI' as (_ & HS & _). rewrite <-Elc, <-Emc. apply HS.
    by rewrite Ea, Ha, Eaid, Haid, lookup_insert_eq.
Qed.

(** C37: a status update restarts at most twice. Whatever errors its fence and its
    commits raise, it ends within three runs of the handler. *)
Theorem status_update_terminates fuel job_id payload worker_id s :
  fresh_session Inv s → s_info s = ∅ → (3 <= fuel)%nat → JobStatusUpdate_valid payload = true →
  outcome (update_job_status settings samples_verified fuel job_id payload worker_id) s
    ≠ Raise RecursionError.
Proof. intros. by apply update_status_outcome. Qed.
End handler.
End status.

(** ** Witnesses *)

#[local] Existing Instances sample_parser sample_capabilities_parser sample_platform.

Definition no_samples : Job → JobConfig → string → string → DB → option bool :=
  λ _ _ _ _ _, Some false.

Definition sample_progress : JobStatusUpdate :=
  mkJobStatusUpdate "id-1" DOWNLOADING_DATASET ten_minutes None None None None None.
Definition sample_failure : JobStatusUpdate :=
  mkJobStatusUpdate "id-1" FAILED ten_minutes None (Some 0) (Some 0) (Some "engine")
    (Some "training stopped").

Definition sample_update (payload : JobStatusUpdate) : M StatusAck :=
  update_job_status sample_settings no_samples 3 "j-1" payload "w-1".

Lemma sample_progress_ok : ∃ ack, outcome (sample_update sample_progress) busy_session = Ok ack.
Proof. apply ok_present. vm_compute. reflexivity. Qed.

(** The Job after its Worker has failed it. *)
Definition failure_run : result StatusAck * DB :=
  Eval vm_compute in run_result (sample_update sample_failure) busy_session.

Lemma failure_run_eq : run_result (sample_update sample_failure) busy_session = failure_run.
Proof. vm_compute. reflexivity. Qed.

Definition failed_db : DB := failure_run.2.

Lemma sample_failure_ok : ∃ ack, outcome (sample_update sample_failure) busy_session = Ok ack.
Proof. rewrite (run_outcome _ _ _ failure_run_eq). by eexists. Qed.

Lemma failed_db_Inv : Inv failed_db.
Proof.
  unfold failed_db. rewrite <-(run_after _ _ _ failure_run_eq).
  destruct (update_status_outcome sample_settings no_samples 3 "j-1" sample_failure "w-1"
    busy_session busy_session_fresh eq_refl (le_n 3) eq_refl) as (_ & HI & _).
  exact HI.
Qed.

Lemma status_update_requires_current_claim_witness :
  j_status <$> jobs (after (sample_update sample_progress) busy_session) !! "j-1"
  = Some (value DOWNLOADING_DATASET).
Proof.
  destruct sample_progress_ok as [ack Hout].
  destruct (status_update_requires_current_claim sample_settings no_samples 3 "j-1"
    sample_progress "w-1" busy_session ack busy_session_fresh eq_refl (le_n 3) eq_refl Hout)
    as (d & d1 & lease & job & attempt & w & cur & _ & _ & _ & _ & _ & _ & _ & _ & _ & _ & _ & _ & Hjob
      & Hack).
  rewrite Hack in Hjob. exact Hjob.
Defined.

Lemma terminal_update_releases_and_seals_witness :
  ∃ ack, outcome (sample_update sample_failure) busy_session = Ok ack ∧
  ∀ k l, leases (after (sample_update sample_failure) busy_session) !! k = Some l →
    l_active l = true → l_job_id l ≠ "j-1" ∧ l_worker_id l ≠ "w-1".
Proof.
  destruct sample_failure_ok as [ack Hout]. exists ack. split; [exact Hout|].
  destruct (terminal_update_releases_and_seals sample_settings no_samples 3 "j-1"
    sample_failure "w-1" busy_session ack busy_session_fresh eq_refl (le_n 3) eq_refl eq_refl Hout)
    as (_ & _ & Hno & _).
  exact Hno.
Defined.

(** Three commits in a row fail: a stale row, a refused fence, a stale row. *)
Definition contended_session : Session :=
  busy_session <| s_outcomes :=
    [None; Some StaleDataError; Some OperationalError; None; Some StaleDataError] |>.

Lemma contended_session_fresh : fresh_session Inv contended_session.
Proof. apply fresh_session_outcomes, busy_session_fresh. Qed.

Lemma status_update_terminates_witness :
  outcome (sample_update sample_failure) contended_session ≠ Raise RecursionError.
Proof.
  exact (status_update_terminates sample_settings no_samples 3 "j-1" sample_failure "w-1"
    contended_session contended_session_fresh eq_refl (le_n 3) eq_refl).
Defined.
