(* ===== verification/TelemetryCorrect.v ===== *)
(** * Correctness of telemetry ingestion

    A batch is accepted only for the active claim of its Worker or below the watermarks
    of its finished attempt; what an answer reports as accepted is stored; a key that
    was accepted once is answered as a duplicate, or refused when the payload differs,
    and changes nothing. *)

From S2P Require Import Prelude Sha256 Json JobStatus JobConfig WorkerContract DateTime Settings.
From S2P Require Import Ledger Session Wp JobConfigLedger TestSets Redaction Mlflow WorkerTokens.
From S2P Require Import Evolution LeaseService WorkerRoutes StatusUpdate TelemetryIngest.
From S2P Require Import LedgerInvariant.
From S2P Require Import LeaseRecovery LeaseClaim Fixtures LeaseProperties WorkerTokensCorrect.
From S2P Require Import WorkerRoutesCorrect StatusUpdateCorrect.

(** The rows of a batch's claim, as they were checked. *)
Record telemetry_claim (d : DB) (worker_id job_id lease_id attempt_id : string) (kind : batch_kind)
    (sequences : list Z) (now : Z) (claim : JobLease * Job * JobAttempt * bool) : Prop :=
    mkTelemetryClaim {
  tc_lease : leases d !! lease_id = Some claim.1.1.1;
  tc_job : jobs d !! job_id = Some claim.1.1.2;
  tc_attempt : attempts d !! attempt_id = Some claim.1.2;
  tc_of : l_job_id claim.1.1.1 = job_id ∧ l_worker_id claim.1.1.1 = worker_id ∧
    l_attempt_id claim.1.1.1 = attempt_id ∧ a_job_id claim.1.2 = job_id ∧
    a_worker_id claim.1.2 = worker_id;
  tc_active : claim.2 = false → l_active claim.1.1.1 = true ∧ now < l_expires_at claim.1.1.1 ∧
    a_finished_at claim.1.2 = None ∧ a_telemetry_log_count claim.1.2 = None ∧
    a_telemetry_metric_count claim.1.2 = None ∧ j_current_attempt_id claim.1.1.2 = Some attempt_id;
  tc_late : claim.2 = true → l_active claim.1.1.1 = false ∧ is_Some (a_finished_at claim.1.2) ∧
    ∃ log_count metric_count, a_telemetry_log_count claim.1.2 = Some log_count ∧
      a_telemetry_metric_count claim.1.2 = Some metric_count ∧
      Forall (λ seq, seq < match kind with logs_batch => log_count
                           | metrics_batch => metric_count end) sequences }.

Section lock.
  Context `{ContractParser}.
  Variable I : DB → Prop.

Lemma wp_check_watermark kind sequences attempt (Q : result () → Session → Prop) s :
  (∀ log_count metric_count, a_telemetry_log_count attempt = Some log_count →
     a_telemetry_metric_count attempt = Some metric_count →
     Forall (λ seq, seq < match kind with logs_batch => log_count
                          | metrics_batch => metric_count end) sequences → Q (Ok ()) s) →
  (∀ n text, Q (Raise (HTTPException n text)) s) →
  wp (check_watermark kind sequences attempt) Q s.
Proof.
  intros HQ HR. unfold check_watermark. wp_steps; try apply HR.
  eapply HQ; [done|done|]. apply Forall_forall. intros seq Hin.
  match goal with H : existsb _ _ = false |- _ => rename H into He end.
  destruct (Z.ltb_spec seq (match kind with logs_batch => z | metrics_batch => z0 end)); [done|].
  assert (existsb (λ sequence, (match kind with logs_batch => z | metrics_batch => z0 end)
    <=? sequence) sequences = true) as Ht; [|congruence].
  apply existsb_exists. exists seq. split; [by apply list_elem_of_In|]. by apply Z.leb_le.
Qed.

Lemma wp_judge_claim worker_id job_id lease_id attempt_id kind sequences lease job attempt w
    (Q : result (JobLease * Job * JobAttempt * bool) → Session → Prop) c d b dm L t i s :
  St I c d b dm L t i s →
  leases d !! lease_id = Some lease → l_job_id lease = job_id → l_worker_id lease = worker_id →
  l_attempt_id lease = attempt_id → jobs d !! job_id = Some job →
  attempts d !! attempt_id = Some attempt → a_job_id attempt = job_id →
  a_worker_id attempt = worker_id →
  (∀ claim t' s',
     telemetry_claim d worker_id job_id lease_id attempt_id kind sequences t claim → t <= t' →
     St I c d b dm L t' i s' → Q (Ok claim) s') →
  (∀ n text s', safe I s' → Q (Raise (HTTPException n text)) s') →
  wp (judge_telemetry_claim worker_id job_id attempt_id kind sequences lease job attempt w) Q s.
Proof.
  intros Hst Hl Hlj Hlw Hla Hj Ha Haj Haw HQ HR. unfold judge_telemetry_claim. wp_step.
  - wp_steps; try by eapply HR, St_safe. bools.
    match goal with H : active_claim_ok _ _ _ _ _ _ = true |- _ =>
      unfold active_claim_ok in H; bools end.
    eapply HQ; [|done|done]. split; simpl; [done|done|done|by split_and!| |done].
    intros _. by split_and!.
  - wp_step. wp_step; [by eapply HR, St_safe|]. wp_step.
    apply wp_check_watermark; [|intros; by eapply HR, St_safe]. intros n m Hn Hm Hall. wp_step.
    bools. eapply HQ; [|done|done]. split; simpl; [done|done|done|by split_and!|done|].
    intros _. split_and!; [done| |by exists n, m].
    destruct (a_finished_at _); [by eexists|done].
Qed.

(** The filter of the lease query. *)
Lemma lease_of_Some d lease_id job_id worker_id lease :
  (l ← leases d !! lease_id;
   if ⌊ l_job_id l = job_id ⌋ && ⌊ l_worker_id l = worker_id ⌋ then Some l else None) = Some lease →
  leases d !! lease_id = Some lease ∧ l_job_id lease = job_id ∧ l_worker_id lease = worker_id.
Proof.
  destruct (leases d !! lease_id) as [l|]; [|done]. simpl.
  destruct (_ && _) eqn:Hb; [|done]. intros [= ->]. by bools.
Qed.

Lemma wp_lock_telemetry worker_id job_id lease_id attempt_id kind sequences
    (Q : result (JobLease * Job * JobAttempt * bool) → Session → Prop) c L t i s :
  St I c c false None L t i s →
  (∀ claim c' L' t' s',
     telemetry_claim c' worker_id job_id lease_id attempt_id kind sequences t claim → t <= t' →
     St I c' c' false None L' t' i s' → Q (Ok claim) s') →
  (∀ n text s', safe I s' → Q (Raise (HTTPException n text)) s') →
  wp (lock_telemetry_claim worker_id job_id lease_id attempt_id kind sequences) Q s.
Proof.
  intros Hst HQ HR. unfold lock_telemetry_claim. wp_step. wp_step.
  wp_step; [|wp_step; by eapply HR, St_safe].
  match goal with H : _ = Some _ |- _ => apply lease_of_Some in H as (Hl & Hlj & Hlw) end.
  wp_step. wp_step; [by eapply HR, St_safe|]. do 6 wp_step.
  wp_step; [|wp_steps; by eapply HR, St_safe]. wp_step; [|wp_steps; by eapply HR, St_safe].
  wp_step; [|wp_steps; by eapply HR, St_safe]. wp_step. wp_step; [by eapply HR, St_safe|].
  wp_step; [wp_steps; by eapply HR, St_safe|]. settle_rows. bools.
  eapply wp_judge_claim; eauto.
Qed.

(** The same on rows already locked and fenced. *)
Lemma wp_lock_telemetry_fenced worker_id job_id lease_id attempt_id kind sequences
    (Q : result (JobLease * Job * JobAttempt * bool) → Session → Prop) c L t i s :
  St I c c true None L t i s →
  (∀ claim L' t' s',
     telemetry_claim c worker_id job_id lease_id attempt_id kind sequences t claim → t <= t' →
     St I c c true None L' t' i s' → Q (Ok claim) s') →
  (∀ n text s', safe I s' → Q (Raise (HTTPException n text)) s') →
  wp (lock_telemetry_claim worker_id job_id lease_id attempt_id kind sequences) Q s.
Proof.
  intros Hst HQ HR. unfold lock_telemetry_claim. wp_step. wp_step.
  wp_step; [|wp_step; by eapply HR, St_safe].
  match goal with H : _ = Some _ |- _ => apply lease_of_Some in H as (Hl & Hlj & Hlw) end.
  wp_step. wp_step; [by eapply HR, St_safe|]. do 6 wp_step.
  wp_step; [|wp_steps; by eapply HR, St_safe]. wp_step; [|wp_steps; by eapply HR, St_safe].
  wp_step; [|wp_steps; by eapply HR, St_safe]. wp_step. wp_step; [by eapply HR, St_safe|].
  wp_step; [wp_steps; by eapply HR, St_safe|]. bools. eapply wp_judge_claim; eauto.
Qed.

(** ** The write fence *)

Lemma wp_telemetry_fence worker_id job_id lease_id attempt_id kind sequences
    (Q : result (JobLease * Job * JobAttempt) → Session → Prop) c L t i s :
  St I c c false None L t i s →
  (∀ lease job attempt now L' t' s', telemetry_claim c worker_id job_id lease_id attempt_id kind
       sequences now (lease, job, attempt, false) → t <= now <= t' →
     j_cancel_requested_at job = None →
     St I c c true None L' t' i s' → Q (Ok (lease, job, attempt)) s') →
  (∀ e s', e ≠ RecursionError → safe I s' → Q (Raise e) s') →
  wp (acquire_active_telemetry_write_fence worker_id job_id lease_id attempt_id kind sequences) Q s.
Proof.
  intros Hst HQ HR. unfold acquire_active_telemetry_write_fence, retryable_fence_conflict.
  wp_step. wp_step. wp_step. wp_step. wp_step.
  { unfold on_db_error. wp_simpl. destruct (decide (e ∈ [OperationalError]));
      [|by eapply HR; [|eapply St_safe]]. wp_steps. by eapply HR; [|eapply St_safe]. }
  wp_step. wp_step. wp_step. wp_step.
  - match goal with Hj : jobs _ !! job_id = Some _ |- _ => rewrite (job_fence _ _ _ Hj) in Hst end.
    wp_step. wp_step; [done|]. wp_step. eapply wp_lock_telemetry_fenced; [done| |].
    + intros [[[lease' job'] attempt'] late] L' t2 s2 Hc Ht Hst2. wp_simpl. wp_step.
      wp_step; [wp_step; by eapply HR; [|eapply St_safe]|]. bools. destruct late; [done|]. wp_step.
      eapply HQ; [exact Hc| | |exact Hst2]; [lia|]. by destruct (j_cancel_requested_at job').
    + intros. by apply HR.
  - wp_step. wp_step; [|done]. wp_step. by eapply HR; [|eapply St_safe].
Qed.

(** ** Insertion *)

Lemma wp_add_all `{Platform} {A} (taken : string * A → DB → bool) (put : string * A → DB → DB)
    xs (Q : result () → Session → Prop) c d b dm L t i s :
  St I c d b dm L t i s →
  (∀ ids b' dm' s', length ids = length xs → (dm' = None → dm = None) →
     St I c (foldl (λ d x, put x d) d (zip ids xs)) b' dm' L t i s' → Q (Ok ()) s') →
  wp (for_each xs (λ x, id ← new_id; add_unique (taken (id, x)) (put (id, x)))) Q s.
Proof.
  revert d b dm s Q. induction xs as [|x xs IH]; intros d b dm s Q Hst HQ; simpl; wp_step.
  - by eapply (HQ []).
  - do 3 wp_step. wp_simpl. eapply IH; [done|]. intros ids b2 dm2 s3 Hlen Hdm2 Hst2. eapply (HQ (_ :: ids)); [simpl; by rewrite Hlen| |exact Hst2]. naive_solver.
Qed.

Lemma wp_commit_batch (Q : result bool → Session → Prop) c d b dm L t i s :
  St I c d b dm L t i s → (dm = None → commits I c d) →
  (∀ s', (c, d) ∈ s_log s' → St I d d false None ∅ t i s' → Q (Ok true) s') →
  (∀ c' s', St I c' c' false None ∅ t i s' → Q (Ok false) s') →
  (∀ n text s', safe I s' → Q (Raise (HTTPException n text)) s') → wp commit_batch Q s.
Proof.
  intros Hst HI HT HF HR. unfold commit_batch, retryable_fence_conflict. wp_step. wp_step.
  eapply wp_commit_logged; [done| |done|].
  - intros [] s' Hst'; wp_steps; first [by eapply HF | by eapply HR, St_safe].
  - intros s' _ Hlog Hst'. wp_step. by apply HT.
Qed.

Lemma wp_raced worker_id job_id lease_id attempt_id key kind sequences fp
    (Q : result () → Session → Prop) c L t i s :
  St I c c false None L t i s →
  (∀ b c' t' s', find_ingest_batch attempt_id (batch_type kind) key c = Some b →
     b_payload_fingerprint b = Some fp → St I c' c' false None ∅ t' i s' → Q (Ok ()) s') →
  (∀ n text s', safe I s' → Q (Raise (HTTPException n text)) s') →
  wp (raced_replay worker_id job_id lease_id attempt_id key kind sequences fp) Q s.
Proof.
  intros Hst HQ HR. unfold raced_replay, validate_batch_replay. wp_step. wp_step.
  wp_step; [|wp_step; by eapply HR, St_safe]. wp_step. wp_step; [by eapply HR, St_safe|].
  bools. wp_step. eapply wp_lock_telemetry; [done| |done].
  intros claim c' L' t' s' _ _ Hst'. wp_simpl. wp_step. by eapply HQ.
Qed.
End lock.

(** ** Log batches *)

Section logs.
  Context `{ContractParser} `{LogTextRedactor} `{Platform}.

(** The fingerprint of a batch, when it is canonical JSON. *)
Definition log_fingerprint (payload : LogBatch) : option string :=
  sha256_hex <$> json_dumps (JArray (map log_document (lb_entries payload))).

(** The entries of the batch that are not stored yet. *)
Definition new_logs (d : DB) (payload : LogBatch) : list LogEntry :=
  List.filter (λ entry, is_none (job_logs d !! (lb_attempt_id payload, le_sequence entry)))
    (lb_entries payload).

(** The batch takes effect on [d], which becomes [d']. *)
Record logs_accepted (d d' : DB) (job_id worker_id : string) (payload : LogBatch) (t0 : Z)
    (fingerprint : string) : Prop := mkLogsAccepted {
  la_fingerprint : log_fingerprint payload = Some fingerprint;
  la_unseen : find_ingest_batch (lb_attempt_id payload) "logs" (lb_idempotency_key payload) d = None;
  la_claim : ∃ now claim, t0 <= now ∧ telemetry_claim d worker_id job_id (lb_lease_id payload)
    (lb_attempt_id payload) logs_batch (map le_sequence (lb_entries payload)) now claim;
  la_agree : Forall (λ entry, ∀ stored,
    job_logs d !! (lb_attempt_id payload, le_sequence entry) = Some stored →
    log_entry_matches stored entry = true) (lb_entries payload);
  la_after : ∃ ids, length ids = length (new_logs d payload) ∧ d' =
    put_batch (mkIngestBatch job_id (lb_attempt_id payload) "logs" (lb_idempotency_key payload)
                 (Some fingerprint) (Zlength (new_logs d payload)))
      (foldl (λ d line, put_log job_id (lb_attempt_id payload) line d) d (zip ids (new_logs d payload))) }.

Section handler.
  Variable I : DB → Prop.

Lemma wp_log_fingerprint payload (Q : result string → Session → Prop) s :
  (∀ fp, log_fingerprint payload = Some fp → Q (Ok fp) s) →
  (∀ n text, Q (Raise (HTTPException n text)) s) → wp (log_batch_fingerprint payload) Q s.
Proof.
  intros HQ HR. unfold log_batch_fingerprint, canonical_fingerprint. unfold log_fingerprint in HQ.
  destruct (json_dumps _); wp_step; [by apply HQ|apply HR].
Qed.

Lemma wp_for_each_check {A} (f : A → M ()) (P : A → Prop) xs (Q : result () → Session → Prop) s :
  (∀ x (R : result () → Session → Prop), (P x → R (Ok ()) s) →
     (∀ n text, R (Raise (HTTPException n text)) s) → wp (f x) R s) →
  (Forall P xs → Q (Ok ()) s) → (∀ n text, Q (Raise (HTTPException n text)) s) →
  wp (for_each xs f) Q s.
Proof.
  intros Hf. revert Q. induction xs as [|x xs IH]; intros Q HQ HR; simpl; wp_step; [by apply HQ|].
  apply Hf; [|done]. intros Hx. wp_simpl. apply IH; [|done]. intros Hxs. apply HQ. by constructor.
Qed.

(** A batch is accepted, or is a replay, or is refused. *)
Lemma wp_ingest_logs job_id payload worker_id (Q : result OperationAck → Session → Prop) c L t i s :
  St I c c false None L t i s →
  (∀ d d' fp, I d → logs_accepted d d' job_id worker_id payload t fp → commits I d d') →
  (∀ d d' fp s', I d → logs_accepted d d' job_id worker_id payload t fp → safe I s' →
     (d, d') ∈ s_log s' → s_committed s' = d' → Q (Ok (mkOperationAck (Zlength (new_logs d payload)) false)) s') →
  (∀ d b fp s', I d → log_fingerprint payload = Some fp →
     find_ingest_batch (lb_attempt_id payload) "logs" (lb_idempotency_key payload) d = Some b →
     b_payload_fingerprint b = Some fp → safe I s' → Q (Ok duplicate_ack) s') →
  (∀ e s', e ≠ RecursionError → safe I s' → Q (Raise e) s') →
  wp (ingest_logs job_id payload worker_id) Q s.
Proof.
  intros Hst HI HA HD HR. unfold ingest_logs, validate_batch_replay. wp_step.
  apply wp_log_fingerprint; [|intros; by eapply HR; [|eapply St_safe]]. intros fp Hfp. wp_step.
  eapply wp_lock_telemetry; [done| |intros; by apply HR].
  intros [[[lease job] attempt] late] c1 L1 t1 s1 Hc1 Ht1 Hst1. wp_step. wp_step.
  pose proof (st_inv _ _ _ _ _ _ _ _ _ Hst1) as HI1.
  destruct (tc_of _ _ _ _ _ _ _ _ _ Hc1) as (_ & _ & Hatt & _). simpl in Hatt. rewrite Hatt.
  wp_step.
  { wp_step. wp_step; [by eapply HR; [|eapply St_safe]|]. bools. wp_step. wp_step. wp_step.
    by eapply HD; [| | | |eapply St_safe]. }
  wp_step. wp_step. wp_step.
  match goal with Hf : find_ingest_batch _ _ _ _ = None |- _ => rename Hf into Hnone end.
  eapply (wp_for_each_check _ (λ entry, ∀ stored,
    job_logs c1 !! (lb_attempt_id payload, le_sequence entry) = Some stored →
    log_entry_matches stored entry = true)).
  { intros x R HQx HRx. wp_step; [|wp_step; apply HQx; congruence].
    wp_step; [apply HRx|]. apply HQx. intros stored [= <-]. by bools. }
  2: { intros. by eapply HR; [|eapply St_safe]. }
  intros Hagree. wp_simpl. wp_step.
  match goal with |- wp _ ?K s1 => assert (∀ lease' b L2 t2 s2, l_attempt_id lease' =
    lb_attempt_id payload → St I c1 c1 b None L2 t2 i s2 → K (Ok lease') s2) as Hk end.
  { intros lease' b L2 t2 s2 Hatt' Hst2. rewrite Hatt'. unfold add_log. wp_simpl. wp_step.
    eapply (wp_add_all I (log_taken (lb_attempt_id payload))
      (put_log job_id (lb_attempt_id payload))); [done|].
    intros ids b3 dm3 s3 Hids Hdm3 Hst3. wp_simpl. wp_step.
    eapply wp_add_unique; [done|]. intros dm4 s4 Hdm4 Hst4. wp_simpl. wp_step.
    match type of Hst4 with St _ _ ?d' _ _ _ _ _ _ =>
      assert (logs_accepted c1 d' job_id worker_id payload t fp) as Hacc end.
    { split; [done|done| |done|by exists ids]. eexists t, _. split; [lia|exact Hc1]. }
    eapply wp_commit_batch; [done|intros _; by eapply HI| |..].
    - intros s5 Hlog5 Hst5. wp_step. eapply HA; [exact HI1|exact Hacc|by eapply St_safe|done|].
      by destruct Hst5.
    - intros c5 s5 Hst5. wp_step. eapply wp_raced; [done| |intros; by apply HR].
      intros bb c6 t6 s6 Hb Hfpb Hst6. wp_step.
      eapply (HD c5); [by destruct Hst5|done|exact Hb|done|by eapply St_safe].
    - intros. by apply HR. }
  destruct late; wp_step; [by eapply Hk|].
  eapply wp_telemetry_fence; [done| |done].
  intros lease' job' attempt' now L2 t2 s2 Hc2 _ _ Hst2. wp_simpl. wp_step.
  eapply Hk; [|done]. by destruct (tc_of _ _ _ _ _ _ _ _ _ Hc2) as (_ & _ & ? & _).
Qed.
End handler.

(** ** What an accepted batch leaves *)

(** Only the telemetry tables and the batches differ. *)
Definition same_assignments (d d' : DB) : Prop :=
  workers d' = workers d ∧ jobs d' = jobs d ∧ attempts d' = attempts d ∧ leases d' = leases d ∧
  rest_of d' = rest_of d.

Lemma foldl_put_log job_id attempt_id es d :
  let d' := foldl (λ d e, put_log job_id attempt_id e d) d es in
  same_assignments d d' ∧ metrics d' = metrics d ∧ ingest_batches d' = ingest_batches d.
Proof.
  revert d. induction es as [|e es IH]; intros d; [done|].
  destruct (IH (put_log job_id attempt_id e d)) as ((? & ? & ? & ? & ?) & ? & ?). by split_and!.
Qed.

Lemma foldl_put_log_other job_id attempt_id es d k :
  (∀ e, e ∈ es → (attempt_id, le_sequence e.2) ≠ k) →
  job_logs (foldl (λ d e, put_log job_id attempt_id e d) d es) !! k = job_logs d !! k.
Proof.
  revert d. induction es as [|e es IH]; intros d Hk; [done|]. simpl. rewrite IH by set_solver.
  simpl. apply lookup_insert_ne. apply Hk. set_solver.
Qed.

Lemma foldl_put_log_new job_id attempt_id es d e :
  NoDup (map (le_sequence ∘ snd) es) → e ∈ es →
  job_logs (foldl (λ d e, put_log job_id attempt_id e d) d es) !! (attempt_id, le_sequence e.2) =
  Some (log_row e.1 job_id attempt_id e.2).
Proof.
  revert d. induction es as [|x es IH]; intros d Hnd Hin; [set_solver|]. simpl in *.
  apply NoDup_cons in Hnd as [Hx Hnd]. apply elem_of_cons in Hin as [->|Hin]; [|by apply IH].
  rewrite foldl_put_log_other; [simpl; by rewrite lookup_insert_eq|].
  intros y Hy [= Heq]. apply Hx. rewrite <-Heq. apply list_elem_of_fmap. by exists y.
Qed.

(** The rows of entries, each with an id of its own. *)
Lemma zip_rows {A} (ids : list string) (es : list A) :
  length ids = length es →
  (∀ p, p ∈ zip ids es → p.2 ∈ es) ∧ (∀ e, e ∈ es → ∃ id, (id, e) ∈ zip ids es) ∧
  ∀ {B} (f : A → B), map (f ∘ snd) (zip ids es) = map f es.
Proof.
  intros Hlen. assert (snd <$> zip ids es = es) as Hsnd by (apply snd_zip; lia). split_and!.
  - intros p Hp. rewrite <-Hsnd. by apply list_elem_of_fmap_2.
  - intros e He. rewrite <-Hsnd in He. apply list_elem_of_fmap in He as ([id e'] & -> & Hp).
    by exists id.
  - intros B f. rewrite <-Hsnd at 2. symmetry. apply map_map.
Qed.

Lemma elem_of_new_logs d payload e :
  e ∈ new_logs d payload ↔
  e ∈ lb_entries payload ∧ job_logs d !! (lb_attempt_id payload, le_sequence e) = None.
Proof.
  unfold new_logs. rewrite !list_elem_of_In, filter_In.
  by destruct (job_logs d !! _) as [l|]; split; intros [? ?].
Qed.

(** New sequences of a claimed attempt stay below its watermarks. *)
Lemma SealInv_logs A logs logs' ms attempt_id attempt (new : Z → Prop) :
  SealInv A logs ms → A !! attempt_id = Some attempt →
  (∀ k seq, is_Some (logs' !! (k, seq)) → is_Some (logs !! (k, seq)) ∨ k = attempt_id ∧ new seq) →
  (∀ n seq, a_telemetry_log_count attempt = Some n → new seq → seq < n) → SealInv A logs' ms.
Proof.
  intros HS Ha Hsub Hnew k a Hk. destruct (HS k a Hk) as [Hl Hm]. split; [|done].
  intros n seq Hn Hin. destruct (Hsub _ _ Hin) as [Hold|[-> Hs] ]; [by eapply Hl|].
  apply (Hnew n seq); [congruence|done].
Qed.

Lemma Inv_logs_accepted d d' job_id worker_id payload t0 fp :
  Inv d → logs_accepted d d' job_id worker_id payload t0 fp → Inv d'.
Proof.
  intros (HI & HS & HC)
    [_ _ (now & [[[lease job] attempt] late] & _ & Hclaim) _ (ids & Hids & ->)].
  destruct (zip_rows _ _ Hids) as (Hrow & Hrows & _).
  destruct (foldl_put_log job_id (lb_attempt_id payload) (zip ids (new_logs d payload)) d)
    as ((Ew & Ej & Ea & El & Ex) & Em & _).
  split_and!; simpl; rewrite ?Ew, ?Ej, ?Ea, ?El, ?Em; [done| |done].
  destruct Hclaim as [_ _ Hatt _ Hactive Hlate]. simpl in *.
  eapply (SealInv_logs _ _ _ _ _ attempt (λ seq, seq ∈ map le_sequence (lb_entries payload)));
    [done|done| |].
  - intros k seq Hin.
    destruct (decide ((k, seq) ∈ (λ e, (lb_attempt_id payload, le_sequence e)) <$>
      new_logs d payload)) as [Hnew|Hold].
    + right. apply list_elem_of_fmap in Hnew as (e & [= -> ->] & He).
      apply elem_of_new_logs in He as [He _]. split; [done|]. apply list_elem_of_fmap. eauto.
    + left. rewrite foldl_put_log_other in Hin; [done|]. intros e He Heq. apply Hold.
      apply list_elem_of_fmap. exists e.2. split; [done|by apply Hrow].
  - intros n seq Hn Hin. destruct late.
    + destruct (Hlate eq_refl) as (_ & _ & lc & mc & Hlc & _ & Hall).
      rewrite Forall_forall in Hall. assert (lc = n) as -> by congruence. by apply Hall.
    + destruct (Hactive eq_refl) as (_ & _ & _ & Hnone & _). congruence.
Qed.

Lemma evolves_logs_accepted d d' job_id worker_id payload t0 fp :
  logs_accepted d d' job_id worker_id payload t0 fp → evolves d d'.
Proof.
  intros [_ _ _ _ (ids & Hids & ->)]. destruct (zip_rows _ _ Hids) as (Hrow & _).
  destruct (foldl_put_log job_id (lb_attempt_id payload) (zip ids (new_logs d payload)) d)
    as ((_ & Ej & Ea & El & Ex) & Em & _).
  split; simpl; rewrite ?Ej, ?Ea, ?El, ?Em; [apply evolves_PreOrder..| |done|by apply rest_step_same].
  apply map_subseteq_spec. intros k x Hk. rewrite foldl_put_log_other; [done|].
  intros e He%Hrow <-. apply elem_of_new_logs in He as [_ He]. congruence.
Qed.

Lemma commits_logs {I} `{!Stable I} d d' job_id worker_id payload t0 fp :
  I d → logs_accepted d d' job_id worker_id payload t0 fp → commits I d d'.
Proof.
  intros HI Hacc. eapply stable_step; [done|by eapply evolves_logs_accepted|].
  eapply Inv_logs_accepted; [|done]. by apply stable_inv.
Qed.

Lemma ingest_logs_stable I `{!Stable I} job_id payload worker_id :
  preserves I (ingest_logs job_id payload worker_id).
Proof. start_handler. eapply wp_ingest_logs; [done|by intros; eapply commits_logs|done..]. Qed.

Lemma lock_commits_nothing worker_id job_id lease_id attempt_id kind sequences :
  commits_within 0 (lock_telemetry_claim worker_id job_id lease_id attempt_id kind sequences).
Proof.
  unfold lock_telemetry_claim, judge_telemetry_claim, check_watermark. repeat within_step.
Qed.

Lemma logs_commit_once job_id payload worker_id :
  commits_within 1 (ingest_logs job_id payload worker_id).
Proof.
  unfold ingest_logs, commit_batch, raced_replay, log_batch_fingerprint, canonical_fingerprint,
    acquire_active_telemetry_write_fence, retryable_fence_conflict, validate_batch_replay,
    add_log, add_ingest_batch, add_unique, doom_if, update_job_where.
  repeat first [apply lock_commits_nothing|within_step].
Qed.

(** C19: an accepted log batch is durable. The request has committed one transaction, on a
    database [d], which leads to the state it ends in: there the batch is recorded with its
    fingerprint, every entry is stored for the attempt, either as the batch reports it or
    as an equal line that [d] held, no other line of [d] changed, and the number reported
    is the number of lines that [d] did not hold. *)
Theorem accepted_logs_are_stored job_id payload worker_id s ack :
  fresh_session Inv s → LogBatch_valid payload = true →
  outcome (ingest_logs job_id payload worker_id) s = Ok ack → oa_duplicate ack = false →
  let d' := after (ingest_logs job_id payload worker_id) s in
  ∃ d batch, committed_only (ingest_logs job_id payload worker_id) s d d' ∧ Inv d ∧ Inv d' ∧
    find_ingest_batch (lb_attempt_id payload) "logs" (lb_idempotency_key payload) d' = Some batch ∧
    b_payload_fingerprint batch = log_fingerprint payload ∧
    oa_accepted ack = Zlength (new_logs d payload) ∧
    (∀ entry, entry ∈ lb_entries payload → ∃ stored,
       job_logs d' !! (lb_attempt_id payload, le_sequence entry) = Some stored ∧
       (job_logs d !! (lb_attempt_id payload, le_sequence entry) = Some stored ∧
          log_entry_matches stored entry = true ∨
        ∃ id, stored = log_row id job_id (lb_attempt_id payload) entry)) ∧
    (∀ k, (∀ entry, entry ∈ new_logs d payload → (lb_attempt_id payload, le_sequence entry) ≠ k) →
       job_logs d' !! k = job_logs d !! k).
Proof.
  intros Hfresh Hvalid Hout Hdup d'.
  assert (wp (ingest_logs job_id payload worker_id) (λ r s', match r with
    | Ok ack => oa_duplicate ack = true ∨ ∃ d fp, Inv d ∧
        logs_accepted d (s_committed s') job_id worker_id payload (s_clock s) fp ∧
        (d, s_committed s') ∈ s_log s' ∧ ack = mkOperationAck (Zlength (new_logs d payload)) false
    | _ => True end) s) as Hwp.
  { eapply wp_ingest_logs; [by apply fresh_St|by intros; eapply commits_logs| |by left|done].
    intros d d1 fp s' HI Hacc _ Hlog <-. right. by exists d, fp. }
  destruct (wp_run _ _ _ _ Hwp Hout) as [Hd|(d & fp & HI & Hacc & Hlog & ->)]; [congruence|].
  fold (after (ingest_logs job_id payload worker_id) s) in Hacc. fold d' in Hacc.
  pose proof (Inv_logs_accepted _ _ _ _ _ _ _ HI Hacc) as HI'.
  destruct Hacc as [Hfp _ _ Hagree (ids & Hids & Hd')]. unfold LogBatch_valid in Hvalid. bools.
  destruct (zip_rows _ _ Hids) as (Hrow & Hrows & Hmap).
  eexists d, _. split; [by apply within_only; [apply logs_commit_once|apply Hfresh|]|].
  split; [done|]. split; [done|]. split.
  { unfold find_ingest_batch. rewrite Hd'. simpl. apply lookup_insert_eq. }
  split; [done|]. split; [done|]. split.
  - intros entry Hin. rewrite Hd'. simpl.
    destruct (job_logs d !! (lb_attempt_id payload, le_sequence entry)) as [st|] eqn:Hst.
    + exists st. rewrite foldl_put_log_other.
      * split; [done|]. left. split; [done|]. rewrite Forall_forall in Hagree. by eapply Hagree.
      * intros e He%Hrow%elem_of_new_logs [= Heq]. destruct He as [_ He]. congruence.
    + destruct (Hrows entry) as [id Hid]; [by apply elem_of_new_logs|].
      eexists. split; [|right; by exists id]. apply (foldl_put_log_new _ _ _ _ (id, entry)); [|done].
      rewrite Hmap. apply NoDup_map_filter. by apply distinct_spec.
  - intros k Hk. rewrite Hd'. simpl. apply foldl_put_log_other. eauto.
Qed.

(** C20: a replay of a batch changes nothing. While a batch with the key is recorded
    (other transactions may do anything that keeps it and the stored lines), a request
    with this key stores no line; it is acknowledged, as a duplicate, only when its
    payload has the recorded fingerprint. *)
Theorem log_replay_is_idempotent job_id payload worker_id s batch lines :
  fresh_session (λ d, Inv d ∧ job_logs d = lines ∧
    find_ingest_batch (lb_attempt_id payload) "logs" (lb_idempotency_key payload) d = Some batch) s →
  let d' := after (ingest_logs job_id payload worker_id) s in
  Inv d' ∧ job_logs d' = lines ∧
  find_ingest_batch (lb_attempt_id payload) "logs" (lb_idempotency_key payload) d' = Some batch ∧
  (∀ ack, outcome (ingest_logs job_id payload worker_id) s = Ok ack →
     ack = duplicate_ack ∧ is_Some (log_fingerprint payload) ∧
     b_payload_fingerprint batch = log_fingerprint payload).
Proof.
  intros Hfresh d'. set (I := λ d, _) in Hfresh.
  assert (wp (ingest_logs job_id payload worker_id) (λ r s', I (s_committed s') ∧
    ∀ ack, r = Ok ack → ack = duplicate_ack ∧ is_Some (log_fingerprint payload) ∧
      b_payload_fingerprint batch = log_fingerprint payload) s) as Hwp.
  { eapply (wp_ingest_logs I); [by apply fresh_St| | | |].
    - intros d d1 fp (_ & _ & Hb) [_ Hnone _ _ _]. congruence.
    - intros d d1 fp s' (_ & _ & Hb) [_ Hnone _ _ _]. congruence.
    - intros d b fp s' (_ & _ & Hb) Hfp Hb' Hbfp [HI _]. split; [done|]. intros ack [= <-].
      assert (b = batch) as -> by congruence. split; [done|]. rewrite Hfp. split; [by eexists|done].
    - intros e s' _ [HI _]. by split. }
  destruct Hwp as ((HI & Hlines & Hb) & Hack). by split_and!.
Qed.
End logs.

(** ** Metric batches *)

Section metrics.
  Context `{ContractParser} `{Platform}.
  Variable settings : Settings.

Definition metric_fingerprint (payload : MetricBatch) : option string :=
  sha256_hex <$> json_dumps (JArray (map metric_document (mb_entries payload))).

Definition new_metrics (d : DB) (payload : MetricBatch) : list MetricEntry :=
  List.filter (λ entry, is_none (metrics d !! (mb_attempt_id payload, me_sequence entry)))
    (mb_entries payload).

(** The table with the rows of some entries added. *)
Definition store_metrics (job_id attempt_id : string) (es : list (string * MetricEntry))
    (table : gmap (string * Z) Metric) : gmap (string * Z) Metric :=
  foldl (λ ms e, <[(attempt_id, me_sequence e.2) := metric_row e.1 job_id attempt_id e.2]> ms)
    table es.

Lemma foldl_put_metric job_id attempt_id es d :
  foldl (λ d e, put_metric job_id attempt_id e d) d es =
  d <| metrics := store_metrics job_id attempt_id es (metrics d) |>.
Proof.
  revert d. induction es as [|e es IH]; intros d; [by destruct d|]. simpl. by rewrite IH.
Qed.

(** The Job's epoch is the same or moved forward, up to its total. *)
Definition epoch_forward (d d' : DB) (job_id : string) : Prop :=
  jobs d' = jobs d ∨ ∃ job n v, jobs d !! job_id = Some job ∧
    (∀ m, j_current_epoch job = Some m → m < n) ∧ n <= j_total_epoch job ∧
    let job' := job <| j_current_epoch := Some n |> <| j_row_version := v |> in
    saved_over (jobs d) job_id job' ∧ jobs d' = <[job_id := job']> (jobs d).

Record metrics_accepted (d d' : DB) (job_id worker_id : string) (payload : MetricBatch) (t0 : Z)
    (fingerprint : string) : Prop := mkMetricsAccepted {
  ma_fingerprint : metric_fingerprint payload = Some fingerprint;
  ma_unseen :
    find_ingest_batch (mb_attempt_id payload) "metrics" (mb_idempotency_key payload) d = None;
  ma_claim : ∃ now claim, t0 <= now ∧ telemetry_claim d worker_id job_id (mb_lease_id payload)
    (mb_attempt_id payload) metrics_batch (map me_sequence (mb_entries payload)) now claim;
  ma_agree : Forall (λ entry, ∀ stored,
    metrics d !! (mb_attempt_id payload, me_sequence entry) = Some stored →
    metric_entry_matches stored entry = true) (mb_entries payload);
  ma_jobs : epoch_forward d d' job_id;
  ma_metrics : ∃ ids, length ids = length (new_metrics d payload) ∧ metrics d' =
    store_metrics job_id (mb_attempt_id payload) (zip ids (new_metrics d payload)) (metrics d);
  ma_batches : ingest_batches d' =
    <[batch_key (mb_attempt_id payload) "metrics" (mb_idempotency_key payload) :=
        mkIngestBatch job_id (mb_attempt_id payload) "metrics" (mb_idempotency_key payload)
          (Some fingerprint) (Zlength (new_metrics d payload))]> (ingest_batches d);
  ma_rest : workers d' = workers d ∧ attempts d' = attempts d ∧ leases d' = leases d ∧
    job_logs d' = job_logs d ∧ rest_of d' = rest_of d }.

Lemma wp_metric_fingerprint payload (Q : result string → Session → Prop) s :
  (∀ fp, metric_fingerprint payload = Some fp → Q (Ok fp) s) →
  (∀ n text, Q (Raise (HTTPException n text)) s) → wp (metric_batch_fingerprint payload) Q s.
Proof.
  intros HQ HR. unfold metric_batch_fingerprint, canonical_fingerprint. unfold metric_fingerprint in HQ.
  destruct (json_dumps _); wp_step; [by apply HQ|apply HR].
Qed.

(** An epoch a metric reports is at most the Job's total. *)
Lemma wp_metric_epoch entry total (Q : result (option Z) → Session → Prop) s :
  (∀ o, (∀ n, o = Some n → n <= total) → Q (Ok o) s) →
  (∀ n text, Q (Raise (HTTPException n text)) s) → wp (metric_epoch entry total) Q s.
Proof.
  intros HQ HR. unfold metric_epoch. wp_steps; try apply HR; apply HQ; intros n Hn.
  - rewrite Hn in *. bools. lia.
  - injection Hn as <-. bools. lia.
Qed.

Lemma wp_metric_epochs entries total (Q : result (list (option Z)) → Session → Prop) s :
  (∀ os, Forall (λ o, ∀ n, o = Some n → n <= total) os → Q (Ok os) s) →
  (∀ n text, Q (Raise (HTTPException n text)) s) →
  wp (collect entries (λ e, metric_epoch e total)) Q s.
Proof.
  revert Q. induction entries as [|e es IH]; intros Q HQ HR; simpl; wp_step; [by apply HQ|].
  apply wp_metric_epoch; [|apply HR]. intros o Ho. wp_simpl. wp_step. apply IH; [|done].
  intros os Hos. wp_simpl. wp_step. apply HQ. by constructor.
Qed.

Lemma max_epoch_le epochs n total :
  Forall (λ m, m <= total) epochs → max_epoch epochs = Some n → n <= total.
Proof.
  destruct epochs as [|x xs]; [done|]. simpl. intros [Hx Hxs]%Forall_cons [= <-].
  induction Hxs; simpl; lia.
Qed.

Section handler.
  Variable I : DB → Prop.
  Hypothesis I_outbox : ∀ c c', same_ledger c c' → I c → commits I c c'.
  #[local] Set Default Proof Using "I_outbox".

Lemma wp_project_epoch job projected (Q : result Job → Session → Prop) c b dm L t i s :
  St I c c b dm L t i s → jobs c !! j_id job = Some job →
  (∀ n, projected = Some n → n <= j_total_epoch job) →
  (∀ job' d b' s', epoch_forward c d (j_id job) → d = c <| jobs := jobs d |> →
     St I c d b' dm L t i s' → Q (Ok job') s') →
  wp (project_epoch job projected) Q s.
Proof.
  intros Hst Hjob Hle HQ. unfold project_epoch.
  assert (c = c <| jobs := jobs c |>) as Hc by (by destruct c).
  destruct projected as [n|]; [|wp_step; by eapply HQ; [left|exact Hc|]].
  match goal with |- wp (if ?b then _ else _) _ _ => destruct b eqn:Hf end;
    [|wp_step; by eapply HQ; [left|exact Hc|]].
  wp_step. wp_step. wp_step. eapply HQ; [| |exact Hst]; [|reflexivity].
  right. exists job, n, v. split_and!; [done| |by apply Hle|by split].
  intros m Hm. rewrite Hm in Hf. by apply Z.ltb_lt.
Qed.

(** A metric batch, from its claim on: accepted, a replay, or refused. *)
Definition metrics_ok (Q : result OperationAck → Session → Prop) (job_id worker_id : string)
    (payload : MetricBatch) (t : Z) : Prop :=
  (∀ d d' fp, I d → metrics_accepted d d' job_id worker_id payload t fp → commits I d d') ∧
  (∀ d d' fp s', I d → metrics_accepted d d' job_id worker_id payload t fp → safe I s' →
     (d, d') ∈ s_log s' → same_ledger d' (s_committed s') →
     Q (Ok (mkOperationAck (Zlength (new_metrics d payload)) false)) s') ∧
  (∀ d b fp s', I d → metric_fingerprint payload = Some fp →
     find_ingest_batch (mb_attempt_id payload) "metrics" (mb_idempotency_key payload) d = Some b →
     b_payload_fingerprint b = Some fp → safe I s' → Q (Ok duplicate_ack) s') ∧
  (∀ e s', e ≠ RecursionError → safe I s' → Q (Raise e) s').

Lemma wp_store_metric_batch job_id payload worker_id fp lease job attempt projected claim
    (Q : result OperationAck → Session → Prop) c b L t i s now t0 :
  St I c c b None L t i s → metrics_ok Q job_id worker_id payload t0 →
  metric_fingerprint payload = Some fp →
  find_ingest_batch (mb_attempt_id payload) "metrics" (mb_idempotency_key payload) c = None →
  telemetry_claim c worker_id job_id (mb_lease_id payload) (mb_attempt_id payload) metrics_batch
    (map me_sequence (mb_entries payload)) now claim → t0 <= now →
  l_attempt_id lease = mb_attempt_id payload → jobs c !! job_id = Some job → j_id job = job_id →
  Forall (λ entry, ∀ stored,
    metrics c !! (mb_attempt_id payload, me_sequence entry) = Some stored →
    metric_entry_matches stored entry = true) (mb_entries payload) →
  (∀ n, projected = Some n → n <= j_total_epoch job) →
  wp (store_metric_batch settings job_id payload worker_id fp lease job attempt projected
        (new_metrics c payload)) Q s.
Proof.
  intros Hst (HI & HA & HD & HR) Hfp Hnone Hclaim Ht0 Hatt Hjob Hjid Hagree Hle.
  pose proof (st_inv _ _ _ _ _ _ _ _ _ Hst) as HI1.
  unfold store_metric_batch, add_metric. rewrite Hatt. wp_step.
  eapply wp_project_epoch; [done|by rewrite Hjid|done|]. intros job' d1 b1 s1 Hfwd Hd1 Hst1.
  rewrite Hjid in Hfwd. wp_simpl. wp_step.
  eapply (wp_add_all I (metric_taken (mb_attempt_id payload))
    (put_metric job_id (mb_attempt_id payload))); [done|].
  intros ids b2 dm2 s2 Hids _ Hst2. rewrite foldl_put_metric in Hst2. wp_simpl. wp_step.
  eapply wp_add_unique; [done|]. intros dm3 s3 _ Hst3. wp_simpl. wp_step.
  eapply (wp_enqueue_for_job settings); [done|done| |intros; by apply HR].
  intros d4 dm4 t4 key s4 Hsame4 _ Ht4 Hst4. wp_simpl. wp_step.
  destruct (same_ledger_fields _ _ Hsame4) as (Ew & Ej & Ea & El & Elg & Em & Eb & _).
  assert (metrics_accepted c d4 job_id worker_id payload t0 fp) as Hacc.
  { split; [done|done| |done|..]; rewrite ?Ew, ?Ej, ?Ea, ?El, ?Elg, ?Em, ?Eb,
      ?(same_ledger_rest _ _ Hsame4).
    - by exists now, claim.
    - destruct Hfwd as [Hj|(j & n & v & ? & ? & ? & ? & Hj)]; [left|right].
      + by rewrite Ej.
      + exists j, n, v. rewrite Ej. by split_and!.
    - exists ids. simpl. by rewrite Hd1.
    - simpl. by rewrite Hd1.
    - simpl. by rewrite Hd1. }
  eapply wp_commit_batch; [done|intros _; by eapply HI| |..].
  - intros s5 Hlog5 Hst5. wp_step.
    eapply (wp_sync_logged settings I I_outbox); [done|exact Hlog5| |intros; by apply HR].
    intros c6 L6 t6 s6 Hsame6 Hlog6 Hst6. wp_step.
    eapply HA; [exact HI1|exact Hacc|by eapply St_safe|exact Hlog6|]. by destruct Hst6; subst.
  - intros c5 s5 Hst5. wp_step. eapply wp_raced; [done| |intros; by apply HR].
    intros bb c6 t6 s6 Hb Hfpb Hst6. wp_step.
    eapply (sync_after_commit_ok settings I I_outbox); [done| |intros; by apply HR].
    intros r c7 L7 t7 s7 _ _ Hst7. wp_step.
    eapply (HD c5); [by destruct Hst5|done|exact Hb|done|by eapply St_safe].
  - intros. by apply HR.
Qed.

Lemma wp_ingest_metrics job_id payload worker_id (Q : result OperationAck → Session → Prop)
    c L t i s :
  St I c c false None L t i s → (∀ d, I d → Inv d) → metrics_ok Q job_id worker_id payload t →
  wp (ingest_metrics settings job_id payload worker_id) Q s.
Proof.
  intros Hst HInv HQ. pose proof HQ as (HI & HA & HD & HR). unfold ingest_metrics, validate_batch_replay. wp_step.
  apply wp_metric_fingerprint; [|intros; by eapply HR; [|eapply St_safe]]. intros fp Hfp. wp_step.
  eapply wp_lock_telemetry; [done| |intros; by apply HR].
  intros [[[lease job] attempt] late] c1 L1 t1 s1 Hc1 Ht1 Hst1. wp_step. wp_step.
  pose proof (st_inv _ _ _ _ _ _ _ _ _ Hst1) as HI1.
  destruct (tc_of _ _ _ _ _ _ _ _ _ Hc1) as (_ & _ & Hatt & _). simpl in Hatt. rewrite Hatt.
  wp_step.
  { wp_step. wp_step; [by eapply HR; [|eapply St_safe]|]. bools. wp_step. wp_step. wp_step.
    eapply sync_after_commit_ok; [done|done| |intros; by apply HR].
    intros r c2 L2 t2 s2 _ _ Hst2. wp_step. by eapply HD; [| | | |eapply St_safe]. }
  match goal with Hf : find_ingest_batch _ _ _ _ = None |- _ => rename Hf into Hnone end.
  wp_step. apply wp_metric_epochs; [|intros; by eapply HR; [|eapply St_safe]].
  intros epochs Hepochs. wp_simpl. wp_step. wp_step. wp_step.
  eapply (wp_for_each_check _ (λ entry, ∀ stored,
    metrics c1 !! (mb_attempt_id payload, me_sequence entry) = Some stored →
    metric_entry_matches stored entry = true)).
  { intros x R HQx HRx. wp_step; [|wp_step; apply HQx; congruence].
    wp_step; [apply HRx|]. apply HQx. intros stored [= <-]. by bools. }
  2: { intros. by eapply HR; [|eapply St_safe]. }
  intros Hagree. wp_simpl. wp_step.
  pose proof (tc_job _ _ _ _ _ _ _ _ _ Hc1) as Hjob. simpl in Hjob.
  pose proof (job_ids _ _ _ _ (proj1 (HInv _ HI1)) _ _ Hjob) as Hjid.
  destruct late; [wp_step|].
  - eapply wp_store_metric_batch; [done|done|done|done|exact Hc1|lia|done..].
  - eapply wp_telemetry_fence; [done| |done].
    intros lease' job' attempt' now L2 t2 s2 Hc2 Hnow _ Hst2. wp_simpl.
    pose proof Hc2 as [_ Hjob' _ (_ & _ & Hatt' & _) _ _]. simpl in Hjob', Hatt'.
    assert (job' = job) as -> by congruence.
    eapply wp_store_metric_batch; [done|done|done|done|exact Hc2|lia|done..|].
    intros n Hn. eapply max_epoch_le; [|exact Hn]. apply Forall_forall. intros m Hm.
    apply list_elem_of_omap in Hm as ([e o] & Hin & Ho). simpl in Ho.
    rewrite Forall_forall in Hepochs. apply elem_of_zip_r in Hin.
    destruct (is_none _); [|done]. by apply (Hepochs o).
Qed.
End handler.

(** ** What an accepted metric batch leaves *)

Lemma store_metrics_other job_id attempt_id es table k :
  (∀ e, e ∈ es → (attempt_id, me_sequence e.2) ≠ k) →
  store_metrics job_id attempt_id es table !! k = table !! k.
Proof.
  revert table. induction es as [|e es IH]; intros table Hk; [done|]. simpl. rewrite IH by set_solver.
  apply lookup_insert_ne. apply Hk. set_solver.
Qed.

Lemma store_metrics_new job_id attempt_id es table e :
  NoDup (map (me_sequence ∘ snd) es) → e ∈ es →
  store_metrics job_id attempt_id es table !! (attempt_id, me_sequence e.2) =
  Some (metric_row e.1 job_id attempt_id e.2).
Proof.
  revert table. induction es as [|x es IH]; intros table Hnd Hin; [set_solver|]. simpl in *.
  apply NoDup_cons in Hnd as [Hx Hnd]. apply elem_of_cons in Hin as [->|Hin]; [|by apply IH].
  rewrite store_metrics_other; [by rewrite lookup_insert_eq|].
  intros y Hy [= Heq]. apply Hx. rewrite <-Heq. apply list_elem_of_fmap. by exists y.
Qed.

Lemma elem_of_new_metrics d payload e :
  e ∈ new_metrics d payload ↔
  e ∈ mb_entries payload ∧ metrics d !! (mb_attempt_id payload, me_sequence e) = None.
Proof.
  unfold new_metrics. rewrite !list_elem_of_In, filter_In.
  by destruct (metrics d !! _) as [l|]; split; intros [? ?].
Qed.

Lemma SealInv_metrics A logs ms ms' attempt_id attempt (new : Z → Prop) :
  SealInv A logs ms → A !! attempt_id = Some attempt →
  (∀ k seq, is_Some (ms' !! (k, seq)) → is_Some (ms !! (k, seq)) ∨ k = attempt_id ∧ new seq) →
  (∀ n seq, a_telemetry_metric_count attempt = Some n → new seq → seq < n) → SealInv A logs ms'.
Proof.
  intros HS Ha Hsub Hnew k a Hk. destruct (HS k a Hk) as [Hl Hm]. split; [done|].
  intros n seq Hn Hin. destruct (Hsub _ _ Hin) as [Hold|[-> Hs] ]; [by eapply Hm|].
  apply (Hnew n seq); [congruence|done].
Qed.

Lemma LedgerInv_epoch d d' job_id :
  LedgerInv (workers d) (jobs d) (attempts d) (leases d) → epoch_forward d d' job_id →
  LedgerInv (workers d) (jobs d') (attempts d) (leases d).
Proof.
  intros HI [->|(job & n & v & Hj & _ & _ & _ & ->)]; [done|].
  eapply LedgerInv_job; [done|done|exact (job_ids _ _ _ _ HI _ _ Hj)|done..].
Qed.

Lemma Inv_metrics_accepted d d' job_id worker_id payload t0 fp :
  Inv d → metrics_accepted d d' job_id worker_id payload t0 fp → Inv d'.
Proof.
  intros (HI & HS & HC) [_ _ (now & [[[lease job] attempt] late] & _ & Hclaim) _ Hfwd (ids & Hids & Em) _
    (Ew & Ea & El & Elg & _)].
  destruct (zip_rows _ _ Hids) as (Hrow & _).
  unfold Inv. rewrite Ew, Ea, El, Elg, Em.
  split_and!; [by eapply LedgerInv_epoch| |done].
  destruct Hclaim as [_ _ Hatt _ Hactive Hlate]. simpl in *.
  eapply (SealInv_metrics _ _ _ _ _ attempt (λ seq, seq ∈ map me_sequence (mb_entries payload)));
    [done|done| |].
  - intros k seq Hin.
    destruct (decide ((k, seq) ∈ (λ e, (mb_attempt_id payload, me_sequence e)) <$>
      new_metrics d payload)) as [Hnew|Hold].
    + right. apply list_elem_of_fmap in Hnew as (e & [= -> ->] & He).
      apply elem_of_new_metrics in He as [He _]. split; [done|]. apply list_elem_of_fmap. eauto.
    + left. rewrite store_metrics_other in Hin; [done|]. intros e He Heq. apply Hold.
      apply list_elem_of_fmap. exists e.2. split; [done|by apply Hrow].
  - intros n seq Hn Hin. destruct late.
    + destruct (Hlate eq_refl) as (_ & _ & lc & mc & _ & Hmc & Hall).
      rewrite Forall_forall in Hall. assert (mc = n) as -> by congruence. by apply Hall.
    + destruct (Hactive eq_refl) as (_ & _ & _ & _ & Hnone & _). congruence.
Qed.

Lemma epoch_forward_evolves d d' job_id :
  epoch_forward d d' job_id → jobs_step (jobs d) (jobs d').
Proof.
  intros [->|(job & n & v & Hj & _ & _ & Hv & ->)]; [apply evolves_PreOrder|].
  eapply jobs_step_save; [apply evolves_PreOrder|done| |done]. by split.
Qed.

Lemma evolves_metrics_accepted d d' job_id worker_id payload t0 fp :
  metrics_accepted d d' job_id worker_id payload t0 fp → evolves d d'.
Proof.
  intros [_ _ _ _ Hfwd (ids & Hids & Em) _ (_ & Ea & El & Elg & Ex)].
  destruct (zip_rows _ _ Hids) as (Hrow & _).
  split; rewrite ?Ea, ?El, ?Elg, ?Em;
    [by eapply epoch_forward_evolves|apply evolves_PreOrder..|done| |by apply rest_step_same].
  apply map_subseteq_spec. intros k x Hk. rewrite store_metrics_other; [done|].
  intros e He%Hrow <-. apply elem_of_new_metrics in He as [_ He]. congruence.
Qed.

Lemma commits_metrics {I} `{!Stable I} d d' job_id worker_id payload t0 fp :
  I d → metrics_accepted d d' job_id worker_id payload t0 fp → commits I d d'.
Proof.
  intros HI Hacc. eapply stable_step; [done|by eapply evolves_metrics_accepted|].
  eapply Inv_metrics_accepted; [|done]. by apply stable_inv.
Qed.

Lemma ingest_metrics_stable I `{!Stable I} job_id payload worker_id :
  preserves I (ingest_metrics settings job_id payload worker_id).
Proof.
  start_handler. eapply (wp_ingest_metrics I); [by apply stable_outbox|done|by apply stable_inv|].
  split_and!; cbv beta; [by intros; eapply commits_metrics|done..].
Qed.

(** The Job has reached epoch [n] at least, if one is given, and has not passed its
    total. *)
Definition epoch_at_least (job_id : string) (o : option Z) (d : DB) : Prop :=
  ∃ job, jobs d !! job_id = Some job ∧
    (∀ n, o = Some n → ∃ m, j_current_epoch job = Some m ∧ n <= m) ∧
    (∀ m, j_current_epoch job = Some m → m <= j_total_epoch job).

Lemma epoch_at_least_forward job_id o d d' k :
  epoch_at_least job_id o d → epoch_forward d d' k → epoch_at_least job_id o d'.
Proof.
  intros (job & Hj & Ho & Ht) Hf. unfold epoch_at_least.
  destruct Hf as [->|(j & p & v & Hk & Hlt & Hp & _ & ->)]; [by exists job|].
  destruct (decide (k = job_id)) as [->|Hne].
  - assert (j = job) as -> by congruence. eexists. rewrite lookup_insert_eq.
    split_and!; [done| |by intros m [= <-] ]. intros n Hn. exists p. split; [done|].
    destruct (Ho n Hn) as (m & Hm & Hnm). specialize (Hlt m Hm). lia.
  - exists job. by rewrite lookup_insert_ne.
Qed.

(** C21: metrics move a Job's epoch forward only. Whatever a metric batch reports, and
    whether it is accepted or refused, the epoch of no Job decreases ([o] is the epoch it
    has reached, [None] when it has reported none), and it never passes the Job's total. *)
Theorem metrics_never_rewind_epoch job_id payload worker_id k o s :
  fresh_session (λ d, Inv d ∧ epoch_at_least k o d) s →
  epoch_at_least k o (after (ingest_metrics settings job_id payload worker_id) s).
Proof.
  intros Hfresh. set (I := λ d, _) in Hfresh.
  assert (wp (ingest_metrics settings job_id payload worker_id) (λ r s', safe I s') s) as Hwp.
  { eapply (wp_ingest_metrics I); [|by apply fresh_St|by intros ? [? _]|].
    - intros c c' Hsame [HI He]. destruct (stable_outbox Inv c c' Hsame HI) as [HI' Hev]. split; [split; [done|]|done].
      destruct (same_ledger_fields _ _ Hsame) as (_ & Ej & _). unfold epoch_at_least. by rewrite Ej.
    - split_and!; try done. intros d d' fp [HI He] Hacc.
      destruct (commits_metrics _ _ _ _ _ _ _ HI Hacc) as [HI' Hev]. split; [split; [done|]|done]. eapply epoch_at_least_forward; [done|by destruct Hacc]. }
  by destruct Hwp as [[_ ?] _].
Qed.

(** C22: an accepted metric batch is durable. The request has committed a transaction on a
    database [d]; after it the request changes nothing but the outbox. In the state it ends
    in the batch is recorded with its fingerprint, every entry is stored for the attempt, as
    reported or as an equal value that [d] held, no other metric of [d] changed, and the
    number reported is the number of metrics that [d] did not hold. *)
Theorem accepted_metrics_are_stored job_id payload worker_id s ack :
  fresh_session Inv s → MetricBatch_valid payload = true →
  outcome (ingest_metrics settings job_id payload worker_id) s = Ok ack → oa_duplicate ack = false →
  let d' := after (ingest_metrics settings job_id payload worker_id) s in
  ∃ d d1 batch, committed (ingest_metrics settings job_id payload worker_id) s d d1 ∧
    same_ledger d1 d' ∧ Inv d ∧
    find_ingest_batch (mb_attempt_id payload) "metrics" (mb_idempotency_key payload) d' = Some batch ∧
    b_payload_fingerprint batch = metric_fingerprint payload ∧
    oa_accepted ack = Zlength (new_metrics d payload) ∧
    (∀ entry, entry ∈ mb_entries payload → ∃ stored,
       metrics d' !! (mb_attempt_id payload, me_sequence entry) = Some stored ∧
       (metrics d !! (mb_attempt_id payload, me_sequence entry) = Some stored ∧
          metric_entry_matches stored entry = true ∨
        ∃ id, stored = metric_row id job_id (mb_attempt_id payload) entry)) ∧
    (∀ k, (∀ entry, entry ∈ new_metrics d payload →
             (mb_attempt_id payload, me_sequence entry) ≠ k) → metrics d' !! k = metrics d !! k).
Proof.
  intros Hfresh Hvalid Hout Hdup d'.
  assert (wp (ingest_metrics settings job_id payload worker_id) (λ r s', match r with
    | Ok ack => oa_duplicate ack = true ∨ ∃ d d1 fp, Inv d ∧
        metrics_accepted d d1 job_id worker_id payload (s_clock s) fp ∧
        (d, d1) ∈ s_log s' ∧ same_ledger d1 (s_committed s') ∧
        ack = mkOperationAck (Zlength (new_metrics d payload)) false
    | _ => True end) s) as Hwp.
  { eapply wp_ingest_metrics; [apply (stable_outbox Inv)|by apply fresh_St|done|].
    split_and!; [by intros; eapply commits_metrics| |by left|done].
    intros d d1 fp s' HI Hacc _ Hlog Hsame. right. by exists d, d1, fp. }
  destruct (wp_run _ _ _ _ Hwp Hout) as [Hd|(d & d1 & fp & HI & Hacc & Hlog & Hsame & ->)];
    [congruence|].
  fold (after (ingest_metrics settings job_id payload worker_id) s) in Hsame. fold d' in Hsame.
  destruct (same_ledger_fields _ _ Hsame) as (_ & _ & _ & _ & _ & Em' & Eb' & _).
  destruct Hacc as [Hfp _ _ Hagree _ (ids & Hids & Em) Eb _].
  destruct (zip_rows _ _ Hids) as (Hrow & Hrows & Hmap). unfold MetricBatch_valid in Hvalid. bools.
  eexists d, d1, _. split; [exact Hlog|]. split; [exact Hsame|]. split; [done|]. rewrite Em', Em. unfold find_ingest_batch. rewrite Eb', Eb.
  split; [apply lookup_insert_eq|]. split; [done|]. split; [done|]. split.
  - intros entry Hin.
    destruct (metrics d !! (mb_attempt_id payload, me_sequence entry)) as [st|] eqn:Hst.
    + exists st. rewrite store_metrics_other.
      * split; [done|]. left. split; [done|]. rewrite Forall_forall in Hagree. by eapply Hagree.
      * intros e He%Hrow%elem_of_new_metrics [= Heq]. destruct He as [_ He]. congruence.
    + destruct (Hrows entry) as [id Hid]; [by apply elem_of_new_metrics|].
      eexists. split; [|right; by exists id]. apply (store_metrics_new _ _ _ _ (id, entry)); [|done].
      rewrite Hmap. apply NoDup_map_filter. by apply distinct_spec.
  - intros k Hk. apply store_metrics_other. eauto.
Qed.
End metrics.

(** ** Artifact batches *)

Section artifacts.
  Context `{ContractParser} `{Platform}.
  Variable settings : Settings.

(** The tables of the invariant are the same, and the tables beside them evolve. *)
Record same_core (d d' : DB) : Prop := mkSameCore {
  sc_workers : workers d' = workers d;
  sc_jobs : jobs d' = jobs d;
  sc_attempts : attempts d' = attempts d;
  sc_leases : leases d' = leases d;
  sc_logs : job_logs d' = job_logs d;
  sc_metrics : metrics d' = metrics d;
  sc_rest : rest_step d d' }.

Lemma Inv_same_core d d' : same_core d d' → Inv d → Inv d'.
Proof. intros []. by apply Inv_ext. Qed.

Lemma evolves_same_core d d' : same_core d d' → evolves d d'.
Proof. intros []. by apply evolves_rest. Qed.

#[export] Instance same_core_PreOrder : PreOrder same_core.
Proof. split; [by split|]. intros x y z [] []. split; try congruence. by etrans. Qed.

Lemma same_core_ledger d d' : same_ledger d d' → same_core d d'.
Proof.
  intros Hs. destruct (same_ledger_fields _ _ Hs) as (? & ? & ? & ? & ? & ? & _).
  split; try done. by apply rest_step_same, same_ledger_rest.
Qed.

Lemma stable_same_core I `{!Stable I} d d' : same_core d d' → I d → commits I d d'.
Proof.
  intros Hs HI. apply stable_step; [done|by apply evolves_same_core|].
  eapply Inv_same_core; [done|]. by apply stable_inv.
Qed.

Section handler.
  Context (I : DB → Prop) `{!Stable I}.
  #[local] Set Default Proof Using "Stable0".

(** A step that keeps those tables, in a session where [P] holds of the dirty flag. *)
Definition keeps_core {A} (P : bool → Prop) (m : M A) : Prop :=
  ∀ (Q : result A → Session → Prop) c d b dm L t i s,
    St I c d b dm L t i s → P b →
    (∀ r d' b' dm' t' s', (dm' = None → dm = None ∧ same_core d d') → P b' →
       St I c d' b' dm' L t' i s' → Q (Ok r) s') →
    (∀ e s', safe I s' → Q (Raise e) s') → wp m Q s.

Lemma keeps_core_collect {A B} (P : bool → Prop) (f : A → M B) xs :
  (∀ x, keeps_core P (f x)) → keeps_core P (collect xs f).
Proof.
  intros Hf. induction xs as [|x xs IH]; intros Q c d b dm L t i s Hst HP HQ HR; simpl.
  - wp_step. by eapply HQ.
  - wp_step. eapply Hf; [done|done| |done]. intros r d1 b1 dm1 t1 s1 Hs1 HP1 Hst1. wp_simpl. wp_step.
    eapply IH; [done|done| |done]. intros rs d2 b2 dm2 t2 s2 Hs2 HP2 Hst2. wp_simpl. wp_step.
    eapply HQ; [|done|done]. intros Hd. destruct (Hs2 Hd) as [Hd1 H2]. destruct (Hs1 Hd1) as [Hd0 H1].
    split; [done|by etrans].
Qed.

Lemma keeps_core_enqueue job artifact :
  keeps_core (λ b, b = true) (enqueue_artifact settings job artifact).
Proof.
  intros Q c d b dm L t i s Hst -> HQ HR.
  eapply (wp_enqueue_for_job settings); [apply (stable_outbox I)|done| |intros; by apply HR].
  intros d' dm' t' r s' Hs Hdm _ Hst'. eapply HQ; [|done|done]. intros Hd. split; [auto|].
  by apply same_core_ledger.
Qed.

Lemma keeps_core_add job_id attempt_id item :
  keeps_core (λ _, True) (
    id ← new_id;
    let a := mkArtifact id job_id attempt_id (ArtifactType_value (ai_artifact_type item))
               (ai_filename item) (ai_storage_uri item) (ai_size_bytes item) (ai_sha256 item)
               (ai_mime_type item) (ai_metadata item) in
    _ ← add_artifact a; mret a).
Proof.
  intros Q c d b dm L t i s Hst _ HQ HR. unfold add_artifact. wp_step. wp_step. wp_step.
  eapply wp_add_unique; [done|]. intros dm' s2 Hdm Hst2. wp_simpl. wp_step.
  eapply HQ; [|done|done]. intros Hd. destruct (Hdm Hd) as [Hd0 Htaken]. split; [done|].
  apply orb_false_iff in Htaken as [Hnew _]. apply is_some_false in Hnew.
  split; try done. split; [by apply accounts_step_same|by apply artifacts_step_row].
Qed.

Lemma ingest_artifacts_stable job_id payload worker_id :
  preserves I (ingest_artifacts settings job_id payload worker_id).
Proof.
  start_handler. unfold ingest_artifacts. wp_step.
  eapply (wp_require_active_lease I); [done| |done]. intros c1 L1 lease t1 s1 _ _ _ Hst1.
  wp_step. wp_steps; try finish_safe.
  - eapply (for_each_ok settings I (stable_outbox I)); [intros x; apply sync_after_commit_ok, stable_outbox, _|done| |].
    + intros r c2 L2 t2 s2 _ _ Hst2. wp_step. by eapply St_safe.
    + by intros.
  - eapply (keeps_core_collect (λ _, True)); [apply keeps_core_add|done|done| |by intros].
    intros artifacts d2 b2 dm2 t2 s2 Hcore2 _ Hst2. wp_simpl. wp_step.
    eapply wp_add_unique; [done|]. intros dm3 s3 Hdm3 Hst3. wp_step. wp_step; [by eapply St_safe|].
    wp_step. wp_step. wp_step; [|wp_step; by eapply St_safe]. wp_step.
    eapply (keeps_core_collect (λ b, b = true)); [intros x; apply keeps_core_enqueue|done|done| |by intros].
    intros keys d4 b4 dm4 t4 s4 Hcore4 _ Hst4. wp_simpl. wp_step.
    pose proof (st_inv _ _ _ _ _ _ _ _ _ Hst4) as HI.
    eapply wp_commit; [done|intros; by eapply St_safe| |].
    { intros Hd4. eapply (stable_same_core I); [|exact HI]. destruct (Hcore4 Hd4) as [Hd3 Hc4].
      destruct (Hdm3 Hd3) as [Hd2 _]. destruct (Hcore2 Hd2) as [_ Hc2]. etrans; [exact Hc2|].
      etrans; [|exact Hc4]. split; try done. by apply rest_step_same. }
    intros s5 _ Hst5. wp_step.
    eapply (for_each_ok settings I (stable_outbox I)); [intros x; apply sync_after_commit_ok, stable_outbox, _|done| |].
    + intros r c6 L6 t6 s6 _ _ Hst6. wp_step. by eapply St_safe.
    + by intros.
Qed.
End handler.
End artifacts.

(** ** Witnesses *)

#[local] Existing Instances sample_parser sample_capabilities_parser sample_platform.

#[local] Instance sample_redactor : LogTextRedactor := {| redact_log_text s := s |}.

Definition sample_log_batch : LogBatch :=
  mkLogBatch "id-1" "id-0" "batch-0001"
    [mkLogEntry 0 INFO "epoch 1" ten_minutes true (JObject [("loss", JInt 1)]);
     mkLogEntry 1 INFO "epoch 2" ten_minutes true (JObject [])].

Definition sample_ingest : M OperationAck := ingest_logs "j-1" sample_log_batch "w-1".

Definition ingest_run : result OperationAck * DB :=
  Eval vm_compute in run_result sample_ingest busy_session.

Lemma ingest_run_eq : run_result sample_ingest busy_session = ingest_run.
Proof. vm_compute. reflexivity. Qed.

(** [busy_db] with the batch, and a session on it. *)
Definition logged_db : DB := ingest_run.2.
Definition logged_session : Session := new_session logged_db (ten_minutes + 2000000).

Lemma sample_ingest_ok : outcome sample_ingest busy_session = Ok (mkOperationAck 2 false).
Proof. exact (run_outcome _ _ _ ingest_run_eq). Qed.

Lemma logged_db_run : after sample_ingest busy_session = logged_db.
Proof. exact (run_after _ _ _ ingest_run_eq). Qed.

Lemma accepted_logs_are_stored_witness :
  ∃ batch, find_ingest_batch "id-0" "logs" "batch-0001" (after sample_ingest busy_session)
             = Some batch ∧
    b_payload_fingerprint batch = log_fingerprint sample_log_batch.
Proof.
  destruct (accepted_logs_are_stored "j-1" sample_log_batch "w-1" busy_session
    (mkOperationAck 2 false) busy_session_fresh ltac:(vm_compute; reflexivity) sample_ingest_ok
    eq_refl) as (d & batch & _ & _ & _ & Hb & Hfp & _).
  exists batch. split; [exact Hb|exact Hfp].
Defined.

Lemma logged_batch_present :
  ∃ batch, find_ingest_batch "id-0" "logs" "batch-0001" logged_db = Some batch.
Proof. apply present. vm_compute. reflexivity. Qed.

Lemma logged_Inv : Inv logged_db.
Proof.
  rewrite <-logged_db_run.
  exact (preserves_after Inv _ _ (ingest_logs_stable Inv "j-1" sample_log_batch "w-1")
    busy_session_fresh).
Qed.

Lemma logged_session_fresh batch :
  find_ingest_batch "id-0" "logs" "batch-0001" logged_db = Some batch →
  fresh_session (λ d, Inv d ∧ job_logs d = job_logs logged_db ∧
    find_ingest_batch "id-0" "logs" "batch-0001" d = Some batch) logged_session.
Proof.
  intros Hb. apply new_session_fresh. split; [exact logged_Inv|]. split; [reflexivity|exact Hb].
Qed.

Lemma log_replay_is_idempotent_witness :
  job_logs (after sample_ingest logged_session) = job_logs logged_db ∧
  ∀ ack, outcome sample_ingest logged_session = Ok ack → ack = duplicate_ack.
Proof.
  destruct logged_batch_present as [batch Hb].
  destruct (log_replay_is_idempotent "j-1" sample_log_batch "w-1" logged_session batch
    (job_logs logged_db) (logged_session_fresh batch Hb))
    as (_ & Hlines & _ & Hack).
  split; [exact Hlines|]. intros ack Hout. exact (proj1 (Hack ack Hout)).
Defined.

(** The replay is acknowledged. *)
Example replay_acknowledged : outcome sample_ingest logged_session = Ok duplicate_ack.
Proof. vm_compute. reflexivity. Qed.

Definition sample_metric_batch (epoch : Z) (key : string) : MetricBatch :=
  mkMetricBatch "id-1" "id-0" key
    [mkMetricEntry epoch "current_epoch" (float_of epoch 0) None None ten_minutes true].

Definition sample_metrics (epoch : Z) (key : string) : M OperationAck :=
  ingest_metrics sample_settings "j-1" (sample_metric_batch epoch key) "w-1".

Definition metrics_run : result OperationAck * DB :=
  Eval vm_compute in run_result (sample_metrics 5 "batch-0005") busy_session.

Lemma metrics_run_eq : run_result (sample_metrics 5 "batch-0005") busy_session = metrics_run.
Proof. vm_compute. reflexivity. Qed.

Lemma sample_metrics_ok :
  outcome (sample_metrics 5 "batch-0005") busy_session = Ok (mkOperationAck 1 false).
Proof. exact (run_outcome _ _ _ metrics_run_eq). Qed.

Lemma accepted_metrics_are_stored_witness :
  ∃ batch, find_ingest_batch "id-0" "metrics" "batch-0005"
             (after (sample_metrics 5 "batch-0005") busy_session) = Some batch ∧
    b_payload_fingerprint batch = metric_fingerprint (sample_metric_batch 5 "batch-0005").
Proof.
  destruct (accepted_metrics_are_stored sample_settings "j-1" (sample_metric_batch 5 "batch-0005")
    "w-1" busy_session (mkOperationAck 1 false) busy_session_fresh
    ltac:(vm_compute; reflexivity) sample_metrics_ok eq_refl) as (d & d1 & batch & _ & _ & _ & Hb & Hfp & _).
  exists batch. split; [exact Hb|exact Hfp].
Defined.

(** After epoch 5 was reported, a late report of epoch 3. *)
Definition measured_db : DB := metrics_run.2.
Definition measured_session : Session := new_session measured_db (ten_minutes + 2000000).

Definition epoch_at_leastb (job_id : string) (o : option Z) (d : DB) : bool :=
  match jobs d !! job_id with
  | Some job =>
      match o, j_current_epoch job with
      | Some n, Some m => (n <=? m) && (m <=? j_total_epoch job)
      | Some _, None => false
      | None, Some m => m <=? j_total_epoch job
      | None, None => true
      end
  | None => false
  end.

Lemma epoch_at_leastb_spec job_id o d : epoch_at_leastb job_id o d = true → epoch_at_least job_id o d.
Proof.
  unfold epoch_at_leastb, epoch_at_least. destruct (jobs d !! job_id) as [job|]; [|done].
  intros Hb. exists job. split; [done|].
  destruct o as [n|], (j_current_epoch job) as [m|]; bools; try done;
    (split; [|by intros ? [= <-] || done]); intros ? [= <-]; by exists m.
Qed.

Lemma measured_epoch : epoch_at_least "j-1" (Some 5) measured_db.
Proof. apply epoch_at_leastb_spec. by vm_compute. Qed.

Lemma busy_session_epoch : fresh_session (λ d, Inv d ∧ epoch_at_least "j-1" None d) busy_session.
Proof.
  apply new_session_fresh. split; [exact busy_db_Inv|]. apply epoch_at_leastb_spec. by vm_compute.
Qed.

Lemma measured_Inv : Inv measured_db.
Proof.
  unfold measured_db. rewrite <-(run_after _ _ _ metrics_run_eq).
  exact (preserves_after Inv _ _ (ingest_metrics_stable sample_settings Inv "j-1"
    (sample_metric_batch 5 "batch-0005") "w-1") busy_session_fresh).
Qed.

Lemma measured_session_fresh :
  fresh_session (λ d, Inv d ∧ epoch_at_least "j-1" (Some 5) d) measured_session.
Proof. apply new_session_fresh. split; [exact measured_Inv|exact measured_epoch]. Qed.

Lemma metrics_never_rewind_epoch_witness :
  epoch_at_least "j-1" None (after (sample_metrics 5 "batch-0005") busy_session) ∧
  epoch_at_least "j-1" (Some 5) (after (sample_metrics 3 "batch-0003") measured_session).
Proof.
  split.
  - exact (metrics_never_rewind_epoch sample_settings "j-1" (sample_metric_batch 5 "batch-0005")
      "w-1" "j-1" None busy_session busy_session_epoch).
  - exact (metrics_never_rewind_epoch sample_settings "j-1" (sample_metric_batch 3 "batch-0003")
      "w-1" "j-1" (Some 5) measured_session measured_session_fresh).
Defined.
