(* ===== verification/JobApiCorrect.v ===== *)
(** * Correctness of the users' API

    Every handler of [JobApi.v] preserves the stable invariants.  A cancellation or a
    retry takes effect on exactly the row that was read; a Job that is created passes
    the integrity check of a claim; a stranger is answered as if the Job were missing. *)

From S2P Require Import Prelude Json JobStatus JobConfig WorkerContract Settings Ledger Session Wp.
From S2P Require Import Evolution JobConfigLedger TestSets Mlflow WorkerTokens LeaseService JobApi.
From S2P Require Import LedgerInvariant Fixtures LeaseProperties WorkerTokensCorrect StatusUpdateCorrect.

Section api.
  Context {CP : ContractParser} {PF : Platform}.
  Variable settings : Settings.

(** ** Reads *)

Section reads.
  Variable I : DB → Prop.

Lemma wp_require_owner user owner resource (Q : result () → Session → Prop) s :
  (u_role user = "admin" ∨ owner = Some (u_id user) → Q (Ok ()) s) →
  (∀ n text, Q (Raise (HTTPException n text)) s) →
  wp (require_owner_or_admin user owner resource) Q s.
Proof.
  intros HQ HR. unfold require_owner_or_admin. wp_step; [apply HR|].
  apply HQ. destruct (decide (u_role user = "admin")) as [|Hr]; [by left|].
  rewrite (bool_decide_eq_false_2 _ Hr) in *. simpl in *. bools. by right.
Qed.

(** A response describes the row it was made of. *)
Definition describes (r : JobRead) (job : Job) : Prop :=
  jr_id r = j_id job ∧ value (jr_status r) = j_status job ∧
  jr_cancel_requested_at r = j_cancel_requested_at job ∧ jr_worker_id r = j_worker_id job ∧
  jr_current_attempt_id r = j_current_attempt_id job ∧ jr_attempt_count r = j_attempt_count job ∧
  ∃ a mode, job_evidence job a = Some (jr_config r, mode).

Lemma wp_job_to_schema job a (Q : result JobRead → Session → Prop) s :
  (∀ r, describes r job → Q (Ok r) s) → (∀ e, e ≠ RecursionError → Q (Raise e) s) →
  wp (job_to_schema job a) Q s.
Proof.
  intros HQ HR. unfold job_to_schema. wp_steps; try by apply HR.
  apply HQ. unfold describes. simpl. split_and!; try done; [|by exists a, o].
  match goal with Hs : JobStatus_of _ = Some _ |- _ => by apply JobStatus_of_Some in Hs end.
Qed.

Lemma wp_job_response job (Q : result JobRead → Session → Prop) c L t i s :
  St I c c false None L t i s →
  (∀ r c' s', describes r job → evolves c c' → St I c' c' false None L t i s' → Q (Ok r) s') →
  (∀ e s', e ≠ RecursionError → safe I s' → Q (Raise e) s') →
  wp (job_response job) Q s.
Proof.
  intros Hst HQ HR. unfold job_response. do 4 wp_step. apply wp_job_to_schema.
  - intros r Hr. by eapply HQ; eauto.
  - intros e He. by eapply HR, St_safe.
Qed.

Lemma wp_jobs_to_schema found (Q : result (list JobRead) → Session → Prop) c L t i s :
  St I c c false None L t i s → (∀ r s', safe I s' → Q (Ok r) s') →
  (∀ e s', e ≠ RecursionError → safe I s' → Q (Raise e) s') →
  wp (jobs_to_schema found) Q s.
Proof.
  intros Hst HQ HR. unfold jobs_to_schema. do 4 wp_step. pose proof (St_safe _ _ _ _ _ _ _ _ _ Hst) as Hsafe.
  clear Hst. revert Q HQ HR. induction found as [|job found IH]; intros Q HQ HR; simpl; wp_step; [by apply HQ|].
  apply wp_job_to_schema; [|by auto]. intros r _. wp_simpl. wp_step. apply IH; [|done].
  intros rs s1 Hs1. wp_simpl. wp_step. by apply HQ.
Qed.

Lemma wp_refresh {A} (read : DB → option A) (Q : result A → Session → Prop) c L t i s :
  St I c c false None L t i s →
  (∀ a c' s', read c' = Some a → evolves c c' → St I c' c' false None L t i s' → Q (Ok a) s') →
  (∀ e s', e ≠ RecursionError → safe I s' → Q (Raise e) s') →
  wp (refresh read) Q s.
Proof.
  intros Hst HQ HR. unfold refresh. wp_steps; [by eapply HQ; eauto|by eapply HR; [|eapply St_safe]].
Qed.

(** The request [s] may act on the Job: the row was read first, and its Experiment, which is
    read at the next await, belongs to the user, unless the user is an administrator. *)
Record entitled (s : Session) (user : User) (job_id : string) (job : Job) : Prop := mkEntitled {
  en_row : jobs (moment s 0) !! job_id = Some job;
  en_owner : ∃ experiment, experiments (moment s 1) !! j_experiment_id job = Some experiment ∧
    (u_role user = "admin" ∨ e_created_by experiment = Some (u_id user)) }.

Lemma wp_owned_job_entitled job_id user (Q : result Job → Session → Prop) c L t i s :
  St I c c false None L t i s →
  (∀ job, entitled s user job_id job → evolves c (moment s 1) →
     St I (moment s 1) (moment s 1) false None L t i (later 1 s) → Q (Ok job) (later 1 s)) →
  (∀ text s', safe I s' → Q (Raise (HTTPException 404 text)) s') →
  wp (owned_job job_id user) Q s.
Proof.
  intros Hst HQ HR. unfold owned_job, require_owner_or_admin. wp_step. wp_step. wp_step.
  2: { wp_step. by eapply HR, St_safe. }
  match goal with Hj : jobs c !! _ = Some ?j |- _ => rename j into job, Hj into Hjob end.
  wp_step. eapply wp_interleave_later; [exact Hst|]. intros [_ Hev] Hst1. wp_simpl. wp_step. wp_step.
  wp_step; [|wp_step; by eapply HR, St_safe]. wp_step. wp_step; [by eapply HR, St_safe|]. wp_step.
  apply HQ; [|done|done]. split; [by rewrite (St_moment _ _ _ _ _ _ Hst)|]. eexists. split; [done|].
  destruct (decide (u_role user = "admin")) as [|Hr]; [by left|].
  rewrite (bool_decide_eq_false_2 _ Hr) in *. simpl in *. bools. by right.
Qed.

(** The Job that was read, and who may act on it. *)
Lemma wp_owned_job job_id user (Q : result Job → Session → Prop) c L t i s :
  St I c c false None L t i s →
  (∀ c' job experiment s', jobs c !! job_id = Some job → evolves c c' →
     experiments c' !! j_experiment_id job = Some experiment →
     u_role user = "admin" ∨ e_created_by experiment = Some (u_id user) →
     St I c' c' false None L t i s' → Q (Ok job) s') →
  (∀ text s', safe I s' → Q (Raise (HTTPException 404 text)) s') →
  wp (owned_job job_id user) Q s.
Proof.
  intros Hst HQ HR. eapply wp_owned_job_entitled; [exact Hst| |exact HR].
  intros job [Hrow (e & He & Hmay)] Hev Hst1. rewrite (St_moment _ _ _ _ _ _ Hst) in Hrow. by eapply HQ.
Qed.
End reads.

(** ** The versioned flush *)

Section handlers.
  Context (I : DB → Prop) `{!Stable I}.
  #[local] Set Default Proof Using "Stable0 CP".

Lemma wp_stale_flush (Q : result () → Session → Prop) c d b dm L t i s :
  St I c d b dm L t i s →
  (∀ e s', St I c d true (Some e) L t i s' → Q (Ok ()) s') → wp stale_flush Q s.
Proof using Type.
  intros Hst HQ. unfold stale_flush. wp_step. wp_step. destruct Hst.
  apply (HQ (default StaleDataError dm)). by constructor; simpl; subst.
Qed.

Definition saved_row (job : Job) (f : Job → Job) : Job :=
  bump job_with_version j_row_version (Some job) (f job).

Lemma terminal_path s x : is_terminal s = true → s ≠ FAILED → status_path (value s) x → x = value s.
Proof using Type.
  intros Ht Hf. remember (value s) as y eqn:Hy. induction 1 as [|y z w Hhop Hrest IH]; [done|].
  destruct Hhop as (s' & t' & -> & -> & Hstep). apply value_inj in Hy as ->.
  unfold status_step in Hstep. apply list_elem_of_In in Hstep. by destruct s.
Qed.

(** The columns the version does not touch are those the change sets. *)
Lemma saved_row_col {A} job f (g : Job → A) :
  (∀ j v, g (j <| j_row_version := v |>) = g j) → g (saved_row job f) = g (f job).
Proof using Type.
  intros Hg. unfold saved_row, bump. case_decide as Hc; [|apply Hg].
  transitivity (g (job_with_version (f job) (j_row_version job))); [by rewrite Hc|apply Hg].
Qed.

Lemma seen_read c job_id job : Inv c → jobs c !! job_id = Some job → seen c job ∧ j_id job = job_id.
Proof using Type.
  intros [HI _] Hj. pose proof (job_ids _ _ _ _ HI _ _ Hj) as Hid. split; [|done].
  exists job. rewrite Hid. auto.
Qed.

(** The flush changes the row that was read, or fails the commit. *)
Lemma wp_save_loaded job f (Q : result () → Session → Prop) c L t i s :
  St I c c false None L t i s → seen c job →
  (∀ c' s', jobs c' !! j_id job = Some job → evolves c c' →
     St I c' (c' <| jobs := <[j_id job := saved_row job f]> (jobs c') |>) true None L t i s' →
     Q (Ok ()) s') →
  (∀ c' e s', St I c' c' true (Some e) L t i s' → Q (Ok ()) s') →
  wp (save_loaded_job job f) Q s.
Proof.
  intros Hst Hseen HQ HD. unfold save_loaded_job. wp_step. wp_step. wp_step. wp_step.
  - match goal with Hr : jobs _ !! _ = Some ?row |- _ => assert (row = job) as -> end.
    { eapply seen_version; [by eapply seen_evolves; [|eauto]|done|]. by bools. }
    wp_simpl. eapply wp_when; [done|intros _]. by eapply HQ; [| |done]; eauto.
  - wp_step; [|done]. eapply wp_stale_flush; [done|]. intros. by eapply HD.
Qed.

Lemma saved_row_evolves job f :
  job_soft job (f job) → job_evolves job (saved_row job f).
Proof using Type.
  intros [Hf Hs Ha]. unfold saved_row, bump. case_decide; [by left|]. right.
  split; [simpl; lia|]. by split.
Qed.

(** Committing such a change to a Job that is not leased, or without touching the
    columns of its assignment. *)
Lemma stable_saved c d job f :
  I c → jobs c !! j_id job = Some job → job_soft job (f job) →
  (¬ leased (j_status job) ∧ ¬ leased (j_status (f job)) ∨
   j_current_attempt_id (f job) = j_current_attempt_id job ∧ j_worker_id (f job) = j_worker_id job ∧
   j_status (f job) = j_status job) →
  jobs d = <[j_id job := saved_row job f]> (jobs c) → workers d = workers c →
  attempts d = attempts c → leases d = leases c → job_logs d = job_logs c →
  metrics d = metrics c → rest_of d = rest_of c → commits I c d.
Proof.
  intros HI Hjob Hsoft Hcase Ej Ew Ea El Elg Em Ex.
  pose proof (saved_row_evolves _ _ Hsoft) as Hev.
  assert (Inv c) as HIc by by apply stable_inv.
  assert (j_id (saved_row job f) = j_id job) as Hid.
  { rewrite (saved_row_col _ _ j_id) by done. by destruct Hsoft as [[=]]. }
  eapply stable_step; [done| |].
  - split; rewrite ?Ej, ?Ea, ?El, ?Elg, ?Em;
      [|apply evolves_PreOrder..|done|done|by apply rest_step_same].
    eapply jobs_step_update; [apply evolves_PreOrder|done|done].
  - destruct HIc as (HL & HS & HC). unfold Inv. rewrite Ej, Ew, Ea, El, Elg, Em.
    split_and!; [|done..]. destruct Hcase as [(Hn & Hn')|(Hc & Hw & Hs)].
    + apply LedgerInv_free_job; [done| |done|].
      * intros j Hj. by simplify_eq.
      * by rewrite (saved_row_col _ _ j_status).
    + eapply LedgerInv_job; [done|done|done|..].
      * by rewrite (saved_row_col _ _ j_current_attempt_id).
      * by rewrite (saved_row_col _ _ j_worker_id).
      * by rewrite (saved_row_col _ _ j_status).
Qed.
(** ** Reads preserve everything *)

Lemma get_job_preserves job_id user : preserves I (get_job job_id user).
Proof.
  start_handler. unfold get_job. wp_step. eapply wp_owned_job; [done| |done].
  intros c' job e s' _ _ _ _ Hst'. wp_simpl.
  eapply wp_job_response; [done|intros; finish_safe|done].
Qed.

Lemma list_jobs_preserves user experiment_id job_status offset limit :
  preserves I (list_jobs user experiment_id job_status offset limit).
Proof.
  start_handler. unfold list_jobs. do 7 wp_step.
  eapply wp_jobs_to_schema; [done| |done]. intros r s1 Hs1. wp_simpl. by wp_step.
Qed.

Lemma get_experiment_preserves experiment_id user : preserves I (get_experiment experiment_id user).
Proof. start_handler. unfold get_experiment, require_owner_or_admin. wp_steps; finish_safe. Qed.

(** ** Experiments *)

Lemma create_experiment_preserves payload user :
  preserves I (create_experiment settings payload user).
Proof.
  start_handler. unfold create_experiment, require_owner_or_admin, enqueue_experiment_created.
  wp_steps; try finish_safe.
  - caught_or_raised; wp_steps; finish_safe.
  - eapply (wp_enqueue settings I (stable_outbox I)); [done|].
    intros d9 dm9 t9 r9 s9 Hsame Hdm Ht Hst9. wp_simpl. wp_step.
    eapply wp_commit; [done|intros; finish_safe| |].
    { intros _. eapply commits_then; [|by apply (stable_outbox I)]. ledger_inv HI. same_tables.
      by eapply Inv_ext; [..|exact HI]. }
    intros s2 _ Hst2. wp_simpl. wp_step. eapply (wp_refresh I); [done| |done].
    intros e1 c3 s3 _ _ Hst3. wp_simpl. wp_step.
    eapply (sync_after_commit_ok settings I (stable_outbox I)); [done| |intros; done].
    intros. wp_step. finish_safe.
Qed.

Lemma wp_locked_experiment experiment_id user (Q : result Experiment → Session → Prop) c L t i s :
  St I c c false None L t i s →
  (∀ c' e s', experiments c' !! experiment_id = Some e →
     u_role user = "admin" ∨ e_created_by e = Some (u_id user) →
     St I c' c' false None ({[LockExperiment experiment_id]} ∪ L) t i s' → Q (Ok e) s') →
  (∀ n text s', safe I s' → Q (Raise (HTTPException n text)) s') →
  wp (locked_owned_experiment experiment_id user) Q s.
Proof using Type.
  intros Hst HQ HR. unfold locked_owned_experiment. wp_steps; [|by eapply HR, St_safe].
  match goal with Hf : _ = Some _ |- _ => rename Hf into Hfound end.
  destruct (experiments c' !! experiment_id) as [e'|] eqn:He; [|done]. simpl in Hfound.
  destruct (_ || _) eqn:Hown in Hfound; [|done]. injection Hfound as ->. eapply HQ; [done| |done].
  apply orb_true_iff in Hown as [Hown|Hown]; bools; auto.
Qed.

Lemma update_experiment_preserves experiment_id payload user :
  preserves I (update_experiment experiment_id payload user).
Proof.
  start_handler. unfold update_experiment. wp_step.
  eapply wp_locked_experiment; [done| |done]. intros c' e s' _ _ Hst'.
  wp_step. wp_step; [finish_safe|]. wp_step; [wp_step; finish_safe|]. wp_step.
  unfold save_experiment, wp at 1. eapply wp_write; [done|]. intros s2 Hst2. do 4 wp_step.
  - wp_steps; finish_safe.
  - ledger_inv HI. same_tables. by eapply Inv_ext; [..|exact HI].
  - eapply (wp_refresh I); [done|intros; finish_safe|done].
Qed.

Lemma delete_experiment_preserves experiment_id version user :
  preserves I (delete_experiment settings experiment_id version user).
Proof.
  start_handler. unfold delete_experiment. wp_step.
  eapply wp_locked_experiment; [done| |done]. intros c' e s' _ _ Hst'.
  wp_steps; try finish_safe. eapply wp_commit; [done|..].
  - intros err s2 Hst2. caught_or_raised; wp_steps; finish_safe.
  - intros _. ledger_inv HI. same_tables. by eapply Inv_ext; [..|exact HI].
  - intros. finish_safe.
Qed.
(** ** Creation of a Job *)

Definition plan_ok (config : JobConfig) (plan : SamplePlan) : Prop :=
  let samples := auto_inference_samples config in
  sp_test_set_id plan = if enabled samples then Some (default "" (test_set_id samples)) else None.

Lemma wp_plan_samples config user (Q : result SamplePlan → Session → Prop) c L t i s :
  St I c c false None L t i s →
  (∀ plan c' L' s', plan_ok config plan → St I c' c' false None L' t i s' → Q (Ok plan) s') →
  (∀ e s', e ≠ RecursionError → safe I s' → Q (Raise e) s') →
  wp (plan_samples settings config user) Q s.
Proof using Type.
  intros Hst HQ HR. unfold plan_samples, require_owner_or_admin. wp_step.
  { wp_step. eapply HQ; [|done]. unfold plan_ok. bools.
    by match goal with He : enabled _ = false |- _ => rewrite He end. }
  wp_steps; try by eapply HR; [|eapply St_safe].
  eapply HQ; [|done]. unfold plan_ok. bools.
  by match goal with He : enabled _ = true |- _ => rewrite He end.
Qed.

Lemma stable_new_job c d job :
  I c → jobs c !! j_id job = None → j_status job = value QUEUED →
  jobs d = <[j_id job := job]> (jobs c) → workers d = workers c → attempts d = attempts c →
  leases d = leases c → job_logs d = job_logs c → metrics d = metrics c →
  rest_of d = rest_of c → commits I c d.
Proof.
  intros HI Hnone Hq Ej Ew Ea El Elg Em Ex. eapply stable_step; [done| |].
  - split; rewrite ?Ej, ?Ea, ?El, ?Elg, ?Em;
      [|apply evolves_PreOrder..|done|done|by apply rest_step_same].
    apply table_step_insert; [apply evolves_PreOrder|]. rewrite Hnone. simpl.
    unfold job_new. by rewrite Hq.
  - destruct (stable_inv _ HI) as (HL & HS & HC). unfold Inv. rewrite Ej, Ew, Ea, El, Elg, Em.
    split_and!; [|done..]. apply LedgerInv_free_job; [done| |done|].
    + intros j Hj. congruence.
    + rewrite Hq, leased_value. naive_solver.
Qed.

(** The row a creation has committed. *)
Record job_created (d : DB) (config : JobConfig) (user : User) (job : Job) : Prop := mkJobCreated {
  jn_row : jobs d !! j_id job = Some job;
  jn_new : ∃ experiment sha256 plan now,
    job = queued_job (j_id job) experiment config sha256 plan now ∧
    job_config_sha256 (dump_JobConfig config) = Some sha256 ∧ plan_ok config plan ∧
    e_dataset_id experiment = dataset_id config ∧
    (u_role user = "admin" ∨ e_created_by experiment = Some (u_id user)) }.

Lemma wp_create_job config user (Q : result JobRead → Session → Prop) c L t i s :
  St I c c false None L t i s →
  (∀ r job d row s', safe I s' → job_created d config user job → evolves d (s_committed s') →
     job_evolves job row → describes r row → Q (Ok r) s') →
  (∀ e s', e ≠ RecursionError → safe I s' → Q (Raise e) s') →
  wp (create_job settings config user) Q s.
Proof.
  intros Hst HQ HR. unfold create_job. wp_step. wp_step. wp_step;
    [|wp_step; by eapply HR; [|eapply St_safe]]. rename e into experiment.
  wp_step. apply wp_require_owner; [|intros; by eapply HR; [|eapply St_safe]]. intros Hown. wp_simpl.
  wp_step. wp_step; [by eapply HR; [|eapply St_safe]|]. wp_step. wp_step. wp_step.
  wp_step; [by eapply HR; [|eapply St_safe]|]. wp_step.
  eapply wp_plan_samples; [done| |done]. intros plan c2 L2 s2 Hplan Hst2. wp_simpl.
  wp_step. wp_step; [|wp_step; by eapply HR; [|eapply St_safe]]. rename s0 into sha256.
  repeat wp_step.
  { caught_or_raised; wp_steps; by eapply HR; [|eapply St_safe]. }
  match goal with Hd : ?dm = None, Hc : ?dm = None → _ |- _ =>
    destruct (Hc Hd) as [_ Hconflict]; unfold job_conflict in Hconflict; bools end.
  unfold enqueue_job_created.
  eapply (wp_enqueue_for_job settings I (stable_outbox I)); [done| |intros; by apply HR].
  intros d9 dm9 t9 key s9 Hsame Hdm Ht Hst9. wp_step.
  destruct (same_ledger_fields _ _ Hsame) as (Ew & Ej & Ea & El & Elg & Em & _).
  eapply wp_commit; [done|intros; by eapply HR; [|eapply St_safe]| |].
  { intros Hd. eapply (stable_new_job c2 _ (queued_job id experiment config sha256 plan t));
      [by eapply st_inv|done..|by rewrite (same_ledger_rest _ _ Hsame)]. }
  intros s10 Hd Hst10. set (job := queued_job id experiment config sha256 plan t) in *.
  assert (jobs d9 = <[id := job]> (jobs c2)) as Hj9 by by rewrite Ej.
  wp_simpl. wp_step. eapply (wp_refresh I); [done| |done].
  intros row c3 s3 Hrow Hev3 Hst3. wp_simpl. wp_step.
  eapply (sync_after_commit_ok settings I (stable_outbox I)); [done| |intros; by apply HR].
  intros r c11 L11 t11 s11 Hsame11 _ Hst11. wp_simpl. eapply wp_job_response; [done| |done].
  intros resp c12 s12 Hresp Hev12 Hst12.
  assert (evolves c3 c11) as Hev11.
  { destruct (same_ledger_fields _ _ Hsame11) as (_ & ? & ? & ? & ? & ? & _).
    pose proof (same_ledger_rest _ _ Hsame11).
    by apply (evolves_ext c3 c3). }
  eapply (HQ resp job d9 row); [by eapply St_safe| | | |done].
  - split; [rewrite Hj9; apply lookup_insert_eq|]. bools. by do 4 eexists.
  - rewrite (st_committed _ _ _ _ _ _ _ _ _ Hst12). etrans; [|exact Hev12]. by etrans.
  - destruct (table_step_lookup _ _ _ _ id job (ev_jobs _ _ Hev3)) as (row' & Hrow' & He).
    + rewrite Hj9. apply lookup_insert_eq.
    + congruence.
Qed.

Lemma create_job_preserves config user : preserves I (create_job settings config user).
Proof. start_handler. by eapply wp_create_job. Qed.

(** ** Cancellation and retry *)

(** What a handler that changed one Job has committed: [d] is the state in which it took
    effect, and the session goes on from the state after it. *)
Record job_changed (d d' : DB) (job : Job) (f : Job → Job) : Prop := mkJobChanged {
  jc_before : jobs d !! j_id job = Some job;
  jc_jobs : jobs d' = <[j_id job := saved_row job f]> (jobs d);
  jc_rest : workers d' = workers d ∧ attempts d' = attempts d ∧ leases d' = leases d ∧
    job_logs d' = job_logs d ∧ metrics d' = metrics d }.

Lemma wp_refreshed job_id (Q : result JobRead → Session → Prop) c L t i s :
  St I c c false None L t i s →
  (∀ r row c' c2 s', evolves c c' → jobs c' !! job_id = Some row → describes r row →
     evolves c' c2 → St I c2 c2 false None L t i s' → Q (Ok r) s') →
  (∀ e s', e ≠ RecursionError → safe I s' → Q (Raise e) s') →
  wp (refreshed_response job_id) Q s.
Proof using Type.
  intros Hst HQ HR. unfold refreshed_response. wp_step. eapply wp_refresh; [done| |done].
  intros row c' s' Hrow Hev Hst'. wp_simpl. eapply wp_job_response; [done| |done].
  intros r c2 s2 Hr Hev2 Hst2. by eapply HQ.
Qed.

(** A request changed [job] by [f], from [d] to [d']; its answer describes [row], read a
    moment later, and the request ends in [d'']. *)
Record acted (d d' d'' : DB) (job_id : string) (job : Job) (f : Job → Job) (row : Job)
    : Prop := mkActed {
  at_inv : Inv d;
  at_id : j_id job = job_id;
  at_changed : job_changed d d' job f;
  at_row : ∃ d1, evolves d' d1 ∧ jobs d1 !! job_id = Some row ∧ evolves d1 d'' }.

Lemma refreshed_response_log job_id : log_grows (refreshed_response job_id).
Proof using Type.
  unfold refreshed_response, refresh, job_response, job_to_schema, some_or_raise.
  repeat log_grows_step.
Qed.

Lemma wp_act_on_job job_id f (after_save : M ()) job c
    (Q : result JobRead → Session → Prop) L t i s :
  St I c c false None L t i s → seen c job → j_id job = job_id →
  job_soft job (f job) →
  (¬ leased (j_status job) ∧ ¬ leased (j_status (f job)) ∨
   j_current_attempt_id (f job) = j_current_attempt_id job ∧ j_worker_id (f job) = j_worker_id job ∧
   j_status (f job) = j_status job) →
  (∀ (R : result () → Session → Prop) c d b dm s, St I c d b dm L t i s →
     (∀ d' s', jobs d' = jobs d ∧ workers d' = workers d ∧ attempts d' = attempts d ∧
        leases d' = leases d ∧ job_logs d' = job_logs d ∧ metrics d' = metrics d ∧
        rest_of d' = rest_of d →
        St I c d' true dm L t i s' → R (Ok ()) s') → wp after_save R s) →
  (∀ r d d' row s', evolves c d → (d, d') ∈ s_log s' →
     acted d d' (s_committed s') job_id job f row → describes r row → safe I s' → Q (Ok r) s') →
  (∀ e s', e ≠ RecursionError → safe I s' → Q (Raise e) s') →
  wp (_ ← save_loaded_job job f; _ ← after_save; _ ← commit; refreshed_response job_id) Q s.
Proof.
  intros Hst Hseen Hid Hsoft Hcase Hafter HQ HR. wp_step.
  eapply wp_save_loaded; [done|done|..].
  - intros c1 s1 Hrow Hev1 Hst1. wp_simpl. wp_step. eapply Hafter; [done|].
    intros d2 s2 (Ej & Ew & Ea & El & Elg & Em & Ex) Hst2. wp_simpl. wp_step.
    eapply wp_commit_logged; [done|intros; by eapply HR; [|eapply St_safe]| |].
    { intros _. eapply (stable_saved c1 d2 job f); try done. by eapply st_inv. }
    intros s3 _ Hlog Hst3. wp_simpl.
    eapply wp_log_grows; [apply refreshed_response_log|exact Hlog|].
    eapply wp_refreshed; [done| |intros; by apply HR].
    intros r row c4 c5 s4 Hev4 Hrow4 Hr Hev5 Hst4 Hlog4.
    eapply (HQ r c1 d2 row); [done|exact Hlog4| |done|by eapply St_safe].
    rewrite (st_committed _ _ _ _ _ _ _ _ _ Hst4).
    split; [by eapply stable_inv, st_inv|done|by split; [|done|split_and!]|by exists c4].
  - intros c1 e s1 Hst1. wp_simpl. wp_step. eapply Hafter; [done|].
    intros d2 s2 _ Hst2. wp_simpl. wp_step.
    eapply wp_commit; [done|intros; by eapply HR; [|eapply St_safe]|done|done].
Qed.
Lemma wp_cancel_job job_id user (Q : result JobRead → Session → Prop) c L t i s :
  St I c c false None L t i s →
  (∀ r d d' job current now row s', t <= now → j_status job = value current →
     is_terminal current = false → entitled s user job_id job → (d, d') ∈ s_log s' →
     acted d d' (s_committed s') job_id job (cancelled_row current now) row → describes r row →
     safe I s' → Q (Ok r) s') →
  (∀ e s', e ≠ RecursionError → safe I s' → Q (Raise e) s') →
  wp (cancel_job job_id user) Q s.
Proof.
  intros Hst HQ HR. pose proof (stable_inv _ (st_inv _ _ _ _ _ _ _ _ _ Hst)) as HI.
  unfold cancel_job. wp_step. eapply wp_owned_job_entitled; [done| |intros; by apply HR].
  intros job Hent Hev Hst1. pose proof (en_row _ _ _ _ Hent) as Hjob.
  rewrite (St_moment _ _ _ _ _ _ Hst) in Hjob. destruct (seen_read _ _ _ HI Hjob) as [Hseen Hid].
  wp_simpl. wp_step; [|wp_step; by eapply HR; [|eapply St_safe]]. rename j into current.
  match goal with Hs : JobStatus_of _ = Some _ |- _ => apply JobStatus_of_Some in Hs; rename Hs into Hcur end.
  wp_step. wp_step; [by eapply HR; [|eapply St_safe]|]. wp_step. wp_step. wp_step.
  match goal with |- wp _ ?K ?s2 => assert (K (Ok ()) s2) as Hrest end.
  2: { wp_step; [|done]. wp_step. wp_step; [by eapply HR; [|eapply St_safe]|]. by wp_step. }
  wp_simpl. eapply wp_act_on_job; [done|by eapply seen_evolves|done| | | | |done].
  - unfold cancelled_row. case_bool_decide; [|by split]. split; [done| |done].
    simpl. rewrite Hcur. subst. apply (status_path_step QUEUED CANCELLED). apply list_elem_of_In. simpl. tauto.
  - unfold cancelled_row. case_bool_decide; [left|by right]. subst.
    split; [rewrite Hcur|change (¬ leased (value CANCELLED))]; rewrite leased_value.
    + by intros (_ & ? & _).
    + by intros (? & _).
  - intros R c2 d2 b2 dm2 s2 Hst2 HRr. unfold record_cancellation. wp_steps; (eapply HRr; [|done]; done).
  - intros. eapply HQ; [|done|done|done|by eauto..]. lia.
Qed.

Lemma cancel_job_preserves job_id user : preserves I (cancel_job job_id user).
Proof. start_handler. by eapply wp_cancel_job. Qed.

Lemma wp_retry_job job_id user (Q : result JobRead → Session → Prop) c L t i s :
  St I c c false None L t i s →
  (∀ r d d' job attempt row s', j_status job = value FAILED →
     j_current_attempt_id job = Some (a_id attempt) → attempts d !! a_id attempt = Some attempt →
     a_job_id attempt = job_id → entitled s user job_id job → (d, d') ∈ s_log s' →
     acted d d' (s_committed s') job_id job requeued_job row → describes r row →
     safe I s' → Q (Ok r) s') →
  (∀ e s', e ≠ RecursionError → safe I s' → Q (Raise e) s') →
  wp (retry_job job_id user) Q s.
Proof.
  intros Hst HQ HR. pose proof (stable_inv _ (st_inv _ _ _ _ _ _ _ _ _ Hst)) as HI.
  unfold retry_job. wp_step. eapply wp_owned_job_entitled; [done| |intros; by apply HR].
  intros job Hent Hev Hst1. pose proof (en_row _ _ _ _ Hent) as Hjob.
  rewrite (St_moment _ _ _ _ _ _ Hst) in Hjob. destruct (seen_read _ _ _ HI Hjob) as [Hseen Hid].
  wp_simpl. wp_step; [|wp_step; by eapply HR; [|eapply St_safe]]. rename j into current.
  match goal with Hs : JobStatus_of _ = Some _ |- _ => apply JobStatus_of_Some in Hs; rename Hs into Hcur end.
  do 2 (wp_step; try by eapply HR; [|eapply St_safe]). wp_step. eapply wp_interleave; [done|].
  intros c2 s2 [_ Hev2] Hst2. wp_simpl. wp_step.
  do 3 (wp_step; try by eapply HR; [|eapply St_safe]).
  do 3 (wp_step; wp_step; try by eapply HR; [|eapply St_safe]).
  bools. subst current.
  destruct (j_current_attempt_id job) as [aid|] eqn:Haid; [|done]. cbn [mbind option_bind] in *.
  destruct (attempts c2 !! aid) as [attempt|] eqn:Hattempt; [|done].
  destruct (validated_job_config job (Some attempt)) as [|config] eqn:Hconfig; [done|].
  assert (a_id attempt = aid) as Ha.
  { assert (Inv c2) as [HI1 _] by by eapply stable_inv, st_inv. by apply HI1. }
  apply validated_job_config_inr in Hconfig as (h & _ & _ & _ & _ & _ & _ & _ & _ & _ & _ & _ & Hmatch).
  destruct (Hmatch _ eq_refl) as [Hajob _].
  eapply wp_act_on_job; [done|by eapply seen_evolves, Hev2; eapply seen_evolves|done| | | | |done].
  - split; [done| |done]. simpl. rewrite Hcur. apply requeue_path.
  - left. split; [rewrite Hcur|change (¬ leased (value QUEUED))]; rewrite leased_value.
    + by intros (? & _).
    + by intros (_ & ? & _).
  - intros R c3 d3 b3 dm3 s3 Hst3 HRr. unfold record_retry. wp_steps; (eapply HRr; [|done]; done).
  - intros r d d' row s3 Hev3 Hlog Hacted Hr Hsafe.
    destruct (table_step_lookup _ _ _ _ _ _ (ev_attempts _ _ Hev3) Hattempt) as (a' & Ha' & Hea).
    pose proof (ae_frame _ _ Hea) as Hframe. injection Hframe as Eid Ejob _ _ _ _ _ _ _ _ _.
    eapply (HQ r d d' job a'); try done; congruence.
Qed.

Lemma retry_job_preserves job_id user : preserves I (retry_job job_id user).
Proof. start_handler. by eapply wp_retry_job. Qed.
End handlers.

(** ** Properties *)

(** The row of a creation is one a claim accepts, now and after any later transactions. *)
Lemma plan_test_set config plan :
  AutoInferenceSamplesConfig_valid (auto_inference_samples config) = true → plan_ok config plan →
  test_set_id (auto_inference_samples config) = sp_test_set_id plan.
Proof.
  unfold AutoInferenceSamplesConfig_valid, plan_ok. intros Hv Hp. rewrite !andb_true_iff in Hv.
  destruct (enabled _), (test_set_id _) as [id|]; simpl in *; naive_solver congruence.
Qed.

Lemma validated_shape document config :
  JobConfig_model_validate document = Some config → JobConfig_fields_valid config = true.
Proof.
  unfold JobConfig_model_validate, validate_JobConfig. intros Hv.
  destruct (parse_JobConfig document) as [c|]; [|done]. simpl in Hv.
  destruct (unique_tags _) as [tags|]; [|done]. simpl in Hv.
  destruct (_ && _) eqn:Hok in Hv; [|done]. injection Hv as <-. by bools.
Qed.

Lemma validated_samples config :
  JobConfig_fields_valid config = true →
  AutoInferenceSamplesConfig_valid (auto_inference_samples config) = true.
Proof. unfold JobConfig_fields_valid. intros Hv. by bools. Qed.

Lemma queued_job_validates job_id experiment config sha256 plan now :
  JobConfig_model_validate (dump_JobConfig config) = Some config →
  job_config_sha256 (dump_JobConfig config) = Some sha256 → plan_ok config plan →
  e_dataset_id experiment = dataset_id config →
  validated_job_config (queued_job job_id experiment config sha256 plan now) None = inr config.
Proof.
  intros Hparse Hsha Hplan Hds. unfold validated_job_config, queued_job. simpl.
  rewrite (job_config_sha256_shape _ _ Hsha), Hsha, Hparse. unfold job_config_sha256_of.
  rewrite Hsha, Hds, (plan_test_set config plan), !Z.eqb_refl, !bool_decide_eq_true_2 by
    (done || by eapply validated_samples, validated_shape). done.
Qed.

(** What is exposed is the configuration that validates. *)
Lemma evidence_config row a config c mode :
  validated_job_config row None = inr config → job_evidence row a = Some (c, mode) → c = config.
Proof.
  intros Hv He. destruct (validated_job_config_inr _ _ _ Hv) as (h & Hh & _ & _ & _ & Hparse & _).
  unfold job_evidence in He. destruct (j_current_attempt_id row) as [id|].
  - destruct a as [attempt|]; [|done]. simpl in He. destruct (negb _ || negb _); [done|].
    destruct (validated_job_config row (Some attempt)) as [|c'] eqn:Hc; [done|]. simpl in He.
    destruct (validated_job_config_inr _ _ _ Hc) as (_ & _ & _ & _ & _ & Hparse' & _).
    destruct (WorkerEngineMode_of _); [|done]. simpl in He. congruence.
  - destruct (is_some a); [done|]. rewrite Hh, Hv in He. simpl in He. congruence.
Qed.

(** C11: a Job that is created can always be claimed as far as its configuration goes: when
    the contract model reads back the document it wrote, the row [create_job] commits
    passes the integrity check of a claim with the configuration that was asked for, and
    it still does after any transactions that follow the guarantee [evolves]. *)
Theorem created_job_validates config user s r :
  fresh_session Inv s → JobConfig_model_validate (dump_JobConfig config) = Some config →
  outcome (create_job settings config user) s = Ok r →
  jr_config r = config ∧
  ∃ job, jobs (after (create_job settings config user) s) !! jr_id r = Some job ∧
    ∀ d row, evolves (after (create_job settings config user) s) d →
      jobs d !! jr_id r = Some row → validated_job_config row None = inr config.
Proof.
  intros Hfresh Hparse Hout.
  assert (wp (create_job settings config user) (λ r s', match r with
    | Ok r => ∃ job d row, job_created d config user job ∧ evolves d (s_committed s') ∧
        job_evolves job row ∧ describes r row
    | Raise _ => True end) s) as Hwp.
  { eapply (wp_create_job Inv); [by apply fresh_St| |done]. intros. by do 3 eexists. }
  destruct (wp_run _ _ _ _ Hwp Hout) as (job & d1 & row & [Hrow Hnew] & Hev1 & Hrj & Hr).
  destruct Hnew as (experiment & sha256 & plan & now & Heq & Hsha & Hplan & Hds & _).
  assert (∀ row, job_evolves job row → validated_job_config row None = inr config) as Hok.
  { intros row' [Hframe _ _]%job_evolves_soft.
    rewrite <-(queued_job_validates (j_id job) experiment config sha256 plan now), <-Heq by done.
    injection Hframe as. by apply validated_job_config_ext. }
  pose proof (Hok _ Hrj) as Hrow_ok. pose proof Hr as (Hid & _ & _ & _ & _ & _ & a & mode & Hev).
  assert (j_id row = j_id job) as Hjid.
  { apply job_evolves_soft in Hrj as [Hframe _ _]. by injection Hframe. }
  split.
  - by eapply evidence_config.
  - destruct (table_step_lookup _ _ _ _ _ _ (ev_jobs _ _ Hev1) Hrow) as (job' & Hjob' & Hj').
    exists job'. rewrite Hid, Hjid. split; [done|]. intros d row' Hevd Hd. apply Hok.
    destruct (table_step_lookup _ _ _ _ _ _ (ev_jobs _ _ Hevd) Hjob') as (row2 & Hrow2 & Hstep).
    simplify_eq. by etrans.
Qed.

Lemma acted_row d d' d'' job_id job f row :
  acted d d' d'' job_id job f row → ∃ saved, saved = saved_row job f ∧ job_evolves saved row.
Proof.
  intros [_ Hid [_ Hjobs _] (d1 & Hlater & Hrow & _)]. exists (saved_row job f). split; [done|].
  destruct (table_step_lookup _ _ _ _ job_id (saved_row job f) (ev_jobs _ _ Hlater)) as (x & Hx & He).
  - rewrite Hjobs, <-Hid. apply lookup_insert_eq.
  - congruence.
Qed.

Lemma cancel_commits_once job_id user : commits_within 1 (cancel_job job_id user).
Proof using Type.
  unfold cancel_job, owned_job, require_owner_or_admin, check_transition, save_loaded_job,
    update_job_where, record_cancellation, refreshed_response, refresh, job_response,
    job_to_schema, some_or_raise. repeat within_step.
Qed.

Lemma retry_commits_once job_id user : commits_within 1 (retry_job job_id user).
Proof using Type.
  unfold retry_job, owned_job, require_owner_or_admin, check_transition, save_loaded_job,
    update_job_where, record_retry, refreshed_response, refresh, job_response,
    job_to_schema, some_or_raise. repeat within_step.
Qed.

(** C9: a cancellation takes effect on exactly the row that was read. When it answers, the
    row that was read first was not terminal and the user was entitled to it; the request
    has committed one transaction, on a database that still has this row, and it changes
    nothing but this row; a queued Job is cancelled, for good; a Job held by a Worker keeps its
    status and its assignment and is marked. *)
Theorem cancellation_acts_on_row_read job_id user s r :
  fresh_session Inv s → outcome (cancel_job job_id user) s = Ok r →
  ∃ d d' job current now row,
    entitled s user job_id job ∧ j_status job = value current ∧ is_terminal current = false ∧
    s_clock s <= now ∧ committed_only (cancel_job job_id user) s d d' ∧
    acted d d' (after (cancel_job job_id user) s) job_id job (cancelled_row current now) row ∧
    describes r row ∧
    (current = QUEUED → jr_status r = CANCELLED) ∧
    (current ≠ QUEUED → ∃ saved, jobs d' !! job_id = Some saved ∧
       j_cancel_requested_at saved = Some now ∧ j_status saved = j_status job ∧
       j_worker_id saved = j_worker_id job ∧
       j_current_attempt_id saved = j_current_attempt_id job).
Proof.
  intros Hfresh Hout.
  assert (wp (cancel_job job_id user) (λ r s', match r with
    | Ok r => ∃ d d' job current now row, entitled s user job_id job ∧ j_status job = value current ∧
        is_terminal current = false ∧ s_clock s <= now ∧ (d, d') ∈ s_log s' ∧
        acted d d' (s_committed s') job_id job (cancelled_row current now) row ∧
        describes r row
    | Raise _ => True end) s) as Hwp.
  { eapply (wp_cancel_job Inv); [by apply fresh_St| |done]. intros. by do 6 eexists. }
  destruct (wp_run _ _ _ _ Hwp Hout)
    as (d & d' & job & current & now & row & Hent & Hst & Ht & Hn & Hlog & Ha & Hr).
  assert (s_log s = []) as Hnil by apply Hfresh.
  pose proof (within_only _ s d d' (cancel_commits_once job_id user) Hnil Hlog) as Honly.
  exists d, d', job, current, now, row. split_and!; [done..| |].
  - intros ->. pose proof (acted_row _ _ _ _ _ _ _ Ha) as (saved & Hs & Hev).
    assert (j_status saved = value CANCELLED) as Hcan.
    { rewrite Hs, (saved_row_col _ _ j_status) by done. done. }
    apply job_evolves_soft in Hev as [_ Hpath _]. rewrite Hcan in Hpath.
    apply terminal_path in Hpath; [|done..]. destruct Hr as (_ & Hr & _). apply value_inj. congruence.
  - intros Hq. destruct Ha as [_ Hid [_ Hjobs _] _]. exists (saved_row job (cancelled_row current now)).
    rewrite Hjobs, <-Hid, lookup_insert_eq. split; [done|].
    rewrite !(saved_row_col _ _ _) by done. unfold cancelled_row.
    by rewrite bool_decide_eq_false_2 by done.
Qed.

(** C10: only a failed Job is retried. When a retry answers, the row that was read first was
    FAILED, its current attempt is one of its own, and the user was entitled to it; the
    request has committed one transaction, on a database that still has this row, in which
    the row is queued again without Worker, attempt, cancellation mark, error, epoch or times,
    with its attempt count and its configuration as they were; nothing but this row
    changed. *)
Theorem retry_requeues_failed job_id user s r :
  fresh_session Inv s → outcome (retry_job job_id user) s = Ok r →
  ∃ d d' job attempt row saved,
    entitled s user job_id job ∧ j_status job = value FAILED ∧
    j_current_attempt_id job = Some (a_id attempt) ∧
    attempts d !! a_id attempt = Some attempt ∧ a_job_id attempt = job_id ∧
    committed_only (retry_job job_id user) s d d' ∧
    acted d d' (after (retry_job job_id user) s) job_id job requeued_job row ∧
    describes r row ∧
    jobs d' !! job_id = Some saved ∧ j_status saved = value QUEUED ∧
    j_worker_id saved = None ∧ j_current_attempt_id saved = None ∧
    j_cancel_requested_at saved = None ∧ j_current_epoch saved = None ∧
    j_attempt_count saved = j_attempt_count job ∧ job_frame saved = job_frame job.
Proof.
  intros Hfresh Hout.
  assert (wp (retry_job job_id user) (λ r s', match r with
    | Ok r => ∃ d d' job attempt row, entitled s user job_id job ∧ j_status job = value FAILED ∧
        j_current_attempt_id job = Some (a_id attempt) ∧
        attempts d !! a_id attempt = Some attempt ∧ a_job_id attempt = job_id ∧ (d, d') ∈ s_log s' ∧
        acted d d' (s_committed s') job_id job requeued_job row ∧ describes r row
    | Raise _ => True end) s) as Hwp.
  { eapply (wp_retry_job Inv); [by apply fresh_St| |done]. intros. by do 5 eexists. }
  destruct (wp_run _ _ _ _ Hwp Hout)
    as (d & d' & job & attempt & row & Hent & Hst & Hc & Hat & Hj & Hlog & Ha & Hr).
  assert (s_log s = []) as Hnil by apply Hfresh.
  pose proof (within_only _ s d d' (retry_commits_once job_id user) Hnil Hlog) as Honly.
  exists d, d', job, attempt, row, (saved_row job requeued_job).
  destruct Ha as [HI Hid Hch Hrow]. pose proof (jc_jobs _ _ _ _ Hch) as Hjobs.
  split_and!; try done;
    [|by rewrite !(saved_row_col _ _ _) by done..|by rewrite !(saved_row_col _ _ job_frame) by done].
  rewrite Hjobs, <-Hid. apply lookup_insert_eq.
Qed.
(** ** Strangers *)

(** The user is no administrator, and every Job of that identifier belongs to the Experiment
    of someone else. *)
Definition stranger_to (user : User) (job_id : string) (d : DB) : Prop :=
  u_role user ≠ "admin" ∧
  ∀ job experiment, jobs d !! job_id = Some job →
    experiments d !! j_experiment_id job = Some experiment → e_created_by experiment ≠ Some (u_id user).

(** Answered as if the Job did not exist, before anything is written. *)
Definition answered_missing {A} (m : M A) (s : Session) : Prop :=
  outcome m s = Raise (HTTPException 404 "job not found") ∧ s_dirty (m s).2 = false.

Lemma stranger_answer {A} job_id user (k : Job → M A) s :
  fresh_session (stranger_to user job_id) s → answered_missing (owned_job job_id user ≫= k) s.
Proof.
  intros Hs. apply fresh_St in Hs. unfold answered_missing, outcome.
  cut (wp (owned_job job_id user ≫= k)
    (λ r s', r = Raise (HTTPException 404 "job not found") ∧ s_dirty s' = false) s); [done|].
  unfold owned_job. wp_steps; try (split; [done|by eapply st_dirty]).
  match goal with Hag : agree _ _ _ |- _ => destruct Hag as [_ [HJ _ _ _ _]] end.
  match goal with Hj : jobs _ !! job_id = Some ?j, He : experiments _ !! _ = Some ?e |- _ =>
    destruct (table_step_lookup _ _ _ _ _ _ HJ Hj) as (j' & Hj' & Hjj);
    apply job_evolves_soft in Hjj as [Hframe _ _]; unfold job_frame in Hframe;
    assert (j_experiment_id j' = j_experiment_id j) as Hexp by congruence end.
  committed_inv HI. destruct HI as [Hrole Hown].
  unfold require_owner_or_admin. wp_step; [split; [done|by eapply st_dirty]|]. exfalso.
  rewrite (bool_decide_eq_false_2 _ Hrole) in *. simpl in *. bools.
  eapply Hown; [done| |done]. congruence.
Qed.

(** C26: a user who neither owns a Job nor is an administrator learns nothing of it. Reading,
    cancelling and retrying it answer 404, as for a Job that does not exist, and write
    nothing, whatever transactions that leave the user a stranger are interleaved. *)
Theorem stranger_is_answered_missing job_id user s :
  fresh_session (stranger_to user job_id) s →
  answered_missing (get_job job_id user) s ∧ answered_missing (cancel_job job_id user) s ∧
  answered_missing (retry_job job_id user) s.
Proof. intros Hs. split_and!; by apply stranger_answer. Qed.
End api.

(** ** Witnesses *)

#[local] Existing Instances sample_parser sample_capabilities_parser sample_platform.

Definition sample_experiment : Experiment :=
  mkExperiment "exp-1" 1 "first" (Some "first") "ds-1" None (Some "u-1") 0.

Definition sample_owner : User := mkUser "u-1" 1 "owner@example.org" "hash" "user" false 1 0 0.
Definition sample_stranger : User := mkUser "u-2" 1 "other@example.org" "hash" "user" false 1 0 0.

(** With the Experiment of the sample Job. *)
Definition owned (d : DB) : DB := d <| experiments := {["exp-1" := sample_experiment]} |>.

Lemma owned_fresh d now : Inv d → fresh_session Inv (new_session (owned d) now).
Proof. intros HI. by eapply new_session_fresh, Inv_ext; [..|exact HI]. Qed.

(** A database without Jobs. *)
Definition jobless_session : Session :=
  new_session (owned (sample_db <| jobs := ∅ |>)) ten_minutes.

Lemma jobless_session_fresh : fresh_session Inv jobless_session.
Proof.
  apply owned_fresh. split; [|split; [done|apply sample_db_Inv]].
  change (LedgerInv (<["w-1" := sample_worker]> ∅) ∅ ∅ ∅).
  by apply LedgerInv_free_worker; [apply Inv_empty|..].
Qed.

Lemma sample_creation_ok :
  ∃ r, outcome (create_job sample_settings sample_config sample_owner) jobless_session = Ok r.
Proof. apply ok_present. vm_compute. reflexivity. Qed.

Lemma sample_config_reads_back :
  JobConfig_model_validate (dump_JobConfig sample_config) = Some sample_config.
Proof. vm_compute. reflexivity. Qed.

Lemma created_job_validates_witness :
  ∃ r, outcome (create_job sample_settings sample_config sample_owner) jobless_session = Ok r ∧
    jr_config r = sample_config.
Proof.
  destruct sample_creation_ok as [r Hout]. exists r. split; [exact Hout|].
  destruct (created_job_validates sample_settings sample_config sample_owner jobless_session r
    jobless_session_fresh sample_config_reads_back Hout) as (Hc & _).
  exact Hc.
Defined.

Definition queued_session : Session := new_session (owned sample_db) ten_minutes.

Lemma queued_session_fresh : fresh_session Inv queued_session.
Proof. apply owned_fresh, sample_db_Inv. Qed.

Lemma sample_cancellation_ok :
  ∃ r, outcome (cancel_job "j-1" sample_owner) queued_session = Ok r.
Proof. apply ok_present. vm_compute. reflexivity. Qed.

Lemma cancellation_acts_on_row_read_witness :
  ∃ r, outcome (cancel_job "j-1" sample_owner) queued_session = Ok r ∧
  ∃ current now row, describes r row ∧ (current = QUEUED → jr_status r = CANCELLED) ∧ ten_minutes <= now.
Proof.
  destruct sample_cancellation_ok as [r Hout]. exists r. split; [exact Hout|].
  destruct (cancellation_acts_on_row_read "j-1" sample_owner queued_session r queued_session_fresh Hout)
    as (d & d' & job & current & now & row & _ & _ & _ & Hn & _ & _ & Hr & Hq & _).
  exists current, now, row. split; [exact Hr|]. split; [exact Hq|exact Hn].
Defined.

Definition failed_session : Session := new_session (owned failed_db) (2 * ten_minutes).

Lemma failed_session_fresh : fresh_session Inv failed_session.
Proof. apply owned_fresh, failed_db_Inv. Qed.

Lemma sample_retry_ok : ∃ r, outcome (retry_job "j-1" sample_owner) failed_session = Ok r.
Proof. apply ok_present. vm_compute. reflexivity. Qed.

Lemma retry_requeues_failed_witness :
  ∃ r, outcome (retry_job "j-1" sample_owner) failed_session = Ok r ∧
  ∃ d' saved, jobs d' !! "j-1" = Some saved ∧ j_status saved = value QUEUED.
Proof.
  destruct sample_retry_ok as [r Hout]. exists r. split; [exact Hout|].
  destruct (retry_requeues_failed "j-1" sample_owner failed_session r failed_session_fresh Hout)
    as (d & d' & job & a & row & saved & _ & _ & _ & _ & _ & _ & _ & _ & Hs & Hq & _).
  exists d', saved. split; [exact Hs|exact Hq].
Defined.

Lemma queued_session_stranger : fresh_session (stranger_to sample_stranger "j-1") queued_session.
Proof.
  apply new_session_fresh. split; [done|]. intros job experiment Hj He.
  assert (job = sample_job) as -> by (by injection Hj). injection He as <-. done.
Qed.

Lemma stranger_is_answered_missing_witness :
  outcome (get_job "j-1" sample_stranger) queued_session = Raise (HTTPException 404 "job not found").
Proof.
  destruct (stranger_is_answered_missing "j-1" sample_stranger queued_session queued_session_stranger)
    as [[Hget _] _].
  exact Hget.
Defined.
