(* ===== verification/LogReadsCorrect.v ===== *)
(** * What readers of logs see

    The cursor of a line survives its encoding; the pages of a reader that follows the
    cursors put together are the selected lines in order, each once; and the live stream
    emits lines in ascending order, to a client whose access still holds. *)

From S2P Require Import Prelude Json JsonRead Base64 PyText JobConfig WorkerContract Redaction.
From S2P Require Import Settings Ledger Evolution Session Wp JobApi LedgerInvariant JobApiCorrect Accounts.
From S2P Require Import LeaseProperties LogReads Fixtures.

(** ** Cursors *)

Definition cursor_items (c : LogCursor) : list simple_item :=
  [ItemText "v1"; ItemInt (lc_attempt_number c); ItemInt (lc_sequence c); ItemText (lc_log_id c)].

Lemma cursor_document_items c :
  forallb plain (str_chars (lc_log_id c)) = true →
  cursor_document c = chr 91 :: items_text (cursor_items c).
Proof.
  intros Hid. unfold cursor_document. rewrite !ascii_string_plain by done.
  cbn -[str_chars]. by rewrite <-!app_assoc.
Qed.

Lemma str_chars_string_of cs : str_chars (string_of cs) = cs.
Proof. apply String.list_ascii_of_string_of_list_ascii. Qed.

Lemma codes_are_bytes cs : Forall is_byte (map code cs).
Proof.
  apply Forall_forall. intros n Hn. apply list_elem_of_fmap in Hn as (c & -> & _).
  unfold is_byte, code. pose proof (Ascii.N_ascii_bounded c). lia.
Qed.

(** A position in the logs that can be named: its numbers fit the columns, and its id is a
    UUID without escapes. *)
Definition cursor_ok `{UnicodeTables} (c : LogCursor) : Prop :=
  1 <= lc_attempt_number c < 10 ^ 18 ∧ 0 <= lc_sequence c < 10 ^ 18 ∧
  is_uuid (lc_log_id c) = true ∧ forallb plain (str_chars (lc_log_id c)) = true.

Lemma decode_encode_cursor `{UnicodeTables} c :
  cursor_ok c → decode_log_cursor (encode_log_cursor c) = Some c.
Proof.
  intros (Hn & Hseq & Huuid & Hplain). unfold decode_log_cursor, encode_log_cursor.
  rewrite str_chars_string_of, b64decode_stripped by apply codes_are_bytes.
  rewrite cursor_document_items by done. cbn [mbind option_bind].
  rewrite loads_written; [|done|repeat constructor; simpl; try done; lia]. simpl.
  rewrite (proj2 (Z.ltb_ge _ _)), (proj2 (Z.ltb_ge _ _)), Huuid by lia. by destruct c.
Qed.

(** ** Order *)

Definition cursor_leb (a b : LogCursor) : bool :=
  lex_leb (lc_attempt_number a) (lc_attempt_number b)
    (lex_leb (lc_sequence a) (lc_sequence b) (str_leb (lc_log_id a) (lc_log_id b))).

Lemma cursor_leb_spec a b :
  cursor_leb a b = true ↔
  lc_attempt_number a < lc_attempt_number b ∨
  lc_attempt_number a = lc_attempt_number b ∧
    (lc_sequence a < lc_sequence b ∨
     lc_sequence a = lc_sequence b ∧ String.le (lc_log_id a) (lc_log_id b)).
Proof.
  unfold cursor_leb, lex_leb, str_leb. rewrite !orb_true_iff, !andb_true_iff, !orb_true_iff,
    !andb_true_iff, !Z.ltb_lt, !Z.eqb_eq, bool_decide_eq_true. done.
Qed.

#[local] Instance cursor_leb_trans : Transitive (holds cursor_leb).
Proof.
  intros a b c. unfold holds. rewrite !cursor_leb_spec.
  intros [?|(? & [?|[? Hab]])] [?|(? & [?|[? Hbc]])]; try lia.
  right. split; [lia|]. right. split; [lia|]. by etrans.
Qed.

#[local] Instance cursor_leb_total : Total (holds cursor_leb).
Proof.
  intros a b. unfold holds. rewrite !cursor_leb_spec.
  pose proof (String.le_total (lc_log_id a) (lc_log_id b)).
  destruct (Z.lt_trichotomy (lc_attempt_number a) (lc_attempt_number b)) as [|[|]],
    (Z.lt_trichotomy (lc_sequence a) (lc_sequence b)) as [|[|]]; naive_solver.
Qed.

Lemma cursor_leb_antisym a b : cursor_leb a b = true → cursor_leb b a = true → a = b.
Proof.
  rewrite !cursor_leb_spec. destruct a as [n s i], b as [n' s' i']; simpl.
  intros [?|(? & [?|[? Hab]])] [?|(? & [?|[? Hbc]])]; try lia. f_equal; [lia..|].
  by apply (anti_symm String.le).
Qed.

(** What comes after a cursor is what does not come up to it. *)
Lemma after_condition_leb c r : after_condition c r = negb (cursor_leb (record_cursor r) c).
Proof.
  unfold after_condition, cursor_leb, lex_leb, record_cursor. simpl.
  destruct (Z.ltb_spec (lc_attempt_number c) (rc_attempt_number r)),
    (Z.eqb_spec (rc_attempt_number r) (lc_attempt_number c)),
    (Z.ltb_spec (rc_attempt_number r) (lc_attempt_number c)),
    (Z.ltb_spec (lc_sequence c) (lg_sequence (rc_log r))),
    (Z.eqb_spec (lg_sequence (rc_log r)) (lc_sequence c)),
    (Z.ltb_spec (lg_sequence (rc_log r)) (lc_sequence c)); simpl; try lia; done.
Qed.

#[local] Instance record_leb_trans : Transitive (holds record_leb).
Proof. intros a b c. apply (cursor_leb_trans (record_cursor a) (record_cursor b) (record_cursor c)). Qed.
#[local] Instance record_leb_total : Total (holds record_leb).
Proof. intros a b. apply (cursor_leb_total (record_cursor a) (record_cursor b)). Qed.
#[local] Instance record_geb_trans : Transitive (holds (λ a b, record_leb b a)).
Proof. intros a b c Hab Hbc. exact (record_leb_trans c b a Hbc Hab). Qed.
#[local] Instance record_geb_total : Total (holds (λ a b, record_leb b a)).
Proof. intros a b. exact (record_leb_total b a). Qed.

(** The lines have cursors of their own. *)
Definition own_cursors (rs : list JobLogRecord) : Prop :=
  ∀ a b, a ∈ rs → b ∈ rs → record_cursor a = record_cursor b → a = b.

(** The lines in their order. *)
Definition in_order (rs : list JobLogRecord) : list JobLogRecord := order_by record_leb rs.

Lemma in_order_sorted rs : StronglySorted (holds record_leb) (in_order rs).
Proof. apply (StronglySorted_merge_sort _). Qed.

(** Two sorted arrangements of lines with cursors of their own are the same. *)
Lemma arrangement_unique rs l1 l2 :
  own_cursors rs → l1 ≡ₚ rs → l2 ≡ₚ rs →
  StronglySorted (holds record_leb) l1 → StronglySorted (holds record_leb) l2 → l1 = l2.
Proof.
  intros Hown H1 H2 Hs1 Hs2. eapply StronglySorted_unique_strong; [|done|done|by rewrite H1, H2].
  intros a b Ha Hb Hab Hba. rewrite H1 in Ha. rewrite H2 in Hb. apply Hown; [done..|].
  by apply cursor_leb_antisym.
Qed.

Lemma StronglySorted_filter {A} (R : A → A → Prop) (p : A → bool) xs :
  StronglySorted R xs → StronglySorted R (List.filter p xs).
Proof.
  induction 1 as [|x xs Hxs IH Hx]; simpl; [constructor|]. destruct (p x); [|done].
  constructor; [done|]. rewrite Forall_forall in *. intros y Hy. apply Hx.
  rewrite list_elem_of_In in *. by apply filter_In in Hy as [? _].
Qed.

Lemma own_cursors_filter p rs : own_cursors rs → own_cursors (List.filter p rs).
Proof.
  intros Hown a b Ha Hb. rewrite list_elem_of_In, filter_In, <-list_elem_of_In in Ha, Hb.
  apply Hown; naive_solver.
Qed.

Lemma in_order_filter p rs :
  own_cursors rs → in_order (List.filter p rs) = List.filter p (in_order rs).
Proof.
  intros Hown. eapply (arrangement_unique (List.filter p rs)).
  - by apply own_cursors_filter.
  - apply order_by_permutation.
  - apply filter_permutation, order_by_permutation.
  - apply in_order_sorted.
  - apply StronglySorted_filter, in_order_sorted.
Qed.

(** In the opposite order, as a tail is fetched. *)
Lemma order_by_reversed rs :
  own_cursors rs → order_by (λ a b, record_leb b a) rs = rev (in_order rs).
Proof.
  intros Hown. rewrite <-(rev_involutive (order_by _ rs)). f_equal.
  apply (arrangement_unique rs); [done| | | |apply in_order_sorted].
  - rewrite <-Permutation_rev. apply order_by_permutation.
  - apply order_by_permutation.
  - pose proof (StronglySorted_merge_sort (holds (λ a b, record_leb b a)) rs) as Hs.
    fold (order_by (λ a b, record_leb b a) rs) in Hs.
    induction Hs as [|x xs Hxs IH Hx]; simpl; [constructor|].
    apply StronglySorted_app_2; [|done|by repeat constructor].
    intros a b Ha Hb. apply list_elem_of_singleton in Hb as ->. rewrite Forall_forall in Hx.
    apply Hx. rewrite list_elem_of_In in *. by apply in_rev.
Qed.

(** Distinct cursors. *)
Lemma own_cursors_NoDup rs : NoDup (map record_cursor rs) → own_cursors rs ∧ NoDup rs.
Proof.
  intros Hnd. split; [|by apply (NoDup_fmap_1 record_cursor)].
  intros a b Ha Hb Heq. apply list_elem_of_lookup in Ha as [i Hi], Hb as [j Hj].
  assert (i = j) as ->; [|congruence].
  eapply NoDup_lookup; [exact Hnd| |]; rewrite list_lookup_fmap; [by rewrite Hi|by rewrite Hj, Heq].
Qed.

(** After a line of the sequence come the lines behind it. *)
Lemma filter_after pre r post :
  StronglySorted (holds record_leb) (pre ++ r :: post) →
  NoDup (map record_cursor (pre ++ r :: post)) →
  List.filter (after_condition (record_cursor r)) (pre ++ r :: post) = post.
Proof.
  intros Hs [Hown Hnd]%own_cursors_NoDup.
  assert (∀ a, a ∈ pre ++ [r] → after_condition (record_cursor r) a = false) as Hbefore.
  { intros a Ha. rewrite after_condition_leb. apply negb_false_iff.
    apply elem_of_app in Ha as [Ha|Ha%list_elem_of_singleton].
    - change (holds record_leb a r). eapply StronglySorted_app_1_elem_of; [done|done|left].
    - subst a. destruct (cursor_leb_total (record_cursor r) (record_cursor r)); done. }
  assert (∀ a, a ∈ post → after_condition (record_cursor r) a = true) as Hafter.
  { intros a Ha. rewrite after_condition_leb. apply negb_true_iff.
    destruct (cursor_leb _ _) eqn:Hle; [|done]. exfalso.
    apply StronglySorted_app_1_r, StronglySorted_inv in Hs as [_ Hr].
    rewrite Forall_forall in Hr. specialize (Hr _ Ha).
    assert (a = r) as ->.
    { apply Hown; [set_solver|set_solver|]. by apply cursor_leb_antisym. }
    apply NoDup_app in Hnd as (_ & _ & Hnd). apply NoDup_cons in Hnd as [? _]. done. }
  change (pre ++ r :: post) with (pre ++ [r] ++ post). rewrite app_assoc, List.filter_app.
  assert (∀ l, (∀ a, a ∈ l → after_condition (record_cursor r) a = false) →
    List.filter (after_condition (record_cursor r)) l = []) as Hnone.
  { induction l as [|a l IH]; intros Hl; [done|]. simpl. rewrite Hl by left. apply IH. intros. apply Hl. by right. }
  assert (∀ l, (∀ a, a ∈ l → after_condition (record_cursor r) a = true) →
    List.filter (after_condition (record_cursor r)) l = l) as Hall.
  { induction l as [|a l IH]; intros Hl; [done|]. simpl. rewrite Hl by left. f_equal. apply IH. intros. apply Hl. by right. }
  by rewrite Hnone, Hall.
Qed.

(** ** Pages *)

(** The lines of a Job that a query selects, in order. *)
Definition selected (job_id : string) (filters : JobLogFilters) (d : DB) : list JobLogRecord :=
  in_order (matching_logs job_id filters d).

(** Lines have ids of their own: they are the primary key of the table. *)
Definition own_ids (d : DB) : Prop :=
  ∀ k1 l1 k2 l2, job_logs d !! k1 = Some l1 → job_logs d !! k2 = Some l2 →
    lg_id l1 = lg_id l2 → k1 = k2.

Lemma NoDup_ids d : own_ids d → NoDup (map lg_id (rows (job_logs d))).
Proof.
  intros Hown. unfold rows. rewrite map_map. apply NoDup_fmap_2_strong; [|apply NoDup_map_to_list].
  intros [k1 l1] [k2 l2] H1%elem_of_map_to_list H2%elem_of_map_to_list Heq. simpl in *.
  assert (k1 = k2) as -> by by eapply Hown. congruence.
Qed.

Lemma NoDup_omap_map {A B C} (f : A → option B) (g : B → C) (h : A → C) xs :
  (∀ a b, f a = Some b → g b = h a) → NoDup (map h xs) → NoDup (map g (omap f xs)).
Proof.
  intros Hg. induction xs as [|x xs IH]; simpl; [done|]. intros [Hx Hxs]%NoDup_cons.
  destruct (f x) as [b|] eqn:Hfx; [|by apply IH]. simpl. constructor; [|by apply IH].
  rewrite (Hg _ _ Hfx). intros Hin. apply Hx. apply list_elem_of_fmap in Hin as (b' & Heq & Hb').
  apply list_elem_of_omap in Hb' as (a & Ha & Hfa). apply list_elem_of_fmap. exists a.
  by rewrite <-(Hg _ _ Hfa).
Qed.

Lemma selected_distinct job_id filters d :
  own_ids d → NoDup (map record_cursor (matching_logs job_id filters d)).
Proof.
  intros Hown. apply NoDup_map_filter. eapply (NoDup_fmap_1 lc_log_id). rewrite <-list_fmap_compose.
  eapply (NoDup_omap_map _ _ lg_id); [|by apply NoDup_ids].
  intros log r Hr. simpl in Hr. destruct (attempts d !! lg_attempt_id log); [|done].
  by injection Hr as <-.
Qed.

(** The cursor that a reader holds after some lines. *)
Definition cursor_after (pre : list JobLogRecord) : option LogCursor := record_cursor <$> last pre.

Lemma filter_all {A} (xs : list A) : List.filter (λ _, true) xs = xs.
Proof. induction xs as [|x xs IH]; simpl; [done|by rewrite IH]. Qed.

Lemma take_more {A} limit (xs : list A) :
  ⌊ (limit < length (take (S limit) xs))%nat ⌋ = ⌊ (limit < length xs)%nat ⌋ ∧
  take limit (take (S limit) xs) = take limit xs.
Proof.
  rewrite length_take, take_take. split; [apply bool_decide_ext; lia|]. f_equal. lia.
Qed.

(** A page is the next lines behind the cursor. *)
Lemma fetch_page_next job_id filters d limit pre rest :
  own_ids d → selected job_id filters d = pre ++ rest →
  fetch_page job_id filters (cursor_after pre) limit false d =
    (take limit rest, ⌊ (limit < length rest)%nat ⌋).
Proof.
  intros Hids Hsel. pose proof (selected_distinct job_id filters d Hids) as Hnd.
  destruct (own_cursors_NoDup _ Hnd) as [Hown _]. unfold fetch_page.
  assert (order_by (λ a b, record_leb a b) (List.filter
    (λ r, bounded (λ c, after_condition c r) (cursor_after pre)) (matching_logs job_id filters d)) = rest)
    as ->.
  2:{ destruct (take_more limit rest) as [-> ->]. done. }
  fold (in_order (List.filter (λ r, bounded (λ c, after_condition c r) (cursor_after pre))
    (matching_logs job_id filters d))).
  rewrite in_order_filter by done. fold (selected job_id filters d).
  destruct pre as [|x pre _] using rev_ind.
  - simpl in Hsel. unfold cursor_after. simpl. by rewrite filter_all.
  - unfold cursor_after. rewrite last_snoc. simpl. rewrite Hsel, <-app_assoc. simpl in *.
    apply filter_after; rewrite <-app_assoc in Hsel; simpl in Hsel; rewrite <-Hsel.
    + apply in_order_sorted.
    + unfold selected, in_order. by rewrite order_by_permutation.
Qed.

(** A tail is the last lines, in order. *)
Lemma fetch_page_tail job_id filters d limit :
  own_ids d →
  let found := selected job_id filters d in
  fetch_page job_id filters None limit true d =
    (drop (length found - limit) found, ⌊ (limit < length found)%nat ⌋).
Proof.
  intros Hids found. pose proof (selected_distinct job_id filters d Hids) as Hnd.
  destruct (own_cursors_NoDup _ Hnd) as [Hown _]. unfold fetch_page. simpl. rewrite filter_all.
  rewrite order_by_reversed by done. fold (selected job_id filters d). fold found.
  destruct (take_more limit (rev found)) as [-> ->]. rewrite length_rev. f_equal.
  by rewrite firstn_rev, rev_involutive.
Qed.

(** ** Reading to the end

    A reader asks for a page, then for the page after the cursor it was given, while there
    are more. *)

Section reading.
  Context `{UnicodeTables} `{LogTextRedactor}.

Definition after_cursor (query : LogQuery) (after : option string) : LogQuery :=
  mkLogQuery (lq_attempt_id query) (lq_sequence_gte query) (lq_sequence_lte query)
    (lq_occurred_at_gte query) (lq_occurred_at_lte query) after (lq_tail query) (lq_limit query).

(** The pages of a reader; every request is answered in the session [s]. *)
Fixpoint read_pages (fuel : nat) (job_id : string) (query : LogQuery) (user : User) (s : Session)
    : option (list JobLogList) :=
  match fuel with
  | O => None
  | S fuel =>
      match outcome (list_job_logs job_id query user) s with
      | Ok page =>
          if ll_has_more page
          then pages ← read_pages fuel job_id (after_cursor query (ll_next_cursor page)) user s;
               Some (page :: pages)
          else Some [page]
      | Raise _ => None
      end
  end.

(** The user may read the Job. *)
Definition readable (d : DB) (job_id : string) (user : User) : Prop :=
  ∃ job experiment, jobs d !! job_id = Some job ∧
    experiments d !! j_experiment_id job = Some experiment ∧
    (u_role user = "admin" ∨ e_created_by experiment = Some (u_id user)).

(** The filters of a query whose timestamps carry a timezone and whose ranges are not
    empty. *)
Definition query_filters (query : LogQuery) : option JobLogFilters :=
  gte ← aware_utc (lq_occurred_at_gte query); lte ← aware_utc (lq_occurred_at_lte query);
  if exceeds (lq_sequence_gte query) (lq_sequence_lte query) || exceeds gte lte then None
  else Some (mkJobLogFilters (lq_attempt_id query) (lq_sequence_gte query) (lq_sequence_lte query)
               gte lte).

Lemma run_bind {A B} (m : M A) (k : A → M B) s a s' : m s = (Ok a, s') → (m ≫= k) s = k a s'.
Proof. intros Hm. unfold mbind, M_bind. by rewrite Hm. Qed.

Lemma quiet_interleave s : s_env s = [] → interleave s = (Ok (), s).
Proof. intros Hs. unfold interleave. rewrite Hs. by destruct (s_dirty s). Qed.

Lemma quiet_owned_job s job_id user :
  s_env s = [] → readable (s_working s) job_id user →
  ∃ job, require_job_owner_or_admin job_id user s = (Ok job, s).
Proof.
  intros Hs (job & experiment & Hjob & Hexp & Hmay). exists job.
  unfold require_job_owner_or_admin, owned_job, mbind, M_bind, ask. rewrite Hjob, quiet_interleave by done.
  rewrite Hexp. unfold require_owner_or_admin, reject_if, when.
  destruct Hmay as [-> | ->]; rewrite (bool_decide_eq_true_2 _ eq_refl); [done|].
  by rewrite andb_false_r.
Qed.

Lemma collect_reads records items s :
  mapM job_log_to_read records = Some items → collect records log_read_or_error s = (Ok items, s).
Proof.
  revert items. induction records as [|r records IH]; simpl; intros items Hitems.
  - by injection Hitems as <-.
  - destruct (job_log_to_read r) as [x|] eqn:Hx; [|done]. simpl in Hitems.
    destruct (mapM job_log_to_read records) as [xs|]; [|done]. injection Hitems as <-.
    unfold mbind, M_bind, log_read_or_error at 1. rewrite Hx. simpl. by rewrite (IH xs).
Qed.

(** One page, on a quiet ledger. *)
Lemma quiet_page s job_id query user filters after limit tail records has_more items :
  s_env s = [] → readable (s_working s) job_id user → query_filters query = Some filters →
  lq_tail query = tail → lq_limit query = limit → tail && is_some (lq_after query) = false →
  decode_cursor_or_422 (lq_after query) s = (Ok after, s) →
  fetch_page job_id filters after limit tail (s_working s) = (records, has_more) →
  mapM job_log_to_read records = Some items →
  outcome (list_job_logs job_id query user) s =
    Ok (mkJobLogList items (length (selected job_id filters (s_working s))) limit has_more
          (match last records with
           | Some r => Some (encode_log_cursor (record_cursor r)) | None => lq_after query end)).
Proof.
  intros Hs Hread Hfilters <- <- Htail Hcursor Hfetch Hitems.
  destruct (quiet_owned_job s job_id user Hs Hread) as [job Hjob].
  unfold query_filters in Hfilters.
  destruct (aware_utc (lq_occurred_at_gte query)) as [gte|] eqn:Hgte; [|done].
  destruct (aware_utc (lq_occurred_at_lte query)) as [lte|] eqn:Hlte; [|done]. simpl in Hfilters.
  destruct (_ || _) eqn:Hranges; [done|]. injection Hfilters as Hfilters.
  apply orb_false_iff in Hranges as [Hr1 Hr2].
  unfold outcome, list_job_logs, aware_utc_or_422, validate_log_ranges, reject_if.
  rewrite (run_bind _ _ _ _ _ Hjob), Htail, Hgte, Hlte.
  erewrite run_bind by reflexivity. erewrite run_bind by reflexivity.
  erewrite run_bind by reflexivity. cbv zeta.
  cbn [lf_sequence_gte lf_sequence_lte lf_occurred_at_gte lf_occurred_at_lte].
  rewrite Hr1, Hr2, Hfilters. erewrite run_bind by reflexivity. rewrite (run_bind _ _ _ _ _ Hcursor).
  rewrite (run_bind _ _ _ _ _ (quiet_interleave s Hs)).
  erewrite run_bind by reflexivity. rewrite (run_bind _ _ _ _ _ (quiet_interleave s Hs)).
  erewrite run_bind by (unfold fetch_job_logs, ask; rewrite Hfetch; reflexivity).
  cbv beta iota zeta.
  rewrite (run_bind _ _ _ _ _ (collect_reads _ _ _ Hitems)). simpl. unfold selected, in_order.
  by rewrite order_by_permutation.
Qed.

Lemma decode_cursor_after pre s :
  Forall (λ r, cursor_ok (record_cursor r)) pre →
  decode_cursor_or_422 (encode_log_cursor <$> cursor_after pre) s = (Ok (cursor_after pre), s).
Proof.
  intros Hpre. unfold cursor_after. destruct pre as [|r pre _] using rev_ind; [done|].
  rewrite last_snoc. unfold decode_cursor_or_422. cbn [fmap option_fmap option_map].
  rewrite decode_encode_cursor; [done|].
  by apply Forall_app in Hpre as [_ [Hr _]%Forall_cons].
Qed.

(** The filters do not depend on the cursor. *)
Lemma query_filters_after query after : query_filters (after_cursor query after) = query_filters query.
Proof. done. Qed.

Lemma mapM_Forall2 records reads :
  mapM job_log_to_read records = Some reads ↔ Forall2 (λ r x, job_log_to_read r = Some x) records reads.
Proof. apply mapM_Some. Qed.

Section quiet.
  Context (s : Session) (job_id : string) (query : LogQuery) (user : User) (filters : JobLogFilters).
  Hypothesis Hquiet : s_env s = [].
  Hypothesis Hreadable : readable (s_working s) job_id user.
  Hypothesis Hfilters : query_filters query = Some filters.
  Hypothesis Htail : lq_tail query = false.
  Hypothesis Hlimit : (1 <= lq_limit query)%nat.
  Hypothesis Hids : own_ids (s_working s).
  Hypothesis Hcursors :
    Forall (λ r, cursor_ok (record_cursor r)) (selected job_id filters (s_working s)).
  #[local] Set Default Proof Using "All".

Lemma read_pages_from fuel pre rest reads :
  selected job_id filters (s_working s) = pre ++ rest →
  Forall2 (λ r x, job_log_to_read r = Some x) rest reads → (length rest < fuel)%nat →
  ∃ pages, read_pages fuel job_id (after_cursor query (encode_log_cursor <$> cursor_after pre)) user s
      = Some pages ∧
    concat (map ll_items pages) = reads ∧
    Forall (λ page, ll_total page = length (selected job_id filters (s_working s)) ∧
                    (length (ll_items page) <= lq_limit query)%nat) pages.
Proof.
  revert pre rest reads. induction fuel as [|fuel IH]; intros pre rest reads Hsel Hreads Hfuel; [lia|].
  set (limit := lq_limit query). simpl.
  rewrite Hsel, Forall_app in Hcursors. destruct Hcursors as [Hpre Hrest].
  erewrite (quiet_page s job_id (after_cursor query _) user filters (cursor_after pre) limit false
    (take limit rest) ⌊ (limit < length rest)%nat ⌋ (take limit reads)); try done.
  2:{ by apply decode_cursor_after. }
  2:{ by apply fetch_page_next. }
  2:{ apply mapM_Forall2. by apply Forall2_take. }
  cbn [ll_has_more ll_next_cursor].
  assert (length (take limit reads) <= limit)%nat as Hpage by (rewrite length_take; lia).
  case_bool_decide as Hmore.
  - destruct (last (take limit rest)) as [r|] eqn:Hlast.
    2:{ apply last_None in Hlast. apply (f_equal length) in Hlast. rewrite length_take in Hlast.
        simpl in Hlast. unfold limit in *. lia. }
    destruct (IH (pre ++ take limit rest) (drop limit rest) (drop limit reads)) as (pages & Hpages & Hitems & Hall).
    { by rewrite <-app_assoc, take_drop. }
    { by apply Forall2_drop. }
    { rewrite length_drop. unfold limit in *. lia. }
    unfold cursor_after in Hpages. rewrite last_app, Hlast in Hpages. simpl in Hpages.
    change (after_cursor (after_cursor query _) (Some (encode_log_cursor (record_cursor r))))
      with (after_cursor query (Some (encode_log_cursor (record_cursor r)))).
    rewrite Hpages. eexists. split; [reflexivity|]. simpl. rewrite Hitems, take_drop.
    split; [done|]. by constructor.
  - eexists. split; [reflexivity|]. simpl. rewrite app_nil_r.
    rewrite take_ge by (apply Forall2_length in Hreads; lia).
    split; [done|]. constructor; [|done]. split; [done|]. simpl. apply Forall2_length in Hreads. lia.
Qed.
End quiet.

(** C27: a reader misses no line and sees none twice. On a ledger at rest, the pages of a
    reader that follows the cursors to the end are, put together, exactly the lines the
    query selects in the order of attempt, sequence and id; every page has at most the
    number of lines asked for and reports their total. A tail is the last of them. *)
Theorem log_pages_cover s job_id query user filters reads :
  s_env s = [] → readable (s_working s) job_id user →
  query_filters query = Some filters → lq_tail query = false → lq_after query = None →
  (1 <= lq_limit query)%nat → own_ids (s_working s) →
  Forall (λ r, cursor_ok (record_cursor r)) (matching_logs job_id filters (s_working s)) →
  mapM job_log_to_read (selected job_id filters (s_working s)) = Some reads →
  (∃ pages, read_pages (S (length reads)) job_id query user s = Some pages ∧
    concat (map ll_items pages) = reads ∧
    Forall (λ page, ll_total page = length reads ∧
                    (length (ll_items page) <= lq_limit query)%nat) pages) ∧
  ∃ page, outcome (list_job_logs job_id
      (mkLogQuery (lq_attempt_id query) (lq_sequence_gte query) (lq_sequence_lte query)
         (lq_occurred_at_gte query) (lq_occurred_at_lte query) None true (lq_limit query)) user) s =
      Ok page ∧ ll_items page = drop (length reads - lq_limit query) reads ∧
    ll_total page = length reads.
Proof.
  intros Hquiet Hread Hfilters Htail Hafter Hlimit Hids Hcursors Hreads.
  pose proof (proj1 (mapM_Forall2 _ _) Hreads) as Hall. pose proof (Forall2_length _ _ _ Hall) as Hlen.
  rewrite <-(order_by_permutation record_leb (matching_logs _ _ _)) in Hcursors. split.
  - rewrite <-Hlen.
    destruct (read_pages_from s job_id query user filters Hquiet Hread Hfilters Htail Hlimit Hids Hcursors
      (S (length (selected job_id filters (s_working s)))) [] _ reads eq_refl Hall ltac:(lia))
      as (pages & Hpages & Hitems & Hok).
    exists pages. split; [|by split]. rewrite <-Hpages. f_equal.
    destruct query. simpl in *. by subst.
  - eexists. split.
    + set (found := selected job_id filters (s_working s)) in *.
      eapply (quiet_page s job_id _ user filters None (lq_limit query) true
        (drop (length found - lq_limit query) found) ⌊ (lq_limit query < length found)%nat ⌋
        (drop (length found - lq_limit query) reads)); try done.
      * by apply fetch_page_tail.
      * apply mapM_Forall2. by apply Forall2_drop.
    + simpl. by rewrite Hlen.
Qed.

(** ** The live stream *)

(** Strictly before, in the order of the lines. *)
Definition cursor_lt (a b : LogCursor) : Prop := cursor_leb b a = false.

Lemma cursor_lt_leb a b : cursor_lt a b → cursor_leb a b = true.
Proof using Type. intros Hlt. unfold cursor_lt in Hlt. by destruct (cursor_leb_total a b) as [?|Hba]; [|unfold holds in Hba; congruence]. Qed.

Lemma cursor_lt_trans a b c : cursor_lt a b → cursor_lt b c → cursor_lt a c.
Proof using Type.
  unfold cursor_lt. intros Hab Hbc. destruct (cursor_leb c a) eqn:Hca; [|done].
  rewrite (cursor_leb_trans b c a) in Hab; [done| |done]. by apply cursor_lt_leb.
Qed.

(** A page holds selected lines behind the cursor, in strict order. *)
Lemma fetch_page_sorted job_id filters after limit d :
  own_ids d →
  let records := (fetch_page job_id filters after limit false d).1 in
  StronglySorted cursor_lt (map record_cursor records) ∧
  Forall (λ r, r ∈ matching_logs job_id filters d ∧
               ∀ c, after = Some c → cursor_lt c (record_cursor r)) records.
Proof using Type.
  intros Hids records. set (found := List.filter (λ r, bounded (λ c, after_condition c r) after)
    (matching_logs job_id filters d)).
  assert (records = take limit (in_order found)) as ->.
  { unfold records, fetch_page. simpl. by destruct (take_more limit (in_order found)) as [_ ?]. }
  assert (NoDup (map record_cursor (in_order found))) as Hnd.
  { unfold in_order. rewrite order_by_permutation. apply NoDup_map_filter. by apply selected_distinct. }
  pose proof (in_order_sorted found) as Hs. split.
  - rewrite <-(take_drop limit (in_order found)) in Hs, Hnd. apply StronglySorted_app_1_l in Hs.
    rewrite map_app in Hnd. apply NoDup_app in Hnd as [Hnd _].
    induction Hs as [|x xs Hxs IH Hx]; simpl in *; [constructor|].
    apply NoDup_cons in Hnd as [Hnin Hnd]. constructor; [by apply IH|].
    rewrite Forall_forall in Hx. apply Forall_forall. intros c Hc. pose proof Hc as (y & -> & Hy)%list_elem_of_fmap.
    unfold cursor_lt. destruct (cursor_leb _ _) eqn:Hle; [|done]. exfalso. apply Hnin.
    replace (record_cursor x) with (record_cursor y); [done|].
    apply cursor_leb_antisym; [done|]. by apply Hx.
  - apply Forall_take, Forall_forall. intros r Hr. unfold in_order in Hr.
    apply elem_of_order_by in Hr. apply list_elem_of_In, filter_In in Hr as [Hin Hafter].
    split; [by apply list_elem_of_In|]. intros c ->. simpl in Hafter.
    rewrite after_condition_leb in Hafter. by apply negb_true_iff in Hafter.
Qed.

(** What the poll that runs in the session [s] reads of the client's rights, at its first
    four reads: the token is not revoked, the account is enabled, and the Job and its
    Experiment entitle it. *)
Record stream_granted (user_id token_jti job_id : string) (s : Session) : Prop :=
  mkStreamGranted {
  sg_token : revoked_tokens (moment s 0) !! token_jti = None;
  sg_account : ∃ user job, users (moment s 1) !! user_id = Some user ∧
    u_disabled user = false ∧ entitled (later 2 s) user job_id job }.

(** A poll answers only what its own reads granted: the page of its last read. *)
Lemma wp_stream_poll I user_id token_jti job_id filters cursor limit
    (Q : result (option (list JobLogRecord * bool)) → Session → Prop) c L t i s :
  St I c c false None L t i s →
  (∀ s', I (moment s 4) → stream_granted user_id token_jti job_id s →
     Q (Ok (Some (fetch_page job_id filters cursor limit false (moment s 4)))) s') →
  (∀ s', Q (Ok None) s') → (∀ e s', Q (Raise e) s') →
  wp (stream_poll user_id token_jti job_id filters cursor limit) Q s.
Proof using Type.
  intros Hst HQ HN HR. unfold stream_poll, stream_access_is_active, require_job_owner_or_admin.
  wp_step. wp_step. wp_step. wp_step; [by wp_steps|].
  match goal with H : is_some (revoked_tokens c !! _) = false |- _ => rename H into Htoken end.
  wp_step. eapply wp_interleave_later; [exact Hst|]. intros _ Hst1. wp_simpl. wp_step.
  wp_step. destruct (users (moment s 1) !! user_id) as [user|] eqn:Huser; [|by wp_steps].
  wp_step; [by wp_steps|]. wp_step. eapply wp_interleave_later; [exact Hst1|].
  intros _ Hst2. wp_simpl. wp_step. wp_step.
  eapply wp_owned_job_entitled; [exact Hst2| |intros; wp_steps; apply HN].
  intros job Hent _ Hst3. wp_simpl. wp_step. wp_step. cbn [negb]. wp_step.
  eapply wp_interleave_later; [exact Hst3|]. intros _ Hst4. wp_simpl.
  unfold fetch_job_logs. wp_step. wp_step. wp_step. apply HQ; [by destruct Hst4|].
  split; [|by exists user, job]. rewrite (St_moment _ _ _ _ _ _ Hst).
  by destruct (revoked_tokens c !! token_jti).
Qed.

Lemma batch_events_records records :
  ∃ emitted rest, records = emitted ++ rest ∧
    Forall2 (λ r e, se_id e = encode_log_cursor (record_cursor r) ∧
                    job_log_to_read r = Some (se_data e)) emitted (batch_events records).1 ∧
    ((batch_events records).2 = true → rest = []).
Proof.
  induction records as [|r records (emitted & rest & Heq & Hevents & Hrest)]; simpl.
  - exists [], []. split_and!; [done|constructor|done].
  - destruct (job_log_to_read r) as [data|] eqn:Hread.
    + destruct (batch_events records) as [events complete]. exists (r :: emitted), rest.
      split_and!; [by rewrite Heq| |done]. simpl in *. by constructor.
    + exists [], (r :: records). split_and!; [done|constructor|done].
Qed.

(** A batch of lines and the poll that emitted it: the reads of this poll granted the
    access, and it selected the lines. *)
Definition emitted_by (user_id token_jti job_id : string) (filters : JobLogFilters)
    (poll : option Session) (batch : list JobLogRecord) : Prop :=
  ∃ s, poll = Some s ∧ stream_granted user_id token_jti job_id s ∧
    ∀ r, r ∈ batch → r ∈ matching_logs job_id filters (moment s 4).

(** The event of a line: its cursor and its text. *)
Definition event_of (r : JobLogRecord) (e : StreamEvent) : Prop :=
  se_id e = encode_log_cursor (record_cursor r) ∧ job_log_to_read r = Some (se_data e).

(** Lines in strictly ascending order, behind a cursor. *)
Definition ascending (cursor : option LogCursor) (records : list JobLogRecord) : Prop :=
  StronglySorted cursor_lt (map record_cursor records) ∧
  Forall (λ r, ∀ c, cursor = Some c → cursor_lt c (record_cursor r)) records.

Lemma ascending_prefix cursor records rest :
  ascending cursor (records ++ rest) → ascending cursor records.
Proof using Type.
  intros [Hs Hall]. rewrite map_app in Hs. apply StronglySorted_app_1_l in Hs.
  by apply Forall_app in Hall as [? _].
Qed.

(** A batch, and the lines behind the position after it. *)
Lemma ascending_app cursor records rest :
  ascending cursor records → ascending (advance cursor records) rest →
  ascending cursor (records ++ rest).
Proof using Type.
  intros [Hs1 Hall1] [Hs2 Hall2]. unfold ascending. rewrite map_app. split.
  - apply StronglySorted_app_2; [|done|done]. intros a b Ha Hb.
    apply list_elem_of_fmap in Hb as (rb & -> & Hb). rewrite Forall_forall in Hall2.
    specialize (Hall2 _ Hb). unfold advance in Hall2.
    destruct records as [|x records _] using rev_ind; [by apply not_elem_of_nil in Ha|].
    rewrite last_snoc in Hall2. specialize (Hall2 _ eq_refl). rewrite map_app in Ha, Hs1.
    apply elem_of_app in Ha as [Ha|Ha]; simpl in Ha; [|by apply list_elem_of_singleton in Ha as ->].
    eapply cursor_lt_trans; [|exact Hall2]. eapply StronglySorted_app_1_elem_of; [exact Hs1|done|left].
  - apply Forall_app. split; [done|]. eapply Forall_impl; [exact Hall2|]. intros r Hlt c Hc.
    unfold advance in Hlt. destruct (last records) as [x|] eqn:Hx; [|by apply Hlt].
    eapply cursor_lt_trans; [|by apply Hlt]. rewrite Forall_forall in Hall1.
    eapply Hall1; [|done]. by apply last_Some_elem_of.
Qed.

(** What one poll answers. *)
Lemma stream_poll_batch user_id token_jti job_id filters cursor limit s records more :
  fresh_session own_ids s →
  outcome (stream_poll user_id token_jti job_id filters cursor limit) s = Ok (Some (records, more)) →
  stream_granted user_id token_jti job_id s ∧ ascending cursor records ∧
  ∀ r, r ∈ records → r ∈ matching_logs job_id filters (moment s 4).
Proof using Type.
  intros Hfresh Hout.
  assert (wp (stream_poll user_id token_jti job_id filters cursor limit) (λ r _, match r with
    | Ok (Some (records, _)) => stream_granted user_id token_jti job_id s ∧
        ascending cursor records ∧ ∀ r, r ∈ records → r ∈ matching_logs job_id filters (moment s 4)
    | _ => True end) s) as Hwp.
  { eapply wp_stream_poll; [by apply fresh_St| |done|done]. intros s' Hids Hgranted.
    pose proof (fetch_page_sorted job_id filters cursor limit _ Hids) as [Hs Hall].
    destruct (fetch_page _ _ _ _ _ _) as [page b]. simpl in *. rewrite Forall_forall in Hall.
    split_and!; [done|split; [done|]|]; [apply Forall_forall|]; intros r Hr; by apply Hall. }
  exact (wp_run _ _ _ _ Hwp Hout).
Qed.

(** C28: the live stream is ordered, and authorised poll by poll. Over the whole life of a
    stream, with any transactions between and during its polls, its events are those of a
    sequence of batches, one for each poll from the first on until the stream ends. Each
    batch was emitted by a poll whose own reads found the token not revoked, the account
    enabled and entitled to the Job, and consists of lines that this poll selected. The
    lines of all the batches come in strictly ascending order behind the cursor the stream
    started from, so that none is emitted twice, and each event carries the cursor of its
    line. *)
Theorem log_stream_is_ordered user_id token_jti job_id filters limit polls cursor :
  (∀ s, Some s ∈ polls → fresh_session own_ids s) →
  let events := event_source user_id token_jti job_id filters limit polls cursor in
  ∃ batches,
    Forall2 (emitted_by user_id token_jti job_id filters) (take (length batches) polls) batches ∧
    ascending cursor (concat batches) ∧ Forall2 event_of (concat batches) events.
Proof.
  cbv zeta. revert cursor. induction polls as [|[s|] polls IH]; intros cursor Hpolls; simpl.
  1, 3: by exists []; repeat constructor.
  destruct (outcome _ s) as [[[records more]|]|] eqn:Hout; try by (exists []; repeat constructor).
  apply stream_poll_batch in Hout as (Hgranted & Hasc & Hlines); [|by apply Hpolls; left].
  destruct (batch_events_records records) as (emitted & rest & -> & Hevents & Hrest).
  destruct (batch_events _) as [events complete]. simpl in *.
  assert (emitted_by user_id token_jti job_id filters (Some s) emitted) as Hem.
  { exists s. split_and!; [done|done|]. intros r Hr. apply Hlines. set_solver. }
  destruct complete.
  - rewrite (Hrest eq_refl), app_nil_r in *. destruct (IH (advance cursor emitted))
      as (batches & Hall & Hlater & Hev); [by intros; apply Hpolls; right|].
    exists (emitted :: batches). simpl. split_and!; [by constructor| |by apply Forall2_app].
    by apply ascending_app.
  - exists [emitted]. simpl. rewrite !app_nil_r. split_and!; [|by eapply ascending_prefix|done].
    constructor; [done|]. by destruct polls.
Qed.
End reading.

(** ** The reads change nothing *)

Section preserves.
  Context (I : DB → Prop) `{UnicodeTables} `{LogTextRedactor} `{JwtLibrary}.

Lemma wp_collect_reads records (Q : result (list JobLogRead) → Session → Prop) s :
  (∀ r, Q r s) → wp (collect records log_read_or_error) Q s.
Proof.
  revert Q. induction records as [|r records IH]; intros Q HQ; simpl; wp_step; [apply HQ|].
  unfold log_read_or_error at 1. destruct (job_log_to_read r); wp_step; [|apply HQ].
  wp_step. apply IH. intros [items|e]; [wp_step|]; apply HQ.
Qed.

Lemma list_job_logs_preserves job_id query user : preserves I (list_job_logs job_id query user).
Proof.
  start_handler. unfold list_job_logs, require_job_owner_or_admin, aware_utc_or_422,
    validate_log_ranges, decode_cursor_or_422, count_job_logs, fetch_job_logs. wp_step.
  eapply wp_owned_job; [done| |done]. intros c' job e s' _ _ _ _ Hst'. wp_simpl.
  wp_steps; try finish_safe.
  all: apply wp_collect_reads; intros [items|err]; wp_simpl; [wp_step|]; finish_safe.
Qed.

Lemma list_job_metrics_preserves job_id query user : preserves I (list_job_metrics job_id query user).
Proof.
  start_handler. unfold list_job_metrics, require_job_owner_or_admin. wp_step.
  eapply wp_owned_job; [done| |done]. intros c' job e s' _ _ _ _ Hst'. wp_simpl.
  wp_steps; finish_safe.
Qed.

Lemma start_stream_preserves job_id after last_event_id auth :
  preserves I (start_stream job_id after last_event_id auth).
Proof.
  start_handler. unfold start_stream, require_job_owner_or_admin, decode_cursor_or_422. wp_step.
  eapply wp_owned_job; [done| |done]. intros c' job e s' _ _ _ _ Hst'. wp_simpl.
  wp_steps; finish_safe.
Qed.
End preserves.

(** ** An example: a Job with two attempts *)

#[local] Instance ascii_tables : UnicodeTables :=
  {| uni_casefold w := w; uni_is_space _ := false; uni_decimal _ := None |}.
#[local] Instance plain_redactor : LogTextRedactor := {| redact_log_text s := s |}.

Definition sample_attempt (id : string) (number : Z) : JobAttempt :=
  mkJobAttempt id "j-1" "w-1" number "fake" None None None None None None None "failed" None None 0
    (Some 1).
Definition sample_line (id attempt_id : string) (sequence : Z) : JobLog :=
  mkJobLog ("00000000-0000-4000-8000-00000000000" +:+ id) "j-1" attempt_id sequence "info"
    ("line " +:+ id) (JObject []) sequence.
Definition read_db : DB :=
  empty_DB <| jobs := {["j-1" := sample_job]} |> <| experiments := {["exp-1" := sample_experiment]} |>
    <| users := {["u-1" := sample_owner]} |>
    <| attempts := {["a-1" := sample_attempt "a-1" 1; "a-2" := sample_attempt "a-2" 2]} |>
    <| job_logs := {[("a-2", 0) := sample_line "4" "a-2" 0; ("a-1", 7) := sample_line "3" "a-1" 7;
                     ("a-1", 1) := sample_line "2" "a-1" 1; ("a-1", 0) := sample_line "1" "a-1" 0]} |>.
Definition read_session : Session := new_session read_db ten_minutes.
Definition all_lines : LogQuery := mkLogQuery None None None None None None false 2.
Definition no_filters : JobLogFilters := mkJobLogFilters None None None None None.

Lemma read_db_ids : own_ids read_db.
Proof.
  intros k1 l1 k2 l2 H1 H2 Heq.
  assert (map_Forall (λ k1 l1, map_Forall (λ k2 l2, lg_id l1 = lg_id l2 → k1 = k2)
    (job_logs read_db)) (job_logs read_db)) as Hall by (refine (bool_decide_unpack _ _); vm_compute; exact Logic.I).
  exact (Hall _ _ H1 _ _ H2 Heq).
Qed.

Lemma log_pages_cover_witness :
  ∃ pages reads, read_pages 5 "j-1" all_lines sample_owner read_session = Some pages ∧
    concat (map ll_items pages) = reads ∧ map lr_message reads = ["line 1"; "line 2"; "line 3"; "line 4"].
Proof.
  assert (∃ reads, mapM job_log_to_read (selected "j-1" no_filters read_db) = Some reads ∧
    map lr_message reads = ["line 1"; "line 2"; "line 3"; "line 4"]) as (reads & Hreads & Htext)
    by (eexists; split; [vm_compute; reflexivity|reflexivity]).
  destruct (log_pages_cover read_session "j-1" all_lines sample_owner no_filters reads eq_refl)
    as [(pages & Hpages & Hitems & _) _].
  - exists sample_job, sample_experiment. split; [reflexivity|]. split; [reflexivity|]. by right.
  - reflexivity.
  - reflexivity.
  - reflexivity.
  - apply le_S, le_n.
  - exact read_db_ids.
  - unfold cursor_ok. refine (bool_decide_unpack _ _). vm_compute. exact Logic.I.
  - exact Hreads.
  - exists pages, reads. split; [|split; [exact Hitems|exact Htext]].
    replace 5%nat with (S (length reads)); [exact Hpages|].
    apply (f_equal length) in Htext. rewrite length_map in Htext. by rewrite Htext.
Defined.

(** Two polls: of the ledger above, and after a further line was stored. *)
Definition grown_db : DB :=
  read_db <| job_logs := <[("a-2", 1) := sample_line "5" "a-2" 1]> (job_logs read_db) |>.
Definition sample_polls : list (option Session) :=
  [Some read_session; Some (new_session grown_db (2 * ten_minutes)); None].

Lemma sample_polls_fresh s : Some s ∈ sample_polls → fresh_session own_ids s.
Proof.
  intros [Hs|[Hs|[Hs|Hs%not_elem_of_nil]%elem_of_cons]%elem_of_cons]%elem_of_cons; try done;
    injection Hs as ->; (split; [split; [|by split]|done]).
  - exact read_db_ids.
  - intros k1 l1 k2 l2 H1 H2 Heq.
    assert (map_Forall (λ k1 l1, map_Forall (λ k2 l2, lg_id l1 = lg_id l2 → k1 = k2)
      (job_logs grown_db)) (job_logs grown_db)) as Hall
      by (refine (bool_decide_unpack _ _); vm_compute; exact Logic.I).
    exact (Hall _ _ H1 _ _ H2 Heq).
Qed.

Lemma log_stream_is_ordered_witness :
  ∃ batches, ascending None (concat batches) ∧
    Forall2 (λ r text, lg_message (rc_log r) = text) (concat batches)
      ["line 1"; "line 2"; "line 3"; "line 4"; "line 5"].
Proof.
  destruct (log_stream_is_ordered "u-1" "jti-1" "j-1" no_filters 10 sample_polls None sample_polls_fresh)
    as (batches & _ & Hsorted & Hevents).
  exists batches. split; [exact Hsorted|].
  assert (map (lr_message ∘ se_data) (event_source "u-1" "jti-1" "j-1" no_filters 10 sample_polls None) =
    ["line 1"; "line 2"; "line 3"; "line 4"; "line 5"]) as Htext by (vm_compute; reflexivity).
  rewrite <-Htext. clear Htext Hsorted.
  induction Hevents as [|r e rs es [_ Hread] _ IH]; constructor; [|exact IH].
  unfold job_log_to_read in Hread. destruct (LogLevel_of _); [|done]. simpl in Hread.
  destruct (redact_log_fields _); try done. injection Hread as Hread. simpl. by rewrite <-Hread.
Defined.
