(* ===== verification/AccountsCorrect.v ===== *)
(** * Accounts stay well typed

    What the writes of [Accounts.v] and [UserAdmin.v] do to the account tables: every one
    is an [accounts_step] ([Evolution.v]), so accounts keep their types and keys, an
    account never disappears, its authority changes only together with its token version,
    and an active administrator always remains. *)

From S2P Require Import Prelude Sha256 Json DateTime PyText Settings Ledger Evolution Session Wp.
From S2P Require Import LedgerInvariant Accounts UserAdmin.

(** ** Single writes *)

Lemma users_step_refl T : users_step T T.
Proof. apply table_step_refl. apply _. Qed.

Lemma users_step_insert d u :
  (∀ loaded, users d !! u_id u = Some loaded → user_evolves loaded u) →
  users_step (users d) (<[u_id u := u]> (users d)).
Proof.
  intros Hu. apply table_step_insert; [apply users_step_refl|].
  destruct (users d !! u_id u) as [loaded|]; simpl; auto.
Qed.

(** A write that keeps every account. *)
Lemma ai_references d d' :
  AccountsInv d → (∀ k, is_Some (users d !! k) → is_Some (users d' !! k)) →
  (∀ k o, admin_operations d' !! k = Some o → admin_operations d !! k = Some o ∨
     k = (op_actor_id o, op_idempotency_key_hash o) ∧ ur_id (op_response o) = op_resource_id o ∧
     is_Some (users d' !! op_actor_id o) ∧ is_Some (users d' !! op_resource_id o)) →
  (∀ k o, admin_operations d' !! k = Some o →
     k = (op_actor_id o, op_idempotency_key_hash o) ∧ ur_id (op_response o) = op_resource_id o ∧
     is_Some (users d' !! op_actor_id o) ∧ is_Some (users d' !! op_resource_id o)).
Proof.
  intros HI Hkeep Hnew k o Ho. destruct (Hnew _ _ Ho) as [Hold|]; [|done].
  destruct (ai_operation _ HI _ _ Hold) as (? & ? & ? & ?). auto.
Qed.

Lemma insert_keeps {A} (m : gmap string A) i x k : is_Some (m !! k) → is_Some (<[i := x]> m !! k).
Proof.
  intros Hk. destruct (decide (i = k)) as [<-|]; [rewrite lookup_insert_eq; eauto|].
  by rewrite lookup_insert_ne.
Qed.

(** The typed part of a User row. *)
Definition user_typed (u : User) : Prop :=
  role_allowed (u_role u) = true ∧ 1 <= u_row_version u ∧ 1 <= u_access_token_version u.

Lemma accounts_step_user d u :
  user_typed u →
  (∀ k v, users d !! k = Some v → u_email v = u_email u → k = u_id u) →
  (∀ loaded, users d !! u_id u = Some loaded → user_evolves loaded u) →
  (∀ loaded, users d !! u_id u = Some loaded → active_admin loaded = true →
     active_admin u = true ∨ ∃ k v, k ≠ u_id u ∧ users d !! k = Some v ∧ active_admin v = true) →
  accounts_step d (put_user u d).
Proof.
  intros (Hrole & Hrow & Htoken) Hemail Hlater Hadmin HI.
  split; [split|by apply users_step_insert|done..|]; simpl.
  - intros k v [[<- <-]|[_ Hv]]%lookup_insert_Some; [done|by eapply ai_key].
  - intros k1 u1 k2 u2 [[<- <-]|[? H1]]%lookup_insert_Some [[<- <-]|[? H2]]%lookup_insert_Some He;
      [done| | |by eapply ai_email].
    + by rewrite (Hemail _ _ H2).
    + by apply Hemail in H1.
  - intros k v [[<- <-]|[_ Hv]]%lookup_insert_Some; [done|by eapply ai_role].
  - intros k v [[<- <-]|[_ Hv]]%lookup_insert_Some; [done|by eapply ai_versions].
  - eapply (ai_references d (put_user u d)); [done| |by left]. intros k. apply insert_keeps.
  - intros k t Ht. destruct (ai_revoked _ HI _ _ Ht). split; [done|by apply insert_keeps].
  - intros b id Hb Hid. eapply insert_keeps, ai_bootstrap; done.
  - intros (k & v & Hv & Hact). unfold has_admin. simpl. destruct (decide (k = u_id u)) as [->|Hne].
    + destruct (Hadmin _ Hv Hact) as [Hu|(k' & v' & Hne & Hv' & Ha')].
      * exists (u_id u), u. by rewrite lookup_insert_eq.
      * exists k', v'. by rewrite lookup_insert_ne.
    + exists k, v. by rewrite lookup_insert_ne.
Qed.

Lemma accounts_step_operation d o :
  operation_conflict o d = false → ur_id (op_response o) = op_resource_id o →
  accounts_step d (put_operation o d).
Proof.
  unfold operation_conflict. intros Hc Hid HI. bools.
  split; [split; try apply HI| |simpl|done..]; simpl.
  - eapply (ai_references d (put_operation o d)); [done|done|]. simpl.
    intros k o' [[<- <-]|[_ Ho]]%lookup_insert_Some; [right|by left]. split_and!; eauto.
  - apply users_step_refl.
  - by apply insert_subseteq.
Qed.

Lemma accounts_step_revoked d t :
  revocation_conflict t d = false → accounts_step d (revoke_token t d).
Proof.
  unfold revocation_conflict. intros Hc HI. bools.
  split; [split; try apply HI| |done|simpl|done..]; simpl.
  - intros k t' [[<- <-]|[_ Ht]]%lookup_insert_Some; [eauto|by eapply ai_revoked].
  - apply users_step_refl.
  - by apply insert_subseteq.
Qed.

Lemma accounts_step_bootstrap d state :
  bootstrap_step (bootstrap_state d) (Some state) →
  (∀ id, bs_admin_user_id state = Some id → is_Some (users d !! id)) →
  accounts_step d (put_bootstrap state d).
Proof.
  intros Hb Hid HI. split; [split; try apply HI|apply users_step_refl|done..]; simpl.
  intros b id [= <-]. apply Hid.
Qed.

Lemma accounts_step_fence d state :
  bootstrap_state d = Some state → accounts_step d (put_bootstrap (next_lock state) d).
Proof.
  intros Hs HI. eapply accounts_step_bootstrap; [|intros id Hid; by eapply ai_bootstrap|done].
  rewrite Hs. simpl. split; [lia|done].
Qed.

(** ** Rows of a table *)

Lemma where_none {K A} `{Countable K} (p : A → bool) (table : gmap K A) k x :
  List.find p (rows table) = None → table !! k = Some x → p x = false.
Proof.
  intros Hf Hk. apply (find_none _ _ Hf). apply list_elem_of_In. unfold rows.
  apply list_elem_of_fmap. exists (k, x). by rewrite elem_of_map_to_list.
Qed.

Lemma find_row {K A} `{Countable K} (p : A → bool) (table : gmap K A) x :
  List.find p (rows table) = Some x → p x = true ∧ ∃ k, table !! k = Some x.
Proof.
  intros [Hin Hp]%find_some. split; [done|]. apply list_elem_of_In in Hin. unfold rows in Hin.
  apply list_elem_of_fmap in Hin as ([k y] & -> & Hy). exists k. by apply elem_of_map_to_list.
Qed.

(** Two rows match, so one of them is another row. *)
Lemma where_another {K A} `{Countable K} (p : A → bool) (table : gmap K A) k x :
  table !! k = Some x → (1 < length (where_ p table))%nat →
  ∃ k' x', k' ≠ k ∧ table !! k' = Some x' ∧ p x' = true.
Proof.
  intros Hk Hlen. unfold where_, rows in Hlen.
  rewrite <-(insert_delete_id _ _ _ Hk) in Hlen.
  assert (List.filter p (map_to_list (<[k:=x]> (delete k table))).*2 ≡ₚ
          List.filter p (x :: (map_to_list (delete k table)).*2)) as Hperm.
  { apply filter_permutation. by rewrite map_to_list_insert by apply lookup_delete_eq. }
  apply Permutation_length in Hperm. rewrite Hperm in Hlen.
  assert (∃ y, y ∈ List.filter p (map_to_list (delete k table)).*2) as [y Hy].
  { destruct (List.filter p (map_to_list (delete k table)).*2) as [|y ys] eqn:Hys; [|exists y; left].
    simpl in Hlen. rewrite Hys in Hlen. destruct (p x); simpl in Hlen; lia. }
  apply list_elem_of_In, filter_In in Hy as [Hy Hp]. apply list_elem_of_In in Hy.
  apply list_elem_of_fmap in Hy as ([k' x'] & -> & Hx'). apply elem_of_map_to_list in Hx'.
  apply lookup_delete_Some in Hx' as [Hne Hx']. exists k', x'. by split_and!.
Qed.

(** ** Handlers *)

(** The tables of assignments, telemetry and artifacts. *)
Definition work_of (d : DB) :=
  (workers d, jobs d, attempts d, leases d, job_logs d, metrics d, artifacts_of d).

Lemma stable_accounts I `{!Stable I} c d :
  I c → work_of d = work_of c → accounts_step c d → commits I c d.
Proof.
  intros HI Heq Hs. pose proof (f_equal snd Heq) as Er. injection (f_equal fst Heq) as Ew Ej Ea El Elg Em.
  eapply stable_step; [exact HI| |].
  - apply evolves_rest; [done..|]. split; [done|by apply (artifacts_step_ext c c)].
  - eapply Inv_ext; [..|by apply stable_inv]; done.
Qed.

(** A committed lifecycle write: the ledger answers its replays. *)
Record recorded (d : DB) (actor_id key_hash operation_type fingerprint : string)
    (result : AdminUserRead) : Prop := mkRecorded {
  rec_operation : admin_operations d !! (actor_id, key_hash) =
    Some (mkAdminUserOperation actor_id key_hash fingerprint operation_type (ur_id result) result);
  rec_user : ∃ user, users d !! ur_id result = Some user ∧ to_read user = result }.

Section handlers.
  Context `{UnicodeTables} `{PasswordHasher} `{JwtLibrary} `{Platform}.
  Variable settings : Settings.
  Context (I : DB → Prop) `{!Stable I}.
  #[local] Set Default Proof Using "Stable0".

Lemma wp_finish actor_id key_hash operation_type fingerprint (res : AdminUserRead) action details es text
    (Q : result AdminUserRead → Session → Prop) c d dm L t i s :
  St I c d true dm L t i s → work_of d = work_of c → accounts_step c d →
  (AccountsInv c → ∃ user, users d !! ur_id res = Some user ∧ to_read user = res) →
  (∀ s', (AccountsInv c → recorded (s_committed s') actor_id key_hash operation_type fingerprint res) →
     safe I s' → Q (Ok res) s') →
  (∀ e s', safe I s' → Q (Raise e) s') →
  wp (_ ← record_operation actor_id key_hash operation_type fingerprint res;
      _ ← user_audit actor_id action (ur_id res) details;
      _ ← catch commit (on_db_error es (_ ← rollback; http 409 text));
      mret res) Q s.
Proof.
  intros Hst Hwork Hstep Huser HQ HR. unfold record_operation, user_audit.
  wp_step. wp_step. wp_step. wp_step. wp_step. wp_step; [by apply HR| |].
  - eapply (stable_accounts I c); [exact (st_inv _ _ _ _ _ _ _ _ _ Hst)|done|]. etrans; [done|].
    eapply accounts_step_ext; [|apply accounts_step_operation]; [reflexivity| |done].
    naive_solver.
  - wp_step. eapply HQ; [|by eapply St_safe]. intros Hc.
    match goal with H : St _ _ _ _ _ _ _ _ ?x |- recorded (s_committed ?x) _ _ _ _ _ =>
      rewrite (st_committed _ _ _ _ _ _ _ _ _ H) end.
    split; [apply lookup_insert_eq|by apply Huser].
Qed.

(** The part behind the fence starts from the committed database and its bumped lock. *)
Record fenced (c d : DB) (actor_id : string) : Prop := mkFenced {
  fe_state : ∃ state, bootstrap_state c = Some state ∧ d = put_bootstrap (next_lock state) c;
  fe_actor : ∃ actor, users c !! actor_id = Some actor ∧ active_admin actor = true }.

Lemma fenced_step c d actor_id : fenced c d actor_id →
  work_of d = work_of c ∧ users d = users c ∧ accounts_step c d.
Proof using Type.
  intros [(state & Hs & ->) _]. split_and!; [done|done|by apply accounts_step_fence].
Qed.

Lemma wp_replay_or_none actor_id key_hash operation_type fingerprint
    (Q : result (option AdminUserRead) → Session → Prop) c d b dm L t i s :
  St I c d b dm L t i s →
  (∀ c' d' o s', (b = true → c' = c ∧ d' = d) → St I c' d' b dm L t i s' →
     admin_operations d' !! (actor_id, key_hash) = Some o → op_operation_type o = operation_type →
     op_request_fingerprint o = fingerprint → Q (Ok (Some (op_response o))) s') →
  (∀ c' d' s', (b = true → c' = c ∧ d' = d) → St I c' d' b dm L t i s' →
     Q (Ok None) s') →
  (∀ e s', safe I s' → Q (Raise e) s') →
  wp (replay_or_none actor_id key_hash operation_type fingerprint) Q s.
Proof using Type.
  intros Hst HS HN HR. unfold replay_or_none. wp_step.
  eapply wp_interleave_any; [done|]. intros c' d' s' Hcase Hst'.
  assert (b = true → c' = c ∧ d' = d) as Hb by naive_solver. wp_simpl. wp_step. wp_step.
  wp_step; [|by eapply HN]. wp_step. wp_step; [by eapply HR, St_safe|]. wp_step. bools.
  by eapply HS.
Qed.

Lemma wp_with_replay {A} actor_id key_hash operation_type fingerprint (prepare : M A) apply
    (Q : result (AdminUserRead * bool) → Session → Prop) c L t i s :
  St I c c false None L t i s →
  (∀ x s', safe I s' → Q (Ok (x, true)) s') →
  (∀ (Q' : result A → Session → Prop) c' L' t' s', St I c' c' false None L' t' i s' →
     (∀ a c2 L2 t2 s2, St I c2 c2 false None L2 t2 i s2 → Q' (Ok a) s2) →
     (∀ e s2, safe I s2 → Q' (Raise e) s2) → wp prepare Q' s') →
  (∀ a c' d' L' t' s', fenced c' d' actor_id → St I c' d' true None L' t' i s' →
     wp (apply a) (λ r s2, match r with Ok x => Q (Ok (x, false)) s2
                                      | Raise e => Q (Raise e) s2 end) s') →
  (∀ e s', safe I s' → Q (Raise e) s') →
  wp (with_replay actor_id key_hash operation_type fingerprint prepare apply) Q s.
Proof using Type.
  intros Hst HS HP HA HR. unfold with_replay. wp_step.
  eapply wp_replay_or_none; [done| | |done].
  { intros c' d' o s' _ Hst' _ _ _. wp_simpl. wp_step. by eapply HS, St_safe. }
  intros c1 d1 s1 _ Hst1. wp_simpl. wp_step. wp_step. wp_step.
  eapply HP; [done| |done]. intros a c2 L2 t2 s2 Hst2. wp_simpl. wp_step.
  unfold lock_lifecycle_fence. wp_step. wp_step. wp_step; [|by eapply HR, St_safe].
  wp_step. wp_step. wp_step. wp_step. wp_step; [|by eapply HR, St_safe]. wp_step.
  wp_step; [by eapply HR, St_safe|]. wp_step. wp_step.
  eapply wp_replay_or_none; [done| | |done].
  - intros c5 d5 o s5 Hb Hst5 Ho _ _. destruct (Hb eq_refl) as [-> ->]. wp_simpl. wp_step. wp_step.
    wp_step. by eapply HS, St_safe.
  - intros c5 d5 s5 Hb Hst5. destruct (Hb eq_refl) as [-> ->]. wp_simpl. wp_step.
    eapply HA; [|done]. bools. split; [by eexists|]. eexists. split; [done|].
    unfold active_admin. apply andb_true_iff.
    by rewrite bool_decide_eq_true, negb_true_iff.
Qed.

(** What a flush does to the row that was loaded. *)
Definition flushed (loaded user saved : User) (d d' : DB) : Prop :=
  user = loaded ∧ saved = loaded ∧ d' = d ∨
  d' = put_user saved d ∧
  ∃ now, saved = user <| u_row_version := u_row_version loaded + 1 |> <| u_updated_at := now |>.

(** Without a pending constraint failure, a flush passes. *)
Lemma wp_flush_clean (Q : result () → Session → Prop) c d b L t i s :
  St I c d b None L t i s → Q (Ok ()) s → wp flush Q s.
Proof using Type.
  intros Hst HQ. unfold wp, flush. by rewrite (st_doomed _ _ _ _ _ _ _ _ _ Hst).
Qed.

Lemma wp_flush_user loaded user (Q : result User → Session → Prop) c d L t i s :
  St I c d true None L t i s →
  (∀ saved d' t' s', flushed loaded user saved d d' → St I c d' true None L t' i s' →
     Q (Ok saved) s') →
  (∀ e s', safe I s' → Q (Raise e) s') →
  wp (flush_user_or_stale loaded user) Q s.
Proof using Type.
  intros Hst HQ HR. unfold flush_user_or_stale, flush_user. wp_step. wp_step.
  destruct (decide (user = loaded)) as [->|].
  - wp_step. wp_step. eapply wp_flush_clean; [done|]. wp_step. eapply HQ; [by left|done].
  - wp_step. wp_step. wp_step. wp_step. wp_step. wp_step. eapply wp_flush_clean; [done|]. wp_step.
    eapply HQ; [|done]. right. split; [done|by eexists].
Qed.

(** A flush of a later row is a step of the accounts. *)
Lemma flushed_step c loaded user saved d d' :
  accounts_step c d → AccountsInv c → users d !! u_id loaded = Some loaded → flushed loaded user saved d d' →
  (u_id user, u_email user, u_created_at user) =
    (u_id loaded, u_email loaded, u_created_at loaded) →
  u_row_version user = u_row_version loaded → role_allowed (u_role user) = true →
  u_access_token_version loaded <= u_access_token_version user →
  authority user = authority loaded ∨ u_access_token_version loaded < u_access_token_version user →
  (active_admin loaded = true → active_admin user = true ∨ ∃ k v, k ≠ u_id loaded ∧
     users d !! k = Some v ∧ active_admin v = true) →
  accounts_later c d' ∧ users d' !! u_id saved = Some saved.
Proof using Type.
  intros Hcd HIc Hl Hfl Hframe Hrow Hrole Htoken Hauth Hadmin.
  assert (AccountsInv d) as HI by by apply Hcd.
  destruct Hfl as [(-> & -> & ->)|(-> & now & ->)]; [split; [by apply Hcd|done]|].
  injection Hframe as Eid Eemail Ecreated. destruct (ai_versions _ HI _ _ Hl) as [Hr1 Ht1].
  split; [|apply lookup_insert_eq].
  eapply (transitivity (R := accounts_step)); [exact Hcd| |exact HIc].
  apply accounts_step_user; simpl; rewrite ?Eid.
  - split_and!; simpl; [done|lia|lia].
  - intros k v Hv He. eapply (ai_email _ HI); [done|done|congruence].
  - intros l0 Hl0. simplify_eq. right. split; simpl; [congruence|lia|lia|exact Hauth].
  - intros l0 Hl0. simplify_eq. exact Hadmin.
Qed.

Lemma wp_locked_user user_id (Q : result User → Session → Prop) c d L t i s :
  St I c d true None L t i s →
  (∀ user L' s', users d !! user_id = Some user → St I c d true None L' t i s' → Q (Ok user) s') →
  (∀ e s', safe I s' → Q (Raise e) s') →
  wp (locked_user user_id) Q s.
Proof using Type.
  intros Hst HQ HR. unfold locked_user. wp_step. wp_step. wp_step; [|by eapply HR, St_safe].
  wp_step. by eapply HQ.
Qed.

Lemma Role_value_allowed r : role_allowed (Role_value r) = true.
Proof using Type. by destruct r. Qed.

(** An update of access that changes something gives the tokens a new version. *)
Lemma accessed_user_later user payload :
  role_allowed (u_role user) = true →
  let user' := accessed_user user payload in
  (u_id user', u_email user', u_created_at user') =
    (u_id user, u_email user, u_created_at user) ∧
  u_row_version user' = u_row_version user ∧ role_allowed (u_role user') = true ∧
  u_access_token_version user <= u_access_token_version user' ∧
  (authority user' = authority user ∨ u_access_token_version user < u_access_token_version user') ∧
  (active_admin user = true → active_admin user' = true ∨ removes_active_admin user payload = true).
Proof using Type.
  intros Hrole. unfold accessed_user. case_bool_decide as Hchg; simpl.
  - split_and!; auto; lia.
  - split_and!; [done|done|apply Role_value_allowed|lia|right; lia|].
    intros Hact. unfold removes_active_admin. rewrite Hact. unfold active_admin. simpl.
    destruct ⌊Role_value (up_role payload) = "admin"⌋, (up_active payload); auto.
Qed.

Lemma wp_apply_update actor_id key_hash fingerprint user_id payload
    (Q : result AdminUserRead → Session → Prop) c d L t i s :
  St I c d true None L t i s → fenced c d actor_id →
  (∀ r s', (AccountsInv c → recorded (s_committed s') actor_id key_hash "access_update" fingerprint r) →
     safe I s' → Q (Ok r) s') →
  (∀ e s', safe I s' → Q (Raise e) s') →
  wp (apply_update actor_id key_hash fingerprint user_id payload) Q s.
Proof.
  intros Hst Hf HQ HR. destruct (fenced_step _ _ _ Hf) as (Hwork & Husers & Hstep).
  unfold apply_update. wp_step. eapply wp_locked_user; [done| |done].
  intros user L1 s1 Huser Hst1. wp_simpl. do 4 (wp_step; try by eapply HR, St_safe).
  assert (∀ R : result () → Session → Prop,
    ((removes_active_admin user payload = true → (1 < active_admin_count d)%nat) → R (Ok ()) s1) →
    (∀ e, R (Raise e) s1) → wp (if removes_active_admin user payload then
       count ← ask active_admin_count;
       reject_if ⌊(count <= 1)%nat⌋ 409 "at least one active administrator is required"
     else mret ()) R s1) as Hcount.
  { intros R HRok HRraise. destruct (removes_active_admin user payload).
    - wp_step. wp_step. wp_step; [by apply HRraise|]. apply HRok. bools. lia.
    - wp_step. by apply HRok. }
  wp_step. apply Hcount; [|intros; by eapply HR, St_safe]. intros Hmany. wp_simpl. wp_step.
  eapply wp_flush_user; [done| |done]. intros saved d2 t2 s2 Hfl Hst2. wp_simpl.
  assert (AccountsInv c → accounts_later c d2 ∧ users d2 !! u_id saved = Some saved) as Hlater.
  { intros Hc. assert (AccountsInv d) as Hd by by apply Hstep.
    assert (users d !! u_id user = Some user) as Hid by by rewrite (ai_key _ Hd _ _ Huser).
    destruct (accessed_user_later user payload (ai_role _ Hd _ _ Huser))
      as (Hframe & Hrow & Hrole & Htoken & Hauth & Hadmin).
    eapply flushed_step; [done..|]. intros Hact. destruct (Hadmin Hact) as [|Hrem]; [by left|].
    right. eapply where_another; [exact Hid|by apply Hmany]. }
  eapply wp_finish; [exact Hst2| | | | |done].
  - by destruct Hfl as [(_ & _ & ->)|(-> & _)].
  - intros Hc. by apply Hlater.
  - intros Hc. exists saved. split; [by apply Hlater|done].
  - intros. by apply HQ.
Qed.

Lemma wp_apply_reset actor_id key_hash fingerprint user_id payload encoded
    (Q : result AdminUserRead → Session → Prop) c d L t i s :
  St I c d true None L t i s → fenced c d actor_id →
  (∀ r s', (AccountsInv c → recorded (s_committed s') actor_id key_hash "password_reset" fingerprint r) →
     safe I s' → Q (Ok r) s') →
  (∀ e s', safe I s' → Q (Raise e) s') →
  wp (apply_reset actor_id key_hash fingerprint user_id payload encoded) Q s.
Proof.
  intros Hst Hf HQ HR. destruct (fenced_step _ _ _ Hf) as (Hwork & Husers & Hstep).
  unfold apply_reset, validate_new_password. wp_step. eapply wp_locked_user; [done| |done].
  intros user L1 s1 Huser Hst1. wp_simpl. do 4 (wp_step; try by eapply HR, St_safe). wp_step.
  eapply wp_flush_user; [done| |done]. intros saved d2 t2 s2 Hfl Hst2. wp_simpl.
  assert (AccountsInv c → accounts_later c d2 ∧ users d2 !! u_id saved = Some saved) as Hlater.
  { intros Hc. assert (AccountsInv d) as Hd by by apply Hstep.
    assert (users d !! u_id user = Some user) as Hid by by rewrite (ai_key _ Hd _ _ Huser).
    eapply flushed_step; [done..|reflexivity|reflexivity| | | |]; simpl.
    - by eapply ai_role.
    - lia.
    - right. lia.
    - by left. }
  eapply wp_finish; [exact Hst2| | | | |done].
  - by destruct Hfl as [(_ & _ & ->)|(-> & _)].
  - intros Hc. by apply Hlater.
  - intros Hc. exists saved. split; [by apply Hlater|done].
  - intros. by apply HQ.
Qed.

(** A new account with an address of its own. *)
Lemma accounts_step_new d u :
  user_conflict u d = false → user_typed u → accounts_step d (put_user u d).
Proof using Type.
  unfold user_conflict. intros Hc Htyped. bools. apply accounts_step_user; [done| |congruence..].
  intros k v Hv He. exfalso. unfold user_by_email in *.
  match goal with Hf : List.find _ _ = None |- _ => pose proof (where_none _ _ _ _ Hf Hv) as Hp end.
  simpl in Hp. by bools.
Qed.

Lemma wp_insert_user u text (Q : result () → Session → Prop) c d L t i s :
  St I c d true None L t i s →
  (∀ s', user_conflict u d = false → St I c (put_user u d) true None L t i s' → Q (Ok ()) s') →
  (∀ e s', safe I s' → Q (Raise e) s') →
  wp (insert_user u text) Q s.
Proof using Type.
  intros Hst HQ HR. unfold insert_user. wp_step. wp_step. wp_step. wp_step.
  - unfold on_db_error. case_decide; [|by eapply HR, St_safe]. wp_step. wp_step. wp_step.
    by eapply HR, St_safe.
  - match goal with Hd : ?dm = None, Hc : ?dm = None → _ |- _ =>
      destruct (Hc Hd) as [_ Hconflict]; subst dm end.
    by eapply HQ.
Qed.

Lemma wp_apply_create actor_id key_hash fingerprint payload encoded
    (Q : result AdminUserRead → Session → Prop) c d L t i s :
  St I c d true None L t i s → fenced c d actor_id →
  (∀ r s', (AccountsInv c → recorded (s_committed s') actor_id key_hash "create" fingerprint r) →
     safe I s' → Q (Ok r) s') →
  (∀ e s', safe I s' → Q (Raise e) s') →
  wp (apply_create actor_id key_hash fingerprint payload encoded) Q s.
Proof.
  intros Hst Hf HQ HR. destruct (fenced_step _ _ _ Hf) as (Hwork & Husers & Hstep).
  unfold apply_create. do 4 (wp_step; try by eapply HR, St_safe). do 6 wp_step. wp_step.
  eapply wp_insert_user; [done| |done]. intros s2 Hconflict Hst2. wp_simpl.
  eapply wp_finish; [exact Hst2|done| | | |done].
  - etrans; [done|]. apply accounts_step_new; [done|]. split_and!; [|simpl; lia..].
    apply Role_value_allowed.
  - intros _. eexists. split; [apply lookup_insert_eq|done].
  - intros. by apply HQ.
Qed.

(** ** The lifecycle routes *)

Lemma wp_request_fingerprint operation_type resource_id document
    (Q : result string → Session → Prop) s :
  (∀ fp, request_fingerprint settings operation_type resource_id document s = (Ok fp, s) →
     Q (Ok fp) s) →
  (∀ e, Q (Raise e) s) → wp (request_fingerprint settings operation_type resource_id document) Q s.
Proof using Type.
  unfold wp, request_fingerprint. intros HQ HR.
  destruct (json_dumps _); [by apply HQ|apply HR].
Qed.

Lemma wp_hash_password password (Q : result string → Session → Prop) c d b dm L t i s :
  St I c d b dm L t i s → (∀ h s', St I c d b dm L t i s' → Q (Ok h) s') →
  (∀ e s', safe I s' → Q (Raise e) s') → wp (hash_password password) Q s.
Proof using Type.
  intros Hst HQ HR. unfold hash_password. wp_step; [wp_step; by eapply HR, St_safe|].
  wp_step. wp_step. wp_step. by eapply HQ.
Qed.

(** The three lifecycle writes. *)
Inductive user_operation :=
  | OpCreate (payload : AdminUserCreate)
  | OpUpdate (user_id : string) (payload : AdminUserAccessUpdate)
  | OpReset (user_id : string) (payload : AdminUserPasswordReset).

Definition run_operation (op : user_operation) (actor_id key : string) : M (AdminUserRead * bool) :=
  match op with
  | OpCreate payload => create_user settings payload actor_id key
  | OpUpdate user_id payload => update_user_access settings user_id payload actor_id key
  | OpReset user_id payload => reset_user_password settings user_id payload actor_id key
  end.

Definition operation_type (op : user_operation) : string :=
  match op with
  | OpCreate _ => "create" | OpUpdate _ _ => "access_update" | OpReset _ _ => "password_reset"
  end.

(** The keyed digest of the request's body. *)
Definition operation_fingerprint (op : user_operation) : M string :=
  match op with
  | OpCreate payload => request_fingerprint settings "create" "new" (create_document payload)
  | OpUpdate user_id payload =>
      request_fingerprint settings "access_update" user_id (update_document payload)
  | OpReset user_id payload =>
      request_fingerprint settings "password_reset" user_id (reset_document payload)
  end.

Lemma wp_operation op actor_id key (Q : result (AdminUserRead * bool) → Session → Prop) c L t i s :
  St I c c false None L t i s →
  (∀ x s', safe I s' → Q (Ok (x, true)) s') →
  (∀ r fp d s', operation_fingerprint op s = (Ok fp, s) → I d →
     (AccountsInv d → recorded (s_committed s') actor_id (idempotency_key_hash key)
                        (operation_type op) fp r) →
     safe I s' → Q (Ok (r, false)) s') →
  (∀ e s', safe I s' → Q (Raise e) s') →
  wp (run_operation op actor_id key) Q s.
Proof.
  intros Hst HS HQ HR.
  destruct op as [payload|user_id payload|user_id payload]; simpl.
  - unfold create_user. wp_step. apply wp_request_fingerprint; [|intros; by eapply HR, St_safe].
    intros fp Hfp. eapply wp_with_replay; [done|done| | |done].
    + intros Q' c' L' t' s' Hst' HOk HRaise. unfold validate_new_password. wp_step.
      wp_step; [by eapply HRaise, St_safe|]. eapply wp_hash_password; [done| |done].
      intros h s2 Hst2. by eapply HOk.
    + intros a c' d' L' t' s' Hf Hst'. eapply wp_apply_create; [done|done| |done].
      intros r s2 Hrec Hs2. eapply (HQ r fp c'); [done|by eapply st_inv|done|done].
  - unfold update_user_access. wp_step. apply wp_request_fingerprint; [|intros; by eapply HR, St_safe].
    intros fp Hfp. eapply wp_with_replay; [done|done| | |done].
    + intros Q' c' L' t' s' Hst' HOk HRaise. wp_step. by eapply HOk.
    + intros a c' d' L' t' s' Hf Hst'. eapply wp_apply_update; [done|done| |done].
      intros r s2 Hrec Hs2. eapply (HQ r fp c'); [done|by eapply st_inv|done|done].
  - unfold reset_user_password. wp_step. apply wp_request_fingerprint; [|intros; by eapply HR, St_safe].
    intros fp Hfp. eapply wp_with_replay; [done|done| | |done].
    + intros Q' c' L' t' s' Hst' HOk HRaise. unfold validate_new_password. wp_step. wp_step. wp_step.
      wp_step. wp_step; [|by eapply HRaise, St_safe]. wp_step.
      wp_step; [by eapply HRaise, St_safe|]. wp_step. wp_step. eapply wp_hash_password; [done| |done].
      intros h s2 Hst2. by eapply HOk.
    + intros a c' d' L' t' s' Hf Hst'. eapply wp_apply_reset; [done|done| |done].
      intros r s2 Hrec Hs2. eapply (HQ r fp c'); [done|by eapply st_inv|done|done].
Qed.

Lemma run_operation_preserves op actor_id key : preserves I (run_operation op actor_id key).
Proof. start_handler. eapply wp_operation; [done|done| |done]. intros. done. Qed.

(** ** Sign-in *)

Lemma wp_verify_password password hash (Q : result bool → Session → Prop) s :
  (∀ b, (∀ s', verify_password password hash s' = (Ok b, s')) → Q (Ok b) s) →
  (∀ e, Q (Raise e) s) → wp (verify_password password hash) Q s.
Proof using Type.
  intros HQ HR. unfold wp. destruct (verify_password password hash s) as [r s1] eqn:Hrun.
  assert (s1 = s ∧ ∀ s', verify_password password hash s' = (r, s')) as [-> Hall].
  { revert Hrun. unfold verify_password. destruct (argon2_verify _ _), (_ && _); by intros [= <- <-]. }
  destruct r; [by apply HQ|by apply HR].
Qed.

Lemma login_preserves payload : preserves I (login settings payload).
Proof.
  start_handler. unfold login, login_failed, issue_access_token. wp_step. wp_step. wp_step. wp_step. wp_step.
  apply wp_verify_password; [|intros; by eapply St_safe]. intros ok _.
  wp_steps; try by eapply St_safe.
  all: eapply wp_commit; [done|intros; by eapply St_safe| |].
  all: try (intros _; eapply (stable_accounts I); [by eapply st_inv|done|by apply accounts_step_same]).
  all: intros; wp_steps; by eapply St_safe.
Qed.

Lemma logout_preserves auth : preserves I (logout auth).
Proof.
  start_handler. unfold logout. do 6 wp_step. wp_step. eapply wp_commit; [done| | |].
  - intros. unfold on_db_error. case_decide; [|by eapply St_safe].
    eapply wp_rollback; [done|]. intros. by eapply St_safe.
  - intros Hd. match goal with Hc : _ = None → _ |- _ => destruct (Hc Hd) as [_ Hconflict] end.
    eapply (stable_accounts I); [by eapply st_inv|done|].
    eapply accounts_step_ext; [|by apply accounts_step_revoked]. reflexivity.
  - intros. by eapply St_safe.
Qed.

Lemma list_users_preserves email role active offset limit :
  preserves I (list_users email role active offset limit).
Proof using Type. start_handler. unfold list_users. wp_steps; by eapply St_safe. Qed.

Lemma get_user_preserves user_id : preserves I (get_user user_id).
Proof using Type. start_handler. unfold get_user. wp_steps; by eapply St_safe. Qed.

(** The claims a token decodes to at time [now]. *)
Definition decodes (token : string) (now : Z) (claims : AccessTokenClaims) : Prop :=
  ∃ p issued_at expires_at,
    jwt_decode token (jwt_secret settings) (jwt_audience settings) (jwt_issuer settings)
      (seconds (jwt_leeway_seconds settings)) now = Some p ∧
    payload_claims p = Some (tc_subject claims, tc_jti claims, issued_at, expires_at,
                             tc_access_token_version claims).

Lemma wp_decode_access_token token (Q : result (option AccessTokenClaims) → Session → Prop)
    c d b dm L t i s :
  St I c d b dm L t i s →
  (∀ t' s', St I c d b dm L t' i s' → Q (Ok None) s') →
  (∀ claims t' s', decodes token t claims → St I c d b dm L t' i s' → Q (Ok (Some claims)) s') →
  (∀ e s', safe I s' → Q (Raise e) s') →
  wp (decode_access_token settings token) Q s.
Proof using Type.
  intros Hst HN HQ HR. unfold decode_access_token. wp_step. wp_step. wp_simpl.
  destruct (jwt_decode _ _ _ _ _ _) as [p|] eqn:Hp; simpl; [|wp_step; by eapply HN].
  destruct (payload_claims p) as [[[[[subject jti] iat] exp_] version]|] eqn:Hc;
    [|wp_step; by eapply HN].
  wp_steps; try by eapply HR, St_safe. eapply HQ; [|done]. by exists p, iat, exp_.
Qed.

(** A request that was authenticated on the database [c]: the token decodes, it was not
    revoked, and its claims hold of the account. *)
Record authenticated (c c' : DB) (bearer : option (string * string)) (auth : UserAuthContext)
    : Prop := mkAuthenticated {
  an_token : ∃ token now, bearer = Some ("bearer", token) ∧ decodes token now (au_claims auth);
  an_revoked : revoked_tokens c !! tc_jti (au_claims auth) = None;
  an_user : users c' !! tc_subject (au_claims auth) = Some (au_user auth);
  an_claims : claims_hold (au_claims auth) (au_user auth) = true }.

Lemma wp_require_user_auth bearer (Q : result UserAuthContext → Session → Prop) c L t i s :
  St I c c false None L t i s →
  (∀ auth c' t' s', authenticated c c' bearer auth → evolves c c' →
     St I c' c' false None L t' i s' → Q (Ok auth) s') →
  (∀ e s', safe I s' → Q (Raise e) s') →
  wp (require_user_auth settings bearer) Q s.
Proof using Type.
  intros Hst HQ HR. unfold require_user_auth.
  destruct bearer as [[scheme credentials]|]; [|wp_step; by eapply HR, St_safe].
  wp_step; [wp_step; by eapply HR, St_safe|]. wp_step. unfold unauthorized.
  eapply wp_decode_access_token; [done| | |done].
  { intros. wp_simpl. wp_step. by eapply HR, St_safe. }
  intros claims t1 s1 Hdec Hst1. wp_simpl. wp_steps; try by eapply HR, St_safe. bools.
  match goal with Ha : agree _ _ _ |- _ => destruct Ha as [_ Hev] end.
  eapply HQ; [|exact Hev|done]. split; try done. exists credentials, t. by subst.
Qed.

(** ** The first administrator *)

(** A working database that is an accounts step away from the committed one. *)
Definition ahead (c d : DB) : Prop := work_of d = work_of c ∧ accounts_step c d.

Lemma ahead_refl c : ahead c c.
Proof using Type. split; [done|reflexivity]. Qed.

Lemma ahead_trans c d d' : ahead c d → work_of d' = work_of d → accounts_step d d' → ahead c d'.
Proof using Type. intros [W S] W' S'. split; [congruence|by etrans]. Qed.

Lemma wp_initial_bootstrap (Q : result (option AdminBootstrapState) → Session → Prop) c L t i s :
  St I c c false None L t i s →
  (∀ r c' d' b' L' s', ahead c' d' → St I c' d' b' None L' t i s' → (b' = false → d' = c') →
     Q (Ok r) s') →
  (∀ e s', safe I s' → Q (Raise e) s') →
  wp initial_bootstrap_state Q s.
Proof using Type.
  intros Hst HQ HR. unfold initial_bootstrap_state. wp_step. wp_step.
  destruct (bootstrap_state c) as [state|] eqn:Hb.
  { wp_step. eapply HQ; [apply ahead_refl|exact Hst|done]. }
  wp_step. wp_step. wp_step. wp_step. wp_step. wp_step. wp_step.
  - unfold on_db_error. case_decide; [|by eapply HR, St_safe].
    eapply wp_rollback; [done|]. intros c2 s2 Hst2. wp_simpl. wp_step. wp_step. wp_step.
    eapply HQ; [apply ahead_refl|done|done].
  - match goal with Hd : ?dm = None, Hc : ?dm = None → _ |- _ =>
      destruct (Hc Hd) as [_ Hnone]; subst dm end.
    wp_step. eapply wp_interleave_any; [done|]. intros c2 d2 s2 [(_ & -> & ->)|[? _]] Hst2; [|done].
    wp_simpl. wp_step. eapply HQ; [|exact Hst2|done]. split; [done|].
    apply accounts_step_bootstrap; [|done]. bools.
    match goal with Hn : bootstrap_state _ = None |- _ => by rewrite Hn end.
Qed.

Lemma wp_lock_bootstrap (Q : result AdminBootstrapState → Session → Prop) c L t i s :
  St I c c false None L t i s →
  (∀ state c' d' L' s', ahead c' d' → bootstrap_state d' = Some state →
     St I c' d' true None L' t i s' → Q (Ok state) s') →
  (∀ e s', safe I s' → Q (Raise e) s') →
  wp lock_bootstrap_state Q s.
Proof using Type.
  intros Hst HQ HR. unfold lock_bootstrap_state, bootstrap_error. wp_step.
  eapply wp_initial_bootstrap; [done| |done]. intros r c1 d1 b1 L1 s1 Hah Hst1 Hclean. wp_simpl.
  wp_step; [|wp_step; by eapply HR, St_safe]. wp_step.
  eapply wp_lock_row_any; [done|]. intros c2 d2 s2 Hcase Hst2.
  assert (ahead c2 d2) as Hah2.
  { destruct Hcase as [(_ & -> & ->)|(-> & -> & _)]; [done|apply ahead_refl]. }
  wp_simpl. destruct (bootstrap_state d2) as [state|] eqn:Hb; [|wp_step; by eapply HR, St_safe].
  wp_step. wp_step. wp_step. eapply (HQ _ c2 (put_bootstrap (next_lock state) d2)); [|done|done].
  eapply ahead_trans; [done|done|by apply accounts_step_fence].
Qed.

(** Closing the bootstrap on an existing account. *)
Lemma accounts_step_close d d' state id now :
  accounts_of d' = accounts_of d → bootstrap_state d = Some state →
  bs_admin_user_id state = None → is_Some (users d !! id) →
  accounts_step d (put_bootstrap (closed_state state id now) d').
Proof using Type.
  intros Heq Hs Hnone Hid. etrans; [by apply (accounts_step_same d d')|].
  injection Heq as Eu _ _ Eb. apply accounts_step_bootstrap.
  - rewrite Eb, Hs. simpl. split; [done|]. rewrite Hnone. by intros [].
  - intros id' [= <-]. by rewrite Eu.
Qed.

Lemma first_user_row d user : first_user d = Some user → ∃ k, users d !! k = Some user.
Proof using Type.
  unfold first_user. intros Hin%head_Some_elem_of. apply elem_of_order_by in Hin.
  unfold rows in Hin. apply list_elem_of_fmap in Hin as ([k u] & -> & Hu). exists k.
  by apply elem_of_map_to_list.
Qed.

Lemma ensure_admin_user_preserves email password : preserves I (ensure_admin_user email password).
Proof.
  start_handler. unfold ensure_admin_user, bootstrap_error, bootstrap_audit, close_bootstrap.
  wp_step; [|wp_step; by eapply St_safe]. wp_step; [wp_step; by eapply St_safe|]. wp_step.
  eapply wp_hash_password; [done| |done]. intros encoded s1 Hst1. wp_simpl. wp_step.
  eapply wp_lock_bootstrap; [done| |done]. intros state c2 d2 L2 s2 Hah Hstate Hst2. wp_simpl.
  pose proof (st_inv _ _ _ _ _ _ _ _ _ Hst2) as HI.
  destruct (bs_admin_user_id state) as [admin_id|] eqn:Hadmin.
  - wp_steps; try by eapply St_safe.
    eapply wp_commit; [done|intros; by eapply St_safe| |].
    + intros _. destruct Hah as [Hw Hs]. eapply (stable_accounts I); [exact HI|exact Hw|].
      by apply (accounts_step_ext c2 d2).
    + intros. wp_steps. by eapply St_safe.
  - wp_step. wp_step. destruct (first_user d2) as [user|] eqn:Hfirst.
    + wp_steps; try by eapply St_safe.
      eapply wp_commit; [done|intros; by eapply St_safe| |].
      * intros _. destruct Hah as [Hw Hs]. eapply (stable_accounts I); [exact HI|exact Hw|].
        intros Hc. assert (AccountsInv d2) as Hd by by apply Hs.
        eapply (transitivity (R := accounts_step)); [exact Hs| |exact Hc].
        eapply accounts_step_close; [reflexivity|done|done|].
        destruct (first_user_row _ _ Hfirst) as [k Hk]. simpl.
        rewrite <-(ai_key _ Hd _ _ Hk) in Hk. by eexists.
      * intros. wp_steps. by eapply St_safe.
    + wp_steps; try by eapply St_safe.
      all: try (unfold on_db_error; case_decide; [|by eapply St_safe]; wp_steps; by eapply St_safe).
      match goal with Hd : ?dm = None, Hc : ?dm = None → _ |- _ =>
        destruct (Hc Hd) as [_ Hconflict]; subst dm end.
      eapply wp_commit; [done|intros; by eapply St_safe| |].
      * intros _. destruct Hah as [Hw Hs]. eapply (stable_accounts I); [exact HI|exact Hw|].
        etrans; [exact Hs|]. etrans; [apply accounts_step_new; [exact Hconflict|]|].
        { split_and!; [done|simpl; lia..]. }
        eapply accounts_step_close; [reflexivity|done|done|].
        simpl. rewrite lookup_insert_eq. by eexists.
      * intros. wp_steps; by eapply St_safe.
Qed.

End handlers.
