(* ===== verification/AccountsProperties.v ===== *)
(** * What accounts promise

    Idempotent lifecycle requests, sign-in, and the life of a token: when it is accepted,
    and its end by logout.  That a change of what its account may do ends it is a theorem on
    runs of the system ([System]). *)

From S2P Require Import Prelude Sha256 Json DateTime PyText Settings Ledger Evolution Session Wp.
From S2P Require Import LedgerInvariant Accounts UserAdmin AccountsCorrect Fixtures.

(** Documented behaviour of PyJWT: a token carries its payload, whenever it is decoded; the
    payload of an issued token is read back while it is neither expired nor from the future. *)
Record JwtLaws `{JwtLibrary} (settings : Settings) : Prop := mkJwtLaws {
  jwt_same : ∀ token secret audience issuer leeway now now' p p',
    jwt_decode token secret audience issuer leeway now = Some p →
    jwt_decode token secret audience issuer leeway now' = Some p' → p = p';
  jwt_round : ∀ claims secret leeway now,
    tc_issued_at claims / 1000000 * 1000000 <= now + leeway →
    now - leeway < tc_expires_at claims / 1000000 * 1000000 →
    jwt_decode (jwt_encode (token_payload settings claims) secret) secret (jwt_audience settings)
      (jwt_issuer settings) leeway now = Some (token_payload settings claims) }.

(** ** Sessions that start on a database *)

Lemma fresh_from s : fresh_session Inv s → fresh_session (Inv_from (s_committed s)) s.
Proof.
  intros [[HI [Henv _]] Hs]. split; [|done]. split; [by split|].
  split; [|by destruct Hs as (_ & _ & _ & ->)].
  eapply Forall_impl; [exact Henv|]. intros f [Hl Hf]. split; [done|]. intros L d [Hd Hev].
  destruct (Hf L d Hd) as [Hd' Hev']. split; [|done]. split; [done|by etrans].
Qed.

Lemma evolves_users c d k u :
  evolves c d → AccountsInv c → users c !! k = Some u →
  ∃ u', users d !! k = Some u' ∧ user_evolves u u'.
Proof.
  intros Hev HI Hu. destruct (ev_accounts _ _ Hev HI) as [_ HU _ _ _ _].
  by apply (table_step_lookup _ _ _ _ _ _ HU).
Qed.

(** The first interleaving point of a fresh session. *)
Lemma interleave_fresh s : fresh_session Inv s →
  let s' := (interleave s).2 in
  (interleave s).1 = Ok () ∧ s_working s' = s_committed s' ∧ s_clock s' = s_clock s ∧
  Inv (s_committed s') ∧ evolves (s_committed s) (s_committed s').
Proof.
  intros [[HI [Henv _]] (Hw & Hd & Hdm)]. unfold interleave. rewrite Hd.
  destruct (s_env s) as [|f rest] eqn:Hf; simpl; [by split_and!|].
  apply Forall_cons in Henv as [[_ Hfs] _].
  destruct (Hfs (s_locks s) _ HI). by split_and!.
Qed.

(** Nothing happens to a session while no others commit. *)
Lemma moment_alone s n : s_env s = [] → moment s n = s_committed s.
Proof.
  intros Henv. unfold moment. replace (later n s) with s; [done|].
  induction n as [|n IH]; [done|]. unfold later. simpl. fold (later n s). rewrite <-IH.
  unfold interleave. rewrite Henv. by destruct (s_dirty s).
Qed.

Section properties.
  Context `{UnicodeTables} `{PasswordHasher} `{JwtLibrary} `{Platform}.
  Variable settings : Settings.

(** ** Replays *)

Definition fingerprint_is (op : user_operation) (fp : string) : Prop :=
  ∀ s, operation_fingerprint settings op s = (Ok fp, s).

Lemma operation_fingerprint_is op fp s s' :
  operation_fingerprint settings op s = (Ok fp, s') → fingerprint_is op fp.
Proof.
  unfold fingerprint_is, operation_fingerprint.
  destruct op; unfold request_fingerprint; destruct (json_dumps _); intros [= <- <-]; done.
Qed.

(** The answer to a request whose key is already in the ledger. *)
Definition replay_answer (op : user_operation) (fp : string) (o : AdminUserOperation)
    : result (AdminUserRead * bool) :=
  if ⌊ op_operation_type o = operation_type op ⌋ && ⌊ op_request_fingerprint o = fp ⌋
  then Ok (op_response o, true) else Raise (HTTPException 409 IDEMPOTENCY_CONFLICT).

Lemma replay_path op actor_id key s o fp :
  fingerprint_is op fp → s_working s = s_committed s →
  (interleave s).1 = Ok () → s_working (interleave s).2 = s_committed (interleave s).2 →
  admin_operations (s_committed (interleave s).2) !! (actor_id, idempotency_key_hash key) = Some o →
  run_operation settings op actor_id key s = (replay_answer op fp o, (interleave s).2).
Proof.
  intros Hfp Hw Hok Hw' Ho. unfold fingerprint_is in Hfp.
  assert (∀ A (prepare : M A) (apply : A → M AdminUserRead) s0, interleave s0 = interleave s →
    with_replay actor_id (idempotency_key_hash key) (operation_type op) fp prepare apply s0 =
    (replay_answer op fp o, (interleave s).2)) as Hreplay.
  { intros A prepare apply s0 Hs0. unfold with_replay, replay_or_none, replay_answer.
    unfold mbind, M_bind. rewrite Hs0. destruct (interleave s) as [r s1]. simpl in *. subst r.
    unfold ask. rewrite Hw', Ho. unfold reject_if, when.
    destruct ⌊op_operation_type o = operation_type op⌋, ⌊op_request_fingerprint o = fp⌋; done. }
  destruct op; simpl in Hfp |- *;
    unfold create_user, update_user_access, reset_user_password, mbind at 1, M_bind at 1;
    rewrite Hfp; by apply Hreplay.
Qed.

(** C18: a lifecycle request of an administrator (create an account, change its access,
    reset its password) takes effect once per idempotency key. When it has been answered,
    the same request - whatever has happened since, and whatever is interleaved - is
    answered by the recorded response and commits nothing of its own, and a different
    request under that key is refused with 409, also without effect. *)
Theorem lifecycle_request_is_idempotent op actor_id key s r d s2 :
  fresh_session Inv s → AccountsInv (s_committed s) →
  outcome (run_operation settings op actor_id key) s = Ok (r, false) →
  evolves (after (run_operation settings op actor_id key) s) d →
  fresh_session Inv s2 → s_committed s2 = d →
  ∃ fp, fingerprint_is op fp ∧
    outcome (run_operation settings op actor_id key) s2 = Ok (r, true) ∧
    ∀ op' fp', fingerprint_is op' fp' →
      after (run_operation settings op' actor_id key) s2 = after interleave s2 ∧
      (operation_type op' ≠ operation_type op ∨ fp' ≠ fp →
       outcome (run_operation settings op' actor_id key) s2 =
         Raise (HTTPException 409 IDEMPOTENCY_CONFLICT)).
Proof.
  intros Hs HA Hout Hev Hs2 Hd.
  pose proof (fresh_St _ _ (fresh_from _ Hs)) as Hst.
  assert (∃ fp, fingerprint_is op fp ∧ AccountsInv (after (run_operation settings op actor_id key) s) ∧
    recorded (after (run_operation settings op actor_id key) s) actor_id
      (idempotency_key_hash key) (operation_type op) fp r) as (fp & Hfp & HAd & Hrec).
  { assert (wp (run_operation settings op actor_id key)
      (λ res s', ∀ x, res = Ok (x, false) → ∃ fp, fingerprint_is op fp ∧
         AccountsInv (s_committed s') ∧ recorded (s_committed s') actor_id
           (idempotency_key_hash key) (operation_type op) fp x) s) as Hwp.
    { eapply (wp_operation settings (Inv_from (s_committed s))); [exact Hst|intros; discriminate| |intros; discriminate].
      intros x fp d0 s' Hfp Hd0 Hrec Hs' y [= <-]. exists fp.
      split; [by eapply operation_fingerprint_is|].
      destruct Hd0 as [_ Hev0]. destruct Hs' as [[_ Hev'] _].
      assert (AccountsInv d0) as HA0 by by apply (ev_accounts _ _ Hev0).
      split; [by apply (ev_accounts _ _ Hev')|by apply Hrec]. }
    unfold wp in Hwp. by apply Hwp. }
  destruct (interleave_fresh _ Hs2) as (Hok & Hw & _ & _ & Hev2).
  assert (admin_operations (s_committed (interleave s2).2) !! (actor_id, idempotency_key_hash key) =
    Some (mkAdminUserOperation actor_id (idempotency_key_hash key) fp (operation_type op)
            (ur_id r) r)) as Ho.
  { assert (evolves (after (run_operation settings op actor_id key) s)
              (s_committed (interleave s2).2)) as Hev3 by (subst d; by etrans).
    destruct (ev_accounts _ _ Hev3 HAd) as [_ _ Hops _ _ _].
    exact (lookup_weaken _ _ _ _ (rec_operation _ _ _ _ _ _ Hrec) Hops). }
  assert (s_working s2 = s_committed s2) as Hw2 by apply Hs2.
  exists fp. split; [done|]. split.
  - unfold outcome. rewrite (replay_path op actor_id key s2 _ fp Hfp Hw2 Hok Hw Ho). simpl.
    unfold replay_answer. simpl. by rewrite !bool_decide_eq_true_2.
  - intros op' fp' Hfp'. unfold outcome, after.
    rewrite (replay_path op' actor_id key s2 _ fp' Hfp' Hw2 Hok Hw Ho). split; [done|].
    simpl. unfold replay_answer. simpl. intros Hne.
    destruct ⌊operation_type op = operation_type op'⌋ eqn:E1, ⌊fp = fp'⌋ eqn:E2; try done.
    bools. subst. by destruct Hne.
Qed.

End properties.

(** ** Access tokens *)

Section tokens.
  Context `{UnicodeTables} `{PasswordHasher} `{JwtLibrary} `{Platform}.
  Variable settings : Settings.
  Hypothesis jwt : JwtLaws settings.
  #[local] Set Default Proof Using "jwt".

Lemma auth_outcome I bearer s auth :
  fresh_session I s → outcome (require_user_auth settings bearer) s = Ok auth →
  authenticated settings (s_committed s) (after (require_user_auth settings bearer) s) bearer auth ∧
  evolves (s_committed s) (after (require_user_auth settings bearer) s).
Proof using Type.
  intros Hs Hout. pose proof (fresh_St _ _ Hs) as Hst.
  assert (wp (require_user_auth settings bearer) (λ r s', ∀ a, r = Ok a →
    authenticated settings (s_committed s) (s_committed s') bearer a ∧
    evolves (s_committed s) (s_committed s')) s) as Hwp.
  { eapply (wp_require_user_auth settings I);
      [exact Hst| |intros; discriminate].
    intros a c' t' s' Ha Hev Hst' a' [= <-].
    by rewrite (st_committed _ _ _ _ _ _ _ _ _ Hst'). }
  unfold wp in Hwp. by apply Hwp.
Qed.

Lemma auth_after I bearer s auth :
  fresh_session I s → outcome (require_user_auth settings bearer) s = Ok auth →
  I (after (require_user_auth settings bearer) s).
Proof using Type.
  intros Hs Hout. pose proof (fresh_St _ _ Hs) as Hst.
  assert (wp (require_user_auth settings bearer) (λ r s', ∀ a, r = Ok a → I (s_committed s')) s) as Hwp.
  { eapply (wp_require_user_auth settings I); [exact Hst| |intros; discriminate].
    intros a c' t' s' _ _ Hst' a' _. rewrite (st_committed _ _ _ _ _ _ _ _ _ Hst').
    by eapply st_inv. }
  unfold wp in Hwp. by eapply Hwp.
Qed.

(** Two decodings of a token agree on its account, its identifier and its version. *)
Lemma decodes_same token now now' c c' :
  decodes settings token now c → decodes settings token now' c' →
  tc_subject c = tc_subject c' ∧ tc_jti c = tc_jti c' ∧
  tc_access_token_version c = tc_access_token_version c'.
Proof.
  intros (p & ? & ? & Hp & Hc) (p' & ? & ? & Hp' & Hc').
  assert (p = p') as <- by by eapply (jwt_same _ jwt). simplify_eq. by split_and!.
Qed.

(** A token that is accepted twice, the second time on a later database. *)
Lemma accepted_twice I bearer s auth d s2 auth2 :
  fresh_session I s → AccountsInv (s_committed s) →
  outcome (require_user_auth settings bearer) s = Ok auth →
  evolves (after (require_user_auth settings bearer) s) d →
  fresh_session I s2 → s_committed s2 = d →
  outcome (require_user_auth settings bearer) s2 = Ok auth2 →
  revoked_tokens d !! tc_jti (au_claims auth) = None ∧
  ∃ user, users d !! tc_subject (au_claims auth) = Some user ∧
    user_evolves (au_user auth) user ∧
    u_access_token_version user = u_access_token_version (au_user auth) ∧
    authority user = authority (au_user auth).
Proof.
  intros Hs HA Hout Hev Hs2 Hd Hout2.
  destruct (auth_outcome _ _ _ _ Hs Hout) as [[(token & now & -> & Hdec) _ Hu Hclaims] Hev1].
  destruct (auth_outcome _ _ _ _ Hs2 Hout2) as [[(token2 & now2 & [= <-] & Hdec2) Hr2 Hu2 Hclaims2] Hev2].
  destruct (decodes_same _ _ _ _ _ Hdec Hdec2) as (Esub & Ejti & Ever).
  rewrite Hd in Hr2, Hev2. rewrite Ejti. split; [done|].
  assert (AccountsInv (after (require_user_auth settings (Some ("bearer", token))) s)) as HA1
    by by apply (ev_accounts _ _ Hev1).
  assert (AccountsInv d) as HAd by by apply (ev_accounts _ _ Hev).
  destruct (evolves_users _ _ _ _ Hev HA1 Hu) as (u & Hud & Hue).
  destruct (evolves_users _ _ _ _ Hev2 HAd Hud) as (u2 & Hu2' & Hue2).
  rewrite Esub in Hu2'. assert (u2 = au_user auth2) as -> by congruence.
  unfold claims_hold in *. bools. exists u. split_and!; [done|done|..].
  - destruct Hue as [->|[_ _ T1 _]]; [done|]. destruct Hue2 as [Heq|[_ _ T2 _]]; [|lia].
    rewrite Heq in *. lia.
  - destruct Hue as [->|[_ _ T1 [A1|A1]]]; [done|done|].
    destruct Hue2 as [Heq|[_ _ T2 _]]; [|lia]. rewrite Heq in *. lia.
Qed.

(** *** Logout *)

(** [POST /auth/logout] *)
Definition sign_out (bearer : option (string * string)) : M () :=
  auth ← require_user_auth settings bearer; logout auth.

Lemma sign_out_preserves I `{!Stable I} bearer : preserves I (sign_out bearer).
Proof using Type.
  start_handler. unfold sign_out. wp_step.
  eapply (wp_require_user_auth settings I); [done| |done].
  intros auth c t s1 _ _ Hst1. apply (logout_preserves I auth).
  split; [by eapply St_safe|]. destruct Hst1. by split_and!; [congruence|..].
Qed.

Lemma keeps_outcomes_auth bearer : keeps_field s_outcomes (require_user_auth settings bearer).
Proof using Type.
  unfold require_user_auth, decode_access_token, unauthorized.
  repeat (apply keeps_field_bind || apply keeps_outcomes_interleave || case_match || intros ?);
    done.
Qed.

(** No integrity error other than the one a written row causes. *)
Definition no_spurious_conflict (s : Session) : Prop := Some IntegrityError ∉ s_outcomes s.

Lemma sign_out_revokes bearer s :
  fresh_session Inv s → AccountsInv (s_committed s) → no_spurious_conflict s →
  wp (sign_out bearer) (λ r s', r = Ok () → ∃ token now claims, bearer = Some ("bearer", token) ∧
    decodes settings token now claims ∧ AccountsInv (s_committed s') ∧
    is_Some (revoked_tokens (s_committed s') !! tc_jti claims)) s.
Proof using Type.
  intros Hs HA Hno. pose proof (fresh_St _ _ (fresh_from _ Hs)) as Hst.
  assert (∀ d, Inv_from (s_committed s) d → AccountsInv d) as Hacc.
  { intros d [_ Hev]. by apply (ev_accounts _ _ Hev). }
  unfold sign_out. apply wp_bind, (wp_keep_field s_outcomes); [apply keeps_outcomes_auth|].
  eapply wp_require_user_auth; [exact Hst| |intros; discriminate].
  intros auth c1 t1 s1 [(token & now & -> & Hdec) _ Huser _] _ Hst1 Ho1.
  unfold logout. apply wp_bind, (wp_keep_field s_outcomes); [apply keeps_outcomes_interleave|].
  eapply wp_interleave; [done|]. intros c2 s2 [_ Hev2] Hst2 Ho2.
  apply wp_bind, (wp_keep_field s_outcomes); [apply keeps_outcomes_add_unique|].
  eapply wp_add_unique_exact; [done|]. intros s3 Hst3 Ho3. wp_simpl.
  apply wp_bind, (wp_keep_field s_outcomes); [done|]. eapply wp_write; [done|]. intros s4 Hst4 Ho4. wp_simpl.
  apply wp_catch. unfold commit. apply wp_bind.
  assert (no_spurious_conflict s4) as Hno4 by (unfold no_spurious_conflict; congruence).
  eapply wp_pop_outcome_in; [done| |].
  { intros e s' He. unfold on_db_error. case_decide as Hin; [|done].
    apply list_elem_of_singleton in Hin as ->. done. }
  intros s5 Hst5. wp_simpl. unfold wp, publish. rewrite (st_doomed _ _ _ _ _ _ _ _ _ Hst5).
  pose proof (Hacc _ (st_inv _ _ _ _ _ _ _ _ _ Hst1)) as HA1.
  pose proof (Hacc _ (st_inv _ _ _ _ _ _ _ _ _ Hst2)) as HA2.
  assert (u_id (au_user auth) = tc_subject (au_claims auth)) as Hid by exact (ai_key _ HA1 _ _ Huser).
  destruct (evolves_users _ _ _ _ Hev2 HA1 Huser) as (u2 & Hu2 & _).
  destruct (revocation_conflict _ c2) eqn:Hconflict.
  - simpl.
    assert (is_Some (revoked_tokens c2 !! tc_jti (au_claims auth))) as [x Hx].
    { unfold revocation_conflict in Hconflict. simpl in Hconflict. rewrite Hid, Hu2 in Hconflict.
      destruct (revoked_tokens c2 !! _); [by eexists|done]. }
    eapply wp_rollback_agree; [done|]. intros c6 s6 [_ Hev6] Hst6 _.
    exists token, now, (au_claims auth). rewrite (st_committed _ _ _ _ _ _ _ _ _ Hst6).
    split_and!; [done|done|by apply (ev_accounts _ _ Hev6)|].
    destruct (ev_accounts _ _ Hev6 HA2) as [_ _ _ Hrev _ _]. exists x. by eapply lookup_weaken.
  - intros _. exists token, now, (au_claims auth). simpl.
    rewrite (st_working _ _ _ _ _ _ _ _ _ Hst5).
    split_and!; [done|done| |].
    + eapply AccountsInv_ext; [|by eapply (accounts_step_revoked c2)]. reflexivity.
    + simpl. rewrite lookup_insert_eq. by eexists.
Qed.

(** C33: logout ends a token for good. A sign-out that is answered has revoked the token's
    identifier - also when a concurrent sign-out of the same token won the race for the
    row - and every later request with that token is refused. *)
Theorem logout_is_final bearer s d s2 :
  fresh_session Inv s → AccountsInv (s_committed s) → no_spurious_conflict s →
  outcome (sign_out bearer) s = Ok () →
  evolves (after (sign_out bearer) s) d →
  fresh_session Inv s2 → s_committed s2 = d →
  ∀ auth, outcome (require_user_auth settings bearer) s2 ≠ Ok auth.
Proof.
  intros Hs HA Hno Hout Hev Hs2 Hd auth Hout2.
  destruct (sign_out_revokes bearer s Hs HA Hno Hout)
    as (token & now & claims & -> & Hdec & HA1 & x & Hx).
  destruct (auth_outcome _ _ _ _ Hs2 Hout2) as [[(token2 & now2 & [= <-] & Hdec2) Hr2 _ _] _].
  destruct (decodes_same _ _ _ _ _ Hdec Hdec2) as (_ & Ejti & _).
  destruct (ev_accounts _ _ Hev HA1) as [_ _ _ Hrev _ _].
  assert (revoked_tokens d !! tc_jti claims = Some x) by by eapply lookup_weaken.
  rewrite Ejti in *. congruence.
Qed.

(** *** Login *)

(** What a login that is answered has issued to an account of [d]. *)
Record signed_in (d : DB) (payload : LoginRequest) (now : Z) (r : AccessTokenResponse)
    (user : User) (claims : AccessTokenClaims) : Prop := mkSignedIn {
  si_user : users d !! u_id user = Some user;
  si_email : u_email user = lq_email payload;
  si_enabled : u_disabled user = false;
  si_password : ∀ s, verify_password (lq_password payload) (Some (u_password_hash user)) s = (Ok true, s);
  si_claims : ∃ n, claims = mkAccessTokenClaims (u_id user) (uuid4 n) (now - now mod 1000000)
    (now - now mod 1000000 + seconds (jwt_access_ttl_seconds settings))
    (u_access_token_version user);
  si_token : at_access_token r = jwt_encode (token_payload settings claims) (jwt_secret settings);
  si_expires : at_expires_in r = jwt_access_ttl_seconds settings }.

Lemma wp_login_failed payload (Q : result AccessTokenResponse → Session → Prop) c L t i s :
  St Inv c c false None L t i s → (∀ e s', Q (Raise e) s') → wp (login_failed payload) Q s.
Proof using Type.
  intros Hst HQ. unfold login_failed. do 3 wp_step. eapply wp_commit; [done|by intros| |intros; by wp_steps].
  intros _. eapply (stable_accounts Inv); [by eapply st_inv|done|by apply accounts_step_same].
Qed.

Lemma login_outcome payload s r :
  fresh_session Inv s → AccountsInv (s_committed s) → outcome (login settings payload) s = Ok r →
  ∃ user claims, signed_in (s_committed s) payload (s_clock s) r user claims.
Proof using Type.
  intros Hs HA Hout. pose proof (fresh_St _ _ Hs) as Hst.
  assert (wp (login settings payload) (λ r' _, ∀ a, r' = Ok a → ∃ user claims,
    signed_in (s_committed s) payload (s_clock s) a user claims) s) as Hwp.
  2:{ unfold wp in Hwp. by apply Hwp. }
  unfold login. wp_step. wp_step. wp_step. wp_step. wp_step.
  apply wp_verify_password; [|done]. intros ok Hpassword.
  destruct (user_by_email _ _) as [user|] eqn:Hfound; [|by eapply wp_login_failed].
  wp_step; [by eapply wp_login_failed|].
  unfold issue_access_token, new_id. wp_steps; [done|]. eapply wp_commit; [done|done| |].
  { intros _. eapply (stable_accounts Inv); [by eapply st_inv|done|by apply accounts_step_same]. }
  intros s6 _ Hst6. wp_simpl. wp_step. intros a [= <-].
  apply find_row in Hfound as [Hemail [k Hrow]]. simpl in Hemail. bools.
  subst ok. exists user. eexists. split; try done; [by rewrite (ai_key _ HA _ _ Hrow)|by eexists].
Qed.

(** The checks of [payload_claims] pass on the payload of an issued token. *)
Lemma payload_claims_issued claims :
  is_uuid (tc_subject claims) = true → is_uuid (tc_jti claims) = true →
  1 <= tc_access_token_version claims →
  payload_claims (token_payload settings claims) =
    Some (tc_subject claims, tc_jti claims, tc_issued_at claims / 1000000,
          tc_expires_at claims / 1000000, tc_access_token_version claims).
Proof using Type.
  intros Hsub Hjti Hver. unfold payload_claims, token_payload, json_get.
  repeat first [rewrite lookup_insert_eq | rewrite lookup_insert_ne by done | progress simpl].
  rewrite Hsub, Hjti. by destruct (tc_access_token_version claims <? 1) eqn:E; [bools; lia|].
Qed.

Lemma from_timestamp_in_range n :
  0 <= n → n <= 253402300799 → from_timestamp n = Some (n * 1000000).
Proof using Type.
  intros Hlo Hhi. unfold from_timestamp.
  destruct (_ && _) eqn:E; [done|]. apply andb_false_iff in E as [E|E]; bools; lia.
Qed.

Lemma decode_issued token n user ver s :
  let ttl := seconds (jwt_access_ttl_seconds settings) in
  let leeway := seconds (jwt_leeway_seconds settings) in
  let issued := n - n mod 1000000 in
  ∀ jti, let claims := mkAccessTokenClaims user jti issued (issued + ttl) ver in
  token = jwt_encode (token_payload settings claims) (jwt_secret settings) →
  is_uuid user = true → is_uuid jti = true → 1 <= ver →
  0 <= n → 0 <= ttl → issued + ttl <= 253402300799 * 1000000 →
  0 <= leeway → n <= s_clock s → s_clock s < issued + ttl →
  decode_access_token settings token s = (Ok (Some claims), (utc_now s).2).
Proof.
  intros ttl leeway issued jti claims -> Huser Hjti Hver Hn Httl Hmax Hlee Hlo Hhi.
  unfold decode_access_token, utc_now, mbind, M_bind. simpl.
  assert (issued = n / 1000000 * 1000000) as Hiss.
  { unfold issued. rewrite (Z.mod_eq n 1000000) by lia. lia. }
  assert (0 <= n / 1000000) as Hq by (apply Z.div_pos; lia).
  assert (ttl = jwt_access_ttl_seconds settings * 1000000) as Ettl by done.
  assert (issued / 1000000 = n / 1000000) as Edi by (rewrite Hiss; apply Z.div_mul; lia).
  assert ((issued + ttl) / 1000000 = n / 1000000 + jwt_access_ttl_seconds settings) as Ede.
  { rewrite Hiss, Ettl, <-Z.mul_add_distr_r. apply Z.div_mul. lia. }
  rewrite (jwt_round _ jwt).
  2:{ simpl. rewrite Edi. fold leeway. pose proof (Z.mul_div_le n 1000000 ltac:(lia)). lia. }
  2:{ simpl. rewrite Ede. fold leeway. lia. }
  simpl. rewrite payload_claims_issued by done. simpl. rewrite Edi, Ede.
  rewrite !from_timestamp_in_range by lia.
  assert (n / 1000000 * 1000000 = issued ∧
    (n / 1000000 + jwt_access_ttl_seconds settings) * 1000000 = issued + ttl) as [-> ->] by lia.
  done.
Qed.

(** The answer to a token whose claims are known: it depends on the revocations at the
    first read and on the account at the second. *)
Lemma require_decoded token claims s :
  decode_access_token settings token s = (Ok (Some claims), (utc_now s).2) →
  s_working s = s_committed s → s_dirty s = false →
  outcome (require_user_auth settings (Some ("bearer", token))) s =
    match revoked_tokens (moment s 0) !! tc_jti claims, users (moment s 1) !! tc_subject claims with
    | None, Some user =>
        if claims_hold claims user then Ok (mkUserAuthContext user claims)
        else Raise (HTTPException 401 "invalid or expired access token")
    | _, _ => Raise (HTTPException 401 "invalid or expired access token")
    end.
Proof using Type.
  intros Hdec Hw Hd. unfold outcome, require_user_auth. simpl. unfold mbind, M_bind.
  rewrite Hdec. simpl. unfold ask. simpl. rewrite Hw. unfold moment, later. simpl.
  destruct (revoked_tokens (s_committed s) !! tc_jti claims); [done|]. simpl.
  unfold interleave. simpl. rewrite Hd.
  destruct (s_env s); simpl; rewrite ?Hw; destruct (users _ !! _); try done;
    by destruct (claims_hold _ _).
Qed.

(** C32: the token of a login authenticates the account it was issued for, as long as it
    may. When a login is answered, the account with its address was enabled when it was
    read, the password is the account's, and the token carries the claims issued for it. A
    request that bears the token before it expires - whatever has happened since, also
    while the login was checking the password - is accepted exactly when the token has not
    been revoked at its first read and the account, at its second read, is enabled and has
    the token version of the login; then it is served on behalf of that account. In every
    other case it is refused with 401. *)
Theorem login_token_authenticates payload s r :
  Settings_valid settings = true → (∀ n, is_uuid (uuid4 n) = true) →
  (∀ k u, users (s_committed s) !! k = Some u → is_uuid k = true) →
  fresh_session Inv s → AccountsInv (s_committed s) → 0 <= s_clock s →
  outcome (login settings payload) s = Ok r →
  let expiry := s_clock s - s_clock s mod 1000000 + seconds (at_expires_in r) in
  expiry <= 253402300799 * 1000000 →
  ∃ user claims, signed_in (s_committed s) payload (s_clock s) r user claims ∧
    tc_subject claims = u_id user ∧ tc_expires_at claims = expiry ∧
    ∀ s2, fresh_session Inv s2 → s_clock s <= s_clock s2 → s_clock s2 < expiry →
      let answer := outcome (require_user_auth settings (Some ("bearer", at_access_token r))) s2 in
      (∀ auth, answer = Ok auth ↔
         au_claims auth = claims ∧ revoked_tokens (moment s2 0) !! tc_jti claims = None ∧
         users (moment s2 1) !! u_id user = Some (au_user auth) ∧
         u_disabled (au_user auth) = false ∧
         u_access_token_version (au_user auth) = u_access_token_version user) ∧
      ((∃ auth, answer = Ok auth) ∨
       answer = Raise (HTTPException 401 "invalid or expired access token")).
Proof.
  intros Hvalid Huuid Hids Hs HA Hclock Hout expiry Hmax.
  destruct (login_outcome _ _ _ Hs HA Hout) as (user & claims & Hsigned).
  exists user, claims. split; [exact Hsigned|]. destruct Hsigned as [Hk _ _ _ (n & ->) Htok Hexp].
  unfold Settings_valid in Hvalid. bools. destruct (ai_versions _ HA _ _ Hk) as [_ Hver].
  unfold expiry in *. rewrite Hexp in *. do 2 (split; [done|]).
  intros s2 [_ (Hw & Hd & _)] Hlo Hhi.
  erewrite require_decoded; [|eapply decode_issued; try done|done|done].
  2: by eapply Hids.
  2, 3: unfold seconds; lia.
  unfold claims_hold. simpl. split.
  - intros auth. destruct (revoked_tokens (moment s2 0) !! _); [split; [done|by intros (_ & ? & _)]|].
    destruct (users (moment s2 1) !! u_id user) as [u|]; [|split; [done|by intros (_ & _ & ? & _)]].
    destruct (u_disabled u) eqn:Hdis; simpl;
      [split; [done|intros (_ & _ & ? & ? & _); congruence]|].
    destruct (Z.eqb_spec (u_access_token_version u) (u_access_token_version user)) as [Hv|Hv];
      [|split; [done|intros (_ & _ & ? & _ & ?); congruence]].
    split; [by intros [= <-]|]. destruct auth. simpl. intros (-> & _ & ? & _). by simplify_eq.
  - destruct (revoked_tokens (moment s2 0) !! _); [by right|]. destruct (users (moment s2 1) !! u_id user) as [u|]; [|by right].
    destruct (_ && _); [left; by eexists|by right].
Qed.
End tokens.

(** ** Witnesses *)

(** A token library that writes the fields of a payload one after the other, every
    character marked. *)
Fixpoint put_field (s rest : string) : string :=
  match s with
  | EmptyString => String (chr 46) rest
  | String c s' => String (chr 120) (String c (put_field s' rest))
  end.

Fixpoint get_field (s : string) : option (string * string) :=
  match s with
  | String mark s' =>
      if code mark =? 46 then Some ("", s')
      else match s' with
           | String c s'' => '(f, rest) ← get_field s''; Some (String c f, rest)
           | EmptyString => None
           end
  | EmptyString => None
  end.

Lemma get_put_field s rest : get_field (put_field s rest) = Some (s, rest).
Proof. induction s as [|c s IH]; [done|]. simpl. by rewrite IH. Qed.

(** The binary digits of a number, the lowest first, and its sign. *)
Fixpoint put_positive (p : positive) : string :=
  match p with
  | xH => ""
  | xO q => String (chr 48) (put_positive q)
  | xI q => String (chr 49) (put_positive q)
  end.
Fixpoint get_positive (s : string) : positive :=
  match s with
  | String c s' => if code c =? 49 then xI (get_positive s') else xO (get_positive s')
  | EmptyString => xH
  end.
Lemma get_put_positive p : get_positive (put_positive p) = p.
Proof. induction p; simpl; congruence. Qed.

Definition put_int (n : Z) : string :=
  match n with
  | Z0 => "" | Zpos p => String (chr 43) (put_positive p)
  | Zneg p => String (chr 45) (put_positive p)
  end.
Definition get_int (s : string) : Z :=
  match s with
  | String c s' => if code c =? 43 then Zpos (get_positive s') else Zneg (get_positive s')
  | EmptyString => 0
  end.
Lemma get_put_int n : get_int (put_int n) = n.
Proof. destruct n; simpl; rewrite ?get_put_positive; done. Qed.

Definition sample_jwt_encode (payload : list (string * json)) (secret : string) : string :=
  match payload with
  | [(_, JString sub); (_, JString jti); (_, JInt iat); (_, JInt exp_); (_, JString iss);
     (_, JString aud); (_, JInt ver)] =>
      put_field sub (put_field jti (put_field (put_int iat) (put_field (put_int exp_)
        (put_field iss (put_field aud (put_field (put_int ver) (put_field secret "")))))))
  | _ => ""
  end.

Definition sample_jwt_decode (token secret audience issuer : string) (leeway now : Z)
    : option (list (string * json)) :=
  '(sub, s) ← get_field token; '(jti, s) ← get_field s; '(iat, s) ← get_field s;
  '(exp_, s) ← get_field s; '(iss, s) ← get_field s; '(aud, s) ← get_field s;
  '(ver, s) ← get_field s; '(key, _) ← get_field s;
  if ⌊ key = secret ⌋ && ⌊ aud = audience ⌋ && ⌊ iss = issuer ⌋ &&
     (get_int iat * 1000000 <=? now + leeway) && (now - leeway <? get_int exp_ * 1000000)
  then Some [("sub", JString sub); ("jti", JString jti); ("iat", JInt (get_int iat));
             ("exp", JInt (get_int exp_)); ("iss", JString iss); ("aud", JString aud);
             ("ver", JInt (get_int ver))]
  else None.

#[local] Instance sample_jwt : JwtLibrary :=
  {| jwt_encode := sample_jwt_encode; jwt_decode := sample_jwt_decode |}.
#[local] Instance sample_tables : UnicodeTables :=
  {| uni_casefold w := w; uni_is_space _ := false; uni_decimal _ := None |}.
#[local] Instance sample_hasher : PasswordHasher :=
  {| argon2_hash _ password := "argon2:" +:+ password;
     argon2_verify password hash := Some ⌊ hash = "argon2:" +:+ password ⌋;
     dummy_salt := 0 |}.

Lemma sample_jwt_laws : JwtLaws sample_settings.
Proof.
  split.
  - intros token secret aud iss leeway now now' p p' Hp Hp'. simpl in *. unfold sample_jwt_decode in *.
    repeat match goal with
      | H : context [get_field ?x ≫= _] |- _ => destruct (get_field x) as [[? ?]|]; simpl in *; [|done]
      end.
    by destruct (_ && (_ <? _)), (_ && (_ <? _)); simplify_eq.
  - intros claims secret leeway now Hiat Hexp. simpl. unfold sample_jwt_decode, sample_jwt_encode.
    simpl. repeat (rewrite get_put_field; simpl). rewrite !get_put_int.
    rewrite !bool_decide_eq_true_2 by done. simpl.
    by rewrite (proj2 (Z.leb_le _ _) Hiat), (proj2 (Z.ltb_lt _ _) Hexp).
Qed.

(** Eight identifiers, in turn. *)
#[local] Instance uuid_platform : Platform :=
  {| uuid4 n := "00000000-0000-4000-8000-00000000000" +:+ String (chr (48 + Z.of_nat (n mod 8))) "";
     token_urlsafe n := "secret-" +:+ pretty (N.of_nat n) |}.

Lemma uuid_platform_ok n : is_uuid (uuid4 n) = true.
Proof.
  assert (∀ k, (k < 8)%nat → is_uuid ("00000000-0000-4000-8000-00000000000" +:+
    String (chr (48 + Z.of_nat k)) "") = true) as Hall.
  { intros k Hk. do 8 (destruct k as [|k]; [vm_compute; reflexivity|]). lia. }
  apply Hall, Nat.mod_upper_bound. lia.
Qed.

Lemma run_evolves {A} (m : M A) s d :
  (∀ I, Stable I → preserves I m) → fresh_session Inv s → after m s = d →
  Inv d ∧ evolves (s_committed s) d.
Proof.
  intros Hm Hs <-. destruct (Hm (Inv_from (s_committed s)) _ s (fresh_clean _ _ (fresh_from _ Hs))) as [[HI Hev] _].
  done.
Qed.

(** The bootstrap of an empty installation. *)
Definition admin_password : string := "correct first password".
Definition bootstrap_run : result (User * bool) * DB := Eval vm_compute in
  run_result (ensure_admin_user "Admin@Example.com" admin_password)
    (new_session empty_DB ten_minutes).
Definition admin_db : DB := bootstrap_run.2.
Definition admin_id : string := "00000000-0000-4000-8000-000000000001".

Lemma bootstrap_run_eq :
  run_result (ensure_admin_user "Admin@Example.com" admin_password)
    (new_session empty_DB ten_minutes) = bootstrap_run.
Proof. vm_compute. reflexivity. Qed.

Lemma empty_AccountsInv : AccountsInv empty_DB.
Proof. by split. Qed.

Lemma admin_db_ok : Inv admin_db ∧ AccountsInv admin_db.
Proof.
  destruct (run_evolves _ _ _ (λ I _, ensure_admin_user_preserves I "Admin@Example.com" admin_password)
    (new_session_fresh _ ten_minutes Inv_empty) (run_after _ _ _ bootstrap_run_eq)) as [HI Hev].
  split; [exact HI|]. apply (ev_accounts _ _ Hev empty_AccountsInv).
Qed.

Definition admin_session : Session := new_session admin_db ten_minutes.
Lemma admin_session_fresh : fresh_session Inv admin_session.
Proof. apply new_session_fresh, admin_db_ok. Qed.

(** The administrator resets the password of an account. *)
Definition reset_operation : user_operation :=
  OpReset admin_id (mkAdminUserPasswordReset 1 "another passphrase").
Definition reset_run : result (AdminUserRead * bool) * DB := Eval vm_compute in
  run_result (run_operation sample_settings reset_operation admin_id "key-1") admin_session.
Definition reset_db : DB := reset_run.2.

Lemma reset_run_eq :
  run_result (run_operation sample_settings reset_operation admin_id "key-1") admin_session =
    reset_run.
Proof. vm_cast_no_check (eq_refl reset_run). Qed.

Lemma reset_ok : ∃ r, outcome (run_operation sample_settings reset_operation admin_id "key-1")
  admin_session = Ok (r, false).
Proof. rewrite (run_outcome _ _ _ reset_run_eq). by eexists. Qed.

Lemma reset_db_ok : Inv reset_db ∧ evolves admin_db reset_db.
Proof.
  apply (run_evolves _ _ _ (λ I _, run_operation_preserves sample_settings I reset_operation admin_id "key-1")
    admin_session_fresh (run_after _ _ _ reset_run_eq)).
Qed.

Lemma lifecycle_request_is_idempotent_witness :
  ∃ r, outcome (run_operation sample_settings reset_operation admin_id "key-1")
         (new_session reset_db ten_minutes) = Ok (r, true).
Proof.
  destruct reset_ok as [r Hr]. exists r.
  destruct (lifecycle_request_is_idempotent sample_settings reset_operation admin_id "key-1"
    admin_session r reset_db (new_session reset_db ten_minutes) admin_session_fresh
    (proj2 admin_db_ok) Hr) as (fp & _ & Hout & _).
  - rewrite (run_after _ _ _ reset_run_eq). reflexivity.
  - apply new_session_fresh, reset_db_ok.
  - reflexivity.
  - exact Hout.
Defined.

(** A token of the administrator. *)
Definition admin_token : string := sample_jwt_encode
  (token_payload sample_settings (mkAccessTokenClaims admin_id admin_id ten_minutes
     (ten_minutes + 900 * 1000000) 1)) (jwt_secret sample_settings).
Definition admin_bearer : option (string * string) := Some ("bearer", admin_token).
Definition auth_run : result UserAuthContext * DB := Eval vm_compute in
  run_result (require_user_auth sample_settings admin_bearer) admin_session.

Lemma auth_run_eq : run_result (require_user_auth sample_settings admin_bearer) admin_session = auth_run.
Proof. vm_compute. reflexivity. Qed.

Definition admin_auth : option UserAuthContext := ok_value auth_run.1.

Lemma auth_accepted : ∃ auth,
  outcome (require_user_auth sample_settings admin_bearer) admin_session = Ok auth ∧
  u_id (au_user auth) = admin_id ∧ u_access_token_version (au_user auth) = 1.
Proof. rewrite (run_outcome _ _ _ auth_run_eq). eexists. split; [reflexivity|split; reflexivity]. Qed.

Definition sign_out_run : result () * DB := Eval vm_compute in
  run_result (sign_out sample_settings admin_bearer) admin_session.
Lemma sign_out_run_eq :
  run_result (sign_out sample_settings admin_bearer) admin_session = sign_out_run.
Proof. vm_compute. reflexivity. Qed.

Lemma signed_out_ok : Inv sign_out_run.2 ∧ evolves admin_db sign_out_run.2.
Proof.
  apply (run_evolves _ _ _ (λ I _, sign_out_preserves sample_settings I admin_bearer)
    admin_session_fresh (run_after _ _ _ sign_out_run_eq)).
Qed.

Lemma logout_is_final_witness :
  ¬ ∃ auth, outcome (require_user_auth sample_settings admin_bearer)
              (new_session sign_out_run.2 ten_minutes) = Ok auth.
Proof.
  intros [auth Hauth]. revert Hauth. revert auth.
  apply (logout_is_final sample_settings sample_jwt_laws admin_bearer admin_session sign_out_run.2
    (new_session sign_out_run.2 ten_minutes) admin_session_fresh (proj2 admin_db_ok)).
  - intros Hin. apply elem_of_nil in Hin. exact Hin.
  - rewrite (run_outcome _ _ _ sign_out_run_eq). reflexivity.
  - rewrite (run_after _ _ _ sign_out_run_eq). reflexivity.
  - apply new_session_fresh, signed_out_ok.
  - reflexivity.
Defined.

(** The administrator logs in, and uses the token ten seconds later. *)
Definition admin_login : LoginRequest := mkLoginRequest "admin@example.com" admin_password.
Definition login_run : result AccessTokenResponse * DB := Eval vm_compute in
  run_result (login sample_settings admin_login) admin_session.
Lemma login_run_eq : run_result (login sample_settings admin_login) admin_session = login_run.
Proof. vm_compute. reflexivity. Qed.

Lemma login_ok : ∃ r, outcome (login sample_settings admin_login) admin_session = Ok r ∧
  at_expires_in r = 900.
Proof. rewrite (run_outcome _ _ _ login_run_eq). eexists. split; reflexivity. Qed.

Lemma login_request_validates :
  LoginRequest_of " ADMIN@Example.com" admin_password = Some admin_login.
Proof. vm_compute. reflexivity. Qed.

Lemma admin_db_single : ∃ u, bootstrap_run.1 = Ok (u, true) ∧ users admin_db = {[admin_id := u]}.
Proof. eexists. split; [reflexivity|]. vm_compute. reflexivity. Qed.

Lemma admin_db_users k u : users admin_db !! k = Some u → k = admin_id.
Proof.
  destruct admin_db_single as (a & _ & ->). intros [Hk _]%lookup_singleton_Some. by symmetry.
Qed.

Definition later_session : Session :=
  new_session (after (login sample_settings admin_login) admin_session) (ten_minutes + 10000000).

Lemma later_session_fresh : fresh_session Inv later_session.
Proof.
  apply new_session_fresh.
  exact (proj1 (run_evolves _ _ _ (λ I _, login_preserves sample_settings I admin_login)
    admin_session_fresh eq_refl)).
Qed.

Lemma later_moment n : moment later_session n = login_run.2.
Proof.
  rewrite moment_alone by done. unfold later_session. by rewrite (run_after _ _ _ login_run_eq).
Qed.

Lemma login_token_authenticates_witness : ∃ r,
  outcome (login sample_settings admin_login) admin_session = Ok r ∧
  ∃ auth, outcome (require_user_auth sample_settings (Some ("bearer", at_access_token r)))
            later_session = Ok auth ∧
    u_email (au_user auth) = "admin@example.com".
Proof.
  destruct login_ok as (r & Hr & Hexp). exists r. split; [exact Hr|].
  destruct (login_token_authenticates sample_settings sample_jwt_laws admin_login admin_session r)
    as (user & claims & [Hk Hemail Hen _ (n & ->) _ _] & _ & _ & Hlater).
  - vm_compute. reflexivity.
  - exact uuid_platform_ok.
  - intros k u Hu. rewrite (admin_db_users _ _ Hu). vm_compute. reflexivity.
  - apply admin_session_fresh.
  - apply admin_db_ok.
  - discriminate.
  - exact Hr.
  - rewrite Hexp. vm_compute. discriminate.
  - destruct (Hlater later_session later_session_fresh) as [Hiff _].
    + vm_compute. discriminate.
    + rewrite Hexp. vm_compute. reflexivity.
    + eexists (mkUserAuthContext user _). split; [|exact Hemail]. apply Hiff.
      split; [reflexivity|]. rewrite !later_moment. split; [reflexivity|].
      split; [exact Hk|]. split; [exact Hen|reflexivity].
Defined.
