(* ===== verification/ArtifactsCorrect.v ===== *)
(** * Correctness of artifact uploads

    Every operation of [ArtifactCleanup.v], [ArtifactRoutes.v] and [ArtifactFinalize.v] keeps
    the invariant of artifacts, in the logic of [ArtifactLaws.v], whatever the object store
    meets and whatever other transactions do in between. *)

From S2P Require Import Prelude Sha256 Json JobConfig WorkerContract Settings ObjectKeys Ledger.
From S2P Require Import Evolution Session Storage ArtifactService ArtifactCleanup Wp Mlflow.
From S2P Require Import LeaseService WorkerRoutes TelemetryIngest JobApi LogReads LedgerInvariant.
From S2P Require Import WorkerTokensCorrect ArtifactRoutes ArtifactFinalize ArtifactLaws.

Section correct.
  Context {CP : ContractParser} {PF : Platform} {S3 : S3Client}.
  Variable settings : Settings.
  Variable storage : StorageAdapter.
  Variable base_url : string.
  Context (I : DB → Prop) `{!StableArtifacts I}.
  #[local] Set Default Proof Using "Type StableArtifacts0 CP PF".
  Notation ends := (ends I).

(** ** Operations on the object store *)

Lemma ends_bind_key calm c key {A} (k : () → M A) R :
  ends calm c (k ()) R → ends calm c (valid_key key ≫= k) R.
Proof.
  intros Hk. unfold valid_key. destruct (validate_object_key key); [by apply ends_bind_ret|].
  eapply (ends_bind _ _ _ _ _ (λ _ _, False)); [apply ends_raise|done].
Qed.

(** An operation that fails may have had its effect. *)
Lemma ends_failing calm c io effect text R :
  ends calm c effect R → ends calm c (failing io effect text) R.
Proof.
  intros He. unfold failing. destruct io as [|applied|applied|applied|code]; [done| | | |].
  all: try (eapply ends_bind; [destruct applied; [by eapply ends_any|by apply ends_ret]|]; intros).
  all: apply ends_raise.
Qed.

(** What is verified has the announced size and checksum. *)
Lemma ends_verify calm c io key size sha256 :
  ends calm c (verify_object_to_spool settings io key size sha256)
    (λ spool _, Z.of_nat (String.length spool) = size ∧ sha256_hex spool = sha256).
Proof.
  unfold verify_object_to_spool. ends_step.
  { unfold stream_object. apply ends_bind_key. do 2 ends_step; [|ends_step].
    ends_step; [by eapply ends_failing; ends_step|]. by ends_steps. }
  destruct a as [chunks too_large]. destruct (spool_chunks 0 "" chunks) as [total spool] eqn:Hs.
  assert (total = Z.of_nat (String.length spool)) as Hlen by exact (spool_chunks_length _ _ _ _ _ Hs eq_refl).
  ends_steps. bools. by subst.
Qed.

(** A staged object is written by its upload. *)
Lemma ends_write_staged calm c io u chunks size :
  known c u → ends calm c (write_upload_stream storage io (au_temporary_object_key u) chunks size) any.
Proof.
  intros (row & Hrow & [=]). unfold write_upload_stream. destruct storage; [|ends_step].
  apply ends_bind_key. ends_step; [|ends_step]. ends_step; [ends_step|].
  apply ends_failing. apply (ends_change_objects I); [|done]. intros HI. unfold put_object.
  destruct (sa_artifacts _ HI) as [_ _ O _ _ _]. destruct (O _ _ Hrow) as [Hkey _].
  eapply (artifacts_step_staged _ _ (au_attempt_id row) (au_id row)). intros k m Hne.
  apply lookup_insert_ne. congruence.
Qed.

(** A verified copy is published where there is none. *)
Lemma ends_publish calm c io key content :
  ends calm c (store_verified_file io key content) (λ _ d, objects d !! key = Some content).
Proof.
  unfold store_verified_file. apply ends_bind_key. ends_step. ends_step; [ends_step|].
  apply ends_failing, (ends_change_objects I).
  - intros _. by apply artifacts_step_publish.
  - apply lookup_insert_eq.
Qed.

(** The files of a finished upload: the staged one, and the copy of a failed upload. *)
Definition deletable (c : DB) (key : string) : Prop :=
  ∃ u, known c u ∧ (key = au_temporary_object_key u ∨
    key = au_canonical_object_key u ∧ later c u ∧ upload_failed u = true).

Lemma deletable_evolves c d key : I c → evolves c d → deletable c key → deletable d key.
Proof.
  intros HI Hev (u & Hk & Hcase). exists u. split; [by eapply known_evolves|].
  destruct Hcase as [|(? & ? & ?)]; [by left|right]. split_and!; [done|by eapply later_evolves|done].
Qed.

Lemma ends_delete calm c io key : deletable c key → ends calm c (delete_object io key) any.
Proof.
  intros (u & (row & Hrow & [=]) & Hcase). unfold delete_object. apply ends_bind_key, ends_failing.
  apply (ends_change_objects I); [|done]. intros HI. destruct (sa_artifacts _ HI) as [_ _ O _ _ _].
  destruct (O _ _ Hrow) as [Hkey _]. destruct Hcase as [->|(-> & (row' & Hrow' & He) & Hf)].
  - apply (artifacts_step_staged _ _ (au_attempt_id row) (au_id row)). intros k m Hne.
    apply lookup_delete_ne. congruence.
  - rewrite <-(upload_evolves_canonical _ _ He). apply (artifacts_step_delete _ _ _ Hrow').
    by eapply upload_evolves_failed.
Qed.

(** ** Work under a heartbeat *)

Lemma ends_beat calm c touch n :
  (∀ c', evolves c c' → I c' → ends calm c' touch any) → ends calm c (beat touch n) any.
Proof.
  revert c. induction n as [|n IH]; intros c Ht; simpl; [by apply ends_ret|].
  apply ends_inv. intros HI. ends_step; [by apply Ht|]. ends_step; [|by ends_step].
  apply IH. intros c2 Hev. apply Ht. by etrans.
Qed.

(** The result of the operation is passed on, on a later database. *)
Lemma ends_heartbeat calm c {A} touch (operation : io_result → M A) (R : A → DB → Prop) :
  (∀ c', evolves c c' → I c' → ends true c' touch any) →
  (∀ io c', evolves c c' → I c' → ends true c' (operation io) R) →
  (∀ a c1 c2, evolves c1 c2 → I c1 → R a c1 → R a c2) →
  ends calm c (run_with_heartbeat touch operation) R.
Proof.
  intros Ht Hop HR. assert (ends true c (run_with_heartbeat touch operation) R) as Hends.
  2: { destruct calm; [done|by eapply ends_open]. }
  apply ends_inv. intros HI. unfold run_with_heartbeat. ends_step; [by apply Ht|].
  ends_step; [ends_step|]. ends_step.
  eapply (ends_bind _ _ _ _ _ any); [apply ends_beat; intros; apply Ht; [chain|done]|].
  intros owned c2 Hev2 HI2 _. ends_step.
  eapply (ends_bind _ _ _ _ _ (λ r d, ∀ a, r = Ok a → R a d)).
  { apply ends_attempt; [|done]. eapply ends_mono; [apply Hop; [chain|done]|].
    intros v d _ _ Hv w. by intros [= ->]. }
  intros r c3 Hev3 HI3 Hr. ends_step; [ends_step; by apply Hr|].
  assert (∀ d, evolves c3 d → I d → ends true d touch any) as Ht3.
  { intros d Hd. apply Ht. chain. }
  eapply (ends_bind _ _ _ _ _ any).
  { destruct owned; [apply ends_beat; intros; by apply Ht3|by ends_step]. }
  intros owned1 c4 Hev4 HI4 _. eapply (ends_bind _ _ _ _ _ any).
  { destruct owned1; [by apply Ht3|by ends_step]. }
  intros owned2 c5 Hev5 HI5 _. ends_step; [ends_step|]. ends_step.
  eapply HR; [|exact HI3|by apply Hr]. chain.
Qed.

(** ** Cleanup *)

Lemma later_deletable c u : later c u → deletable c (au_temporary_object_key u).
Proof. intros Hl. exists u. split; [by apply later_known|by left]. Qed.

Ltac solve_same := apply upload_move_same; intros ? ? ?; split_and!; try reflexivity.

Lemma ends_touch_cleanup c id token : ends true c (touch_cleanup_claim id token) any.
Proof. unfold touch_cleanup_claim. ends_step. apply (ends_update_and_commit I). by solve_same. Qed.

Lemma ends_record_failure calm c u token kind :
  ends calm c (record_cleanup_failure u token kind) any.
Proof.
  unfold record_cleanup_failure. ends_step.
  destruct kind; apply (ends_update_and_commit I); by solve_same.
Qed.

Lemma ends_record_mismatch calm c u token : ends calm c (record_cleanup_key_mismatch u token) any.
Proof.
  unfold record_cleanup_key_mismatch. ends_step. apply (ends_update_and_commit I). by solve_same.
Qed.

Lemma ends_record_first calm c u token kind : ends calm c (record_first_delete u token kind) any.
Proof.
  unfold record_first_delete. ends_step.
  destruct kind; apply (ends_update_and_commit I); by solve_same.
Qed.

Lemma ends_record_complete calm c u token kind b :
  ends calm c (record_cleanup_complete u token kind b) any.
Proof.
  unfold record_cleanup_complete. ends_step.
  destruct kind; apply (ends_update_and_commit I); solve_same; by destruct b.
Qed.

Lemma ends_release calm c id token : ends calm c (release_cleanup_claim id token) any.
Proof. unfold release_cleanup_claim. ends_step. apply (ends_update_and_commit I). by solve_same. Qed.

(** The candidate is the row of a finished upload as it was when it was claimed. *)
Lemma ends_claim_cleanup calm c id :
  ends calm c (claim_cleanup settings storage id)
    (λ r d, match r with Some (_, u) => later d u | None => True end).
Proof.
  unfold claim_cleanup. do 2 ends_step. ends_step.
  - apply upload_move_same. intros u Hp Hok. split_and!; try reflexivity. simpl.
    unfold upload_ok, upload_terminal, upload_failed, TERMINAL_UPLOAD_STATUSES in *. bools.
    assert (au_status u = "completed" ∨ au_status u = "failed" ∨ au_status u = "expired") as Hs.
    { repeat match goal with Hin : _ ∈ _ |- _ => apply elem_of_cons in Hin as [?|Hin]; auto end.
      set_solver. }
    destruct Hs as [Hs|[Hs|Hs] ]; rewrite Hs in *; simpl in *; by destruct (au_finalized_at u).
  - ends_steps.
  - do 2 ends_step. ends_step; [|ends_steps]. ends_step. case_bool_decide; [|done].
    by eapply later_row.
Qed.

Lemma ends_cleanup_object calm c u token kind key action :
  deletable c key → ends calm c (cleanup_object u token kind key action) any.
Proof.
  intros Hdel. apply ends_inv. intros HI. unfold cleanup_object. ends_step.
  { apply ends_attempt; [|done]. apply ends_heartbeat; [|intros io c' Hev HI'|done].
    - intros c' _ _. apply ends_touch_cleanup.
    - apply ends_delete. exact (deletable_evolves _ _ _ HI Hev Hdel). }
  destruct a as [[]|e].
  - destruct action; (ends_step; [|ends_steps]);
      [apply ends_record_complete|apply ends_record_first|apply ends_record_complete].
  - destruct e; cbn [is_storage_error]; try (by ends_steps);
      (ends_step; [apply ends_record_failure|ends_steps]).
Qed.

Lemma ends_cleanup_objects calm c u token actions :
  (∀ kind key action, (kind, key, Some action) ∈ actions → deletable c key) →
  ends calm c (cleanup_objects u token actions) any.
Proof.
  revert c. induction actions as [|[[kind key] [action|] ] actions IH]; intros c Hdel;
    cbn [cleanup_objects]; [ends_steps| |].
  - apply ends_inv. intros HI. ends_step; [apply ends_cleanup_object; eapply Hdel; by left|].
    destruct a as [r lost]. ends_step; [ends_steps|]. ends_step; [|ends_steps].
    apply IH. intros k2 key2 a2 Hin. eapply (deletable_evolves c); [done|done|]. eapply Hdel. by right.
  - apply IH. intros k2 key2 a2 Hin. eapply Hdel. by right.
Qed.

(** Only the keys of the candidate are deleted, the verified copy when it has failed. *)
Lemma ends_cleanup_claimed calm c u token now :
  later c u → ends calm c (cleanup_claimed settings storage u token now) any.
Proof.
  intros Hl. unfold cleanup_claimed, validated_candidate_object_keys.
  destruct (_ && _ && _ && _) eqn:Hb.
  - bools. apply ends_cleanup_objects. intros kind key action Hin.
    apply elem_of_cons in Hin as [[= -> -> Hact]|Hin].
    + exists u. split; [by apply later_known|]. right. split; [done|]. split; [done|].
      unfold canonical_action in Hact. by destruct (upload_failed u).
    + apply list_elem_of_singleton in Hin as [= -> -> _].
      match goal with Ht : au_temporary_object_key u = _ |- _ => rewrite <-Ht end.
      by apply later_deletable.
  - ends_step; [apply ends_record_mismatch|ends_steps].
Qed.

Lemma ends_cleanup_candidate calm c now id :
  ends calm c (cleanup_candidate settings storage now id) any.
Proof.
  unfold cleanup_candidate. eapply ends_bind; [apply ends_claim_cleanup|].
  intros [[token u]|] c' Hev HI Hl; [|ends_steps]. ends_step.
  { apply ends_attempt; [by apply ends_cleanup_claimed|done]. }
  ends_step; [case_match; [ends_steps|apply ends_release]|]. ends_step; [ends_steps|]. ends_steps.
Qed.

Lemma ends_reconcile calm c ids :
  ends calm c (reconcile_artifact_upload_cleanup settings storage ids) any.
Proof.
  unfold reconcile_artifact_upload_cleanup. do 3 ends_step. ends_step; [|ends_steps].
  apply ends_collect. intros. apply ends_cleanup_candidate.
Qed.

(** ** Transitions of an upload *)

Lemma ends_refresh calm c id :
  ends calm c (refresh_upload id) (λ u d, later d u ∧ au_id u = id).
Proof.
  unfold refresh_upload. do 2 ends_step; [|ends_step]. ends_step. by eapply later_row.
Qed.

Lemma ends_recover c u :
  known c u →
  ends false c (recover_stale_finalizing settings u) (λ r d, known d r.2 ∧ au_id r.2 = au_id u).
Proof.
  intros Hk. apply ends_inv. intros HI. unfold recover_stale_finalizing.
  ends_step; [by ends_step|]. ends_step. ends_step; [by ends_step|]. ends_step. ends_step.
  - solve_move.
  - ends_step. eapply ends_bind; [apply ends_refresh|]. intros row d _ _ [Hl Hid].
    ends_step. split; [by apply later_known|done].
  - ends_step. split; [|done]. apply (known_frame _ u); [done|].
    carry HI Hk.
Qed.

Lemma ends_transition c u token target code :
  ends false c (transition_owned_finalizing u token target code)
    (λ r _, au_id r.2 = au_id u ∧ upload_frame r.2 = upload_frame u).
Proof.
  unfold transition_owned_finalizing. ends_step.
  ends_step; [destruct target; ends_steps|]. ends_step.
  - destruct target; solve_move.
  - by ends_steps.
  - ends_step. by destruct target.
Qed.

Lemma ends_reset c u token code : ends false c (reset_finalizing_to_pending u token code) any.
Proof. unfold reset_finalizing_to_pending. ends_step; [eapply ends_any; apply ends_transition|ends_steps]. Qed.

Lemma ends_touch_finalization c id token : ends true c (touch_artifact_finalization id token) any.
Proof.
  unfold touch_artifact_finalization. ends_step. apply (ends_update_and_commit I). by solve_same.
Qed.

Lemma ends_touch_write c id token : ends true c (touch_artifact_upload_write id token) any.
Proof.
  unfold touch_artifact_upload_write. ends_step. apply (ends_update_and_commit I). by solve_same.
Qed.

Lemma ends_clear_write calm c id token : ends calm c (clear_artifact_upload_write id token) any.
Proof.
  unfold clear_artifact_upload_write. ends_step. apply (ends_update_and_commit I). solve_move.
Qed.

Lemma ends_expire_write calm c id token : ends calm c (expire_artifact_upload_write id token) any.
Proof.
  unfold expire_artifact_upload_write. do 2 ends_step. apply (ends_update_and_commit I). solve_move.
Qed.

Lemma ends_cleanup_staging calm c u :
  ends calm c (cleanup_terminal_artifact_staging settings storage u) any.
Proof.
  unfold cleanup_terminal_artifact_staging. ends_step; [ends_steps|]. ends_step.
  ends_step; [apply ends_reconcile|]. ends_steps.
Qed.

Lemma ends_expire c u : ends false c (expire_upload settings storage u) any.
Proof.
  unfold expire_upload, require_storage. do 4 ends_step. ends_step.
  - solve_move.
  - ends_steps.
  - ends_step. ends_step; [apply ends_cleanup_staging|].
    ends_step; [eapply ends_any; apply ends_refresh|]. ends_steps.
Qed.

(** ** Reads *)

Lemma ends_active_lease calm c worker_id job_id lease_id b :
  ends calm c (require_active_lease worker_id job_id lease_id b) any.
Proof. unfold require_active_lease. ends_steps. Qed.

Lemma ends_upload_target calm c id key ct size sha expires token :
  ends calm c (upload_target settings storage base_url id key ct size sha expires token) any.
Proof.
  unfold upload_target, create_upload_target. ends_step; [ends_steps|]. apply ends_bind_key. ends_steps.
Qed.

Lemma ends_init_response calm c u : ends calm c (init_response settings storage base_url u) any.
Proof.
  unfold init_response, require_storage. ends_step. ends_step; [ends_steps|].
  ends_step. ends_step; [ends_steps|]. ends_step; [apply ends_upload_target|ends_steps].
Qed.

Lemma ends_quota calm c attempt_id size : ends calm c (enforce_attempt_artifact_quota settings attempt_id size) any.
Proof. unfold enforce_attempt_artifact_quota. ends_steps. Qed.

Lemma head_elem {A} (xs : list A) x : head xs = Some x → x ∈ xs.
Proof using Type. destruct xs; [done|]. intros [= ->]. by left. Qed.

Lemma found_later c p u : I c → u ∈ where_ p (artifact_uploads c) → later c u.
Proof. intros HI (_ & k & Hu)%elem_of_where. by eapply later_row. Qed.

Lemma ends_find_dedup calm c key :
  ends calm c (find_deduplicated_upload key) (λ r d, ∀ u, r = Some u → later d u).
Proof.
  unfold find_deduplicated_upload. ends_step. intros u Hu%head_elem. by eapply found_later.
Qed.
Lemma ends_find_existing calm c a k d :
  ends calm c (find_existing_upload a k d) (λ r d, ∀ u, r = Some u → later d u).
Proof.
  unfold find_existing_upload. do 2 ends_step; [|apply ends_find_dedup]. ends_step.
  intros u [= <-]. apply (found_later c' (λ u, ⌊ au_attempt_id u = a ⌋ && ⌊ au_idempotency_key u = k ⌋));
    [done|]. eapply elem_of_order_by, head_elem. eassumption.
Qed.

Lemma ends_upload_claim calm c worker_id job_id lease_id attempt_id :
  ends calm c (require_upload_claim worker_id job_id lease_id attempt_id) any.
Proof. unfold require_upload_claim. ends_step; [apply ends_active_lease|]. ends_steps. Qed.

(** ** Initialisation *)

Lemma ends_expire_pending c u : ends false c (expire_pending settings storage u) any.
Proof.
  unfold expire_pending. ends_step; [|ends_steps]. ends_step; [|apply ends_expire].
  ends_step. ends_step; [apply ends_expire_write|]. ends_steps.
Qed.

Lemma ends_settle_existing c p fingerprint dedupe_key u :
  known c u → ends false c (settle_existing settings storage p fingerprint dedupe_key u) any.
Proof.
  intros Hk. unfold settle_existing, require_storage. do 2 ends_step.
  ends_step; [eapply ends_any; by apply ends_recover|].
  ends_step; [do 3 (ends_step; try by ends_steps); apply ends_expire_pending|].
  ends_step; [ends_steps|]. ends_step; [eapply ends_any, ends_find_dedup|]. ends_steps.
Qed.

Lemma ends_settle_raced calm c p fingerprint dedupe_key generation raced :
  ends calm c (settle_raced p fingerprint dedupe_key generation raced) any.
Proof.
  unfold settle_raced. ends_step; [|ends_steps]. ends_step. ends_step; [ends_steps|].
  ends_step; [eapply ends_any, ends_find_dedup|ends_steps].
Qed.

(** The row of a new upload commits, unless one of its keys is taken. *)
Lemma ends_reserve c p job_id worker_id generation fingerprint dedupe_key id hash expires target :
  ends false c (reserve_upload settings storage base_url p job_id worker_id generation fingerprint
                  dedupe_key id hash expires target) any.
Proof.
  unfold reserve_upload. ends_step; [apply ends_quota|]. apply ends_bind_interleave.
  intros d Hevd HId. ends_step. intros Q L tm i s Hst HQ HX. set (u := new_upload _ _ _ _ _ _ _ _ _ _ _).
  eapply (wp_add_attempt I); [exact Hst| | |exact HQ|exact HX].
  - intros e. destruct e; try apply recovers_raise. apply recovers_rollback. intros c2 _ _.
    ends_step; [eapply ends_any, ends_find_existing|].
    ends_step; [ends_step; [|ends_steps]; ends_step; [eapply ends_any, ends_find_dedup|ends_steps]|].
    ends_step; [|ends_steps]. ends_step; [apply ends_init_response|ends_steps].
  - intros s1 Hfree Hst1. apply wp_bind.
    assert (commits I d (put_upload u d)) as [HI2 Hev2].
    { apply commits_artifacts; [done..|]. exact (artifacts_step_new d u eq_refl eq_refl eq_refl eq_refl Hfree). }
    eapply wp_commit; [exact Hst1| |by intros _|].
    + intros e s2 Hst2. eapply HX, raised_open; [|exact Hst2]. done.
    + intros s2 _ Hst2. apply wp_ret. eapply HQ; [exact Hev2|done|exact Hst2].
Qed.

Lemma ends_sign_and_reserve c p job_id worker_id generation fingerprint dedupe_key :
  ends false c (sign_and_reserve settings storage base_url p job_id worker_id generation fingerprint
                  dedupe_key) any.
Proof.
  unfold sign_and_reserve. do 3 ends_step. ends_step.
  { apply ends_catch; [apply ends_upload_target|]. intros e k d Hk _ _. unfold on_storage_error in Hk.
    destruct (is_storage_error e); simplify_eq. ends_steps. }
  ends_step; [apply ends_upload_claim|]. ends_step; [eapply ends_any, ends_find_existing|].
  ends_step; [apply ends_settle_raced|]. ends_step. ends_step; [apply ends_init_response|].
  apply ends_reserve.
Qed.

Lemma ends_initialize c job_id p worker_id :
  ends false c (initialize_artifact_upload settings storage base_url job_id p worker_id) any.
Proof.
  unfold initialize_artifact_upload. do 2 ends_step. ends_step; [apply ends_upload_claim|].
  ends_step. ends_step; [|ends_steps].
  eapply ends_bind; [apply ends_find_existing|]. intros existing d Hev HI Hl.
  ends_step.
  { ends_step; [|ends_steps]. apply ends_settle_existing. by apply later_known, Hl. }
  ends_step. ends_step; [apply ends_init_response|apply ends_sign_and_reserve].
Qed.

(** ** The local endpoint *)

Lemma ends_claim_write c id token : ends false c (claim_upload_write id token) any.
Proof. unfold claim_upload_write. do 2 ends_step; [solve_move|ends_steps..]. Qed.

Lemma ends_write_claimed c u token body :
  known c u → ends false c (write_claimed_upload storage u token body) any.
Proof.
  intros Hk. apply ends_inv. intros HI. unfold write_claimed_upload. ends_step.
  { apply ends_attempt; [|done]. apply ends_heartbeat; [|intros io d Hev HId|done].
    - intros d _ _. apply ends_touch_write.
    - apply ends_write_staged. exact (known_evolves I _ _ _ HI Hev Hk). }
  match goal with r : result () |- _ => destruct r as [ []|e] end; [ends_steps|].
  destruct e; cbn [is_storage_error]; repeat
    lazymatch goal with
    | |- ends _ _ (clear_artifact_upload_write _ _) _ => apply ends_clear_write
    | |- ends _ _ (expire_artifact_upload_write _ _) _ => apply ends_expire_write
    | _ => ends_step
    end.
Qed.

Lemma ends_seal c id token : ends false c (seal_upload id token) any.
Proof.
  unfold seal_upload. do 2 ends_step; [solve_move| |ends_steps].
  ends_step. ends_step; [apply ends_expire_write|ends_steps].
Qed.

Lemma ends_reject_expired c u : ends false c (reject_expired settings storage u) any.
Proof.
  unfold reject_expired. do 2 ends_step; [|ends_steps]. ends_step; [|ends_steps].
  ends_step; [ends_step; apply ends_expire_write|]. ends_step; [apply ends_expire|ends_steps].
Qed.

Lemma local_only c {A} (m : M A) n text R :
  ends false c m R →
  ends false c (match storage with
                | LocalStorageAdapter _ => m | S3StorageAdapter _ _ _ _ _ => http n text end) R.
Proof. intros Hm. destruct storage; [done|apply ends_http]. Qed.

Lemma ends_local_upload c id token length type body :
  ends false c (local_presigned_upload settings storage id token length type body) any.
Proof.
  apply ends_inv. intros HI. unfold local_presigned_upload, require_storage.
  apply local_only. do 2 ends_step; [|ends_steps].
  match goal with Hr : artifact_uploads c !! id = Some ?u |- _ =>
    destruct (later_row I _ _ _ HI Hr) as [Hl%later_known _] end.
  do 3 ends_step. ends_step; [apply ends_reject_expired|]. do 2 ends_step.
  ends_step; [unfold check_upload_headers; ends_steps|]. ends_step.
  ends_step; [apply ends_claim_write|]. ends_step.
  ends_step; [apply ends_write_claimed; carry HI Hl|].
  apply ends_seal.
Qed.

(** ** Download *)

(** The upload has become [artifact]. *)
Definition completed_as (c : DB) (id : string) (artifact : Artifact) : Prop :=
  ∃ u, artifact_uploads c !! id = Some u ∧ au_status u = "completed" ∧
    au_artifact_id u = Some (ar_id artifact) ∧ artifact_rows c !! ar_id artifact = Some artifact.

Lemma completed_as_later c d id artifact :
  I c → evolves c d → completed_as c id artifact → completed_as d id artifact.
Proof.
  intros HI Hev (u & Hu & Hs & Ha & Hr). destruct (uploads_later I _ _ _ _ HI Hev Hu) as (v & Hv & [_ Hf _]).
  destruct Hf as [Hs2 Ha2]; [unfold upload_terminal; by rewrite Hs|].
  exists v. split_and!; [done|congruence|congruence|].
  destruct (ev_artifacts _ _ Hev (sa_artifacts _ HI)) as [_ _ HR _]. by eapply lookup_weaken.
Qed.


Lemma ends_owned_job c job_id user : ends true c (owned_job job_id user) any.
Proof. unfold owned_job, require_owner_or_admin. ends_steps. Qed.

(** A streamed answer names the verified copy of the artifact. *)
Definition streams_artifact (d : DB) (artifact_id : string) (answer : Download) : Prop :=
  match answer with
  | RedirectResponse _ _ => True
  | StreamingResponse key chunk_size max_bytes _ _ content_length =>
      ∃ k u artifact, artifact_uploads d !! k = Some u ∧ completed_as d k artifact ∧
        ar_id artifact = artifact_id ∧ key = au_canonical_object_key u ∧
        chunk_size = artifact_stream_chunk_bytes settings ∧
        max_bytes = ar_size_bytes artifact ∧ content_length = ar_size_bytes artifact
  end.

Lemma ends_download `{UrlHosts} c artifact_id user :
  ends false c (download_artifact settings storage base_url artifact_id user)
    (λ answer d, streams_artifact d artifact_id answer).
Proof.
  apply ends_inv. intros HI. unfold download_artifact, require_job_owner_or_admin.
  apply ends_bind_ask. destruct (artifact_rows c !! artifact_id) as [artifact|] eqn:Hrow; [|ends_step].
  destruct (sa_artifacts _ HI) as [_ _ _ _ _ W]. pose proof (W _ _ Hrow) as Hid. ends_step. ends_step.
  { apply ends_catch; [apply ends_owned_job|]. intros e k d Hk _ _. unfold artifact_not_found in Hk.
    destruct e; try done. destruct (_ =? _); simplify_eq. ends_steps. }
  apply ends_bind_query. intros d Hev HId. destruct (head _) as [u|] eqn:Hhead; [|ends_step].
  apply head_elem, elem_of_where in Hhead as [Hp (k & Hu)]. bools. ends_step. apply ends_write_commit.
  - intros _. apply (stable_same I); try done. eapply Inv_ext; [..|exact (stable_inv _ HId)]; done.
  - intros e Hev2 HI2. ends_step.
    { unfold create_download_url. ends_step; [ends_steps|]. apply ends_bind_key. ends_steps. }
    ends_step. match goal with |- streams_artifact ?d' _ _ => rename d' into e2 end.
    assert (streams_artifact e2 artifact_id (stream_artifact settings artifact u
      (attachment_content_disposition (safe_download_filename (ar_filename artifact) (ar_id artifact)))))
      as Hstream.
    { assert (evolves d e2) as Hde by chain.
      destruct (uploads_later I _ _ _ _ HId Hde Hu) as (v & Hv & He).
      exists k, v, artifact. split; [done|]. rewrite (upload_evolves_canonical _ _ He).
      split_and!; try done. apply (completed_as_later d); [done|done|].
      exists u. split_and!; [done..|].
      destruct (ev_artifacts c d ltac:(chain) (sa_artifacts _ HI)) as [_ _ HR _].
      rewrite Hid. by eapply lookup_weaken. }
    case_match; [|done]. by case_match.
Qed.

Lemma download_artifact_preserves `{UrlHosts} artifact_id user :
  preserves I (download_artifact settings storage base_url artifact_id user).
Proof. eapply (ends_preserves I). intros. apply ends_download. Qed.

(** ** Finalisation *)

Lemma ends_sync c key : ends false c (sync_after_commit settings key) any.
Proof.
  intros Q L t i s Hst HQ HX.
  assert (∀ d, same_ledger c d → evolves c d) as Hsame.
  { intros d Hd. by destruct (stable_outbox I c d Hd) as [_ ?]; [destruct Hst|]. }
  eapply (sync_after_commit_ok settings I (stable_outbox I)); [exact Hst| |].
  - intros r c' L' t' s' Hc _ Hst'. eapply HQ; [by apply Hsame|done|exact Hst'].
  - intros e s' _ Hc Hsafe. apply HX. split_and!; [by apply Hsame|done|done].
Qed.

Lemma ends_mark_failure c u token code :
  ends false c (mark_verification_failure settings storage u token code) any.
Proof.
  unfold mark_verification_failure, require_storage. ends_step.
  ends_step; [eapply ends_any, ends_transition|]. do 2 ends_step; [ends_steps|]. do 2 ends_step.
  - by solve_same.
  - ends_step; [apply ends_cleanup_staging|ends_steps].
Qed.

Lemma ends_reload calm c id : ends calm c (reload_artifact_upload id) (λ u d, later d u ∧ au_id u = id).
Proof.
  unfold reload_artifact_upload. do 2 ends_step; [|ends_step]. ends_step. by eapply later_row.
Qed.

Lemma ends_fail_published c id token code :
  ends false c (fail_published settings storage id token code) any.
Proof.
  unfold fail_published, fail_owned_after_canonical_publish, reported.
  ends_step; [eapply ends_any, ends_reload|]. ends_step; [|ends_steps].
  ends_step; [eapply ends_any, ends_transition|]. do 2 ends_step; [ends_steps|].
  ends_step; [apply ends_cleanup_staging|ends_steps].
Qed.

Lemma ends_finalizable c job_id id p worker_id :
  ends false c (finalizable settings storage job_id id p worker_id)
    (λ r d, match r with inl u => known d u ∧ au_id u = id | inr a => completed_as d id a end).
Proof.
  unfold finalizable, require_storage. ends_step; [apply ends_active_lease|].
  apply ends_bind_query. intros d Hev HI. ends_step; [|ends_step].
  match goal with Hr : artifact_uploads d !! id = Some ?u |- _ =>
    destruct (later_row I _ _ _ HI Hr) as [Hl%later_known Hid]; rename u into row, Hr into Hrow end.
  do 2 ends_step. eapply (ends_bind _ _ _ _ _ (λ r e, ∀ x, r = Some x → completed_as e id x)).
  { destruct (au_artifact_id row) as [aid|] eqn:Ha; [|by ends_step].
    case_bool_decide; [|by ends_step]. apply ends_query. intros e Hev2 HI2 x Hrow2.
    destruct (sa_artifacts _ HI2) as [_ _ _ _ _ W]. pose proof (W _ _ Hrow2) as Haid.
    destruct (uploads_later I _ _ _ _ HI Hev2 Hrow) as (v & Hv & [_ Hf _]).
    destruct Hf as [Hs2 Ha2]; [unfold upload_terminal; by rewrite bool_decide_eq_true_2|].
    exists v. split_and!; congruence. }
  intros registered e0 Hev0 HI0 Hreg. ends_step.
  - eapply ends_bind; [apply ends_sync|]. intros [] e Hev2 HI2 _. ends_step.
    eapply completed_as_later; [exact HI0|done|by apply Hreg].
  - ends_step. eapply (ends_bind _ _ _ _ _ (λ u e, known e u ∧ au_id u = id)).
    { ends_step; [|ends_step; split; [by carry HI Hl|done] ].
      eapply ends_bind; [apply ends_recover; by carry HI Hl|].
      intros r e Hev2 HI2 [Hk2 Hid2]. ends_step. ends_step. split; [done|congruence]. }
    intros u e Hev2 HI2 [Hk Hid2]. do 3 ends_step. eapply (ends_bind _ _ _ _ _ any).
    { ends_step; [|ends_steps]. ends_step; [apply ends_expire|ends_steps]. }
    intros [] e2 Hev3 _ _. ends_step. split; [carry HI2 Hk|done].
Qed.

Lemma ends_claim_finalization c u token :
  ends false c (claim_finalization u token) (λ u' _, upload_frame u' = upload_frame u).
Proof.
  unfold claim_finalization. do 2 ends_step; [solve_move|ends_steps|]. by ends_step.
Qed.

(** A verified spool has the announced size and checksum. *)
Lemma ends_verify_upload c u token :
  ends false c (verify_upload settings storage u token) (λ spool _, verified u spool).
Proof.
  unfold verify_upload, reported.
  eapply (ends_bind _ _ _ _ _ (λ r _, ∀ spool, r = Ok spool → verified u spool)).
  { apply ends_attempt; [|done].
    eapply ends_mono; [apply (ends_heartbeat _ _ _ _ (λ spool _, verified u spool))|].
    - intros. apply ends_touch_finalization.
    - intros io d _ _. apply ends_verify.
    - done.
    - intros spool d _ _ Hv w. by intros [= <-]. }
  intros [spool|e] d Hev HI Hv; [ends_step; by apply Hv|].
  destruct e; cbn [is_storage_error]; repeat
    lazymatch goal with
    | |- ends _ _ (reset_finalizing_to_pending _ _ _) _ => apply ends_reset
    | |- ends _ _ (mark_verification_failure _ _ _ _ _) _ => apply ends_mark_failure
    | |- ends _ _ (attempt remove_spool_file) _ =>
        apply ends_attempt; [unfold remove_spool_file; ends_steps|done]
    | _ => ends_step
    end.
Qed.

Lemma ends_remove_file calm c : ends calm c (attempt remove_spool_file) any.
Proof. apply ends_attempt; [unfold remove_spool_file; ends_steps|done]. Qed.

Lemma ends_finalize_claim calm c job_id worker_id p b :
  ends calm c (require_finalize_claim job_id worker_id p b) any.
Proof. unfold require_finalize_claim. ends_step; [apply ends_active_lease|ends_steps]. Qed.

Lemma ends_recheck c id token job_id worker_id p :
  ends false c (recheck_claim settings storage id token job_id worker_id p) any.
Proof.
  unfold recheck_claim, reported. ends_step.
  { apply ends_attempt; [ends_step; apply ends_finalize_claim|done]. }
  match goal with r : result () |- _ => destruct r as [ []|e] end; [ends_steps|].
  destruct e; try apply ends_raise. ends_step. ends_step; [eapply ends_any, ends_reload|].
  ends_step; [apply ends_remove_file|]. ends_step; [apply ends_mark_failure|ends_steps].
Qed.

(** The verified copy is in the store as long as its upload has not failed. *)
Definition published (c : DB) (u : ArtifactUploadSession) (content : string) : Prop :=
  ∃ row, artifact_uploads c !! au_id u = Some row ∧ upload_frame row = upload_frame u ∧
    (objects c !! au_canonical_object_key u = Some content ∨ upload_failed row = true).

Lemma published_later c d u content : I c → evolves c d → published c u content → published d u content.
Proof.
  intros HI Hev (row & Hr & Hf & Ho). destruct (uploads_later I _ _ _ _ HI Hev Hr) as (row' & Hr' & He).
  exists row'. split; [done|]. split; [destruct He; congruence|].
  destruct Ho as [Ho|Ho]; [|right; by eapply upload_evolves_failed].
  pose proof Hf as [=]. assert (au_canonical_object_key u = au_canonical_object_key row) as Hkey by done.
  rewrite Hkey in *.
  destruct (published_evolves I _ _ _ _ _ HI Hev Hr Ho) as [|(v & Hv & Hfail)]; [by left|right].
  congruence.
Qed.

Lemma ends_publish_upload c u token spool :
  known c u → ends false c (publish_upload settings storage u token spool) (λ _ d, published d u spool).
Proof.
  intros Hk. apply ends_inv. intros HI. unfold publish_upload.
  eapply (ends_bind _ _ _ _ _ (λ r d, r = Ok () → published d u spool)).
  { apply ends_attempt; [|done].
    eapply ends_mono; [apply (ends_heartbeat _ _ _ _ (λ _ d, published d u spool))|].
    - intros. apply ends_touch_finalization.
    - intros io d Hev HId. pose proof (known_evolves I _ _ _ HI Hev Hk) as Hkd.
      eapply ends_mono; [apply ends_publish|]. intros [] d2 Hev2 HI2 Ho.
      destruct (known_evolves I _ _ _ HId Hev2 Hkd) as (row & Hr & Hf). exists row. auto.
    - intros _ c1 c2 Hev HI1. by apply published_later.
    - done. }
  intros [ []|e] d Hev HId Hp; [ends_step; by apply Hp|].
  destruct e; cbn [is_storage_error]; repeat
    lazymatch goal with
    | |- ends _ _ (attempt remove_spool_file) _ => apply ends_remove_file
    | |- ends _ _ (fail_published _ _ _ _ _) _ => apply ends_fail_published
    | _ => ends_step
    end.
Qed.

Lemma ends_remove_spool c id token : ends false c (remove_spool settings storage id token) any.
Proof.
  unfold remove_spool. ends_step; [apply ends_remove_file|].
  match goal with r : result () |- _ => destruct r as [ []|e] end; [ends_steps|].
  destruct e; repeat lazymatch goal with
    | |- ends _ _ (fail_published _ _ _ _ _) _ => apply ends_fail_published
    | _ => ends_step
    end.
Qed.

Lemma ends_lock_finalization c id token job_id worker_id p :
  ends false c (lock_finalization settings storage id token job_id worker_id p)
    (λ u d, later d u ∧ au_id u = id).
Proof.
  unfold lock_finalization.
  eapply (ends_bind _ _ _ _ _ (λ r d, ∀ u, r = Ok u → later d u ∧ au_id u = id)).
  { apply ends_attempt; [|done]. ends_step; [apply ends_finalize_claim|].
    eapply ends_bind; [apply ends_reload|]. intros u d _ _ Hl. do 2 ends_step. by intros v [= <-]. }
  intros [u|e] d _ _ Hl; [ends_step; by apply Hl|].
  destruct e; repeat lazymatch goal with
    | |- ends _ _ (fail_published _ _ _ _ _) _ => apply ends_fail_published
    | _ => ends_step
    end.
Qed.

(** The transaction that registers an artifact: the row of the artifact, the event of the
    outbox, and the completed upload. *)
Lemma commits_registration c d u artifact spool token at_ now :
  I c → published c u spool → verified u spool → registered u artifact →
  artifact_rows c !! ar_id artifact = None →
  same_ledger (put_artifact artifact c) d → owns_finalization token u = true →
  artifact_uploads d !! au_id u = Some u →
  commits I c (with_uploads d (au_id u) (complete_upload (ar_id artifact) at_ now u)).
Proof.
  intros HI Hp Hv Hreg Hnew Hsame Hown Hu.
  destruct (same_ledger_fields _ _ Hsame) as (Hw & Hj & Ha & Hl & Hlog & Hm & _).
  pose proof (same_ledger_rest _ _ Hsame) as Hrest.
  pose proof (f_equal snd Hrest : artifacts_of d = artifacts_of (put_artifact artifact c)) as Harts.
  pose proof Harts as [= ER EU EO].
  apply commits_artifacts; try done; [exact (f_equal fst Hrest)|].
  transitivity (put_artifact artifact c); [by apply artifacts_step_row|].
  transitivity d; [by apply (artifacts_step_ext _ _ _ Harts)|].
  apply artifacts_step_upload with u; [done| | |].
  - unfold owns_finalization in Hown. bools. split; [done| |by eexists].
    unfold upload_terminal, upload_failed.
    match goal with Hs : au_status u = _ |- _ => rewrite Hs end. done.
  - unfold upload_ok, upload_terminal, upload_failed. simpl. by rewrite orb_true_r.
  - intros _ _. split.
    + exists (ar_id artifact), artifact. split; [done|]. split; [|done].
      rewrite ER. apply lookup_insert_eq.
    + destruct Hp as (row & Hr & Hf & Ho). exists spool. split; [|done].
      rewrite EO. destruct Ho as [Ho|Ho]; [done|]. exfalso. simpl in EU. rewrite EU in Hu.
      unfold owns_finalization in Hown. bools. simplify_eq. unfold upload_failed in Ho.
      match goal with Hs : au_status _ = _ |- _ => rewrite Hs in Ho end. done.
Qed.

Lemma ends_register c u token artifact spool :
  known c u → published c u spool → verified u spool → registered u artifact →
  ends false c (register_artifact settings u token artifact)
    (λ _ d, completed_as d (au_id u) artifact).
Proof.
  intros Hk Hp Hv Hreg. apply ends_inv. intros HI. unfold register_artifact.
  apply ends_bind_interleave. intros d Hev HId.
  apply (known_evolves I _ _ _ HI Hev) in Hk as (row & Hrow & Hframe).
  apply (published_later _ _ _ _ HI Hev) in Hp. pose proof Hframe as [=].
  intros Q L t i s Hst HQ HX.
  assert (∀ e s', s_committed s' = d → safe I s' → Q (Raise e) s') as Hraise.
  { intros e s' Hc Hsafe. apply HX. split_and!; [by rewrite Hc|done|done]. }
  assert (∀ d2 v at_ now, artifact_rows d !! ar_id artifact = None →
    same_ledger (put_artifact artifact d) d2 → artifact_uploads d2 !! au_id u = Some v →
    owns_finalization token v = true →
    commits I d (with_uploads d2 (au_id u) (complete_upload (ar_id artifact) at_ now v))) as Hcommits.
  { intros d2 v at_ now Hfree Hsame Hrv Hown.
    assert (v = row) as ->.
    { pose proof (f_equal snd (same_ledger_rest _ _ Hsame)) as [= _ EU _]. rewrite EU in Hrv.
      simpl in Hrv. congruence. }
    match goal with Hid : au_id row = _ |- _ => rewrite <-Hid in * end.
    eapply (commits_registration d d2 row artifact spool token); try done.
    - destruct Hp as (r2 & Hr2 & Hf2 & Ho2). exists r2. split_and!; congruence.
    - destruct Hv. split; congruence.
    - unfold registered in *. congruence. }
  unfold add_artifact. do 3 wp_step. wp_step; [by apply Hraise; [eapply st_committed|eapply St_safe]|]. subst.
  match goal with Hdm : None = None → _ |- _ => destruct (Hdm eq_refl) as [_ Hfree] end.
  apply orb_false_iff in Hfree as [Hfree _]. apply is_some_false in Hfree.
  do 3 wp_step; [|by wp_step; apply Hraise; [eapply st_committed|eapply St_safe] ].
  wp_step. eapply (wp_enqueue_for_job settings I (stable_outbox I)); [eassumption| |].
  2: { intros e sx _ Hc Hsafe. by apply Hraise. }
  intros d2 dm t2 event_key s2 Hsame Hdm _ Hst2. wp_simpl. do 3 wp_step.
  eapply (wp_update_upload_dirty I); [eassumption| |].
  - intros v s3 Hrv Hown Hst3. apply wp_bind. eapply wp_commit; [exact Hst3| | |].
    + intros e s4 Hst4. by apply Hraise; [eapply st_committed|eapply St_safe].
    + intros ->. by eapply Hcommits.
    + intros s4 -> Hst4. apply wp_ret. eapply HQ; [by eapply Hcommits| |exact Hst4].
      pose proof (f_equal snd (same_ledger_rest _ _ Hsame)) as [= ER _ _].
      eexists. split; [apply lookup_insert_eq|]. split; [done|]. split; [done|].
      simpl. rewrite ER. apply lookup_insert_eq.
  - do 2 wp_step. eapply (wp_rollback_agree I); [eassumption|]. intros c2 s4 [_ Hev2] Hst4.
    apply wp_raise. eapply HX, raised_open; [|exact Hst4]. done.
Qed.

Lemma ends_register_or_fail c u token artifact spool :
  known c u → published c u spool → verified u spool → registered u artifact →
  ends false c (register_or_fail settings storage u token artifact)
    (λ _ d, completed_as d (au_id u) artifact).
Proof.
  intros Hk Hp Hv Hreg. unfold register_or_fail.
  eapply ends_attempt_recover; [by eapply ends_register|intros; by ends_step|].
  intros e d Hev. destruct e as [| | |[]| | | | | | | | | | | | | | ]; try apply recovers_raise;
    apply recovers_rollback; intros d2 _ _;
    first [apply ends_http | ends_step; [apply ends_fail_published|ends_steps] ].
Qed.

Lemma ends_answer c u artifact key :
  completed_as c (au_id u) artifact →
  ends false c (answer_artifact settings storage u artifact key) (λ a d, completed_as d (au_id u) a).
Proof.
  intros Hc. apply ends_inv. intros HI. unfold answer_artifact. ends_step; [apply ends_cleanup_staging|].
  apply ends_bind_query. intros d Hev HId.
  assert (completed_as d (au_id u) artifact) as Hd by (eapply (completed_as_later c); [done|chain|done]).
  ends_step; [|ends_steps]. ends_step; [apply ends_sync|]. ends_step.
  assert (a0 = artifact) as -> by (destruct Hd as (v & _ & _ & _ & Hr); congruence).
  eapply (completed_as_later d); [done|chain|done].
Qed.

Lemma published_frame c u u' content :
  upload_frame u' = upload_frame u → published c u content → published c u' content.
Proof using Type.
  intros Hf (row & Hr & Hrow & Ho). pose proof Hf as [=]. exists row. split; [congruence|].
  split; [congruence|]. replace (au_canonical_object_key u') with (au_canonical_object_key u); done.
Qed.

Lemma ends_publish_and_register c u token job_id worker_id p spool :
  known c u → verified u spool →
  ends false c (publish_and_register settings storage u token job_id worker_id p spool)
    (λ a d, completed_as d (au_id u) a).
Proof.
  intros Hk Hv. apply ends_inv. intros HI. unfold publish_and_register.
  eapply ends_bind; [by apply ends_publish_upload|]. intros [] c1 Hev1 HI1 Hp1.
  ends_step; [apply ends_remove_spool|]. match goal with |- ends _ ?d _ _ => rename d into c2 end.
  eapply ends_bind; [apply ends_lock_finalization|]. intros u' c3 Hev3 HI3 [Hl Hid].
  assert (published c3 u spool) as Hp by (eapply (published_later c1); [done|chain|done]).
  apply later_known in Hl. assert (upload_frame u' = upload_frame u) as Hframe.
  { destruct Hl as (r1 & Hr1 & Hf1), Hp as (r2 & Hr2 & Hf2 & _). rewrite Hid in Hr1. congruence. }
  do 2 ends_step; [|ends_step]. ends_step. eapply ends_bind.
  - apply (ends_register_or_fail _ _ _ _ spool); [done|by apply (published_frame _ u)| |done].
    pose proof Hframe as [=]. destruct Hv. split; congruence.
  - intros key c4 _ _ Hc. rewrite <-Hid. by apply ends_answer.
Qed.

Lemma ends_finalize c job_id id p worker_id :
  ends false c (finalize_artifact_upload settings storage job_id id p worker_id)
    (λ a d, completed_as d id a).
Proof.
  unfold finalize_artifact_upload. eapply ends_bind; [apply ends_finalizable|].
  intros [u|artifact] c1 Hev1 HI1 Hk; [destruct Hk as [Hk <-]|by ends_step]. ends_step.
  eapply ends_bind; [apply ends_claim_finalization|]. intros u1 c2 Hev2 HI2 Hframe.
  eapply ends_bind; [apply ends_verify_upload|]. intros spool c3 Hev3 HI3 Hv.
  ends_step; [apply ends_recheck|].
  assert (au_id u = au_id u1) as Hid by (pose proof Hframe as [=]; done). rewrite Hid.
  apply ends_publish_and_register; [|done]. apply (known_frame _ u); [done|]. carry HI1 Hk.
Qed.

(** ** Every route preserves the invariant *)

Lemma initialize_artifact_upload_preserves job_id p worker_id :
  preserves I (initialize_artifact_upload settings storage base_url job_id p worker_id).
Proof. apply (ends_preserves I) with any. intros. apply ends_initialize. Qed.
Lemma local_presigned_upload_preserves id token length type body :
  preserves I (local_presigned_upload settings storage id token length type body).
Proof. apply (ends_preserves I) with any. intros. apply ends_local_upload. Qed.
Lemma finalize_artifact_upload_preserves job_id id p worker_id :
  preserves I (finalize_artifact_upload settings storage job_id id p worker_id).
Proof. eapply (ends_preserves I). intros. apply ends_finalize. Qed.
Lemma reconcile_preserves ids : preserves I (reconcile_artifact_upload_cleanup settings storage ids).
Proof. apply (ends_preserves I) with any. intros. apply ends_reconcile. Qed.
End correct.
