(* ===== verification/System.v ===== *)
(** * The system of the modelled handlers

    [request] lists the requests the Manager's API answers in this development and
    [handle] runs one of them.  The database of a running Manager is reached by steps: a
    request that runs on the committed database while other steps take place at its
    interleaving points; one commit, or one operation on the object store, of a request
    that started earlier; and a step of the parts that are not modelled, which leave the
    assignment, telemetry, account and artifact tables alone ([other_transaction]).

    The abstract specification is the life cycle of the Jobs alone: a map from Job ids
    to statuses in which a Job appears as [queued] and moves along one allowed
    transition at a time.  [system_refines_life_cycle] shows that the API implements
    it. *)

From S2P Require Import Prelude Json JobStatus JobConfig WorkerContract Redaction Settings Ledger.
From S2P Require Import Evolution Session Wp Mlflow WorkerTokens LeaseService WorkerRoutes.
From S2P Require Import StatusUpdate TelemetryIngest JobApi LedgerInvariant LeaseRecovery LeaseClaim.
From S2P Require Import Fixtures LeaseProperties WorkerTokensCorrect WorkerRoutesCorrect.
From S2P Require Import StatusUpdateCorrect TelemetryCorrect JobApiCorrect.
From S2P Require Import PyText Accounts UserAdmin AccountsCorrect AccountsProperties.
From S2P Require Import LogReads LogReadsCorrect Storage ArtifactService ArtifactCleanup.
From S2P Require Import ArtifactRoutes ArtifactFinalize ArtifactLaws ArtifactsCorrect.

(** The bearer of a request: the scheme in lower case and the credentials. *)
Notation bearer := (option (string * string)).

(** The requests, with the parts of their bodies and headers the handlers read;
    [EnsureAdmin] is the bootstrap command, [ProcessMlflow] a pass of the outbox. *)
Inductive request :=
  | RegisterWorker (payload : WorkerRegisterRequest) (bootstrap_token : option string)
  | ReEnrollWorker (payload : WorkerReEnrollRequest) (bootstrap_token : option string)
  | PrepareTokenRotation (rotation_id : string) (token : bearer)
  | ActivateTokenRotation (rotation_id : string) (token : bearer) (pending : option string)
  | AbortTokenRotation (rotation_id : string) (token : bearer)
  | RevokeWorkerToken (worker_id : string) (payload : WorkerTokenRevokeRequest) (token : bearer)
  | GetWorker (worker_id : string) (token : bearer)
  | Heartbeat (payload : WorkerHeartbeatRequest) (token : bearer)
  | Claim (capabilities : option WorkerCapabilities) (token : bearer)
  | NextJob (token : bearer)
  | RenewLease (job_id lease_id : string) (token : bearer)
  | UpdateJobStatus (job_id : string) (payload : JobStatusUpdate) (token : bearer)
  | IngestLogs (job_id : string) (payload : LogBatch) (token : bearer)
  | IngestMetrics (job_id : string) (payload : MetricBatch) (token : bearer)
  | IngestArtifacts (job_id : string) (payload : ArtifactBatch) (token : bearer)
  | DownloadJobDataset (job_id lease_id attempt_id : string) (token : bearer)
  | DownloadJobTestSetItem (job_id item_id lease_id attempt_id : string) (token : bearer)
  | GetJob (job_id : string) (token : bearer)
  | ListJobs (experiment_id : option string) (job_status : option JobStatus)
      (offset limit : nat) (token : bearer)
  | GetExperiment (experiment_id : string) (token : bearer)
  | CreateExperiment (payload : ExperimentCreate) (token : bearer)
  | UpdateExperiment (experiment_id : string) (payload : ExperimentUpdate) (token : bearer)
  | DeleteExperiment (experiment_id : string) (expected_row_version : Z) (token : bearer)
  | CreateJob (config : JobConfig) (token : bearer)
  | CancelJob (job_id : string) (token : bearer)
  | RetryJob (job_id : string) (token : bearer)
  | Login (email password : string)
  | Logout (token : bearer)
  | Me (token : bearer)
  | ListUsers (email : option string) (role : option Role) (active : option bool)
      (offset limit : nat) (token : bearer)
  | GetUser (user_id : string) (token : bearer)
  | ListJobLogs (job_id : string) (query : LogQuery) (token : bearer)
  | ListJobMetrics (job_id : string) (query : MetricQuery) (token : bearer)
  | StreamJobLogs (job_id : string) (after last_event_id : option string) (token : bearer)
  | CreateUser (email password : string) (role : Role) (active : bool)
      (idempotency_key : string) (token : bearer)
  | UpdateUserAccess (user_id : string) (payload : AdminUserAccessUpdate)
      (idempotency_key : string) (token : bearer)
  | ResetUserPassword (user_id : string) (payload : AdminUserPasswordReset)
      (idempotency_key : string) (token : bearer)
  | InitializeArtifactUpload (job_id : string) (payload : ArtifactUploadInitRequest) (token : bearer)
  | LocalPresignedUpload (upload_id : string)
      (upload_token content_length content_type : option string) (body : list string)
  | FinalizeArtifactUpload (job_id upload_id : string) (payload : ArtifactUploadFinalizeRequest)
      (token : bearer)
  | DownloadArtifact (artifact_id : string) (token : bearer)
  | ReconcileArtifactCleanup
  | EnsureAdmin (email password : string)
  | ProcessMlflow.

Section system.
  Context {CP : ContractParser} {WP : CapabilitiesParser} {RD : LogTextRedactor} {PF : Platform}
    {UT : UnicodeTables} {PH : PasswordHasher} {JW : JwtLibrary} {S3 : S3Client} {UH : UrlHosts}.
  Variable settings : Settings.
  Variable storage : ClaimStoragePort.
  Variable create_download_url : string → string → Z → option (option string).
  Variable samples_verified : Job → JobConfig → string → string → DB → option bool.
  (** The adapter of the artifact routes, and the URL at which the API is reached. *)
  Variable adapter : StorageAdapter.
  Variable base_url : string.

Definition ignore {A} (m : M A) : M () := _ ← m; mret ().

(** [WorkerDep]: the handler runs in the session that authenticated the Worker. *)
Definition as_worker {A} (token : bearer) (handler : Worker → M A) : M () :=
  worker ← require_worker settings token; ignore (handler worker).

(** [CurrentUserDep] and [AdminUserDep]: so do the handlers of users' requests. *)
Definition as_user {A} (token : bearer) (handler : User → M A) : M () :=
  user ← current_user settings token; ignore (handler user).
Definition as_admin {A} (token : bearer) (handler : User → M A) : M () :=
  admin ← require_admin_user settings token; ignore (handler admin).

(** The query passes its validators. *)
Definition checked {A} (valid : bool) (handler : M A) : M A :=
  _ ← reject_if (negb valid) 422 "validation error"; handler.

(** A body that fails its validators. *)
Definition validated {A B} (body : option A) (handler : A → M B) : M B :=
  match body with Some payload => handler payload | None => http 422 "validation error" end.

Definition lifecycle_write (op : user_operation) (valid : bool) (key : string) (admin : User)
    : M (AdminUserRead * bool) :=
  _ ← reject_if (negb (valid && IdempotencyKey_valid key)) 422 "validation error";
  run_operation settings op (u_id admin) key.

(** The retries of a status update and of a revocation are bounded by
    [status_update_terminates] and [revocation_terminates]; the body of a status update
    has passed its validators. *)
Definition handle (r : request) : M () :=
  match r with
  | RegisterWorker payload bootstrap => ignore (register_worker settings payload bootstrap)
  | ReEnrollWorker payload bootstrap => ignore (re_enroll_worker settings payload bootstrap)
  | PrepareTokenRotation rotation_id token =>
      as_worker token (prepare_token_rotation settings rotation_id)
  | ActivateTokenRotation rotation_id token pending =>
      as_worker token (λ worker, activate_token_rotation settings rotation_id worker pending)
  | AbortTokenRotation rotation_id token => as_worker token (abort_token_rotation rotation_id)
  | RevokeWorkerToken worker_id payload token =>
      as_admin token (λ admin, revoke_worker_token settings 2 worker_id payload (u_id admin))
  | GetWorker worker_id token => as_admin token (λ _, get_worker settings worker_id)
  | Heartbeat payload token => as_worker token (heartbeat settings payload)
  | Claim capabilities token => as_worker token (claim settings storage capabilities)
  | NextJob token => as_worker token (next_job settings storage)
  | RenewLease job_id lease_id token => as_worker token (renew_lease settings job_id lease_id)
  | UpdateJobStatus job_id payload token =>
      as_worker token (λ worker,
        _ ← reject_if (negb (JobStatusUpdate_valid payload)) 422 "validation error";
        update_job_status settings samples_verified 3 job_id payload (w_id worker))
  | IngestLogs job_id payload token =>
      as_worker token (λ worker, ingest_logs job_id payload (w_id worker))
  | IngestMetrics job_id payload token =>
      as_worker token (λ worker, ingest_metrics settings job_id payload (w_id worker))
  | IngestArtifacts job_id payload token =>
      as_worker token (λ worker, ingest_artifacts settings job_id payload (w_id worker))
  | DownloadJobDataset job_id lease_id attempt_id token =>
      as_worker token (λ worker, download_job_dataset settings storage create_download_url job_id
                                   worker lease_id attempt_id)
  | DownloadJobTestSetItem job_id item_id lease_id attempt_id token =>
      as_worker token (λ worker, download_job_test_set_item settings storage create_download_url
                                   job_id item_id worker lease_id attempt_id)
  | GetJob job_id token => as_user token (get_job job_id)
  | ListJobs experiment_id job_status offset limit token =>
      as_user token (λ user, list_jobs user experiment_id job_status offset limit)
  | GetExperiment experiment_id token => as_user token (get_experiment experiment_id)
  | CreateExperiment payload token => as_user token (create_experiment settings payload)
  | UpdateExperiment experiment_id payload token =>
      as_user token (update_experiment experiment_id payload)
  | DeleteExperiment experiment_id version token =>
      as_user token (delete_experiment settings experiment_id version)
  | CreateJob config token => as_user token (create_job settings config)
  | CancelJob job_id token => as_user token (cancel_job job_id)
  | RetryJob job_id token => as_user token (retry_job job_id)
  | Login email password =>
      ignore (validated (LoginRequest_of email password) (login settings))
  | Logout token => sign_out settings token
  | Me token => as_user token (λ user, mret user)
  | ListUsers email role active offset limit token =>
      as_admin token (λ _, list_users email role active offset limit)
  | ListJobLogs job_id query token =>
      as_user token (λ user, checked (LogQuery_valid query) (list_job_logs job_id query user))
  | ListJobMetrics job_id query token =>
      as_user token (λ user, checked (MetricQuery_valid query) (list_job_metrics job_id query user))
  | StreamJobLogs job_id after last_event_id token =>
      auth ← require_user_auth settings token;
      ignore (checked (bounded (length_within 1 512) after && bounded (length_within 1 512) last_event_id)
                (start_stream job_id after last_event_id auth))
  | GetUser user_id token => as_admin token (λ _, get_user user_id)
  | CreateUser email password role active key token =>
      as_admin token (λ admin, validated (AdminUserCreate_of email password role active)
        (λ payload, lifecycle_write (OpCreate payload) true key admin))
  | UpdateUserAccess user_id payload key token =>
      as_admin token (lifecycle_write (OpUpdate user_id payload)
                        (AdminUserAccessUpdate_valid payload) key)
  | ResetUserPassword user_id payload key token =>
      as_admin token (lifecycle_write (OpReset user_id payload)
                        (AdminUserPasswordReset_valid payload) key)
  | InitializeArtifactUpload job_id payload token =>
      as_worker token (λ worker,
        checked (ArtifactUploadInitRequest_valid payload)
          (initialize_artifact_upload settings adapter base_url job_id payload (w_id worker)))
  | LocalPresignedUpload upload_id upload_token content_length content_type body =>
      local_presigned_upload settings adapter upload_id upload_token content_length content_type body
  | FinalizeArtifactUpload job_id upload_id payload token =>
      as_worker token (λ worker,
        checked (ArtifactUploadFinalizeRequest_valid payload)
          (finalize_artifact_upload settings adapter job_id upload_id payload (w_id worker)))
  | DownloadArtifact artifact_id token =>
      as_user token (download_artifact settings adapter base_url artifact_id)
  | ReconcileArtifactCleanup =>
      ignore (reconcile_artifact_upload_cleanup settings adapter None)
  | EnsureAdmin email password => ignore (ensure_admin_user email password)
  | ProcessMlflow => ignore (process_pending_once settings)
  end.

(** ** Every request preserves a stable invariant *)

(** A session at the start of a request: nothing is kept in [session.info] yet. *)
Definition keeps (I : DB → Prop) {A} (m : M A) : Prop :=
  ∀ s, clean_session I s → s_info s = ∅ → wp m (λ _ s', safe I s') s.

Section keeps.
  Context (I : DB → Prop) `{!StableArtifacts I}.

Lemma keeps_ignore {A} (m : M A) : keeps I m → keeps I (ignore m).
Proof.
  intros Hm s Hs Hi. unfold ignore. apply wp_bind. eapply wp_mono; [by apply Hm|].
  by intros [].
Qed.

Lemma preserves_keeps {A} (m : M A) : preserves I m → keeps I m.
Proof. intros Hm s Hs _. by apply Hm. Qed.

Lemma keeps_as_worker {A} token (handler : Worker → M A) :
  (∀ worker, keeps I (handler worker)) → keeps I (as_worker token handler).
Proof.
  intros Hh s Hs Hi. assert (safe I s) as Hsafe by apply Hs.
  pose proof (clean_St _ _ Hs) as Hst. unfold as_worker, require_worker. wp_steps; try done.
  by apply keeps_ignore.
Qed.

Lemma keeps_authenticated {A} token (handler : UserAuthContext → M A) :
  (∀ auth, keeps I (handler auth)) → keeps I (auth ← require_user_auth settings token; handler auth).
Proof.
  intros Hh s Hs Hi. pose proof (clean_St _ _ Hs) as Hst. apply wp_bind.
  eapply (wp_require_user_auth settings I); [exact Hst| |done].
  intros auth c t s1 _ _ Hst1. apply Hh.
  - split; [by eapply St_safe|]. destruct Hst1. by split_and!; [congruence|..].
  - destruct Hst1. congruence.
Qed.

Lemma keeps_as_user {A} token (handler : User → M A) :
  (∀ user, keeps I (handler user)) → keeps I (as_user token handler).
Proof.
  intros Hh. unfold as_user, current_user. intros s Hs Hi.
  enough (wp (auth ← require_user_auth settings token; ignore (handler (au_user auth)))
             (λ _ s', safe I s') s) as Hwp.
  { revert Hwp. unfold wp, mbind, M_bind.
    destruct (require_user_auth settings token s) as [[auth|e] s1]; done. }
  apply keeps_authenticated; [|done..]. intros auth. by apply keeps_ignore.
Qed.

Lemma keeps_reject {A} b n text (handler : M A) :
  (b = false → keeps I handler) → keeps I (_ ← reject_if b n text; handler).
Proof.
  intros Hh s Hs Hi. apply wp_bind, wp_reject_if; [intros _; apply Hs|].
  intros Hb. by apply Hh.
Qed.

Lemma keeps_as_admin {A} token (handler : User → M A) :
  (∀ user, keeps I (handler user)) → keeps I (as_admin token handler).
Proof.
  intros Hh. unfold as_admin, require_admin_user. intros s Hs Hi.
  enough (wp (auth ← require_user_auth settings token;
              _ ← reject_if (negb ⌊ u_role (au_user auth) = "admin" ⌋) 403
                    "administrator role required"; ignore (handler (au_user auth)))
             (λ _ s', safe I s') s) as Hwp.
  { revert Hwp. unfold wp, mbind, M_bind, mret, M_ret.
    destruct (require_user_auth settings token s) as [[auth|e] s1]; [|done]. simpl.
    by destruct (reject_if _ _ _ s1) as [[[]|e] s2]. }
  apply keeps_authenticated; [|done..]. intros auth. apply keeps_reject. intros _.
  by apply keeps_ignore.
Qed.

Lemma keeps_validated {A B} (body : option A) (handler : A → M B) :
  (∀ payload, keeps I (handler payload)) → keeps I (validated body handler).
Proof using Type. intros Hh. destruct body; [apply Hh|]. intros s Hs _. apply Hs. Qed.

Lemma keeps_lifecycle op valid key admin : keeps I (lifecycle_write op valid key admin).
Proof using All.
  unfold lifecycle_write. apply keeps_reject. intros _.
  apply preserves_keeps, run_operation_preserves, _.
Qed.

Lemma keeps_update job_id payload worker_id :
  keeps I (_ ← reject_if (negb (JobStatusUpdate_valid payload)) 422 "validation error";
           update_job_status settings samples_verified 3 job_id payload worker_id).
Proof using All.
  intros s Hs Hi. apply wp_bind, wp_reject_if; [intros _; apply Hs|]. intros Hv. bools.
  apply clean_St in Hs. rewrite Hi in Hs.
  eapply (wp_update_status settings samples_verified I); [exact Hs|done|done|done| |done].
  intros d d1 attempt_id lease job attempt w now ack s' Hsafe _ _ _. exact Hsafe.
Qed.

Lemma keeps_revoke worker_id payload admin :
  keeps I (revoke_worker_token settings 2 worker_id payload admin).
Proof using All.
  intros s Hs Hi. apply clean_St in Hs. rewrite Hi in Hs.
  eapply (wp_revoke settings I); [exact Hs|done|simpl; lia|lia|done|done].
Qed.

Lemma get_worker_preserves worker_id : preserves I (get_worker settings worker_id).
Proof using All.
  start_handler. unfold get_worker. wp_steps; [|finish_safe].
  eapply (wp_worker_to_read settings I); [done|done|done].
Qed.

Lemma process_pending_preserves : preserves I (process_pending_once settings).
Proof using All.
  start_handler. eapply (process_pending_ok settings I (stable_outbox I)); [done| |done].
  intros. finish_safe.
Qed.

Lemma me_preserves (user : User) : preserves I (mret (M := M) user).
Proof using Type. start_handler. by eapply St_safe. Qed.

#[local] Hint Resolve register_worker_preserves re_enroll_worker_preserves
  prepare_token_rotation_preserves activate_token_rotation_preserves abort_token_rotation_preserves
  heartbeat_preserves claim_preserves next_job_preserves renew_lease_preserves ingest_logs_stable
  ingest_metrics_stable ingest_artifacts_stable download_job_dataset_preserves
  download_job_test_set_item_preserves list_job_logs_preserves list_job_metrics_preserves
  start_stream_preserves get_job_preserves list_jobs_preserves
  get_experiment_preserves create_experiment_preserves update_experiment_preserves
  delete_experiment_preserves create_job_preserves cancel_job_preserves retry_job_preserves
  initialize_artifact_upload_preserves local_presigned_upload_preserves
  finalize_artifact_upload_preserves download_artifact_preserves reconcile_preserves
  get_worker_preserves process_pending_preserves login_preserves sign_out_preserves
  list_users_preserves get_user_preserves ensure_admin_user_preserves me_preserves : rvc.

Lemma handle_keeps r : keeps I (handle r).
Proof using All.
  assert (Stable I) as Hstable by apply _.
  destruct r; simpl;
    first [apply keeps_as_worker; intros ? | apply keeps_as_admin; intros ?
          | apply keeps_as_user; intros ? | apply keeps_ignore
          | apply keeps_authenticated; intros ?; apply keeps_ignore | idtac];
    try (apply keeps_validated; intros ?); try match goal with |- keeps I (checked _ _) => apply keeps_reject; intros _ end;
    first [apply keeps_update | apply keeps_revoke | apply keeps_lifecycle
          | apply preserves_keeps; auto with rvc].
Qed.
End keeps.

(** ** Transactions and reachable databases *)

(** A request starts in a new session; [s_env] is what the other transactions do at its
    interleaving points, [s_outcomes] and [s_delays] are arbitrary. *)
Record starts (d : DB) (s : Session) : Prop := mkStarts {
  sr_committed : s_committed s = d;
  sr_working : s_working s = d;
  sr_dirty : s_dirty s = false;
  sr_doomed : s_doomed s = None;
  sr_info : s_info s = ∅;
  sr_log : s_log s = [] }.

(** A step of the parts outside the model: datasets, test sets, the registry, maintenance,
    and the Worker that puts a file into S3 with the URL it was given.  None of them writes
    the tables below, and none has a key under which a verified artifact is stored. *)
Record other_transaction (d d' : DB) : Prop := mkOther {
  ot_workers : workers d' = workers d;
  ot_jobs : jobs d' = jobs d;
  ot_attempts : attempts d' = attempts d;
  ot_leases : leases d' = leases d;
  ot_logs : job_logs d' = job_logs d;
  ot_metrics : metrics d' = metrics d;
  ot_accounts : accounts_of d' = accounts_of d;
  ot_artifacts : artifact_rows d' = artifact_rows d;
  ot_uploads : artifact_uploads d' = artifact_uploads d;
  ot_objects : ∀ key, startswith key "artifacts/verified/" = true →
    objects d' !! key = objects d !! key }.

(** Steps of rank at most [depth].  A step is a whole request, or one transaction of
    a request that started on an earlier database; what is interleaved with a request is a
    sequence of steps of lower rank, whatever the database they find, that leaves the rows
    the request has locked alone.  The rank of a step in a run is at most its position, so
    any interleaving of the transactions of any number of requests is a run. *)
Fixpoint transaction (depth : nat) (d d' : DB) : Prop :=
  match depth with
  | O => other_transaction d d'
  | S depth' =>
      other_transaction d d' ∨
      ∃ r d0 s, starts d0 s ∧
        Forall (λ f, respects_locks f ∧ ∀ locks x, rtc (transaction depth') x (f locks x)) (s_env s) ∧
        (d0 = d ∧ d' = after (handle r) s ∨
         rtc (transaction depth') empty_DB d0 ∧ (d, d') ∈ s_log (handle r s).2)
  end.

Definition system_step (d d' : DB) : Prop := ∃ depth, transaction depth d d'.

(** The committed databases of a Manager that was installed empty. *)
Definition reachable (d : DB) : Prop := rtc system_step empty_DB d.

(** What holds of every committed database. *)
Definition Sound (d : DB) : Prop := Inv d ∧ ArtifactsInv d.
Definition Sound_from (c0 d : DB) : Prop := Sound d ∧ evolves c0 d.

#[local] Instance StableArtifacts_Sound_from c0 : StableArtifacts (Sound_from c0).
Proof using Type.
  split; [split|]; [by intros d [ [] ]| |by intros d [ [] ] ].
  intros c d [ [_ HA] H0] Hev HI. split; [split; [done|apply (ev_artifacts _ _ Hev HA)]|by etrans].
Qed.

#[export] Instance StableArtifacts_Sound : StableArtifacts Sound.
Proof using Type.
  split; [split|]; [by intros d []| |by intros d []].
  intros c d [_ HA] Hev HI. split; [done|apply (ev_artifacts _ _ Hev HA)].
Qed.

Lemma Sound_empty : Sound empty_DB.
Proof using Type. split; [apply Inv_empty|by split]. Qed.

Lemma rtc_stable (R : relation DB) :
  (∀ c d, Sound c → R c d → Sound d ∧ evolves c d) →
  ∀ c d, Sound c → rtc R c d → Sound d ∧ evolves c d.
Proof using Type.
  intros HR c d HI Hrtc. induction Hrtc as [c|c x d Hcx Hxd IH]; [done|].
  destruct (HR _ _ HI Hcx) as [HIx Hev]. destruct (IH HIx) as [HId Hev']. split; [done|by etrans].
Qed.

(** The verified copies are out of their reach. *)
Lemma other_artifacts c d : other_transaction c d → artifacts_step c d.
Proof using Type.
  intros [_ _ _ _ _ _ _ Hr Hu Ho] HA.
  assert (artifacts_step c (with_objects (λ _, objects d) c)) as Hs.
  { intros _. refine (artifacts_step_objects _ _ _ HA). intros k u content Hk Hc. left.
    rewrite Ho; [done|]. destruct HA as [_ _ K _ _ _]. by destruct (K _ _ Hk) as [_ ->]. }
  refine (artifacts_step_ext _ (with_objects (λ _, objects d) c) _ _ Hs HA).
  unfold artifacts_of. by rewrite Hr, Hu.
Qed.

Lemma other_same_core c d : other_transaction c d → same_core c d.
Proof using Type.
  intros Ho. pose proof (other_artifacts _ _ Ho) as HA. destruct Ho as [? ? ? ? ? ? Ha _ _ _].
  split; try done. split; [by apply accounts_step_same|done].
Qed.

Lemma other_sound c d : Sound c → other_transaction c d → Sound d ∧ evolves c d.
Proof using Type.
  intros [HI HA] Ho%other_same_core. assert (evolves c d) as Hev by by apply evolves_same_core.
  split; [|done]. split; [by eapply Inv_same_core|apply (ev_artifacts _ _ Hev HA)].
Qed.

Lemma transaction_sound depth c d : Sound c → transaction depth c d → Sound d ∧ evolves c d.
Proof.
  revert c d. induction depth as [|depth IH]; intros c d HI Ht; [by apply other_sound|].
  destruct Ht as [Ho|(r & d0 & s & Hs & Henv & Hcase)]; [by apply other_sound|].
  assert (Sound d0) as HI0.
  { destruct Hcase as [[-> _]|[Hrun _]]; [done|]. by destruct (rtc_stable _ IH _ _ Sound_empty Hrun). }
  assert (clean_session (Sound_from d0) s) as Hclean.
  { destruct Hs as [Hc Hw Hd Hdm _ Hlog]. split; [|by rewrite Hc, Hw]. split; [by rewrite Hc|].
    split; [|by rewrite Hlog].
    eapply Forall_impl; [exact Henv|]. intros f [Hlocks Hf]. split; [done|].
    intros L x [HIx Hcx]. destruct (rtc_stable _ IH _ _ HIx (Hf L x)) as [HI' Hev].
    split; [|done]. split; [done|by etrans]. }
  destruct (handle_keeps (Sound_from d0) r s Hclean (sr_info _ _ Hs)) as [Hsafe [_ Hlog]].
  destruct Hcase as [[-> ->]|[_ Hin]]; [exact Hsafe|].
  rewrite Forall_forall in Hlog. destruct (Hlog _ Hin) as [[HId _] Hev]. done.
Qed.

Lemma system_step_sound c d : Sound c → system_step c d → Sound d ∧ evolves c d.
Proof. intros HI [depth Ht]. by eapply transaction_sound. Qed.

Lemma reachable_Sound d : reachable d → Sound d.
Proof. intros Hr. by eapply (rtc_stable _ system_step_sound); [apply Sound_empty|]. Qed.
Lemma reachable_Inv d : reachable d → Inv d.
Proof. by intros []%reachable_Sound. Qed.

(** C1: every committed database of the system is consistent, however requests are
    interleaved. An active lease assigns its Job to its Worker (and Job, attempt and Worker
    agree on it); no Job and no Worker has two; a Job in a leased status, a busy Worker and
    an unfinished attempt have one; a token authenticates one Worker; sealed telemetry
    stays below its watermarks. *)
Theorem reachable_is_consistent d :
  reachable d →
  (∀ k l, leases d !! k = Some l → l_active l = true →
     ∃ job attempt worker, assigned (workers d) (jobs d) (attempts d) l job attempt worker) ∧
  (∀ k1 l1 k2 l2, leases d !! k1 = Some l1 → leases d !! k2 = Some l2 →
     l_active l1 = true → l_active l2 = true →
     l_job_id l1 = l_job_id l2 ∨ l_worker_id l1 = l_worker_id l2 → k1 = k2) ∧
  (∀ k job, jobs d !! k = Some job → leased (j_status job) →
     ∃ kl l, leases d !! kl = Some l ∧ l_active l = true ∧ l_job_id l = k) ∧
  (∀ k w j, workers d !! k = Some w → w_current_job_id w = Some j →
     ∃ kl l, leases d !! kl = Some l ∧ l_active l = true ∧ l_worker_id l = k ∧ l_job_id l = j) ∧
  (∀ k a, attempts d !! k = Some a → a_finished_at a = None →
     ∃ kl l, leases d !! kl = Some l ∧ l_active l = true ∧ l_attempt_id l = k) ∧
  (∀ k1 w1 k2 w2, workers d !! k1 = Some w1 → workers d !! k2 = Some w2 →
     w_token_hash w1 = w_token_hash w2 → k1 = k2) ∧
  SealInv (attempts d) (job_logs d) (metrics d).
Proof.
  intros (HL & HS & HC & _)%reachable_Inv. split_and!; [apply HL| |apply HL| |apply HL|exact HC|exact HS].
  - intros k1 l1 k2 l2 H1 H2 A1 A2 [Hj|Hw]; [by eapply active_same_job|by eapply active_same_worker].
  - intros k w j Hw Hj. by eapply busy_lease.
Qed.

(** ** The life cycle as an abstract specification *)

(** One step of the abstract machine: a Job appears, or moves along an allowed transition. *)
Inductive life_step : relation (gmap string JobStatus) :=
  | life_new m k : m !! k = None → life_step m (<[k := QUEUED]> m)
  | life_move m k s t : m !! k = Some s → status_step s t → life_step m (<[k := t]> m).

(** The abstract state of a database. *)
Definition life_of (d : DB) : gmap string JobStatus := omap (JobStatus_of ∘ j_status) (jobs d).

(** Every Job has a status of the life cycle. *)
Definition known_statuses (d : DB) : Prop :=
  ∀ k job, jobs d !! k = Some job → ∃ s, j_status job = value s.

Lemma status_path_value s x : status_path (value s) x → ∃ t, x = value t ∧ rtc status_step s t.
Proof using Type.
  remember (value s) as y eqn:Hy. intros Hp. revert s Hy.
  induction Hp as [|y z w (s1 & s2 & -> & -> & Hhop) Hrest IH]; intros s Hy; [by exists s|].
  apply value_inj in Hy as <-. destruct (IH _ eq_refl) as (t & -> & Ht). exists t.
  split; [done|by eapply rtc_l].
Qed.

Lemma life_moves m k s t : m !! k = Some s → rtc status_step s t → rtc life_step m (<[k := t]> m).
Proof using Type.
  intros Hk Hp. revert m Hk. induction Hp as [s|s u t Hsu Hut IH]; intros m Hk.
  - by rewrite insert_id.
  - eapply rtc_l; [by apply (life_move _ k s u)|]. rewrite <-(insert_insert_eq m k t u).
    apply IH. by rewrite lookup_insert_eq.
Qed.

(** A row of the target map is reached from what the source map has there. *)
Definition life_reaches (o : option JobStatus) (t : JobStatus) : Prop :=
  rtc status_step (default QUEUED o) t.

Lemma life_row m k t : life_reaches (m !! k) t → rtc life_step m (<[k := t]> m).
Proof using Type.
  unfold life_reaches. destruct (m !! k) as [s|] eqn:Hk; simpl; intros Hp; [by eapply life_moves|].
  eapply rtc_l; [by apply (life_new _ k)|]. rewrite <-(insert_insert_eq m k t QUEUED).
  apply (life_moves _ _ QUEUED); [by rewrite lookup_insert_eq|done].
Qed.

(** Pointwise moves of a finite map are a sequence of single moves. *)
Lemma life_pointwise (m' : gmap string JobStatus) : ∀ m,
  (∀ k t, m' !! k = Some t → life_reaches (m !! k) t) → rtc life_step m (m' ∪ m).
Proof using Type.
  induction m' as [|k t m' Hk IH] using map_ind; intros m Hm.
  - by rewrite (left_id_L ∅ (∪)).
  - rewrite <-insert_union_l. etrans; [apply (IH m)|].
    + intros k' t' Hk'. apply Hm. rewrite lookup_insert_ne; [done|]. congruence.
    + apply life_row. rewrite lookup_union_r by done. apply Hm. apply lookup_insert_eq.
Qed.

Lemma life_of_lookup d k s :
  life_of d !! k = Some s ↔ ∃ job, jobs d !! k = Some job ∧ j_status job = value s.
Proof using Type.
  unfold life_of. rewrite lookup_omap. split.
  - destruct (jobs d !! k) as [job|]; simpl; [|done]. intros Hs%JobStatus_of_Some. by exists job.
  - intros (job & -> & Hs). simpl. by apply JobStatus_of_Some.
Qed.

Lemma evolves_life c d : evolves c d → known_statuses c →
  known_statuses d ∧ rtc life_step (life_of c) (life_of d).
Proof using Type.
  intros [HJ _ _ _ _ _] Hc.
  assert (∀ k job, jobs d !! k = Some job →
            ∃ t, j_status job = value t ∧ life_reaches (life_of c !! k) t) as Hrow.
  { intros k job Hk. specialize (HJ k). rewrite Hk in HJ. unfold row_step in HJ.
    destruct (jobs c !! k) as [j0|] eqn:Hj0.
    - destruct (Hc _ _ Hj0) as (s & Hs). apply job_evolves_soft in HJ as [_ Hp _].
      rewrite Hs in Hp. destruct (status_path_value _ _ Hp) as (t & Ht & Hst). exists t.
      split; [done|]. assert (life_of c !! k = Some s) as -> by (apply life_of_lookup; by exists j0).
      done.
    - destruct (status_path_value _ _ HJ) as (t & Ht & Hst). exists t. split; [done|].
      unfold life_of. by rewrite lookup_omap, Hj0. }
  split.
  - intros k job Hk. destruct (Hrow _ _ Hk) as (t & Ht & _). by exists t.
  - assert (life_of d = life_of d ∪ life_of c) as ->.
    { apply map_eq. intros k. rewrite lookup_union. destruct (life_of d !! k) as [t|] eqn:Hk; simpl.
      - by destruct (life_of c !! k).
      - destruct (life_of c !! k) as [s|] eqn:Hck; [|done]. exfalso.
        apply life_of_lookup in Hck as (j0 & Hj0 & _). specialize (HJ k). rewrite Hj0 in HJ.
        destruct (jobs d !! k) as [job|] eqn:Hjob; [|done].
        destruct (Hrow _ _ Hjob) as (t & Ht & _).
        assert (life_of d !! k = Some t) by (apply life_of_lookup; by exists job). congruence. }
    apply life_pointwise. intros k t (job & Hjob & Ht)%life_of_lookup.
    destruct (Hrow _ _ Hjob) as (t' & Ht' & Hr). rewrite Ht in Ht'. by apply value_inj in Ht' as ->.
Qed.

Lemma reachable_evolves d : reachable d → evolves empty_DB d.
Proof. intros Hr. by eapply (rtc_stable _ system_step_sound); [apply Sound_empty|]. Qed.

(** C3: the API implements the life cycle of Jobs. From a reachable database, every
    transaction - with all that is interleaved with it - is a sequence of steps of the
    abstract machine, so of Jobs that appear as QUEUED and of single allowed transitions;
    and every reachable database is an abstract state the machine reaches from the empty
    one. *)
Theorem system_refines_life_cycle c :
  reachable c → known_statuses c ∧ rtc life_step ∅ (life_of c) ∧
  ∀ d, system_step c d → rtc life_step (life_of c) (life_of d).
Proof.
  intros Hr. assert (known_statuses empty_DB) as Hempty by done.
  destruct (evolves_life _ _ (reachable_evolves _ Hr) Hempty) as [Hc Hlife]. split_and!; [done|done|].
  intros d Hstep. apply evolves_life; [|done].
  eapply system_step_sound; [by apply reachable_Sound|done].
Qed.

(** C6: what is written once stays. Along any run of the system from a reachable database,
    the configuration columns of a Job never change and its attempt count does not
    decrease; a finished attempt and a released lease are never touched again; the end of
    a lease is never moved back; and stored log lines and metrics stay as they are. *)
Theorem history_is_append_only c d :
  reachable c → rtc system_step c d →
  (∀ k job, jobs c !! k = Some job → ∃ job', jobs d !! k = Some job' ∧
     job_frame job' = job_frame job ∧ j_attempt_count job <= j_attempt_count job') ∧
  (∀ k a, attempts c !! k = Some a → is_Some (a_finished_at a) → attempts d !! k = Some a) ∧
  (∀ k l, leases c !! k = Some l → ∃ l', leases d !! k = Some l' ∧
     l_expires_at l <= l_expires_at l' ∧ (l_active l = false → l' = l)) ∧
  job_logs c ⊆ job_logs d ∧ metrics c ⊆ metrics d.
Proof.
  intros Hr Hrun.
  destruct (rtc_stable _ system_step_sound _ _ (reachable_Sound _ Hr) Hrun) as [_ [HJ HA HL HG HM _]].
  split_and!; [| | |done|done].
  - intros k job Hk. destruct (table_step_lookup _ _ _ _ _ _ HJ Hk) as (job' & Hk' & He).
    apply job_evolves_soft in He as []. by exists job'.
  - intros k a Hk Hf. destruct (table_step_lookup _ _ _ _ _ _ HA Hk) as (a' & Hk' & [_ He]).
    by rewrite Hk', He.
  - intros k l Hk. destruct (table_step_lookup _ _ _ _ _ _ HL Hk) as (l' & Hk' & []). by exists l'.
Qed.

(** ** Accounts *)

Lemma reachable_accounts d : reachable d → AccountsInv d.
Proof. intros Hr. apply (ev_accounts _ _ (reachable_evolves _ Hr) empty_AccountsInv). Qed.

(** C34: the account tables are well typed in every committed database. Each account is
    stored under its own id, has one of the two roles and positive versions; no two
    accounts share an address; every recorded lifecycle operation is stored under its
    actor and key, answers for the resource it names, and both are accounts; every revoked
    token and the recorded first administrator belong to an account. *)
Theorem accounts_are_well_typed d :
  reachable d →
  (∀ k u, users d !! k = Some u → u_id u = k ∧ (∃ r, u_role u = Role_value r) ∧
     1 <= u_row_version u ∧ 1 <= u_access_token_version u) ∧
  (∀ k1 u1 k2 u2, users d !! k1 = Some u1 → users d !! k2 = Some u2 →
     u_email u1 = u_email u2 → k1 = k2) ∧
  (∀ k o, admin_operations d !! k = Some o → k = (op_actor_id o, op_idempotency_key_hash o) ∧
     ur_id (op_response o) = op_resource_id o ∧
     is_Some (users d !! op_actor_id o) ∧ is_Some (users d !! op_resource_id o)) ∧
  (∀ k t, revoked_tokens d !! k = Some t → rt_jti t = k ∧ is_Some (users d !! rt_user_id t)) ∧
  (∀ b id, bootstrap_state d = Some b → bs_admin_user_id b = Some id → is_Some (users d !! id)).
Proof.
  intros [HK HE HR HV HO HT HB]%reachable_accounts. split_and!; [|done..].
  intros k u Hu. destruct (HV _ _ Hu). split_and!; [by apply HK| |done|done].
  specialize (HR _ _ Hu). unfold role_allowed in HR. apply orb_true_iff in HR as [HR|HR]; bools.
  - by exists RoleAdmin.
  - by exists RoleUser.
Qed.

(** C16: the installation cannot lose its last administrator. Once an active administrator
    exists, one exists after any run of the system, however requests demote, disable and
    race; no account disappears or changes its address, and its role, its activity and its
    password change only together with a new version of its tokens. *)
Theorem administrator_remains c d :
  reachable c → rtc system_step c d → has_admin c →
  has_admin d ∧
  ∀ k u, users c !! k = Some u → ∃ u', users d !! k = Some u' ∧ u_email u' = u_email u ∧
    (authority u' = authority u ∨ u_access_token_version u < u_access_token_version u').
Proof.
  intros Hr Hrun Hadmin.
  destruct (rtc_stable _ system_step_sound _ _ (reachable_Sound _ Hr) Hrun) as [_ Hev].
  pose proof (reachable_accounts _ Hr) as HA.
  destruct (ev_accounts _ _ Hev HA) as [_ _ _ _ _ Hkeep]. split; [by apply Hkeep|].
  intros k u Hu. destruct (evolves_users _ _ _ _ Hev HA Hu) as (u' & Hu' & Hue). exists u'.
  split; [done|]. destruct Hue as [->|[[=] _ _ Hauth]]; [by split; [|left]|by split].
Qed.

(** A session of the system on the database [d]: steps of the system take place at its
    interleaving points. *)
Definition system_session (d : DB) (s : Session) : Prop :=
  starts d s ∧
  Forall (λ f, respects_locks f ∧ ∀ locks x, rtc system_step x (f locks x)) (s_env s).

Lemma system_session_fresh d s : Sound d → system_session d s → fresh_session Sound s.
Proof.
  intros Hd [[Hc Hw Hdirty Hdm _ Hlog] Henv]. split; [|by rewrite Hw, Hc].
  split; [by rewrite Hc|]. split; [|by rewrite Hlog].
  eapply Forall_impl; [exact Henv|]. intros f [Hlocks Hf]. split; [done|].
  intros L x Hx. by apply (rtc_stable _ system_step_sound _ _ Hx).
Qed.

(** C17: whatever changes the role, the activity or the password of an account ends the
    tokens issued before. If a token is accepted for an account in a session of the system,
    then after any run of the system - with whatever requests are interleaved - that leaves
    the account with another role, activity or password, or with another token version,
    the token is refused: also when a previous value has been restored in between, and
    whatever the system does while the token is checked. *)
Theorem authority_change_invalidates_tokens bearer c s auth d user s2 :
  JwtLaws settings → reachable c → system_session c s →
  outcome (require_user_auth settings bearer) s = Ok auth →
  rtc system_step (after (require_user_auth settings bearer) s) d →
  users d !! u_id (au_user auth) = Some user →
  authority user ≠ authority (au_user auth) ∨
    u_access_token_version user ≠ u_access_token_version (au_user auth) →
  system_session d s2 →
  ∀ auth2, outcome (require_user_auth settings bearer) s2 ≠ Ok auth2.
Proof.
  intros Hjwt Hc Hs Hout Hrun Hu Hne Hs2 auth2 Hout2.
  pose proof (system_session_fresh _ _ (reachable_Sound _ Hc) Hs) as Hf.
  assert (AccountsInv (s_committed s)) as HA.
  { rewrite (sr_committed _ _ (proj1 Hs)). by apply reachable_accounts. }
  destruct (rtc_stable _ system_step_sound _ _ (auth_after _ _ _ _ _ Hf Hout) Hrun) as [Hd Hev].
  destruct (accepted_twice _ Hjwt _ _ _ _ _ _ _ Hf HA Hout Hev (system_session_fresh _ _ Hd Hs2)
    (sr_committed _ _ (proj1 Hs2)) Hout2) as (_ & u & Hud & _ & Hver & Hauth).
  destruct (auth_outcome _ _ _ _ _ Hf Hout) as [[_ _ Hu0 _] Hev1].
  assert (AccountsInv (after (require_user_auth settings bearer) s)) as HA1
    by by apply (ev_accounts _ _ Hev1).
  rewrite (ai_key _ HA1 _ _ Hu0) in Hu. assert (u = user) as -> by congruence.
  by destruct Hne.
Qed.
End system.

(** ** Witnesses *)

#[local] Existing Instances sample_parser sample_capabilities_parser sample_redactor.
#[local] Existing Instances uuid_platform sample_tables sample_hasher sample_jwt.

(** A signer and hosts of plain ASCII; the local adapter. *)
#[export] Instance sample_s3 : S3Client := {|
  generate_presigned_url operation params expires method :=
    Some ("https://objects.example/" +:+ operation) |}.
#[export] Instance sample_hosts : UrlHosts := {|
  bracketed_netloc_ok _ := false; netloc_normal _ := false; lowercase := ascii_lowercase |}.
Definition sample_adapter : StorageAdapter := LocalStorageAdapter "/srv/objects".
Definition sample_base_url : string := "https://manager.example".

Definition sample_handle : request → M () :=
  handle sample_settings sample_storage (λ _ _ _, None) no_samples
    sample_adapter sample_base_url.
Definition sample_reachable : DB → Prop :=
  reachable sample_settings sample_storage (λ _ _ _, None) no_samples
    sample_adapter sample_base_url.
Definition sample_step : DB → DB → Prop :=
  system_step sample_settings sample_storage (λ _ _ _, None) no_samples
    sample_adapter sample_base_url.

(** A request at time [now] with nothing interleaved. *)
Definition after_request (r : request) (now : Z) (d : DB) : DB :=
  after (sample_handle r) (new_session d now).

Lemma new_session_starts d now : starts d (new_session d now).
Proof. done. Qed.

Lemma request_step r now d : sample_step d (after_request r now d).
Proof.
  exists 1%nat. right. exists r, d, (new_session d now). split; [apply new_session_starts|].
  split; [constructor|by left].
Qed.

(** A dataset and an Experiment on it, which other parts have added; then the first
    administrator is created and creates a Job, a Worker registers and claims it. *)
Definition installed_db : DB :=
  owned (empty_DB <| datasets := {["ds-1" := sample_dataset]} |>
                  <| dataset_uploads := {["up-1" := sample_upload]} |>).
Definition claim_request : request := NextJob (Some ("bearer", "rvcw_secret-0")).
Definition administered_db : DB := Eval vm_compute in
  after_request (EnsureAdmin "Admin@Example.com" admin_password) ten_minutes installed_db.
Definition requested_db : DB := Eval vm_compute in
  after_request (CreateJob sample_config admin_bearer) ten_minutes administered_db.
Definition new_job : string := "00000000-0000-4000-8000-000000000000".
Definition new_lease : string := "00000000-0000-4000-8000-000000000001".
Definition enrolled_db : DB := Eval vm_compute in
  after_request (RegisterWorker (mkWorkerRegisterRequest "worker-1" sample_capabilities)
                   (Some "bootstrap")) ten_minutes requested_db.
Definition claimed_db : DB := Eval vm_compute in
  after_request claim_request ten_minutes enrolled_db.

Lemma installed_step : sample_step empty_DB installed_db.
Proof. by exists 0%nat. Qed.

Lemma computed_step r d d' : after_request r ten_minutes d = d' → sample_step d d'.
Proof. intros <-. apply request_step. Qed.

Lemma administered_step : sample_step installed_db administered_db.
Proof.
  apply (computed_step (EnsureAdmin "Admin@Example.com" admin_password)). vm_compute. reflexivity.
Qed.
Lemma requested_step : sample_step administered_db requested_db.
Proof. apply (computed_step (CreateJob sample_config admin_bearer)). vm_compute. reflexivity. Qed.
Lemma enrolled_step : sample_step requested_db enrolled_db.
Proof.
  apply (computed_step (RegisterWorker (mkWorkerRegisterRequest "worker-1" sample_capabilities)
    (Some "bootstrap"))). vm_compute. reflexivity.
Qed.
Lemma claimed_step : sample_step enrolled_db claimed_db.
Proof. apply (computed_step claim_request). vm_compute. reflexivity. Qed.

Lemma requested_reachable : sample_reachable requested_db.
Proof.
  eapply rtc_l; [exact installed_step|]. eapply rtc_l; [exact administered_step|].
  apply rtc_once. exact requested_step.
Qed.
Lemma enrolled_reachable : sample_reachable enrolled_db.
Proof. eapply rtc_r; [exact requested_reachable|exact enrolled_step]. Qed.
Lemma claimed_reachable : sample_reachable claimed_db.
Proof. eapply rtc_r; [exact enrolled_reachable|exact claimed_step]. Qed.

Lemma claimed_lease :
  ∃ l, leases claimed_db !! new_lease = Some l ∧ l_active l = true ∧ l_job_id l = new_job.
Proof.
  assert (is_some (l ← leases claimed_db !! new_lease;
                   guard (l_active l = true ∧ l_job_id l = new_job);; Some l) = true) as Hl
    by (vm_compute; reflexivity).
  destruct (leases claimed_db !! new_lease) as [l|]; [|discriminate Hl]. exists l. simpl in Hl.
  case_guard as Hg; [|discriminate Hl]. by destruct Hg.
Qed.

Lemma reachable_is_consistent_witness :
  ∃ l job attempt worker, l_job_id l = new_job ∧
    assigned (workers claimed_db) (jobs claimed_db) (attempts claimed_db) l job attempt worker.
Proof.
  destruct claimed_lease as (l & Hl & Ha & Hj).
  destruct (reachable_is_consistent sample_settings sample_storage (λ _ _ _, None) no_samples
    sample_adapter sample_base_url
    claimed_db claimed_reachable) as (Hassigned & _).
  destruct (Hassigned _ _ Hl Ha) as (job & attempt & worker & Has).
  exists l, job, attempt, worker. split; [exact Hj|exact Has].
Defined.

(** The administrator cancels the Job before the claim has locked anything. *)
Definition cancels_first : interference := λ locks x,
  if decide (locks = ∅) then after_request (CancelJob new_job admin_bearer) ten_minutes x else x.

Definition contended_claim : Session :=
  (new_session enrolled_db ten_minutes) <| s_env := [cancels_first] |>.

Lemma contended_claim_step : sample_step enrolled_db (after (sample_handle claim_request) contended_claim).
Proof.
  exists 2%nat. right. exists claim_request, enrolled_db, contended_claim.
  split; [done|]. split; [|by left].
  constructor; [|constructor]. unfold cancels_first. split.
  - intros locks x k Hk. destruct (decide (locks = ∅)) as [->|]; [set_solver|by destruct k].
  - intros locks x. destruct (decide (locks = ∅)); [|constructor]. apply rtc_once. right.
    exists (CancelJob new_job admin_bearer), x, (new_session x ten_minutes).
    split; [apply new_session_starts|]. split; [constructor|by left].
Qed.

Lemma system_refines_life_cycle_witness :
  known_statuses enrolled_db ∧
  rtc life_step (life_of enrolled_db) (life_of (after (sample_handle claim_request) contended_claim)) ∧
  life_of (after (sample_handle claim_request) contended_claim) !! new_job = Some CANCELLED.
Proof.
  destruct (system_refines_life_cycle sample_settings sample_storage (λ _ _ _, None) no_samples
    sample_adapter sample_base_url
    enrolled_db enrolled_reachable) as (Hknown & _ & Hstep).
  split; [exact Hknown|]. split; [exact (Hstep _ contended_claim_step)|].
  vm_compute. reflexivity.
Defined.

Lemma history_is_append_only_witness :
  ∃ job job', jobs requested_db !! new_job = Some job ∧ jobs claimed_db !! new_job = Some job' ∧
    j_config_json job' = j_config_json job.
Proof.
  assert (∃ job, jobs requested_db !! new_job = Some job) as [job Hjob]
    by (apply present; vm_compute; reflexivity).
  assert (rtc sample_step requested_db claimed_db) as Hrun
    by (eapply rtc_l; [exact enrolled_step|]; apply rtc_once; exact claimed_step).
  destruct (history_is_append_only sample_settings sample_storage (λ _ _ _, None) no_samples
    sample_adapter sample_base_url
    requested_db claimed_db requested_reachable Hrun) as (Hjobs & _).
  destruct (Hjobs _ _ Hjob) as (job' & Hjob' & Hframe & _).
  exists job, job'. split; [exact Hjob|]. split; [exact Hjob'|]. by injection Hframe.
Defined.

(** The administrator creates a second one; each of them then demotes the other. *)
Definition second_password : string := "a passphrase of another".
Definition create_second : request :=
  CreateUser "second@example.com" second_password RoleAdmin true "key-1" admin_bearer.
Definition create_session : Session := (new_session administered_db ten_minutes) <| s_fresh := 2%nat |>.
Definition crowded_db : DB := Eval vm_compute in after (sample_handle create_second) create_session.
Definition second_id : string := "00000000-0000-4000-8000-000000000003".
Definition second_bearer : option (string * string) := Some ("bearer", sample_jwt_encode
  (token_payload sample_settings (mkAccessTokenClaims second_id second_id ten_minutes
     (ten_minutes + 900 * 1000000) 1)) (jwt_secret sample_settings)).

Definition demotion : AdminUserAccessUpdate := mkAdminUserAccessUpdate 1 RoleUser true.
Definition demote_first : request := UpdateUserAccess admin_id demotion "key-2" second_bearer.
Definition demote_second : request := UpdateUserAccess second_id demotion "key-2" admin_bearer.

(** The first administrator is demoted after its own request has been authenticated and
    before that request has taken the fence. *)
Definition demotes_first : interference := λ locks x,
  if decide (locks = ∅) then after_request demote_first ten_minutes x else x.
Definition unchanged : interference := λ _ x, x.
Definition duel_session : Session :=
  (new_session crowded_db ten_minutes)
    <| s_env := [unchanged; unchanged; unchanged; demotes_first] |>.
Definition duel_run : result () * DB := Eval vm_compute in
  run_result (sample_handle demote_second) duel_session.

Lemma create_session_eq : after (sample_handle create_second) create_session = crowded_db.
Proof. vm_cast_no_check (eq_refl crowded_db). Qed.
Lemma duel_run_eq : run_result (sample_handle demote_second) duel_session = duel_run.
Proof. vm_cast_no_check (eq_refl duel_run). Qed.

Lemma crowded_step : sample_step administered_db crowded_db.
Proof.
  rewrite <-create_session_eq. exists 1%nat. right.
  exists create_second, administered_db, create_session.
  split; [done|]. split; [constructor|by left].
Qed.

Lemma crowded_reachable : sample_reachable crowded_db.
Proof.
  eapply rtc_l; [exact installed_step|]. eapply rtc_l; [exact administered_step|].
  apply rtc_once. exact crowded_step.
Qed.

Lemma duel_step : sample_step crowded_db duel_run.2.
Proof.
  rewrite <-(run_after _ _ _ duel_run_eq). exists 2%nat. right.
  exists demote_second, crowded_db, duel_session. split; [done|]. split; [|by left].
  assert (respects_locks unchanged ∧ ∀ (L : gset lock) (x : DB),
    rtc (transaction sample_settings sample_storage (λ _ _ _, None) no_samples
    sample_adapter sample_base_url 1) x (unchanged L x)) as Hid.
  { split; [by intros locks x []|constructor]. }
  do 3 (constructor; [exact Hid|]). constructor; [|constructor]. unfold demotes_first. split.
  - intros locks x k Hk. destruct (decide (locks = ∅)) as [->|]; [set_solver|by destruct k].
  - intros locks x. destruct (decide (locks = ∅)); [|constructor]. apply rtc_once. right.
    exists demote_first, x, (new_session x ten_minutes).
    split; [apply new_session_starts|]. split; [constructor|by left].
Qed.

Lemma duel_refused : duel_run.1 = Raise (HTTPException 403 "administrator role required").
Proof. reflexivity. Qed.

Lemma crowded_has_admin : has_admin crowded_db.
Proof. exists admin_id. eexists. split; [vm_compute; reflexivity|reflexivity]. Qed.

Lemma administrator_remains_witness :
  has_admin duel_run.2 ∧ ∃ u, users duel_run.2 !! admin_id = Some u ∧ u_access_token_version u = 2.
Proof.
  destruct (administrator_remains sample_settings sample_storage (λ _ _ _, None) no_samples
    sample_adapter sample_base_url
    crowded_db duel_run.2 crowded_reachable (rtc_once _ _ duel_step) crowded_has_admin) as [Hadmin _].
  split; [exact Hadmin|]. eexists. split; [vm_compute; reflexivity|reflexivity].
Defined.

Lemma accounts_are_well_typed_witness :
  ∃ u, users crowded_db !! second_id = Some u ∧ u_id u = second_id ∧ 1 <= u_access_token_version u.
Proof.
  assert (∃ u, users crowded_db !! second_id = Some u) as [u Hu]
    by (apply present; vm_compute; reflexivity).
  destruct (accounts_are_well_typed sample_settings sample_storage (λ _ _ _, None) no_samples
    sample_adapter sample_base_url
    crowded_db crowded_reachable) as (Htyped & _).
  destruct (Htyped _ _ Hu) as (Hid & _ & _ & Hver). exists u.
  split; [exact Hu|]. split; [exact Hid|exact Hver].
Defined.

(** The token of the first administrator, before and after it was demoted. *)
Definition first_auth_run : result UserAuthContext * DB := Eval vm_compute in
  run_result (require_user_auth sample_settings admin_bearer) (new_session crowded_db ten_minutes).
Lemma first_auth_run_eq :
  run_result (require_user_auth sample_settings admin_bearer) (new_session crowded_db ten_minutes) =
    first_auth_run.
Proof. vm_cast_no_check (eq_refl first_auth_run). Qed.

Lemma first_auth_ok : ∃ auth,
  outcome (require_user_auth sample_settings admin_bearer) (new_session crowded_db ten_minutes) =
    Ok auth ∧ u_id (au_user auth) = admin_id ∧ u_access_token_version (au_user auth) = 1.
Proof. rewrite (run_outcome _ _ _ first_auth_run_eq). eexists. split; [reflexivity|split; reflexivity]. Qed.

Lemma new_system_session d now :
  system_session sample_settings sample_storage (λ _ _ _, None) no_samples sample_adapter
    sample_base_url d (new_session d now).
Proof. split; [apply new_session_starts|constructor]. Qed.

Lemma demoted_row : ∃ u, users duel_run.2 !! admin_id = Some u ∧ u_access_token_version u = 2.
Proof. eexists. split; [vm_compute; reflexivity|reflexivity]. Qed.

Lemma authority_change_invalidates_tokens_witness :
  ¬ ∃ auth2, outcome (require_user_auth sample_settings admin_bearer)
               (new_session duel_run.2 (2 * ten_minutes)) = Ok auth2.
Proof.
  intros [auth2 Hauth2]. destruct first_auth_ok as (auth & Hauth & Hid & Hver).
  destruct demoted_row as (u & Hu & Hver2).
  refine (authority_change_invalidates_tokens sample_settings sample_storage (λ _ _ _, None)
    no_samples sample_adapter sample_base_url admin_bearer crowded_db
    (new_session crowded_db ten_minutes) auth duel_run.2 u
    (new_session duel_run.2 (2 * ten_minutes)) sample_jwt_laws crowded_reachable
    (new_system_session _ _) Hauth _ _ _ (new_system_session _ _) auth2 Hauth2).
  - rewrite (run_after _ _ _ first_auth_run_eq). exact (rtc_once _ _ duel_step).
  - rewrite Hid. exact Hu.
  - right. rewrite Hver, Hver2. discriminate.
Defined.
