(* ===== verification/ArtifactProperties.v ===== *)
(** * Properties of artifact uploads

    What the invariant of artifacts gives for the system, and what a finalisation and a
    download answer, with a run of the system that uploads, finalises and downloads an
    artifact. *)

From S2P Require Import Prelude Sha256 Json JobConfig WorkerContract Settings ObjectKeys Ledger.
From S2P Require Import Evolution Session Storage ArtifactService ArtifactCleanup Wp LeaseService.
From S2P Require Import WorkerRoutes TelemetryIngest JobApi LogReads LedgerInvariant Fixtures.
From S2P Require Import Redaction PyText Accounts UserAdmin AccountsCorrect AccountsProperties JobApiCorrect.
From S2P Require Import TelemetryCorrect LogReadsCorrect ArtifactRoutes ArtifactFinalize ArtifactLaws.
From S2P Require Import StatusUpdateCorrect ArtifactsCorrect System.

(** ** Completed uploads *)

Section properties.
  Context {CP : ContractParser} {WP : CapabilitiesParser} {RD : LogTextRedactor} {PF : Platform}
    {UT : UnicodeTables} {PH : PasswordHasher} {JW : JwtLibrary} {S3 : S3Client} {UH : UrlHosts}.
  Variable settings : Settings.
  Variable storage : ClaimStoragePort.
  Variable create_download_url : string → string → Z → option (option string).
  Variable samples_verified : Job → JobConfig → string → string → DB → option bool.
  Variable adapter : StorageAdapter.
  Variable base_url : string.
  Notation reachable :=
    (reachable settings storage create_download_url samples_verified adapter base_url).
  Notation system_step :=
    (system_step settings storage create_download_url samples_verified adapter base_url).

(** A completed upload stays so, with its artifact and its verified copy. *)
Lemma completed_upload_stays c d k u :
  Sound c → Sound d → evolves c d → artifact_uploads c !! k = Some u → au_status u = "completed" →
  ∃ artifact content,
    au_artifact_id u = Some (ar_id artifact) ∧ registered u artifact ∧
    artifact_rows d !! ar_id artifact = Some artifact ∧ verified u content ∧
    objects d !! au_canonical_object_key u = Some content ∧
    objects c !! au_canonical_object_key u = Some content ∧ completed_as d k artifact.
Proof using CP PF.
  intros HC HD Hev Hu Hs. destruct HC as [HI HA]. pose proof HA as [_ _ _ _ V W].
  destruct (V _ _ Hu Hs) as [(id & artifact & Ha & Hr & Hreg) (content & Ho & Hv)].
  exists artifact, content. pose proof (W _ _ Hr) as Hid. rewrite Hid.
  assert (completed_as c k artifact) as Hc by (exists u; split_and!; congruence).
  assert (completed_as d k artifact) as Hd by (eapply (completed_as_later Sound); [by split|done|done]).
  destruct (ev_artifacts _ _ Hev HA) as [_ _ HR HO]. split_and!; try done; [by eapply lookup_weaken|].
  destruct (HO _ _ Hu _ Ho) as [|(v & Hv2 & Hf)]; [done|]. exfalso.
  destruct Hd as (v' & Hv' & Hs' & _). simplify_eq. unfold upload_failed in Hf. by rewrite Hs' in Hf.
Qed.

Lemma completed_iff_artifact u :
  upload_ok u = true → (au_status u = "completed" ↔ is_Some (au_artifact_id u)).
Proof using Type.
  unfold upload_ok. rewrite !andb_true_iff. intros (((_ & Ha) & _) & _).
  apply Bool.eqb_prop in Ha. rewrite <-(bool_decide_eq_true (au_status u = "completed")), <-Ha.
  rewrite is_some_true. done.
Qed.

(** C38: what was registered stays verifiable. In any run of the system from a reachable
    database, an upload is completed exactly when it names an artifact; the artifact of a
    completed upload has the columns of the upload, the store holds under its canonical key an object of exactly the recorded
    size and SHA-256, and at every later time the upload is still completed, with the
    same artifact and the same bytes; no two uploads share a canonical key. *)
Theorem completed_uploads_are_verified c d :
  reachable c → rtc system_step c d →
  (∀ k u, artifact_uploads c !! k = Some u →
     (au_status u = "completed" ↔ is_Some (au_artifact_id u))) ∧
  (∀ k u, artifact_uploads c !! k = Some u → au_status u = "completed" →
     ∃ artifact content,
       au_artifact_id u = Some (ar_id artifact) ∧ registered u artifact ∧
       Z.of_nat (String.length content) = ar_size_bytes artifact ∧
       sha256_hex content = ar_sha256 artifact ∧
       objects c !! au_canonical_object_key u = Some content ∧
       objects d !! au_canonical_object_key u = Some content ∧ completed_as d k artifact) ∧
  (∀ k1 u1 k2 u2, artifact_uploads c !! k1 = Some u1 → artifact_uploads c !! k2 = Some u2 →
     au_canonical_object_key u1 = au_canonical_object_key u2 → k1 = k2).
Proof.
  intros Hr Hrun. pose proof (reachable_Sound _ _ _ _ _ _ _ Hr) as HS.
  destruct (rtc_stable _ (system_step_sound _ _ _ _ _ _) _ _ HS Hrun) as [HD Hev].
  split_and!; [|clear -Hr HS HD Hev|apply HS].
  { intros k u Hu. by apply completed_iff_artifact, (ui_shape _ (proj2 HS) _ _ Hu). }
  intros k u Hu Hs.
  destruct (completed_upload_stays _ _ _ _ HS HD Hev Hu Hs)
    as (artifact & content & Ha & Hreg & Hrow & [Hsize Hsha] & Hd & Hc & Hcomp).
  exists artifact, content. pose proof Hreg as [=]. split_and!; congruence.
Qed.

(** ** Answers *)

(** C39: an answered finalisation has verified the bytes it registered. Whatever else is
    interleaved and however the object store behaves, when [finalize_artifact_upload]
    answers an artifact, the upload is completed with it, the row is stored, and the
    canonical object has the size and the SHA-256 that the Worker announced. *)
Theorem finalize_answers_verified_artifact s job_id upload_id p worker_id artifact :
  fresh_session Sound s →
  outcome (finalize_artifact_upload settings adapter job_id upload_id p worker_id) s = Ok artifact →
  let d := after (finalize_artifact_upload settings adapter job_id upload_id p worker_id) s in
  ∃ upload content,
    artifact_uploads d !! upload_id = Some upload ∧ au_status upload = "completed" ∧
    au_artifact_id upload = Some (ar_id artifact) ∧ registered upload artifact ∧
    artifact_rows d !! ar_id artifact = Some artifact ∧
    objects d !! au_canonical_object_key upload = Some content ∧
    Z.of_nat (String.length content) = au_expected_size_bytes upload ∧
    sha256_hex content = au_expected_sha256 upload.
Proof.
  intros Hs%fresh_clean%clean_St Hok.
  assert (wp (finalize_artifact_upload settings adapter job_id upload_id p worker_id)
    (λ r s', ∀ a, r = Ok a → Sound (s_committed s') ∧ completed_as (s_committed s') upload_id a) s) as Hwp.
  { eapply (ends_finalize settings adapter Sound); [exact Hs| |done].
    intros a c' L' t' i' s' _ Hc Hst' b [= <-]. destruct Hst'. subst. by split. }
  destruct (Hwp _ Hok) as [[HI HA] (u & Hu & Hst & Ha & Hr)].
  pose proof HA as [_ _ _ _ V _].
  destruct (V _ _ Hu Hst) as [(id & a & Hid & Hra & Hreg) (content & Ho & [Hsize Hsha])].
  exists u, content. split_and!; try done. congruence.
Qed.

(** C40: a download streams the verified bytes. When [download_artifact] answers a stream,
    the object it names holds bytes with the size and the SHA-256 of the artifact that was
    asked for, the announced length is theirs, and whenever the object is read later - after
    any change of the ledger and the store by other requests - the bounded stream ends
    without an error and yields exactly these bytes. *)
Theorem download_streams_verified_bytes s artifact_id user key chunk_size max_bytes media disposition
    content_length :
  Settings_valid settings = true → fresh_session Sound s →
  outcome (download_artifact settings adapter base_url artifact_id user) s =
    Ok (StreamingResponse key chunk_size max_bytes media disposition content_length) →
  let d := after (download_artifact settings adapter base_url artifact_id user) s in
  ∃ artifact content, artifact_rows d !! artifact_id = Some artifact ∧
    sha256_hex content = ar_sha256 artifact ∧
    Z.of_nat (String.length content) = ar_size_bytes artifact ∧ content_length = ar_size_bytes artifact ∧
    ∀ e, Sound e → evolves d e →
      objects e !! key = Some content ∧
      ∃ chunks, stream_chunks (S (String.length content)) (Z.to_nat chunk_size) max_bytes 0 content =
                  (chunks, false) ∧ String.concat "" chunks = content.
Proof using Type CP PF.
  intros Hvalid Hs%fresh_clean%clean_St Hok.
  set (m := download_artifact settings adapter base_url artifact_id user) in *. intros d.
  assert (wp m (λ r s', ∀ a, r = Ok a →
    Sound (s_committed s') ∧ streams_artifact settings (s_committed s') artifact_id a) s) as Hwp.
  { eapply (ends_download settings adapter base_url Sound); [exact Hs| |done].
    intros a c' L' t' i' s' _ Hc Hst' b [= <-]. destruct Hst'. subst. by split. }
  destruct (Hwp _ Hok) as [HS (k & u & artifact & Hu & Hcomp & Hid & -> & -> & -> & ->)].
  change (s_committed (m s).2) with d in *. destruct Hcomp as (u2 & Hu2 & Hst & Ha & Hr). simplify_eq.
  destruct (completed_upload_stays d d _ _ HS HS ltac:(reflexivity) Hu Hst)
    as (a2 & content & Ha2 & Hreg & Hr2 & [Hsize Hsha] & Ho & _).
  assert (a2 = artifact) as -> by congruence. pose proof Hreg as [=].
  exists artifact, content. split; [done|]. do 3 (split; [congruence|]). intros e He Hev.
  destruct (completed_upload_stays d e _ _ HS He Hev Hu Hst)
    as (a3 & content3 & _ & _ & _ & _ & Ho3 & Hd3 & _). split; [congruence|].
  assert (0 < artifact_stream_chunk_bytes settings) as Hpos.
  { unfold Settings_valid in Hvalid. bools. lia. }
  destruct (Z.to_nat (artifact_stream_chunk_bytes settings)) as [|n] eqn:Hn; [lia|].
  destruct (stream_chunks_ends (S (String.length content)) n (ar_size_bytes artifact) 0 content)
    as [chunks Hchunks]; [lia|lia|]. exists chunks. split; [done|].
  eapply stream_chunks_whole; [exact Hchunks|lia].
Qed.
End properties.

(** ** A run of the system *)

#[local] Existing Instances sample_parser sample_capabilities_parser sample_redactor.
#[local] Existing Instances uuid_platform sample_tables sample_hasher sample_jwt.

Definition index_bytes : string := "index bytes".
Definition init_payload : ArtifactUploadInitRequest := Eval vm_compute in
  mkArtifactUploadInitRequest new_lease new_job "upload-key-1" FINAL_INDEX "voice.index"
    "application/octet-stream" 11 (sha256_hex index_bytes) (JObject [("epoch", JInt 20)]).
Definition worker_bearer : option (string * string) := Some ("bearer", "rvcw_secret-0").
Definition init_request : request := InitializeArtifactUpload new_job init_payload worker_bearer.
Definition pending_db : DB := Eval vm_compute in after_request init_request ten_minutes claimed_db.

(** The body is sent in two chunks, with the token of the signed target. *)
Definition upload_token : string := Eval vm_compute in
  local_upload_token sample_settings new_job (ten_minutes + 301 * 1000000).
Definition upload_request : request :=
  LocalPresignedUpload new_job (Some upload_token) (Some "11") (Some "Application/octet-stream")
    ["index "; "bytes"].
Definition sealed_db : DB := Eval vm_compute in after_request upload_request ten_minutes pending_db.

Definition finalize_payload : ArtifactUploadFinalizeRequest :=
  mkArtifactUploadFinalizeRequest new_lease new_job.
Definition finalize_request : request := FinalizeArtifactUpload new_job new_job finalize_payload worker_bearer.
Definition completed_db : DB := Eval vm_compute in after_request finalize_request ten_minutes sealed_db.

Definition owner : User := Eval vm_compute in
  default (mkUser "" 0 "" "" "" true 0 0 0) (users completed_db !! admin_id).
Definition artifact_id : string := "00000000-0000-4000-8000-000000000001".
Definition download_handler : M Download :=
  download_artifact sample_settings sample_adapter sample_base_url artifact_id owner.
Definition finalize_handler : M Artifact :=
  finalize_artifact_upload sample_settings sample_adapter new_job new_job finalize_payload new_lease.

Definition finalize_run : result Artifact * DB := Eval vm_compute in
  run_result finalize_handler (new_session sealed_db ten_minutes).
Definition download_run : result Download * DB := Eval vm_compute in
  run_result download_handler (new_session completed_db ten_minutes).

Lemma finalize_run_eq : run_result finalize_handler (new_session sealed_db ten_minutes) = finalize_run.
Proof. vm_cast_no_check (eq_refl finalize_run). Qed.
Lemma download_run_eq : run_result download_handler (new_session completed_db ten_minutes) = download_run.
Proof. vm_cast_no_check (eq_refl download_run). Qed.

Lemma pending_step : sample_step claimed_db pending_db.
Proof. apply (computed_step init_request). vm_compute. reflexivity. Qed.
Lemma sealed_step : sample_step pending_db sealed_db.
Proof. apply (computed_step upload_request). vm_compute. reflexivity. Qed.
Lemma completed_step : sample_step sealed_db completed_db.
Proof. apply (computed_step finalize_request). vm_compute. reflexivity. Qed.

Lemma sealed_reachable : sample_reachable sealed_db.
Proof.
  eapply rtc_r; [|exact sealed_step]. eapply rtc_r; [exact claimed_reachable|exact pending_step].
Qed.
Lemma completed_reachable : sample_reachable completed_db.
Proof. eapply rtc_r; [exact sealed_reachable|exact completed_step]. Qed.

Lemma reachable_session d : sample_reachable d → fresh_session Sound (new_session d ten_minutes).
Proof. intros Hr. apply new_session_fresh. by eapply reachable_Sound. Qed.

Lemma completed_uploads_are_verified_witness :
  ∃ u artifact content, artifact_uploads completed_db !! new_job = Some u ∧ registered u artifact ∧
    objects completed_db !! au_canonical_object_key u = Some content ∧
    sha256_hex content = ar_sha256 artifact.
Proof.
  assert (∃ u, artifact_uploads completed_db !! new_job = Some u) as [u Hu]
    by (apply present; vm_compute; reflexivity).
  assert (au_status u = "completed") as Hs.
  { assert (au_status <$> artifact_uploads completed_db !! new_job = Some "completed") as Hc
      by (vm_compute; reflexivity).
    rewrite Hu in Hc. by injection Hc. }
  destruct (completed_uploads_are_verified sample_settings sample_storage (λ _ _ _, None) no_samples
    sample_adapter sample_base_url completed_db completed_db completed_reachable
    (rtc_refl _ _)) as (_ & Hverified & _).
  destruct (Hverified _ _ Hu Hs) as (artifact & content & _ & Hreg & _ & Hsha & Ho & _).
  exists u, artifact, content. split; [exact Hu|]. split; [exact Hreg|]. split; [exact Ho|exact Hsha].
Defined.

Lemma finalize_answers_verified_artifact_witness :
  ∃ artifact upload content, finalize_run.1 = Ok artifact ∧
    artifact_uploads finalize_run.2 !! new_job = Some upload ∧
    objects finalize_run.2 !! au_canonical_object_key upload = Some content ∧
    sha256_hex content = au_expected_sha256 upload.
Proof.
  destruct (ok_present finalize_run.1) as [artifact Hok]; [vm_compute; reflexivity|].
  pose proof (run_outcome _ _ _ finalize_run_eq) as Hout. rewrite Hok in Hout.
  pose proof (run_after _ _ _ finalize_run_eq) as Hafter.
  destruct (finalize_answers_verified_artifact sample_settings sample_adapter _ new_job new_job
    finalize_payload new_lease artifact (reachable_session _ sealed_reachable) Hout)
    as (upload & content & Hu & _ & _ & _ & _ & Ho & _ & Hsha).
  unfold finalize_handler in Hafter. rewrite Hafter in Hu, Ho.
  exists artifact, upload, content. split; [exact Hok|]. split; [exact Hu|]. split; [exact Ho|exact Hsha].
Defined.

Lemma download_streams_verified_bytes_witness :
  ∃ artifact content chunks, artifact_rows download_run.2 !! artifact_id = Some artifact ∧
    sha256_hex content = ar_sha256 artifact ∧ String.concat "" chunks = content ∧
    stream_chunks (S (String.length content)) (Z.to_nat 1048576) 11 0 content = (chunks, false).
Proof.
  pose proof (run_outcome _ _ _ download_run_eq) as Hout.
  pose proof (run_after _ _ _ download_run_eq) as Hafter.
  destruct (download_streams_verified_bytes sample_settings sample_adapter sample_base_url _ artifact_id
    owner _ 1048576 11 _ _ 11 eq_refl (reachable_session _ completed_reachable) Hout)
    as (artifact & content & Hrow & Hsha & _ & _ & Hlater).
  unfold download_handler in Hafter. rewrite Hafter in Hrow, Hlater.
  assert (Sound download_run.2) as HS.
  { rewrite <-Hafter.
    apply (download_artifact_preserves sample_settings sample_adapter sample_base_url Sound),
      fresh_clean, reachable_session, completed_reachable. }
  destruct (Hlater _ HS ltac:(reflexivity)) as [_ (chunks & Hchunks & Hconcat)].
  exists artifact, content, chunks. split; [exact Hrow|]. split; [exact Hsha|]. split; [exact Hconcat|].
  exact Hchunks.
Defined.
